(** * Proton-XR: the prefix provisioning and upgrade engine of [proton.py]

    A shallow embedding of the parts of [proton.py] that create, upgrade and
    synchronise a per-application Wine prefix ([CompatData]) from the shared
    template ([Proton.default_pfx_dir]), together with the properties of the
    specification that concern them.

    Conventions of the embedding.
    - A Python [str] or [bytes] value is a [string]; a character is a code
      point below 256.
    - The file system is a tree of directories whose leaves are regular
      files and symbolic links.  Paths are physical: every proper ancestor of
      a path has to be a real directory (a path that runs through a symbolic
      link or a regular file fails with [ENOTDIR]); a symbolic link is
      followed only as the last component of a path, its target being
      resolved lexically against the directory that holds the link, at most
      [MAXSYMLINKS] times.  Relative paths are taken from the root.
    - The process owns every file: the only permission failure is opening a
      file that lacks the owner read bit ([EACCES]).
    - Python code runs in the monad [M]: a state monad over [world] (file
      system, clock, standard error, the buffer of the one open text stream
      and the trace of file-system effects) with exceptions. *)

From stdpp Require Import base tactics option list strings gmap.
From Stdlib Require Import ZArith Lia Ascii.
Open Scope string_scope.
Open Scope list_scope.
Open Scope Z_scope.

(** ** Python strings *)

Module Py.

Definition len (s : string) : Z := Z.of_nat (String.length s).

Definition startswith (s p : string) : bool := String.prefix p s.

Fixpoint drop (n : nat) (s : string) : string :=
  match n, s with
  | O, _ => s
  | S k, String _ r => drop k r
  | S _, EmptyString => EmptyString
  end.

Fixpoint take (n : nat) (s : string) : string :=
  match n, s with
  | O, _ => EmptyString
  | S k, String c r => String c (take k r)
  | S _, EmptyString => EmptyString
  end.

Definition endswith (s p : string) : bool :=
  (String.length p <=? String.length s)%nat
  && String.eqb (drop (String.length s - String.length p) s) p.

(** [sub in s] *)
Fixpoint contains (sub s : string) : bool :=
  String.prefix sub s
  || match s with
     | EmptyString => false
     | String _ r => contains sub r
     end.

(** [s.find(sub)], [-1] when [sub] does not occur *)
Fixpoint find_from (i : Z) (sub s : string) : Z :=
  if String.prefix sub s then i
  else match s with
       | EmptyString => -1
       | String _ r => find_from (i + 1) sub r
       end.

Definition find (s sub : string) : Z := find_from 0 sub s.

(** [s[:i]] for an index that may be negative *)
Definition slice_to (s : string) (i : Z) : string :=
  if i <? 0 then take (Z.to_nat (len s + i)) s else take (Z.to_nat i) s.

(** [s.replace(old, new, 1)] *)
Fixpoint replace1 (old new s : string) : string :=
  if String.prefix old s then new +:+ drop (String.length old) s
  else match s with
       | EmptyString => EmptyString
       | String c r => String c (replace1 old new r)
       end.

(** [s.replace(old, new)] for a non-empty [old]; the fuel is the length of
    [s], which bounds the number of characters still to be scanned. *)
Fixpoint replace_fuel (fuel : nat) (old new s : string) : string :=
  match fuel with
  | O => s
  | S k =>
      match s with
      | EmptyString => EmptyString
      | String c r =>
          if String.prefix old s
          then new +:+ replace_fuel (k - (String.length old - 1)) old new
                         (drop (String.length old) s)
          else String c (replace_fuel k old new r)
      end
  end.

Definition replace (s old new : string) : string :=
  match old with
  | EmptyString => s
  | _ => replace_fuel (String.length s) old new s
  end.

(** [str.isspace] on one character: the ASCII white space, the four
    separators 0x1c-0x1f, NEL and the no-break space. *)
Definition isspace (c : ascii) : bool :=
  let n := nat_of_ascii c in
  ((9 <=? n) && (n <=? 13) || (28 <=? n) && (n <=? 32)
   || (n =? 133) || (n =? 160))%nat.

Fixpoint lstrip (s : string) : string :=
  match s with
  | String c r => if isspace c then lstrip r else s
  | EmptyString => EmptyString
  end.

Fixpoint rstrip (s : string) : string :=
  match s with
  | EmptyString => EmptyString
  | String c r =>
      match rstrip r with
      | EmptyString => if isspace c then EmptyString else String c EmptyString
      | r' => String c r'
      end
  end.

Definition strip (s : string) : string := rstrip (lstrip s).

(** [s.lstrip(ch)] and [s.rstrip(ch)] for a one-character argument *)
Fixpoint lstrip_char (ch : ascii) (s : string) : string :=
  match s with
  | String c r => if Ascii.eqb c ch then lstrip_char ch r else s
  | EmptyString => EmptyString
  end.

Fixpoint rstrip_char (ch : ascii) (s : string) : string :=
  match s with
  | EmptyString => EmptyString
  | String c r =>
      match rstrip_char ch r with
      | EmptyString => if Ascii.eqb c ch then EmptyString else String c EmptyString
      | r' => String c r'
      end
  end.

(** [s.split(sep)] for a one-character separator: never the empty list *)
Fixpoint split (sep : ascii) (s : string) : list string :=
  match s with
  | EmptyString => [EmptyString]
  | String c r =>
      if Ascii.eqb c sep then EmptyString :: split sep r
      else match split sep r with
           | h :: t => String c h :: t
           | [] => [String c EmptyString]
           end
  end.

(** [sep.join(l)] *)
Fixpoint join (sep : string) (l : list string) : string :=
  match l with
  | [] => EmptyString
  | [x] => x
  | x :: r => x +:+ sep +:+ join sep r
  end.

Definition str_bool (b : bool) : string := if b then "True" else "False".

(** Iterating over a text stream: the lines with their terminators, after
    the universal-newline translation of text mode (["\r\n"] and ["\r"]
    become ["\n"]). *)
Definition LF : ascii := ascii_of_nat 10.
Definition CR : ascii := ascii_of_nat 13.
Definition nl : string := String LF EmptyString.

Fixpoint lines_acc (cur : string) (s : string) : list string :=
  match s with
  | EmptyString => match cur with EmptyString => [] | _ => [cur] end
  | String c r =>
      if Ascii.eqb c LF then (cur +:+ nl) :: lines_acc EmptyString r
      else if Ascii.eqb c CR then
        match r with
        | String c' r' =>
            if Ascii.eqb c' LF then (cur +:+ nl) :: lines_acc EmptyString r'
            else (cur +:+ nl) :: lines_acc EmptyString r
        | EmptyString => [cur +:+ nl]
        end
      else lines_acc (cur +:+ String c EmptyString) r
  end.

Definition lines (s : string) : list string := lines_acc EmptyString s.

(** [f.readline()] on a freshly opened stream *)
Definition readline (s : string) : string :=
  match lines s with
  | l :: _ => l
  | [] => EmptyString
  end.

(** [int(s)]: surrounding white space, an optional sign, decimal digits with
    single underscores between them *)
Definition digit (c : ascii) : option Z :=
  let n := nat_of_ascii c in
  if ((48 <=? n) && (n <=? 57))%nat then Some (Z.of_nat n - 48) else None.

Fixpoint digits_acc (acc : Z) (after_digit : bool) (s : string) : option Z :=
  match s with
  | EmptyString => if after_digit then Some acc else None
  | String c r =>
      match digit c with
      | Some d => digits_acc (10 * acc + d) true r
      | None =>
          if Ascii.eqb c "_"%char && after_digit then digits_acc acc false r
          else None
      end
  end.

Definition int (s : string) : option Z :=
  match strip s with
  | String c r =>
      if Ascii.eqb c "-"%char then Z.opp <$> digits_acc 0 false r
      else if Ascii.eqb c "+"%char then digits_acc 0 false r
      else digits_acc 0 false (String c r)
  | EmptyString => None
  end.

(** ["{:x}".format(n)] for [0 <= n] *)
Definition hexdigit (d : Z) : ascii :=
  ascii_of_nat (Z.to_nat (if d <? 10 then 48 + d else 87 + d)).

Fixpoint hex_fuel (fuel : nat) (n : Z) (acc : string) : string :=
  match fuel with
  | O => acc
  | S k =>
      let acc' := String (hexdigit (n mod 16)) acc in
      if n / 16 =? 0 then acc' else hex_fuel k (n / 16) acc'
  end.

Definition hex (n : Z) : string := hex_fuel (S (Z.to_nat (Z.log2 n))) n EmptyString.

(** [str(n)] for an integer *)
Fixpoint dec_fuel (fuel : nat) (n : Z) (acc : string) : string :=
  match fuel with
  | O => acc
  | S k =>
      let acc' := String (hexdigit (n mod 10)) acc in
      if n / 10 =? 0 then acc' else dec_fuel k (n / 10) acc'
  end.

Definition str_int (n : Z) : string :=
  if n <? 0 then "-" +:+ dec_fuel (S (Z.to_nat (Z.log2 (- n)))) (- n) EmptyString
  else dec_fuel (S (Z.to_nat (Z.log2 n))) n EmptyString.

(** [fnmatch.fnmatch(name, pat)] on POSIX for patterns built from literal
    characters, [*] and [?]; a bracket is matched literally. *)
Fixpoint fnmatch_from (pat : string) : string -> bool :=
  match pat with
  | EmptyString => fun s => match s with EmptyString => true | _ => false end
  | String p pr =>
      if Ascii.eqb p "*"%char then
        fix star (s : string) : bool :=
          fnmatch_from pr s
          || match s with
             | EmptyString => false
             | String _ r => star r
             end
      else if Ascii.eqb p "?"%char then
        fun s => match s with
                 | EmptyString => false
                 | String _ r => fnmatch_from pr r
                 end
      else
        fun s => match s with
                 | EmptyString => false
                 | String c r => Ascii.eqb c p && fnmatch_from pr r
                 end
  end.

Definition fnmatch (name pat : string) : bool := fnmatch_from pat name.

End Py.

(** ** The file system *)

Definition path := list string.

#[local] Unset Elimination Schemes.
Inductive node :=
| File (data : string) (mode : Z) (mtime : Z)
| Link (target : string)
| Dir (entries : list (string * node)).
#[local] Set Elimination Schemes.

Definition is_leaf (n : node) : bool :=
  match n with Dir _ => false | _ => true end.

Definition is_dir (n : node) : bool :=
  match n with Dir _ => true | _ => false end.

(** *** Path names

    A path string is read left to right by a small automaton whose state is
    the stack of components met so far (innermost first) and the component
    being read.  Empty components and [.] are dropped, [..] pops. *)

Definition pstate := (list string * string)%type.

Definition push (c : string) (stk : list string) : list string :=
  if String.eqb c "" then stk
  else if String.eqb c "." then stk
  else if String.eqb c ".." then tail stk
  else c :: stk.

Definition feed1 (st : pstate) (ch : ascii) : pstate :=
  if Ascii.eqb ch "/"%char then (push st.2 st.1, "")
  else (st.1, st.2 +:+ String ch "").

Fixpoint feed (s : string) (st : pstate) : pstate :=
  match s with
  | EmptyString => st
  | String ch r => feed r (feed1 st ch)
  end.

Definition close (st : pstate) : path := rev (push st.2 st.1).

(** The physical path a path string names. *)
Definition parse (s : string) : path := close (feed s ([], "")).

(** The path a link target [t] names when the link lives in directory [d]
    (a stack, innermost first). *)
Definition parse_in (d : list string) (t : string) : path :=
  if Py.startswith t "/" then parse t else close (feed t (d, "")).

(** A name that a directory can hold. *)
Definition valid_name (c : string) : bool :=
  negb (String.eqb c "") && negb (String.eqb c ".") && negb (String.eqb c "..")
  && negb (Py.contains "/" c).

(** *** Lookup and update *)

Fixpoint assoc (c : string) (es : list (string * node)) : option node :=
  match es with
  | [] => None
  | (k, v) :: r => if String.eqb k c then Some v else assoc c r
  end.

Fixpoint find (p : path) (n : node) : option node :=
  match p with
  | [] => Some n
  | c :: p' =>
      match n with
      | Dir es => match assoc c es with
                  | Some ch => find p' ch
                  | None => None
                  end
      | _ => None
      end
  end.

Fixpoint replace_entry (c : string) (v : node) (es : list (string * node))
  : list (string * node) :=
  match es with
  | [] => [(c, v)]
  | (k, x) :: r => if String.eqb k c then (k, v) :: r else (k, x) :: replace_entry c v r
  end.

Fixpoint remove_entry (c : string) (es : list (string * node))
  : list (string * node) :=
  match es with
  | [] => []
  | (k, x) :: r => if String.eqb k c then remove_entry c r else (k, x) :: remove_entry c r
  end.

Definition set_entry (c : string) (v : option node) (es : list (string * node))
  : list (string * node) :=
  match v with
  | Some x => replace_entry c x es
  | None => remove_entry c es
  end.

(** [upd p f n]: the entry at [p] becomes [f] of what it was, provided the
    parent of [p] is a directory; otherwise nothing changes.  A new entry
    goes to the end of its directory. *)
Fixpoint upd (p : path) (f : option node -> option node) (n : node) : node :=
  match p with
  | [] => n
  | c :: p' =>
      match n with
      | Dir es =>
          match p' with
          | [] => Dir (set_entry c (f (assoc c es)) es)
          | _ :: _ =>
              match assoc c es with
              | Some ch => Dir (replace_entry c (upd p' f ch) es)
              | None => n
              end
          end
      | _ => n
      end
  end.

Definition put (p : path) (v : node) : node -> node := upd p (fun _ => Some v).
Definition del (p : path) : node -> node := upd p (fun _ => None).

(** Moving the subtree at [p1] to [p2]. *)
Definition move (p1 p2 : path) (n : node) : node :=
  match find p1 n with
  | Some x => put p2 x (del p1 n)
  | None => n
  end.

Definition parent (p : path) : path := removelast p.

(** *** [stat] and [lstat] *)

Definition MAXSYMLINKS : nat := 40.

Definition lstat (root : node) (s : string) : option node := find (parse s) root.

Fixpoint follow (fuel : nat) (root : node) (p : path) : option (path * option node) :=
  match find p root with
  | Some (Link t) =>
      match fuel with
      | O => None
      | S k => follow k root (parse_in (rev (parent p)) t)
      end
  | r => Some (p, r)
  end.

(** Where a path string leads after following links, and what is there;
    [None] when the chain of links is too long. *)
Definition resolve (root : node) (s : string) : option (path * option node) :=
  follow MAXSYMLINKS root (parse s).

Definition stat (root : node) (s : string) : option node :=
  match resolve root s with
  | Some (_, r) => r
  | None => None
  end.

(** Why a path cannot be created or reached: the first ancestor that is
    missing ([false]) or is not a directory ([true]). *)
Fixpoint blocked (p : path) (n : node) : option bool :=
  match p with
  | [] => None
  | c :: p' =>
      match n with
      | Dir es =>
          match p' with
          | [] => None
          | _ :: _ => match assoc c es with
                      | Some ch => blocked p' ch
                      | None => Some false
                      end
          end
      | _ => Some true
      end
  end.

(** *** [os.walk]

    [os.walk(top)] with its defaults: top-down, symbolic links to
    directories listed among the directories but not entered, errors of
    [scandir] ignored.  The walk is taken over the tree as it is when the
    loop starts: the loops of this program write to a tree other than the
    one they walk. *)

Definition path_join (a b : string) : string :=
  if Py.startswith b "/" then b
  else if String.eqb a "" || Py.endswith a "/" then a +:+ b
  else a +:+ "/" +:+ b.

Definition entry_is_dir (root : node) (here : list string) (e : string * node) : bool :=
  match e.2 with
  | Dir _ => true
  | File _ _ _ => false
  | Link t =>
      match follow (pred MAXSYMLINKS) root (parse_in here t) with
      | Some (_, Some (Dir _)) => true
      | _ => false
      end
  end.

Definition listing (es : list (string * node)) : list (string * node) :=
  filter (fun e => Is_true (valid_name e.1)) es.

Definition walk_item := (string * list string * list string)%type.

Fixpoint walk_node (root : node) (here : list string) (top : string) (n : node)
  : list walk_item :=
  match n with
  | Dir es =>
      let ls := listing es in
      (top,
       fst <$> filter (fun e => Is_true (entry_is_dir root here e)) ls,
       fst <$> filter (fun e => Is_true (negb (entry_is_dir root here e))) ls)
      :: (fix sub (l : list (string * node)) : list walk_item :=
            match l with
            | [] => []
            | (k, ch) :: r =>
                (if valid_name k
                 then walk_node root (k :: here) (path_join top k) ch
                 else [])
                ++ sub r
            end) es
  | _ => []
  end.

Definition os_walk (root : node) (top : string) : list walk_item :=
  match resolve root top with
  | Some (p, Some (Dir es)) => walk_node root (rev p) top (Dir es)
  | _ => []
  end.

(** ** The monad of Python code *)

Inductive errno :=
| ENOENT | EEXIST | ENOTDIR | EISDIR | ENOTEMPTY | EACCES | EPERM | ELOOP | EINVAL
| ESAMEFILE.

Inductive exn :=
| OSError (e : errno)
| ValueError
| KeyError.

(** File-system effects, in the order in which they reach the disk, and the
    writes that are still in the buffer of a text stream. *)
Inductive event :=
| EPut (p : path) (v : node)
| EDel (p : path)
| EMove (p1 p2 : path)
| EBuf (s : string).

Definition apply_event (e : event) (n : node) : node :=
  match e with
  | EPut p v => put p v n
  | EDel p => del p n
  | EMove p1 p2 => move p1 p2 n
  | EBuf _ => n
  end.

Definition replay (es : list event) (n : node) : node :=
  fold_left (fun n e => apply_event e n) es n.

Record world := World {
  fs : node;
  clock : Z;
  stderr : list string;
  wbuf : list string;
  trace : list event;
  dlloverrides : gmap string string
}.

Definition set_fs (n : node) (w : world) : world :=
  World n (clock w) (stderr w) (wbuf w) (trace w) (dlloverrides w).
Definition set_stderr (l : list string) (w : world) : world :=
  World (fs w) (clock w) l (wbuf w) (trace w) (dlloverrides w).
Definition set_wbuf (l : list string) (w : world) : world :=
  World (fs w) (clock w) (stderr w) l (trace w) (dlloverrides w).
Definition set_trace (l : list event) (w : world) : world :=
  World (fs w) (clock w) (stderr w) (wbuf w) l (dlloverrides w).
Definition set_dlloverrides (d : gmap string string) (w : world) : world :=
  World (fs w) (clock w) (stderr w) (wbuf w) (trace w) d.
Definition set_clock (t : Z) (w : world) : world :=
  World (fs w) t (stderr w) (wbuf w) (trace w) (dlloverrides w).

Inductive outcome (A : Type) :=
| Ret (a : A) (w : world)
| Raise (e : exn) (w : world).
Arguments Ret {A} a w.
Arguments Raise {A} e w.

Definition M (A : Type) : Type := world -> outcome A.

Definition ret {A} (a : A) : M A := fun w => Ret a w.

Definition bind {A B} (m : M A) (k : A -> M B) : M B :=
  fun w => match m w with
           | Ret a w' => k a w'
           | Raise e w' => Raise e w'
           end.

Definition raise {A} (e : exn) : M A := fun w => Raise e w.

(** [try: m except <the exceptions h accepts>: h e] *)
Definition try_except {A} (m : M A) (h : exn -> option (M A)) : M A :=
  fun w => match m w with
           | Ret a w' => Ret a w'
           | Raise e w' => match h e with
                           | Some k => k w'
                           | None => Raise e w'
                           end
           end.

(** [try: m finally: f] *)
Definition finally {A} (m : M A) (f : M unit) : M A :=
  fun w => match m w with
           | Ret a w' => match f w' with
                         | Ret _ w'' => Ret a w''
                         | Raise e w'' => Raise e w''
                         end
           | Raise e w' => match f w' with
                           | Ret _ w'' => Raise e w''
                           | Raise e' w'' => Raise e' w''
                           end
           end.

Definition final {A} (o : outcome A) : world :=
  match o with Ret _ w => w | Raise _ w => w end.

Definition returns {A} (o : outcome A) : bool :=
  match o with Ret _ _ => true | Raise _ _ => false end.

Notation "x <- m ;; k" := (bind m (fun x => k))
  (at level 100, m at next level, right associativity, only parsing).
Notation "m ;;; k" := (bind m (fun _ => k))
  (at level 100, right associativity, only parsing).

Definition when (b : bool) (m : M unit) : M unit := if b then m else ret tt.

(** [for x in l: body x] *)
Fixpoint for_each {A} (l : list A) (body : A -> M unit) : M unit :=
  match l with
  | [] => ret tt
  | x :: r => body x ;;; for_each r body
  end.

(** [for x in l: body x], the body asking for [break] by returning [true] *)
Fixpoint for_break {A} (l : list A) (body : A -> M bool) : M unit :=
  match l with
  | [] => ret tt
  | x :: r => b <- body x ;; if b then ret tt else for_break r body
  end.

Definition get_fs : M node := fun w => Ret (fs w) w.
Definition get_clock : M Z := fun w => Ret (clock w) w.

Definition emit (e : event) : M unit :=
  fun w => Ret tt (set_trace (trace w ++ [e]) (set_fs (apply_event e (fs w)) w)).

Definition PFX : string := "Proton: ".

(** [log(msg)]: one line on standard error *)
Definition log (msg : string) : M unit :=
  fun w => Ret tt (set_stderr (stderr w ++ [PFX +:+ msg +:+ Py.nl]) w).

Definition is_OSError (e : exn) : bool :=
  match e with OSError _ => true | _ => false end.

(** ** The operating system: [os], [os.path] and [shutil] *)

Fixpoint is_prefix (a b : path) : bool :=
  match a, b with
  | [], _ => true
  | x :: a', y :: b' => String.eqb x y && is_prefix a' b'
  | _ :: _, [] => false
  end.

Definition path_eqb (a b : path) : bool := is_prefix a b && is_prefix b a.

Definition path_error (p : path) (root : node) : exn :=
  match blocked p root with
  | Some true => OSError ENOTDIR
  | _ => OSError ENOENT
  end.

Definition S_IWUSR : Z := 128.
Definition S_IWGRP : Z := 16.
Definition S_IRUSR : Z := 256.
(** The mode of a file created under the usual [umask] of [022]. *)
Definition default_mode : Z := 420.
Definition dir_mode : Z := 493.

Definition readable (mode : Z) : bool := negb (Z.land mode S_IRUSR =? 0).

Module os.

Definition path_lexists (s : string) : M bool :=
  root <- get_fs ;;
  ret (match lstat root s with Some _ => true | None => false end).

Definition path_exists (s : string) : M bool :=
  root <- get_fs ;;
  ret (match stat root s with Some _ => true | None => false end).

Definition path_islink (s : string) : M bool :=
  root <- get_fs ;;
  ret (match lstat root s with Some (Link _) => true | _ => false end).

Definition path_isfile (s : string) : M bool :=
  root <- get_fs ;;
  ret (match stat root s with Some (File _ _ _) => true | _ => false end).

Definition path_isdir (s : string) : M bool :=
  root <- get_fs ;;
  ret (match stat root s with Some (Dir _) => true | _ => false end).

(** [os.path.samefile]: both paths are [stat]ed and lead to one place *)
Definition path_samefile (a b : string) : M bool :=
  root <- get_fs ;;
  match resolve root a, resolve root b with
  | Some (pa, Some _), Some (pb, Some _) => ret (path_eqb pa pb)
  | Some (pa, None), _ => raise (path_error pa root)
  | _, Some (pb, None) => raise (path_error pb root)
  | _, _ => raise (OSError ELOOP)
  end.

(** [os.path.basename] and [os.path.dirname] *)
Fixpoint path_basename (s : string) : string :=
  match s with
  | EmptyString => EmptyString
  | String c r =>
      if Py.contains "/" r then path_basename r
      else if Ascii.eqb c "/"%char then r
      else s
  end.

Definition all_slashes (s : string) : bool :=
  String.eqb (Py.lstrip_char "/"%char s) "".

Definition path_dirname (s : string) : string :=
  let head := Py.take (String.length s - String.length (path_basename s)) s in
  if all_slashes head then head else Py.rstrip_char "/"%char head.

(** [os.path.normpath] *)
Definition norm_step (initial : bool) (acc : list string) (comp : string) : list string :=
  if String.eqb comp "" || String.eqb comp "." then acc
  else if negb (String.eqb comp "..") then comp :: acc
  else match acc with
       | [] => if initial then acc else comp :: acc
       | top :: rest => if String.eqb top ".." then comp :: acc else rest
       end.

Definition path_normpath (s : string) : string :=
  if String.eqb s "" then "."
  else
    let initial := Py.startswith s "/" in
    let slashes :=
      if initial && Py.startswith s "//" && negb (Py.startswith s "///") then "//"
      else if initial then "/" else "" in
    let comps := rev (fold_left (norm_step initial) (Py.split "/" s) []) in
    let r := slashes +:+ Py.join "/" comps in
    if String.eqb r "" then "." else r.

Definition readlink (s : string) : M string :=
  root <- get_fs ;;
  match lstat root s with
  | Some (Link t) => ret t
  | Some _ => raise (OSError EINVAL)
  | None => raise (path_error (parse s) root)
  end.

(** [os.remove], which is also [os.unlink] *)
Definition remove (s : string) : M unit :=
  root <- get_fs ;;
  match lstat root s with
  | Some (Dir _) => raise (OSError EISDIR)
  | Some _ => emit (EDel (parse s))
  | None => raise (path_error (parse s) root)
  end.

Definition unlink := remove.

Definition rmdir (s : string) : M unit :=
  root <- get_fs ;;
  match lstat root s with
  | Some (Dir []) => emit (EDel (parse s))
  | Some (Dir _) => raise (OSError ENOTEMPTY)
  | Some _ => raise (OSError ENOTDIR)
  | None => raise (path_error (parse s) root)
  end.

Definition mkdir_at (p : path) : M unit :=
  root <- get_fs ;;
  match find p root with
  | Some _ => raise (OSError EEXIST)
  | None =>
      match blocked p root with
      | None => emit (EPut p (Dir []))
      | Some _ => raise (path_error p root)
      end
  end.

(** The ancestors of [pre ++ rest] below [pre], outermost first: each one
    that does not exist is created, a [FileExistsError] being passed over. *)
Fixpoint make_parents (pre rest : path) : M unit :=
  match rest with
  | [] => ret tt
  | c :: r =>
      match r with
      | [] => ret tt
      | _ :: _ =>
          root <- get_fs ;;
          match follow MAXSYMLINKS root (pre ++ [c]) with
          | Some (_, Some _) => ret tt
          | _ => try_except (mkdir_at (pre ++ [c]))
                   (fun e => match e with
                             | OSError EEXIST => Some (ret tt)
                             | _ => None
                             end)
          end ;;;
          make_parents (pre ++ [c]) r
      end
  end.

Definition makedirs (s : string) (exist_ok : bool) : M unit :=
  make_parents [] (parse s) ;;;
  try_except (mkdir_at (parse s))
    (fun e => match e with
              | OSError _ =>
                  Some (d <- path_isdir s ;;
                        if exist_ok && d then ret tt else raise e)
              | _ => None
              end).

Definition symlink (target s : string) : M unit :=
  root <- get_fs ;;
  match lstat root s with
  | Some _ => raise (OSError EEXIST)
  | None =>
      match blocked (parse s) root with
      | None => emit (EPut (parse s) (Link target))
      | Some _ => raise (path_error (parse s) root)
      end
  end.

Definition rename (s1 s2 : string) : M unit :=
  root <- get_fs ;;
  let p1 := parse s1 in
  let p2 := parse s2 in
  match find p1 root with
  | None => raise (path_error p1 root)
  | Some x =>
      if path_eqb p1 p2 then ret tt
      else if is_prefix p1 p2 then raise (OSError EINVAL)
      else match blocked p2 root with
           | Some _ => raise (path_error p2 root)
           | None =>
               match find p2 root with
               | None => emit (EMove p1 p2)
               | Some y =>
                   match x, y with
                   | Dir _, Dir [] => emit (EMove p1 p2)
                   | Dir _, Dir _ => raise (OSError ENOTEMPTY)
                   | Dir _, _ => raise (OSError ENOTDIR)
                   | _, Dir _ => raise (OSError EISDIR)
                   | _, _ => emit (EMove p1 p2)
                   end
               end
           end
  end.

(** [os.lstat(s).st_mode] and [os.stat(s).st_mode] *)
Definition node_mode (n : node) : Z :=
  match n with
  | File _ m _ => Z.lor 32768 m
  | Link _ => Z.lor 40960 511
  | Dir _ => Z.lor 16384 dir_mode
  end.

Definition lstat_mode (s : string) : M Z :=
  root <- get_fs ;;
  match lstat root s with
  | Some n => ret (node_mode n)
  | None => raise (path_error (parse s) root)
  end.

Definition stat_mode (s : string) : M Z :=
  root <- get_fs ;;
  match resolve root s with
  | Some (_, Some n) => ret (node_mode n)
  | Some (p, None) => raise (path_error p root)
  | None => raise (OSError ELOOP)
  end.

Definition chmod (s : string) (mode : Z) : M unit :=
  root <- get_fs ;;
  match resolve root s with
  | Some (p, Some (File d _ t)) => emit (EPut p (File d (Z.land mode 4095) t))
  | Some (_, Some _) => ret tt
  | Some (p, None) => raise (path_error p root)
  | None => raise (OSError ELOOP)
  end.

(** [os.path.getmtime]; a directory carries no time stamp in this model *)
Definition path_getmtime (s : string) : M Z :=
  root <- get_fs ;;
  match resolve root s with
  | Some (_, Some (File _ _ t)) => ret t
  | Some (_, Some _) => ret 0
  | Some (p, None) => raise (path_error p root)
  | None => raise (OSError ELOOP)
  end.

End os.

(** *** Streams *)

(** [open(s, "r")] or [open(s, "rb")] followed by reading the stream *)
Definition open_read (s : string) : M string :=
  root <- get_fs ;;
  match resolve root s with
  | Some (_, Some (File d m _)) =>
      if Py.endswith s "/" then raise (OSError ENOTDIR)
      else if readable m then ret d else raise (OSError EACCES)
  | Some (_, Some (Dir _)) => raise (OSError EISDIR)
  | Some (_, Some (Link _)) => raise (OSError ELOOP)
  | Some (p, None) => raise (path_error p root)
  | None => raise (OSError ELOOP)
  end.

(** Opening for writing: the file is created or, with ["w"], emptied at
    once; the place of the file is the result.  A name that ends with a
    slash can only be a directory. *)
Definition open_write (truncate : bool) (s : string) : M path :=
  root <- get_fs ;;
  now <- get_clock ;;
  match resolve root s with
  | Some (p, Some (File _ m _)) =>
      if Py.endswith s "/" then raise (OSError ENOTDIR)
      else when truncate (emit (EPut p (File "" m now))) ;;; ret p
  | Some (_, Some (Dir _)) => raise (OSError EISDIR)
  | Some (_, Some (Link _)) => raise (OSError ELOOP)
  | Some (p, None) =>
      if Py.endswith s "/" then raise (OSError EISDIR)
      else match blocked p root with
           | None => emit (EPut p (File "" default_mode now)) ;;; ret p
           | Some _ => raise (path_error p root)
           end
  | None => raise (OSError ELOOP)
  end.

(** [stream.write(s)]: the text goes to the buffer of the open stream. *)
Definition stream_write (s : string) : M unit :=
  fun w => Ret tt (set_trace (trace w ++ [EBuf s]) (set_wbuf (wbuf w ++ [s]) w)).

(** Closing the stream: the buffer reaches the file. *)
Definition stream_close (p : path) : M unit :=
  fun w =>
    match wbuf w with
    | [] => Ret tt w
    | b =>
        let w' := set_wbuf [] w in
        match find p (fs w) with
        | Some (File d m _) =>
            emit (EPut p (File (d +:+ String.concat "" b) m (clock w))) w'
        | _ => Ret tt w'
        end
    end.

(** [with open(s, "w" or "a") as stream: body] *)
Definition with_open {A} (truncate : bool) (s : string) (body : M A) : M A :=
  p <- open_write truncate s ;; finally body (stream_close p).

(** [with open(s, "w") as f: f.write(data)] *)
Definition write_text (s data : string) : M unit :=
  with_open true s (stream_write data).

Module shutil.

Definition same_file (src dst : string) : M bool :=
  root <- get_fs ;;
  ret (match resolve root src, resolve root dst with
       | Some (pa, Some _), Some (pb, Some _) => path_eqb pa pb
       | _, _ => false
       end).

Definition copyfile (src dst : string) (follow_symlinks : bool) : M unit :=
  same <- same_file src dst ;;
  if same then raise (OSError ESAMEFILE)
  else
    lnk <- os.path_islink src ;;
    if negb follow_symlinks && lnk then
      t <- os.readlink src ;; os.symlink t dst
    else
      d <- open_read src ;;
      p <- open_write true dst ;;
      root <- get_fs ;;
      now <- get_clock ;;
      match find p root with
      | Some (File _ m _) => emit (EPut p (File d m now))
      | _ => ret tt
      end.

Definition copymode (src dst : string) (follow_symlinks : bool) : M unit :=
  ls <- os.path_islink src ;;
  ld <- os.path_islink dst ;;
  if negb follow_symlinks && ls && ld then ret tt
  else m <- os.stat_mode src ;; os.chmod dst (Z.land m 4095).

(** [shutil.copystat]: permission bits and time stamp; a link carries
    neither *)
Definition copystat (src dst : string) (follow_symlinks : bool) : M unit :=
  ls <- os.path_islink src ;;
  ld <- os.path_islink dst ;;
  if negb follow_symlinks && ls && ld then ret tt
  else
    m <- os.stat_mode src ;;
    t <- os.path_getmtime src ;;
    root <- get_fs ;;
    match resolve root dst with
    | Some (p, Some (File d _ _)) => emit (EPut p (File d (Z.land m 4095) t))
    | Some (_, Some _) => ret tt
    | Some (p, None) => raise (path_error p root)
    | None => raise (OSError ELOOP)
    end.

Definition copy_target (src dst : string) : M string :=
  d <- os.path_isdir dst ;;
  ret (if d then path_join dst (os.path_basename src) else dst).

Definition copy (src dst : string) (follow_symlinks : bool) : M unit :=
  dst' <- copy_target src dst ;;
  copyfile src dst' follow_symlinks ;;;
  copymode src dst' follow_symlinks.

Definition copy2 (src dst : string) (follow_symlinks : bool) : M unit :=
  dst' <- copy_target src dst ;;
  copyfile src dst' follow_symlinks ;;;
  copystat src dst' follow_symlinks.

(** [shutil.rmtree] *)
Definition rmtree (s : string) : M unit :=
  root <- get_fs ;;
  match lstat root s with
  | Some (Dir _) => emit (EDel (parse s))
  | Some (Link _) => raise (OSError EINVAL)
  | Some _ => raise (OSError ENOTDIR)
  | None => raise (path_error (parse s) root)
  end.

End shutil.

(** ** [proton.py]: module-level definitions *)

Definition CURRENT_PREFIX_VERSION : string := "6.20-GE-1".

Definition dquote : string := String (ascii_of_nat 34) EmptyString.

(** What the process is given: [os.environ], the session ([g_session.env],
    [g_session.compat_config]), the directory of the Proton installation
    ([g_proton = Proton(base)]), what [find_nvidia_wine_dll_dir()] answers
    and what [randrange(16 ** 8)] draws. *)
Record session := Session {
  environ : gmap string string;
  session_env : gmap string string;
  compat_config : gset string;
  proton_base : string;
  nvidia_wine_dll_dir : option string;
  random_draw : Z
}.

Definition nonzero (s : string) : bool :=
  (0 <? Py.len s) && negb (String.eqb s "0").

Definition wine_builtin_dirs : list string :=
  ["/lib/wine/i386-windows"; "/lib64/wine/x86_64-windows"].

Definition builtin_markers : list string :=
  ["Wine placeholder DLL"; "Wine builtin DLL"].

Definition in_builtin_dir (contents : string) : bool :=
  existsb (Py.endswith (os.path_dirname contents)) wine_builtin_dirs.

Definition has_builtin_marker (data : string) : bool :=
  let tag := Py.take 20 (Py.drop 64 data) in
  existsb (Py.startswith tag) builtin_markers.

Definition file_is_wine_builtin_dll (path : string) : M bool :=
  lnk <- os.path_islink path ;;
  broken <- (if lnk then contents <- os.readlink path ;; ret (in_builtin_dir contents)
             else ret false) ;;
  if broken then ret true
  else
    ex <- os.path_exists path ;;
    if negb ex then ret false
    else
      try_except
        (data <- open_read path ;; ret (has_builtin_marker data))
        (fun e => if is_OSError e then Some (ret false) else None).

Definition makedirs (path : string) : M unit :=
  try_except (os.makedirs path false)
    (fun e => if is_OSError e then Some (ret tt) else None).

Definition strerror (e : errno) : string :=
  match e with
  | ENOENT => "No such file or directory"
  | EPERM => "Operation not permitted"
  | EACCES => "Permission denied"
  | EEXIST => "File exists"
  | ENOTDIR => "Not a directory"
  | EISDIR => "Is a directory"
  | ENOTEMPTY => "Directory not empty"
  | ELOOP => "Too many levels of symbolic links"
  | EINVAL => "Invalid argument"
  | ESAMEFILE => "None"
  end.

Definition copy_error (dst : string) (e : errno) : string :=
  "Error while copying to " +:+ dquote +:+ dst +:+ dquote +:+ ": " +:+ strerror e.

Definition try_copy (src dst : string)
    (add_write_perm copy_metadata optional follow_symlinks : bool) : M unit :=
  try_except
    (isd <- os.path_isdir dst ;;
     dstfile <-
       (if isd then
          let dstfile := dst +:+ "/" +:+ os.path_basename src in
          lex <- os.path_lexists dstfile ;;
          when lex (os.remove dstfile) ;;;
          ret dstfile
        else
          lex <- os.path_lexists dst ;;
          when lex (os.remove dst) ;;;
          ret dst) ;;
     (if copy_metadata then shutil.copy2 src dst follow_symlinks
      else shutil.copy src dst follow_symlinks) ;;;
     when add_write_perm
       (m <- os.lstat_mode dstfile ;;
        os.chmod dstfile (Z.lor (Z.lor m S_IWUSR) S_IWGRP)))
    (fun e =>
       match e with
       | OSError ENOENT => if optional then Some (log (copy_error dst ENOENT)) else None
       | OSError EPERM => Some (log (copy_error dst EPERM))
       | _ => None
       end).

(** [try_copy(src, dst)] with the defaults of its keyword arguments *)
Definition try_copy_default (src dst : string) : M unit :=
  try_copy src dst true false false true.

Definition try_copyfile (src dst : string) : M unit :=
  try_except
    (isd <- os.path_isdir dst ;;
     (if isd then
        let dstfile := dst +:+ "/" +:+ os.path_basename src in
        lex <- os.path_lexists dstfile ;;
        when lex (os.remove dstfile)
      else
        lex <- os.path_lexists dst ;;
        when lex (os.remove dst)) ;;;
     shutil.copyfile src dst true)
    (fun e =>
       match e with
       | OSError EPERM => Some (log (copy_error dst EPERM))
       | _ => None
       end).

(** The characters of a string, as [list += str] appends them. *)
Fixpoint chars (s : string) : list string :=
  match s with
  | EmptyString => []
  | String c r => String c EmptyString :: chars r
  end.

(** [for x in l: s = body s x] *)
Fixpoint fold_each {A S} (l : list A) (s : S) (body : S -> A -> M S) : M S :=
  match l with
  | [] => ret s
  | x :: r => s' <- body s x ;; fold_each r s' body
  end.

Definition walk (top : string) : M (list walk_item) :=
  root <- get_fs ;; ret (os_walk root top).

Definition merge_user_dir (src dst : string) : M unit :=
  items <- walk src ;;
  fold_each items ([] : list string)
    (fun extant_dirs '(src_dir, dirs, files) =>
       let dst_dir := Py.replace1 src dst src_dir in
       (* as described below, avoid merging game save subdirs, too *)
       let child_of_extant_dir :=
         existsb (fun dir_ => Py.contains dir_ dst_dir) extant_dirs in
       if child_of_extant_dir then ret extant_dirs
       else
         (* we only want to copy into directories which don't already exist *)
         ex <- os.path_exists dst_dir ;;
         fresh <- (if negb ex then ret true else os.path_samefile dst_dir dst) ;;
         if fresh then
           makedirs dst_dir ;;;
           for_each dirs (fun dir_ =>
             let src_file := path_join src_dir dir_ in
             let dst_file := path_join dst_dir dir_ in
             lnk <- os.path_islink src_file ;;
             ex' <- os.path_exists dst_file ;;
             when (lnk && negb ex') (try_copy src_file dst_file true true false false)) ;;;
           for_each files (fun file_ =>
             let src_file := path_join src_dir file_ in
             let dst_file := path_join dst_dir file_ in
             ex' <- os.path_exists dst_file ;;
             when (negb ex') (try_copy src_file dst_file true true false false)) ;;;
           ret extant_dirs
         else ret (extant_dirs ++ chars dst_dir)) ;;;
  ret tt.

(** [str(os.path.getmtime(path))]: a time stamp is a whole number of
    seconds *)
Definition str_time (t : Z) : string := Py.str_int t +:+ ".0".

Definition getmtimestr (path_fragments : list string) : M string :=
  let path := fold_left path_join (tail path_fragments) (hd "" path_fragments) in
  try_except (t <- os.path_getmtime path ;; ret (str_time t))
    (fun e => if is_OSError e then Some (ret "0") else None).

Definition try_get_game_library_dir (g_session : session) : option string :=
  match session_env g_session !! "STEAM_COMPAT_INSTALL_PATH",
        session_env g_session !! "STEAM_COMPAT_LIBRARY_PATHS" with
  | Some install, Some paths =>
      (* find library path which is a subset of the game path *)
      List.find (fun l => Py.contains l install) (Py.split ":" paths)
  | _, _ => None
  end.

(** [os.open(dir_path, 0o644)] needs the directory; the [ioctl] calls that
    follow set a flag this model does not hold and forgive their errors. *)
Definition set_dir_casefold_bit (dir_path : string) : M unit :=
  root <- get_fs ;;
  match resolve root dir_path with
  | Some (_, Some _) => ret tt
  | Some (p, None) => raise (path_error p root)
  | None => raise (OSError ELOOP)
  end.

(** *** [class Proton] *)

Module Proton.

Record t := Make {
  base_dir : string;
  dist_dir : string;
  bin_dir : string;
  lib_dir : string;
  lib64_dir : string;
  fonts_dir : string;
  wine_fonts_dir : string;
  version_file : string;
  default_pfx_dir : string;
  user_settings_file : string
}.

Definition init (base : string) : t :=
  let base_dir := base +:+ "/" in
  let path d := base_dir +:+ d in
  Make base_dir (path "files/") (path "files/bin/") (path "files/lib/")
       (path "files/lib64/") (path "files/share/fonts/")
       (path "files/share/wine/fonts/") (path "version")
       (path "files/share/default_pfx/") (path "user_settings.py").

Definition path (self : t) (d : string) : string := base_dir self +:+ d.

End Proton.

Definition g_proton (g_session : session) : Proton.t :=
  Proton.init (proton_base g_session).

(** *** [class CompatData] *)

Module CompatData.

Record t := Make {
  base_dir : string;
  prefix_dir : string;
  version_file : string;
  config_info_file : string;
  tracked_files_file : string
}.

Definition init (compatdata : string) : t :=
  let base_dir := compatdata +:+ "/" in
  let path d := base_dir +:+ d in
  Make base_dir (path "pfx/") (path "version") (path "config_info")
       (path "tracked_files").

Definition path (self : t) (d : string) : string := base_dir self +:+ d.

Definition remove_tracked_files (self : t) : M unit :=
  ex <- os.path_exists (tracked_files_file self) ;;
  if negb ex then log "Prefix has no tracked_files??"
  else
    tracked_files <- open_read (tracked_files_file self) ;;
    dirs <- fold_each (Py.lines tracked_files) ([] : list string)
      (fun dirs f =>
         let path := prefix_dir self +:+ Py.strip f in
         ex <- os.path_exists path ;;
         if ex then
           isf <- os.path_isfile path ;;
           isl <- os.path_islink path ;;
           if isf || isl then os.remove path ;;; ret dirs
           else ret (dirs ++ [path])
         else ret dirs) ;;
    for_each dirs (fun d =>
      try_except (os.rmdir d)
        (fun e => if is_OSError e then Some (ret tt) (* not empty *) else None)) ;;;
    os.remove (tracked_files_file self) ;;;
    os.remove (version_file self).

Definition invalid_version_msg : string :=
  "Prefix has an invalid version?! You may want to back up user files and delete this prefix.".

(** [a, b = l] *)
Definition unpack2 (l : list string) : M (string * string) :=
  match l with
  | [a; b] => ret (a, b)
  | _ => raise ValueError
  end.

Definition int (s : string) : M Z :=
  match Py.int s with
  | Some n => ret n
  | None => raise ValueError
  end.

Definition str_opt (v : option string) : string :=
  match v with Some s => s | None => "None" end.

Definition delete_keys : list string :=
  [ "[Software\\Classes\\htmlfile\\shell\\open\\ddeexec";
    "[Software\\Classes\\pdffile\\shell\\open\\ddeexec";
    "[Software\\Classes\\xmlfile\\shell\\open\\ddeexec";
    "[Software\\Classes\\ftp\\shell\\open\\ddeexec";
    "[Software\\Classes\\http\\shell\\open\\ddeexec";
    "[Software\\Classes\\https\\shell\\open\\ddeexec" ].

Definition dde_wb : string :=
  "@=" +:+ dquote +:+ "\" +:+ dquote +:+ "C:\\windows\\system32\\winebrowser.exe\"
  +:+ dquote +:+ " -nohome" +:+ dquote.

Definition mem (s : string) (l : list string) : bool := existsb (String.eqb s) l.

(** The rewriting of [system.reg] that retires the xinput entries *)
Definition xinput_line (line : string) : M unit :=
  if Py.startswith line "[" && Py.contains "CurrentControlSet" line
     && Py.contains "IG_" line
  then
    if Py.contains "DeviceClasses" line
    then stream_write (Py.replace line "DeviceClasses" "DeviceClasses_old")
    else if Py.contains "Enum" line
    then stream_write (Py.replace line "Enum" "Enum_old")
    else ret tt
  else stream_write line.

(** The rewriting of [system.reg] that retires the DDE entries *)
Definition dde_line (line : string) : M unit :=
  if mem (Py.slice_to line (Py.find line "ddeexec" + Py.len "ddeexec")) delete_keys
  then stream_write (Py.replace1 "ddeexec" "ddeexec_old" line)
  else if String.eqb (Py.rstrip line) dde_wb
  then stream_write (Py.replace line "-nohome" "%1")
  else stream_write line.

Definition on_OSError {A} (m h : M A) : M A :=
  try_except m (fun e => if is_OSError e then Some h else None).

Definition upgrade_pfx (g_session : session) (self : t) (old_ver : option string)
  : M unit :=
  if bool_decide (old_ver = Some CURRENT_PREFIX_VERSION) then ret tt
  else
    log ("Upgrading prefix from " +:+ str_opt old_ver +:+ " to "
         +:+ CURRENT_PREFIX_VERSION +:+ " (" +:+ base_dir self +:+ ")") ;;;
    match old_ver with
    | None => ret tt
    | Some old_ver =>
        if negb (Py.contains "-" old_ver) then
          (* How can this happen?? *)
          log invalid_version_msg
          (* If it does, just let the Wine upgrade happen and hope it works... *)
        else
          try_except
            (old <- unpack2 (Py.split "-" old_ver) ;;
             let '(old_proton_ver, old_prefix_ver) := old in
             old_proton <- unpack2 (Py.split "." old_proton_ver) ;;
             let '(old_proton_maj, old_proton_min) := old_proton in
             new <- unpack2 (Py.split "-" CURRENT_PREFIX_VERSION) ;;
             let '(new_proton_ver, new_prefix_ver) := new in
             new_proton <- unpack2 (Py.split "." new_proton_ver) ;;
             let '(new_proton_maj, new_proton_min) := new_proton in
             newer <-
               (n <- int new_proton_maj ;; o <- int old_proton_maj ;;
                if n <? o then ret true
                else
                  n <- int new_proton_maj ;; o <- int old_proton_maj ;;
                  if n =? o then
                    n' <- int new_proton_min ;; o' <- int old_proton_min ;;
                    ret (n' <? o')
                  else ret false) ;;
             if newer then
               log "Removing newer prefix" ;;;
               ex <- os.path_exists (tracked_files_file self) ;;
               when (String.eqb old_proton_ver "3.7" && negb ex)
                 (* proton 3.7 did not generate tracked_files, so copy it into place first *)
                 (try_copy_default
                    (Proton.path (g_proton g_session) "proton_3.7_tracked_files")
                    (tracked_files_file self)) ;;;
               remove_tracked_files self
             else
               busted <-
                 (if String.eqb old_proton_ver "3.7" && String.eqb old_prefix_ver "1"
                  then ex <- os.path_exists
                               (prefix_dir self +:+ "/drive_c/windows/syswow64/kernel32.dll") ;;
                       ret (negb ex)
                  else ret false) ;;
               if busted then
                 (* shipped a busted 64-bit-only installation on 20180822. detect and wipe clean *)
                 log "Detected broken 64-bit-only installation, re-creating prefix." ;;;
                 shutil.rmtree (prefix_dir self)
               else
                 (* replace broken .NET installations with wine-mono support *)
                 ex <- os.path_exists
                         (prefix_dir self +:+ "/drive_c/windows/Microsoft.NET/NETFXRepair.exe") ;;
                 stub <- (if ex then file_is_wine_builtin_dll
                                      (prefix_dir self +:+ "/drive_c/windows/system32/mscoree.dll")
                          else ret false) ;;
                 when stub
                   (log "Broken .NET installation detected, switching to wine-mono." ;;;
                    (* deleting this directory allows wine-mono to work *)
                    shutil.rmtree (prefix_dir self +:+ "/drive_c/windows/Microsoft.NET")) ;;;
                 (* prior to prefix version 4.11-2, all controllers were xbox controllers *)
                 old_xinput <-
                   (a <- int old_proton_maj ;;
                    early <- (if a <? 4 then ret true
                              else a <- int old_proton_maj ;;
                                   if a =? 4 then b <- int old_proton_min ;; ret (b =? 11)
                                   else ret false) ;;
                    if early then c <- int old_prefix_ver ;; ret (c <? 2) else ret false) ;;
                 when old_xinput
                   (log "Removing old xinput registry entries." ;;;
                    reg_in <- open_read (prefix_dir self +:+ "system.reg") ;;
                    with_open true (prefix_dir self +:+ "system.reg.new")
                      (for_each (Py.lines reg_in) xinput_line) ;;;
                    on_OSError
                      (os.rename (prefix_dir self +:+ "system.reg")
                                 (prefix_dir self +:+ "system.reg.old"))
                      (os.remove (prefix_dir self +:+ "system.reg")) ;;;
                    on_OSError
                      (os.rename (prefix_dir self +:+ "system.reg.new")
                                 (prefix_dir self +:+ "system.reg"))
                      (log ("Unable to write new registry file to "
                            +:+ prefix_dir self +:+ "system.reg"))) ;;;
                 (* Prior to prefix version 6.3-3, ShellExecute* APIs used DDE. *)
                 old_dde <-
                   (a <- int old_proton_maj ;;
                    if a <? 6 then ret true
                    else
                      a <- int old_proton_maj ;;
                      lt <- (if a =? 6 then b <- int old_proton_min ;; ret (b <? 3)
                             else ret false) ;;
                      if lt then ret true
                      else
                        a <- int old_proton_maj ;;
                        if a =? 6 then
                          b <- int old_proton_min ;;
                          if b =? 3 then c <- int old_prefix_ver ;; ret (c <? 3)
                          else ret false
                        else ret false) ;;
                 when old_dde
                   (let sysreg_fp := prefix_dir self +:+ "system.reg" in
                    let new_sysreg_fp := prefix_dir self +:+ "system.reg.new" in
                    log "Removing ShellExecute DDE registry entries." ;;;
                    reg_in <- open_read sysreg_fp ;;
                    with_open true new_sysreg_fp (for_each (Py.lines reg_in) dde_line) ;;;
                    (* Slightly randomize backup file name to avoid colliding with
                       other backups. *)
                    let backup_sysreg_fp :=
                      prefix_dir self +:+ "system.reg."
                      +:+ Py.hex (random_draw g_session) +:+ ".old" in
                    on_OSError (os.rename sysreg_fp backup_sysreg_fp)
                      (log "Failed to back up old system.reg. Simply deleting it." ;;;
                       os.remove sysreg_fp) ;;;
                    on_OSError (os.rename new_sysreg_fp sysreg_fp)
                      (log ("Unable to write new registry file to " +:+ sysreg_fp))) ;;;
                 let stale_builtins :=
                   [ prefix_dir self +:+ "/drive_c/windows/system32/amd_ags_x64.dll";
                     prefix_dir self +:+ "/drive_c/windows/syswow64/amd_ags_x64.dll" ] in
                 for_each stale_builtins (fun builtin =>
                   lex <- os.path_lexists builtin ;;
                   stub <- (if lex then file_is_wine_builtin_dll builtin else ret false) ;;
                   when stub
                     (log ("Removing stale builtin " +:+ builtin) ;;;
                      os.remove builtin)))
            (fun e =>
               match e with
               | ValueError =>
                   Some (log invalid_version_msg)
                   (* Just let the Wine upgrade happen and hope it works... *)
               | _ => None
               end)
    end.

Definition pfx_copy (src dst : string) (dll_copy : bool) : M unit :=
  lnk <- os.path_islink src ;;
  if lnk then
    contents <- os.readlink src ;;
    let contents :=
      if in_builtin_dir contents then
        (* wine builtin dll: make the destination an absolute symlink *)
        os.path_normpath (path_join (os.path_dirname src) contents)
      else contents in
    if dll_copy then try_copyfile src dst
    else os.symlink contents dst
  else try_copyfile src dst.

(** [src_dir.replace(g_proton.default_pfx_dir, "", 1).lstrip('/')], with a
    closing slash unless it is empty *)
Definition rel_dir_of (default_pfx_dir src_dir : string) : string :=
  let rel_dir := Py.lstrip_char "/"%char (Py.replace1 default_pfx_dir "" src_dir) in
  if 0 <? Py.len rel_dir then rel_dir +:+ "/" else rel_dir.

Definition copy_pfx (g_session : session) (self : t) : M unit :=
  let default_pfx_dir := Proton.default_pfx_dir (g_proton g_session) in
  with_open true (tracked_files_file self)
    (items <- walk default_pfx_dir ;;
     for_each items (fun '(src_dir, dirs, files) =>
       let rel_dir := rel_dir_of default_pfx_dir src_dir in
       let dst_dir := Py.replace1 default_pfx_dir (prefix_dir self) src_dir in
       lex <- os.path_lexists dst_dir ;;
       when (negb lex)
         (os.makedirs dst_dir false ;;;
          stream_write (rel_dir +:+ Py.nl)) ;;;
       for_each dirs (fun dir_ =>
         let src_file := path_join src_dir dir_ in
         let dst_file := path_join dst_dir dir_ in
         lnk <- os.path_islink src_file ;;
         ex <- os.path_exists dst_file ;;
         when (lnk && negb ex) (pfx_copy src_file dst_file false)) ;;;
       for_each files (fun file_ =>
         let src_file := path_join src_dir file_ in
         let dst_file := path_join dst_dir file_ in
         ex <- os.path_exists dst_file ;;
         when (negb ex)
           (pfx_copy src_file dst_file false ;;;
            stream_write (rel_dir +:+ file_ +:+ Py.nl))))).

(** One file of the template met by [update_builtin_libs] *)
Definition update_builtin_lib (self : t) (dll_copy_patterns : list string)
    (prev_tracked_files : gset string) (src_dir rel_dir dst_dir file_ : string)
  : M unit :=
  let src_file := path_join src_dir file_ in
  let dst_file := path_join dst_dir file_ in
  src_builtin <- file_is_wine_builtin_dll src_file ;;
  if negb src_builtin then ret tt (* Not a builtin library *)
  else
    dst_builtin <- file_is_wine_builtin_dll dst_file ;;
    lex <- (if dst_builtin then ret false else os.path_lexists dst_file) ;;
    if lex then ret tt (* builtin library was replaced *)
    else
      (if dst_builtin then os.unlink dst_file
       else os.makedirs dst_dir true) ;;;
      let dll_copy := existsb (Py.fnmatch file_) dll_copy_patterns in
      pfx_copy src_file dst_file dll_copy ;;;
      let tracked_name := rel_dir +:+ file_ in
      when (bool_decide (tracked_name ∉ prev_tracked_files))
        (stream_write (tracked_name +:+ Py.nl)).

Definition update_builtin_libs (g_session : session) (self : t)
    (dll_copy_patterns : string) : M unit :=
  let default_pfx_dir := Proton.default_pfx_dir (g_proton g_session) in
  let dll_copy_patterns := Py.split "," dll_copy_patterns in
  tracked_files <- open_read (tracked_files_file self) ;;
  let prev_tracked_files : gset string :=
    list_to_set (Py.strip <$> Py.lines tracked_files) in
  with_open false (tracked_files_file self)
    (items <- walk default_pfx_dir ;;
     for_each items (fun '(src_dir, dirs, files) =>
       let rel_dir := rel_dir_of default_pfx_dir src_dir in
       let dst_dir := Py.replace1 default_pfx_dir (prefix_dir self) src_dir in
       lex <- os.path_lexists dst_dir ;;
       when (negb lex)
         (os.makedirs dst_dir false ;;;
          stream_write (rel_dir +:+ Py.nl)) ;;;
       for_each files
         (update_builtin_lib self dll_copy_patterns prev_tracked_files
            src_dir rel_dir dst_dir))).

Definition fontsmap (g_session : session) : list (string * string * string) :=
  let fonts_dir := Proton.fonts_dir (g_proton g_session) in
  let wine_fonts_dir := Proton.wine_fonts_dir (g_proton g_session) in
  [ (fonts_dir, "LiberationSans-Regular.ttf", "arial.ttf");
    (fonts_dir, "LiberationSans-Bold.ttf", "arialbd.ttf");
    (fonts_dir, "LiberationSerif-Regular.ttf", "times.ttf");
    (fonts_dir, "LiberationMono-Regular.ttf", "cour.ttf");
    (fonts_dir, "LiberationMono-Bold.ttf", "courbd.ttf");
    (fonts_dir, "msyh.ttf", "msyh.ttf");
    (fonts_dir, "simsun.ttc", "simsun.ttc");
    (fonts_dir, "msgothic.ttc", "msgothic.ttc");
    (fonts_dir, "malgun.ttf", "malgun.ttf");
    (fonts_dir, "NotoSansArabic-Regular.ttf", "NotoSansArabic-Regular.ttf");
    (wine_fonts_dir, "tahoma.ttf", "tahoma.ttf") ].

Definition create_fonts_symlinks (g_session : session) (self : t) : M unit :=
  let windowsfonts := prefix_dir self +:+ "/drive_c/windows/Fonts" in
  makedirs windowsfonts ;;;
  for_each (fontsmap g_session) (fun p =>
    let lname := path_join windowsfonts p.2 in
    let fname := path_join p.1.1 p.1.2 in
    lex <- os.path_lexists lname ;;
    if lex then
      lnk <- os.path_islink lname ;;
      when lnk (os.remove lname ;;; os.symlink fname lname)
    else os.symlink fname lname).

(** The table of [migrate_user_paths]: the winxp-style path, the vista+
    path and the target of the link left at the old place *)
Definition user_paths (self : t) : list (string * string * string) :=
  [ ("drive_c/users/steamuser/Local Settings/Application Data",
     prefix_dir self +:+ "drive_c/users/steamuser/AppData/Local",
     "../AppData/Local");
    ("drive_c/users/steamuser/Application Data",
     prefix_dir self +:+ "drive_c/users/steamuser/AppData/Roaming",
     "./AppData/Roaming");
    ("drive_c/users/steamuser/My Documents",
     prefix_dir self +:+ "drive_c/users/steamuser/Documents",
     "./Documents") ].

Definition migrate_user_path (self : t) (entry : string * string * string) : M unit :=
  let '(old, new, link) := entry in
  (* running unofficial Proton/Wine builds against a Proton prefix could
     create an infinite symlink loop. detect this and clean it up. *)
  lex <- os.path_lexists new ;;
  lnk <- (if lex then os.path_islink new else ret false) ;;
  loop <- (if lnk then t <- os.readlink new ;; ret (Py.endswith t old) else ret false) ;;
  when loop (os.remove new) ;;;
  let old := prefix_dir self +:+ old in
  lex <- os.path_lexists old ;;
  lnk <- (if lex then os.path_islink old else ret true) ;;
  when (lex && negb lnk)
    (merge_user_dir old new ;;;
     os.rename old (old +:+ " BACKUP")) ;;;
  lex <- os.path_lexists old ;;
  if negb lex then
    makedirs (os.path_dirname old) ;;;
    os.symlink link old
  else
    lnk <- os.path_islink old ;;
    differs <- (if lnk then t <- os.readlink old ;; ret (negb (String.eqb t link))
                else ret false) ;;
    when differs (os.remove old ;;; os.symlink link old).

Definition migrate_user_paths (self : t) : M unit :=
  (* move winxp-style paths to vista+ paths *)
  for_each (user_paths self) (migrate_user_path self).

(** The default of [PROTON_DLL_COPY] *)
Definition default_dll_copy : string :=
  (* dxsetup redist *)
  "d3dcompiler_*.dll," +:+ "d3dcsx*.dll," +:+ "d3dx*.dll," +:+ "x3daudio*.dll," +:+
  "xactengine*.dll," +:+ "xapofx*.dll," +:+ "xaudio*.dll," +:+ "xinput*.dll," +:+
  "devenum.dll," +:+
  (* directshow *)
  "amstream.dll," +:+ "qasf.dll," +:+ "qcap.dll," +:+ "qdvd.dll," +:+ "qedit.dll," +:+
  "quartz.dll," +:+
  (* directplay *)
  "dplay.dll," +:+ "dplaysvr.exe," +:+ "dplayx.dll," +:+ "dpmodemx.dll," +:+
  "dpnaddr.dll," +:+ "dpnet.dll," +:+ "dpnlobby.dll," +:+ "dpnhpast.dll," +:+
  "dpnhupnp.dll," +:+ "dpnsvr.exe," +:+ "dpwsockx.dll," +:+ "dpvoice.dll," +:+
  (* directmusic *)
  "dmband.dll," +:+ "dmcompos.dll," +:+ "dmime.dll," +:+ "dmloader.dll," +:+
  "dmscript.dll," +:+ "dmstyle.dll," +:+ "dmsynth.dll," +:+ "dmusic.dll," +:+
  "dmusic32.dll," +:+ "dsound.dll," +:+ "dswave.dll," +:+
  (* vcruntime redist *)
  "atl1*.dll," +:+ "concrt1*.dll," +:+ "msvcp1*.dll," +:+ "msvcr1*.dll," +:+
  "vcamp1*.dll," +:+ "vcomp1*.dll," +:+ "vccorlib1*.dll," +:+ "vcruntime1*.dll," +:+
  "api-ms-win-crt-conio-l1-1-0.dll," +:+ "api-ms-win-crt-heap-l1-1-0.dll," +:+
  "api-ms-win-crt-locale-l1-1-0.dll," +:+ "api-ms-win-crt-math-l1-1-0.dll," +:+
  "api-ms-win-crt-runtime-l1-1-0.dll," +:+ "api-ms-win-crt-stdio-l1-1-0.dll," +:+
  "ucrtbase.dll," +:+
  (* some games balk at ntdll symlink(?) *)
  "ntdll.dll," +:+
  (* some games require official vulkan loader *)
  "vulkan-1.dll," +:+
  (* wmp9 *)
  "dispex.dll," +:+ "jscript.dll," +:+ "scrobj.dll," +:+ "scrrun.dll," +:+
  "vbscript.dll," +:+ "cscript.exe," +:+ "wscript.exe," +:+ "wshom.ocx," +:+
  "9SeriesDefault.wmz," +:+ "9SeriesDefault_.wmz," +:+ "9xmigrat.dll," +:+
  "advpack.dll," +:+ "asferror.dll," +:+ "blackbox.dll," +:+ "CEWMDM.dll," +:+
  "Compact.wmz," +:+ "control.xml," +:+ "custsat.dll," +:+ "drm.cat," +:+ "drm.inf," +:+
  "DRMClien.dll," +:+ "DrmStor.dll," +:+ "drmv2clt.dll," +:+ "dw15.exe," +:+
  "dwintl.dll," +:+ "engsetup.exe," +:+ "eula.txt," +:+ "fhg.inf," +:+ "iexpress.inf," +:+
  "l3codeca.acm," +:+ "LAPRXY.DLL," +:+ "logagent.exe," +:+ "migrate.dll," +:+
  "migrate.exe," +:+ "MP43DMOD.DLL," +:+ "MP4SDMOD.DLL," +:+ "MPG4DMOD.DLL," +:+
  "mpvis.DLL," +:+ "msdmo.dll," +:+ "msnetobj.dll," +:+ "msoobci.dll," +:+
  "MsPMSNSv.dll," +:+ "MsPMSP.dll," +:+ "MSSCP.dll," +:+ "MSWMDM.dll," +:+
  "mymusic.inf," +:+ "npdrmv2.dll," +:+ "npdrmv2.zip," +:+ "NPWMSDrm.dll," +:+
  "PidGen.dll," +:+ "Plylst1.wpl," +:+ "Plylst10.wpl," +:+ "Plylst11.wpl," +:+
  "Plylst12.wpl," +:+ "Plylst13.wpl," +:+ "Plylst14.wpl," +:+ "Plylst15.wpl," +:+
  "Plylst2.wpl," +:+ "Plylst3.wpl," +:+ "Plylst4.wpl," +:+ "Plylst5.wpl," +:+
  "Plylst6.wpl," +:+ "Plylst7.wpl," +:+ "Plylst8.wpl," +:+ "Plylst9.wpl," +:+
  "plyr_err.chm," +:+ "qasf.dll," +:+ "QuickSilver.wmz," +:+ "Revert.wmz," +:+
  "roxio.inf," +:+ "rsl.dll," +:+ "setup_wm.cat," +:+ "setup_wm.exe," +:+
  "setup_wm.inf," +:+ "skins.inf," +:+ "skinsmui.inf," +:+ "unicows.dll," +:+
  "unregmp2.exe," +:+ "w95inf16.dll," +:+ "w95inf32.dll," +:+ "wm1033.lng," +:+
  "WMADMOD.DLL," +:+ "WMADMOE.DLL," +:+ "WMASF.DLL," +:+ "wmburn.exe," +:+
  "wmburn.rxc," +:+ "wmdm.cat," +:+ "wmdm.inf," +:+ "WMDMLOG.dll," +:+ "WMDMPS.dll," +:+
  "wmerror.dll," +:+ "wmexpack.cat," +:+ "wmexpack.inf," +:+ "WMFSDK.cat," +:+
  "WMFSDK.inf," +:+ "wmidx.dll," +:+ "WMNetMgr.dll," +:+ "wmp.cat," +:+ "wmp.dll," +:+
  "wmp.inf," +:+ "wmp.ocx," +:+ "wmpasf.dll," +:+ "wmpband.dll," +:+ "wmpcd.dll," +:+
  "wmpcore.dll," +:+ "wmpdxm.dll," +:+ "wmplayer.adm," +:+ "wmplayer.chm," +:+
  "wmplayer.exe," +:+ "wmploc.DLL," +:+ "WMPNS.dll," +:+ "wmpns.jar," +:+
  "wmpshell.dll," +:+ "wmpui.dll," +:+ "WMSDMOD.DLL," +:+ "WMSDMOE2.DLL," +:+
  "WMSPDMOD.DLL," +:+ "WMSPDMOE.DLL," +:+ "WMVCORE.DLL," +:+ "WMVDMOD.DLL," +:+
  "WMVDMOE2.DLL".

Definition in_config (g_session : session) (flag : string) : bool :=
  bool_decide (flag ∈ compat_config g_session).

Definition use_wined3d (g_session : session) : bool := in_config g_session "wined3d".

Definition use_dxvk_dxgi (g_session : session) : bool :=
  negb (use_wined3d g_session)
  && negb (match session_env g_session !! "WINEDLLOVERRIDES" with
           | Some v => Py.contains "dxgi=b" v
           | None => false
           end).

Definition use_nvapi (g_session : session) : bool := in_config g_session "enablenvapi".

Definition builtin_dll_copy (g_session : session) : string :=
  default default_dll_copy (environ g_session !! "PROTON_DLL_COPY").

(** [os.environ[key]] *)
Definition getenv (g_session : session) (key : string) : M string :=
  match environ g_session !! key with
  | Some v => ret v
  | None => raise KeyError
  end.

(** The lines of [config_info]: if any of this info changes, the builtin
    libraries are synchronised again *)
Definition prefix_info (g_session : session) (steamdir : string) : M string :=
  let proton := g_proton g_session in
  m1 <- getmtimestr [steamdir; "legacycompat"; "steamclient.dll"] ;;
  m2 <- getmtimestr [steamdir; "legacycompat"; "steamclient64.dll"] ;;
  m3 <- getmtimestr [steamdir; "legacycompat"; "Steam.dll"] ;;
  m4 <- getmtimestr [Proton.default_pfx_dir proton; "system.reg"] ;;
  ret (Py.join Py.nl
         [ CURRENT_PREFIX_VERSION;
           Proton.fonts_dir proton;
           Proton.lib_dir proton;
           Proton.lib64_dir proton;
           steamdir;
           m1; m2; m3;
           Proton.default_pfx_dir proton;
           m4;
           Py.str_bool (use_wined3d g_session);
           Py.str_bool (use_dxvk_dxgi g_session);
           builtin_dll_copy g_session;
           Py.str_bool (use_nvapi g_session) ]).

Definition set_override (f v : string) : M unit :=
  fun w => Ret tt (set_dlloverrides (<[f := v]> (dlloverrides w)) w).

(** Copying the Steam client files of one list into place *)
Definition copy_steam_files (dst steam_dir : string) (src_of : string -> string)
    (filestocopy : list (string * string)) : M unit :=
  for_each filestocopy (fun '(src, tgt) =>
    let srcfile := src_of src in
    isf <- os.path_isfile srcfile ;;
    when isf
      (let dstfile := dst +:+ tgt in
       isf' <- os.path_isfile dstfile ;;
       (if isf' then os.remove dstfile
        else stream_write (steam_dir +:+ tgt +:+ Py.nl)) ;;;
       try_copy_default srcfile dstfile)).

(** [with self.prefix_lock]: the lock file is created; the exclusion itself
    concerns other processes. *)
Definition with_lock {A} (lock_file : string) (body : M A) : M A :=
  open_write true lock_file ;;; body.

Definition setup_prefix (g_session : session) (self : t) : M unit :=
  let proton := g_proton g_session in
  with_lock (path self "pfx.lock")
    (ex <- os.path_exists (version_file self) ;;
     old_ver <- (if ex then f <- open_read (version_file self) ;;
                            ret (Some (Py.strip (Py.readline f)))
                 else ret None) ;;

     upgrade_pfx g_session self old_ver ;;;

     ex <- os.path_exists (prefix_dir self) ;;
     when (negb ex)
       (makedirs (prefix_dir self +:+ "/drive_c") ;;;
        set_dir_casefold_bit (prefix_dir self +:+ "/drive_c") ;;;
        ex' <- os.path_exists (prefix_dir self +:+ "/dosdevices") ;;
        when (negb ex')
          (makedirs (prefix_dir self +:+ "/dosdevices") ;;;
           set_dir_casefold_bit (prefix_dir self +:+ "/dosdevices"))) ;;;

     ex <- os.path_exists (prefix_dir self +:+ "/user.reg") ;;
     when (negb ex) (copy_pfx g_session self) ;;;

     migrate_user_paths self ;;;

     lex <- os.path_lexists (prefix_dir self +:+ "/dosdevices/c:") ;;
     when (negb lex) (os.symlink "../drive_c" (prefix_dir self +:+ "/dosdevices/c:")) ;;;

     lex <- os.path_lexists (prefix_dir self +:+ "/dosdevices/z:") ;;
     when (negb lex) (os.symlink "/" (prefix_dir self +:+ "/dosdevices/z:")) ;;;

     (* collect configuration info *)
     steamdir <- getenv g_session "STEAM_COMPAT_CLIENT_INSTALL_PATH" ;;
     let use_wined3d := use_wined3d g_session in
     let use_dxvk_dxgi := use_dxvk_dxgi g_session in
     let use_nvapi := use_nvapi g_session in
     let builtin_dll_copy := builtin_dll_copy g_session in

     (* If any of this info changes, we must rerun the tasks below *)
     prefix_info <- prefix_info g_session steamdir ;;

     (* check whether any prefix config has changed *)
     old_prefix_info <-
       try_except (open_read (config_info_file self))
         (fun e => if is_OSError e then Some (ret "") else None) ;;

     when (negb (bool_decide (old_ver = Some CURRENT_PREFIX_VERSION))
           || negb (String.eqb old_prefix_info prefix_info))
       ((* update builtin dll symlinks or copies *)
        update_builtin_libs g_session self builtin_dll_copy ;;;
        write_text (config_info_file self) prefix_info) ;;;

     write_text (version_file self) (CURRENT_PREFIX_VERSION +:+ Py.nl) ;;;

     (* create font files symlinks *)
     create_fonts_symlinks g_session self ;;;

     with_open false (tracked_files_file self)
       ((* copy steam files into place *)
        let steam_dir := "drive_c/Program Files (x86)/Steam/" in
        let dst := prefix_dir self +:+ steam_dir in
        makedirs dst ;;;
        copy_steam_files dst steam_dir
          (fun src => steamdir +:+ "/legacycompat/" +:+ src)
          [ ("steamclient.dll", "steamclient.dll");
            ("steamclient64.dll", "steamclient64.dll");
            ("GameOverlayRenderer64.dll", "GameOverlayRenderer64.dll");
            ("SteamService.exe", "steam.exe");
            ("Steam.dll", "Steam.dll") ] ;;;
        copy_steam_files dst steam_dir (Proton.path proton)
          [ ("steamclient64.dll", "steamclient64.dll");
            ("GameOverlayRenderer.dll", "GameOverlayRenderer.dll");
            ("GameOverlayRenderer64.dll", "GameOverlayRenderer64.dll") ]) ;;;

     (* copy openvr files into place *)
     let dst := prefix_dir self +:+ "/drive_c/vrclient/bin/" in
     makedirs dst ;;;
     try_copy_default (Proton.lib_dir proton +:+ "wine/i386-windows/vrclient.dll") dst ;;;
     try_copy_default (Proton.lib64_dir proton +:+ "wine/x86_64-windows/vrclient_x64.dll") dst ;;;

     try_copy_default (Proton.lib_dir proton +:+ "wine/dxvk/openvr_api_dxvk.dll")
       (prefix_dir self +:+ "/drive_c/windows/syswow64/") ;;;
     try_copy_default (Proton.lib64_dir proton +:+ "wine/dxvk/openvr_api_dxvk.dll")
       (prefix_dir self +:+ "/drive_c/windows/system32/") ;;;

     makedirs (prefix_dir self +:+ "/drive_c/openxr/") ;;;
     try_copy_default (Proton.default_pfx_dir proton +:+ "drive_c/openxr/wineopenxr64.json")
       (prefix_dir self +:+ "/drive_c/openxr/") ;;;

     (* copy vkd3d files into place *)
     try_copy_default (Proton.lib64_dir proton +:+ "vkd3d/libvkd3d-shader-1.dll")
       (prefix_dir self +:+ "drive_c/windows/system32/libvkd3d-shader-1.dll") ;;;
     try_copy_default (Proton.lib_dir proton +:+ "vkd3d/libvkd3d-shader-1.dll")
       (prefix_dir self +:+ "drive_c/windows/syswow64/libvkd3d-shader-1.dll") ;;;

     let dxvkfiles :=
       (if use_wined3d then ["dxvk_config"]
        else ["dxvk_config"; "d3d11"; "d3d10"; "d3d10core"; "d3d10_1"; "d3d9"])
       ++ (if use_dxvk_dxgi then ["dxgi"] else []) in
     let wined3dfiles :=
       (if use_wined3d then ["d3d11"; "d3d10"; "d3d10core"; "d3d10_1"; "d3d9"]
        else [])
       ++ (if use_dxvk_dxgi then [] else ["dxgi"]) in

     for_each wined3dfiles (fun f =>
       try_copy_default
         (Proton.default_pfx_dir proton +:+ "drive_c/windows/system32/" +:+ f +:+ ".dll")
         (prefix_dir self +:+ "drive_c/windows/system32/" +:+ f +:+ ".dll") ;;;
       try_copy_default
         (Proton.default_pfx_dir proton +:+ "drive_c/windows/syswow64/" +:+ f +:+ ".dll")
         (prefix_dir self +:+ "drive_c/windows/syswow64/" +:+ f +:+ ".dll")) ;;;

     for_each dxvkfiles (fun f =>
       try_copy_default (Proton.lib64_dir proton +:+ "wine/dxvk/" +:+ f +:+ ".dll")
         (prefix_dir self +:+ "drive_c/windows/system32/" +:+ f +:+ ".dll") ;;;
       try_copy_default (Proton.lib_dir proton +:+ "wine/dxvk/" +:+ f +:+ ".dll")
         (prefix_dir self +:+ "drive_c/windows/syswow64/" +:+ f +:+ ".dll") ;;;
       set_override f "n") ;;;

     (* If the user requested the NVAPI be available, copy it into place.
        If they didn't, clean up any stray nvapi DLLs. *)
     (if use_nvapi then
        try_copy_default (Proton.lib64_dir proton +:+ "wine/nvapi/nvapi64.dll")
          (prefix_dir self +:+ "drive_c/windows/system32/nvapi64.dll") ;;;
        try_copy_default (Proton.lib_dir proton +:+ "wine/nvapi/nvapi.dll")
          (prefix_dir self +:+ "drive_c/windows/syswow64/nvapi.dll") ;;;
        set_override "nvapi64" "n" ;;;
        set_override "nvapi" "n" ;;;
        set_override "nvcuda" "b"
      else
        let nvapi64_dll := prefix_dir self +:+ "drive_c/windows/system32/nvapi64.dll" in
        let nvapi32_dll := prefix_dir self +:+ "drive_c/windows/syswow64/nvapi.dll" in
        ex <- os.path_exists nvapi64_dll ;;
        when ex (os.unlink nvapi64_dll) ;;;
        ex <- os.path_exists nvapi32_dll ;;
        when ex (os.unlink nvapi32_dll)) ;;;

     (* Try to detect known DLLs that ship with the NVIDIA Linux Driver
        and add them into the prefix *)
     match nvidia_wine_dll_dir g_session with
     | Some nvidia_wine_dll_dir =>
         when (negb (String.eqb nvidia_wine_dll_dir ""))
           (for_each ["_nvngx.dll"; "nvngx.dll"] (fun dll =>
              try_copy (nvidia_wine_dll_dir +:+ "/" +:+ dll)
                (prefix_dir self +:+ "drive_c/windows/system32/" +:+ dll)
                true false true true))
     | None => ret tt
     end ;;;

     try_copy_default (Proton.lib64_dir proton +:+ "wine/vkd3d-proton/d3d12.dll")
       (prefix_dir self +:+ "drive_c/windows/system32/d3d12.dll") ;;;
     try_copy_default (Proton.lib_dir proton +:+ "wine/vkd3d-proton/d3d12.dll")
       (prefix_dir self +:+ "drive_c/windows/syswow64/d3d12.dll") ;;;

     let gamedrive_path := prefix_dir self +:+ "dosdevices/s:" in
     if in_config g_session "gamedrive" then
       match try_get_game_library_dir g_session with
       | Some library_dir =>
           if String.eqb library_dir "" then
             lex <- os.path_lexists gamedrive_path ;;
             when lex (os.remove gamedrive_path)
           else
             lex <- os.path_lexists gamedrive_path ;;
             if lex then
               cur_tgt <- os.readlink gamedrive_path ;;
               when (negb (String.eqb cur_tgt library_dir))
                 (os.remove gamedrive_path ;;;
                  os.symlink library_dir gamedrive_path)
             else os.symlink library_dir gamedrive_path
       | None =>
           lex <- os.path_lexists gamedrive_path ;;
           when lex (os.remove gamedrive_path)
       end
     else
       lex <- os.path_lexists gamedrive_path ;;
       when lex (os.remove gamedrive_path)).

End CompatData.

(** ** The vocabulary of the properties *)

(** A symbolic link whose target lies in one of the directories of Wine's
    builtin libraries: a stub whether or not the target still exists *)
Definition builtin_link (root : node) (path : string) : bool :=
  match lstat root path with
  | Some (Link t) => in_builtin_dir t
  | _ => false
  end.

Fixpoint filler (n : nat) : string :=
  match n with O => "" | S k => String "M" (filler k) end.

(** A version tag of the form [major.minor-revision] *)
Definition well_formed_tag (v : string) : bool :=
  match Py.split "-" v with
  | [proton_ver; prefix_ver] =>
      match Py.split "." proton_ver with
      | [major; minor] =>
          bool_decide (is_Some (Py.int major)) && bool_decide (is_Some (Py.int minor))
          && bool_decide (is_Some (Py.int prefix_ver))
      | _ => false
      end
  | _ => false
  end.

Definition upgrading_line (self : CompatData.t) (old_ver : option string) : string :=
  PFX +:+ ("Upgrading prefix from " +:+ CompatData.str_opt old_ver +:+ " to "
           +:+ CURRENT_PREFIX_VERSION +:+ " (" +:+ CompatData.base_dir self +:+ ")")
  +:+ Py.nl.

Definition invalid_version_line : string :=
  PFX +:+ CompatData.invalid_version_msg +:+ Py.nl.

(** What is at [q] satisfies [P]. *)
Definition at_path (q : path) (P : node -> Prop) (w : world) : Prop :=
  exists y, find q (fs w) = Some y /\ P y.

(** [m] keeps the invariant [I], whether it returns or raises. *)
Definition preserves {A} (I : world -> Prop) (m : M A) : Prop :=
  forall w, I w -> I (final (m w)).

(** [m] does not write to the file system. *)
Definition reads_only {A} (m : M A) : Prop :=
  forall w, fs (final (m w)) = fs w /\ wbuf (final (m w)) = wbuf w
            /\ trace (final (m w)) = trace w.

(** Predicates on leaves, and those that do not look at permission bits or
    time stamps *)
Definition leaf_pred (P : node -> Prop) : Prop :=
  forall y, P y -> is_leaf y = true.

Definition meta_pred (P : node -> Prop) : Prop :=
  forall d m t m' t', P (File d m t) -> P (File d m' t').

(** An invariant that looks at the file system, the stream buffer and the
    trace only *)
Definition disk_pred (I : world -> Prop) : Prop :=
  forall w w', fs w = fs w' -> wbuf w = wbuf w' -> trace w = trace w' -> I w -> I w'.

(** Nothing is at [p]. *)
Definition absent (p : path) (w : world) : Prop := find p (fs w) = None.

(** A regular file that the classifier takes for a real one, whatever name
    leads to it: it cannot be read, or its bytes at offset 0x40 are not a
    marker *)
Definition real_file (n : node) : Prop :=
  match n with
  | File d m _ => readable m && has_builtin_marker d = false
  | _ => False
  end.

(** *** A small installation for the examples *)

Module Example.

Definition builtin_dll : node := File (filler 64 +:+ "Wine builtin DLL" +:+ filler 8) 420 5.
Definition plain (data : string) : node := File data 420 1.
Definition plain_files (names : list string) : list (string * node) :=
  (fun n => (n, plain "MZ")) <$> names.

Definition dxvk_names : list string :=
  ["openvr_api_dxvk.dll"; "dxvk_config.dll"; "d3d11.dll"; "d3d10.dll"; "d3d10core.dll";
   "d3d10_1.dll"; "d3d9.dll"; "dxgi.dll"].

(** The tree of [/proton], around a given template *)
Definition proton_tree (template : list (string * node)) : node :=
  Dir [("files", Dir
    [ ("share", Dir [("default_pfx", Dir template)]);
      ("lib", Dir
         [ ("wine", Dir
              [ ("i386-windows", Dir [("vrclient.dll", plain "MZ"); ("user32.dll", builtin_dll)]);
                ("dxvk", Dir (plain_files dxvk_names));
                ("vkd3d-proton", Dir [("d3d12.dll", plain "MZ")]) ]);
           ("vkd3d", Dir [("libvkd3d-shader-1.dll", plain "MZ")]) ]);
      ("lib64", Dir
         [ ("wine", Dir
              [ ("x86_64-windows", Dir [("vrclient_x64.dll", plain "MZ");
                                        ("user32.dll", builtin_dll);
                                        ("game.dll", builtin_dll)]);
                ("dxvk", Dir (plain_files dxvk_names));
                ("vkd3d-proton", Dir [("d3d12.dll", plain "MZ")]) ]);
           ("vkd3d", Dir [("libvkd3d-shader-1.dll", plain "MZ")]) ]) ])].

Definition builtin (name : string) : string * node :=
  (name, Link ("../../../../../lib64/wine/x86_64-windows/" +:+ name)).

(** A template: the registry files, two builtin libraries in [system32] *)
Definition template (user_reg : bool) : list (string * node) :=
  (if user_reg then [("user.reg", plain "user")] else [])
  ++ [ ("system.reg", plain "system");
       ("drive_c", Dir
          [ ("windows", Dir
               [ ("system32", Dir [builtin "user32.dll"; builtin "game.dll"]);
                 ("syswow64", Dir []) ]);
            ("openxr", Dir [("wineopenxr64.json", plain "{}")]) ]) ].

Definition steam_tree : node :=
  Dir [("legacycompat", Dir [("steamclient.dll", plain "MZ"); ("Steam.dll", plain "MZ")])].

Definition root (template : list (string * node)) (compat : list (string * node)) : node :=
  Dir [("proton", proton_tree template); ("steam", steam_tree); ("compat", Dir compat)].

Definition g_session : session :=
  Session {[ "STEAM_COMPAT_CLIENT_INSTALL_PATH" := "/steam" ]} ∅ ∅ "/proton" None 0.

Definition self : CompatData.t := CompatData.init "/compat".

Definition world_of (n : node) : world := World n 100 [] [] [] ∅.

(** A prefix in which the application has put a library of its own at the
    place of a builtin one *)
Definition game_prefix : list (string * node) :=
  [ ("tracked_files", plain ("drive_c/windows/system32/user32.dll" +:+ Py.nl));
    ("pfx", Dir [("drive_c", Dir [("windows", Dir [("system32", Dir
        [ ("user32.dll", Link "/old/lib64/wine/x86_64-windows/user32.dll");
          ("game.dll", File "the game's own library" 420 7) ])])])]) ].

End Example.

Module Example_merge.

(** A profile whose legacy [My Documents] holds the directories [legacy]
    and whose [Documents] already holds a directory [A] *)
Definition saves_A : string * node := ("A", Dir [("a.txt", Example.plain "a")]).
Definition saves_B : string * node := ("B", Dir [("b.txt", Example.plain "b")]).

Definition profile (legacy : list (string * node)) : node :=
  Dir [("compat", Dir [("pfx", Dir [("drive_c", Dir [("users", Dir [("steamuser", Dir
    [ ("My Documents", Dir legacy);
      ("Documents", Dir [("A", Dir [("old.txt", Example.plain "o")])]) ])])])])])].

Definition old : string := "/compat/pfx/drive_c/users/steamuser/My Documents".
Definition new : string := "/compat/pfx/drive_c/users/steamuser/Documents".

End Example_merge.

(** *** The removal of the tracked files, as the specification words it *)

Definition depth (s : string) : nat := length (parse s).

Fixpoint insert_deeper (d : string) (l : list string) : list string :=
  match l with
  | [] => [d]
  | x :: r => if (depth x <? depth d)%nat then d :: l else x :: insert_deeper d r
  end.

(** The directories, deepest first *)
Definition deepest_first (dirs : list string) : list string :=
  foldr insert_deeper [] dirs.

(** [remove_tracked_files] with the directory pass in deepest-first order,
    as the specification describes it; everything else is the code's. *)
Definition remove_tracked_files_deepest_first (self : CompatData.t) : M unit :=
  ex <- os.path_exists (CompatData.tracked_files_file self) ;;
  if negb ex then log "Prefix has no tracked_files??"
  else
    tracked_files <- open_read (CompatData.tracked_files_file self) ;;
    dirs <- fold_each (Py.lines tracked_files) ([] : list string)
      (fun dirs f =>
         let path := CompatData.prefix_dir self +:+ Py.strip f in
         ex <- os.path_exists path ;;
         if ex then
           isf <- os.path_isfile path ;;
           isl <- os.path_islink path ;;
           if isf || isl then os.remove path ;;; ret dirs
           else ret (dirs ++ [path])
         else ret dirs) ;;
    for_each (deepest_first dirs) (fun d =>
      try_except (os.rmdir d)
        (fun e => if is_OSError e then Some (ret tt) else None)) ;;;
    os.remove (CompatData.tracked_files_file self) ;;;
    os.remove (CompatData.version_file self).

Module Example_removal.

(** A prefix whose manifest records the directory [a] before its
    subdirectory [a/b], as [copy_pfx] writes them *)
Definition compat : list (string * node) :=
  [ ("tracked_files", Example.plain ("a/" +:+ Py.nl +:+ "a/b/" +:+ Py.nl +:+ "f.txt" +:+ Py.nl));
    ("version", Example.plain ("7.0-1" +:+ Py.nl));
    ("pfx", Dir [ ("a", Dir [("b", Dir [])]);
                  ("f.txt", Example.plain "f");
                  ("save.dat", Example.plain "s") ]) ].

Definition w : world := Example.world_of (Example.root (Example.template true) compat).

End Example_removal.

(** The name [os.walk] gives the directory reached from [top] through
    [names], and the text it adds to [top] when [top] is a plain name *)
Definition below (top : string) (names : list string) : string :=
  fold_left path_join names top.

Definition slashes (names : list string) : string :=
  fold_right (fun n acc => "/" +:+ n +:+ acc) "" names.

Module Example_migrate.

(** A profile whose [Application Data] is a link that leads elsewhere,
    whose [My Documents] is a directory with a file in it, and that has no
    [Local Settings] *)
Definition profile : node :=
  Dir [("compat", Dir [("pfx", Dir [("drive_c", Dir [("users", Dir [("steamuser", Dir
    [ ("Application Data", Link "/elsewhere");
      ("My Documents", Dir [("save.dat", Example.plain "s")]) ])])])])])].

Definition w : world := Example.world_of profile.

End Example_migrate.

(** *** The removal of the tracked files, as the code does it *)

(** The paths that the lines of a manifest name *)
Definition tracked_paths (self : CompatData.t) (data : string) : list string :=
  (fun f => CompatData.prefix_dir self +:+ Py.strip f) <$> Py.lines data.

(** Each place of [l] holds a node that is [ok] when the places before it
    have been deleted. *)
Fixpoint each_turn (ok : node -> bool) (root : node) (l : list path) : Prop :=
  match l with
  | [] => True
  | p :: r => (exists n, find p root = Some n /\ ok n = true) /\ each_turn ok (del p root) r
  end.

Definition empty_dir (n : node) : bool :=
  match n with Dir [] => true | _ => false end.

(** The world after the deletions [l] *)
Definition deleted (l : list path) (w : world) : world :=
  set_trace (trace w ++ (EDel <$> l)) (set_fs (replay (EDel <$> l) (fs w)) w).

(** *** The events of a run *)

(** An event of the file system, as opposed to a write to the buffer of the
    stream *)
Definition fs_event (e : event) : Prop :=
  match e with EBuf _ => False | _ => True end.

(** The records among the events: what has been written to the stream *)
Definition records (evs : list event) : list string :=
  omap (fun e => match e with EBuf s => Some s | _ => None end) evs.

(** What has happened since [w0]: the events [evs] have been added to the
    trace and have made the file system what it is, the buffer has got the
    records among them, and [G evs] holds. *)
Definition since (G : list event -> Prop) (w0 w : world) : Prop :=
  exists evs, trace w = trace w0 ++ evs /\ fs w = replay evs (fs w0)
              /\ wbuf w = wbuf w0 ++ records evs /\ G evs.

(** The events of a synchronisation with the template [default_pfx_dir]:
    events of the file system, records of files that the manifest did not
    have, and the creation of a directory followed by its record. *)
Inductive sync_events (default_pfx_dir prefix_dir : string) (prev : gset string)
  : list event -> Prop :=
| sync_nil : sync_events default_pfx_dir prefix_dir prev []
| sync_fs evs e :
    sync_events default_pfx_dir prefix_dir prev evs -> fs_event e ->
    sync_events default_pfx_dir prefix_dir prev (evs ++ [e])
| sync_file evs name :
    sync_events default_pfx_dir prefix_dir prev evs -> name ∉ prev ->
    sync_events default_pfx_dir prefix_dir prev (evs ++ [EBuf (name +:+ Py.nl)])
| sync_dir evs src_dir :
    sync_events default_pfx_dir prefix_dir prev evs ->
    sync_events default_pfx_dir prefix_dir prev
      (evs ++ [ EPut (parse (Py.replace1 default_pfx_dir prefix_dir src_dir)) (Dir []);
                EBuf (CompatData.rel_dir_of default_pfx_dir src_dir +:+ Py.nl) ]).

(** The text [os.walk] adds to a [top] that ends with a slash for the
    directory reached through [names] *)
Definition joined (names : list string) : string :=
  match names with
  | [] => ""
  | n :: ns => n +:+ slashes ns
  end.

(** A regular file with the contents [data] *)
Definition holds (data : string) (n : node) : Prop :=
  exists m t, n = File data m t.

(** What closing the stream does when the buffer holds [b] and the file at
    [p] holds [data]: nothing if [b] is empty, else one write *)
Definition flushed (p : path) (data : string) (m : Z) (b : list string)
    (flush : list event) : Prop :=
  match b with
  | [] => flush = []
  | _ :: _ => exists c, flush = [EPut p (File (data +:+ String.concat "" b) m c)]
  end.

Module Example_sync.

(** A prefix that [copy_pfx] has made, from which the empty directory
    [syswow64] has been removed since *)
Definition fresh : world :=
  final (CompatData.copy_pfx Example.g_session Example.self
           (Example.world_of (Example.root (Example.template true) []))).

Definition w : world :=
  final (os.rmdir "/compat/pfx/drive_c/windows/syswow64" fresh).

(** A prefix that lacks two directories of the template *)
Definition game : world :=
  Example.world_of (Example.root (Example.template true) Example.game_prefix).

End Example_sync.

(** *** A prefix that has been set up *)

(** [s] names a regular file, and its bytes *)
Definition regular (root : node) (s : string) : Prop :=
  exists d m t, lstat root s = Some (File d m t).

Definition contents (root : node) (s : string) : option string :=
  match lstat root s with
  | Some (File d _ _) => Some d
  | _ => None
  end.

Definition is_file (n : node) : Prop := exists d m t, n = File d m t.

(** The files whose time stamps enter [prefix_info] *)
Definition fingerprint_files (g_session : session) (steamdir : string) : list string :=
  [ fold_left path_join ["legacycompat"; "steamclient.dll"] steamdir;
    fold_left path_join ["legacycompat"; "steamclient64.dll"] steamdir;
    fold_left path_join ["legacycompat"; "Steam.dll"] steamdir;
    fold_left path_join ["system.reg"] (Proton.default_pfx_dir (g_proton g_session)) ].

(** The names under which [setup_prefix] puts the Steam client files *)
Definition steam_dir : string := "drive_c/Program Files (x86)/Steam/".

Definition steam_targets : list string :=
  [ "steamclient.dll"; "steamclient64.dll"; "GameOverlayRenderer64.dll"; "steam.exe";
    "Steam.dll"; "GameOverlayRenderer.dll" ].

(** The state in which a run of [setup_prefix] leaves an instance: lock,
    version file, fingerprint and manifest are regular files, the version
    file has the current tag and [config_info] the fingerprint [info] of
    the installation, the prefix has its [user.reg], the user paths are
    migrated, the drives are linked and the Steam client files are in
    place. *)
Record settled (g_session : session) (compatdata steamdir info data : string)
    (w : world) : Prop := Settled {
  settled_env :
    environ g_session !! "STEAM_COMPAT_CLIENT_INSTALL_PATH" = Some steamdir;
  settled_buf : wbuf w = [];
  settled_lock :
    regular (fs w) (CompatData.path (CompatData.init compatdata) "pfx.lock");
  settled_version :
    exists m t,
      lstat (fs w) (CompatData.version_file (CompatData.init compatdata))
      = Some (File (CURRENT_PREFIX_VERSION +:+ Py.nl) m t)
      /\ readable m = true;
  settled_config :
    exists m t,
      lstat (fs w) (CompatData.config_info_file (CompatData.init compatdata))
      = Some (File info m t)
      /\ readable m = true;
  settled_manifest :
    exists m t,
      lstat (fs w) (CompatData.tracked_files_file (CompatData.init compatdata))
      = Some (File data m t);
  settled_user_reg :
    regular (fs w) (CompatData.prefix_dir (CompatData.init compatdata) +:+ "/user.reg");
  settled_users :
    Forall (fun entry =>
              lstat (fs w)
                (CompatData.prefix_dir (CompatData.init compatdata) +:+ entry.1.1)
              = Some (Link entry.2)
              /\ forall t, lstat (fs w) entry.1.2 <> Some (Link t))
           (CompatData.user_paths (CompatData.init compatdata));
  settled_drives :
    lstat (fs w) (CompatData.prefix_dir (CompatData.init compatdata) +:+ "/dosdevices/c:")
    <> None
    /\ lstat (fs w)
         (CompatData.prefix_dir (CompatData.init compatdata) +:+ "/dosdevices/z:")
       <> None;
  settled_info : CompatData.prefix_info g_session steamdir w = Ret info w;
  settled_sources :
    Forall (fun s =>
              parse s <> parse (CompatData.path (CompatData.init compatdata) "pfx.lock")
              /\ (regular (fs w) s \/ lstat (fs w) s = None))
           (fingerprint_files g_session steamdir);
  settled_steam :
    Forall (fun tgt =>
              regular (fs w)
                (CompatData.prefix_dir (CompatData.init compatdata) +:+ steam_dir +:+ tgt))
           steam_targets
}.

(** [m] never fails with [EPERM]. *)
Definition no_eperm {A} (m : M A) : Prop :=
  forall w e w', m w = Raise e w' -> e <> OSError EPERM.

Module Example_setup.

(** An installation whose Steam client and Proton directories hold every
    file that [setup_prefix] copies into the Steam directory of a prefix *)
Definition steam_full : node :=
  Dir [("legacycompat",
        Dir (Example.plain_files
               ["steamclient.dll"; "steamclient64.dll"; "GameOverlayRenderer64.dll";
                "SteamService.exe"; "Steam.dll"]))].

Definition proton_full (template : list (string * node)) : node :=
  match Example.proton_tree template with
  | Dir es =>
      Dir (es ++ Example.plain_files
                   ["steamclient64.dll"; "GameOverlayRenderer.dll";
                    "GameOverlayRenderer64.dll"])
  | n => n
  end.

Definition root (user_reg : bool) : node :=
  Dir [("proton", proton_full (Example.template user_reg)); ("steam", steam_full);
       ("compat", Dir [])].

(** The instance before the first run, after it and after the second *)
Definition fresh (user_reg : bool) : world := Example.world_of (root user_reg).

Definition once (user_reg : bool) : world :=
  final (CompatData.setup_prefix Example.g_session Example.self (fresh user_reg)).

Definition twice (user_reg : bool) : world :=
  final (CompatData.setup_prefix Example.g_session Example.self (once user_reg)).

Definition info : string :=
  default "" (contents (fs (once true)) (CompatData.config_info_file Example.self)).

Definition manifest : string :=
  default "" (contents (fs (once true)) (CompatData.tracked_files_file Example.self)).

End Example_setup.

(** ** The environment strings and the session object *)

Definition backslash : ascii := ascii_of_nat 92.

Definition ld_path_var : string := "LD_LIBRARY_PATH".

(** What a piece of pure code comes to: a value, an [IndexError], or the
    end of the fuel that a loop was given *)
Inductive answer (A : Type) :=
| Value (a : A)
| IndexError
| OutOfFuel.

Arguments Value {A} a.
Arguments IndexError {A}.
Arguments OutOfFuel {A}.

Definition prepend_to_env_str (env : gmap string string)
    (variable prepend_str separator : string) : gmap string string :=
  match env !! variable with
  | None => <[variable := prepend_str]> env
  | Some old => <[variable := prepend_str +:+ separator +:+ old]> env
  end.

Definition append_to_env_str (env : gmap string string)
    (variable append_str separator : string) : gmap string string :=
  match env !! variable with
  | None => <[variable := append_str]> env
  | Some old => <[variable := old +:+ separator +:+ append_str]> env
  end.

(** [s[idx]] for an index that may be negative; [None] is [IndexError] *)
Definition char_at (s : string) (idx : Z) : option ascii :=
  let i := if idx <? 0 then Py.len s + idx else idx in
  if (i <? 0) || (Py.len s <=? i) then None else String.get (Z.to_nat i) s.

(** The loop of [comma_escaped]: one step back per backslash *)
Fixpoint comma_escaped_loop (fuel : nat) (s : string) (escaped : bool) (idx : Z)
  : answer bool :=
  match fuel with
  | O => OutOfFuel
  | S k =>
      match char_at s idx with
      | None => IndexError
      | Some c =>
          if Ascii.eqb c backslash
          then comma_escaped_loop k s (negb escaped) (idx - 1)
          else Value escaped
      end
  end.

Definition comma_escaped (s : string) : answer bool :=
  comma_escaped_loop (S (String.length s)) s false (-1).

(** [s.partition(sep)] for a one-character separator *)
Fixpoint partition (sep : ascii) (s : string) : string * string * string :=
  match s with
  | EmptyString => (EmptyString, EmptyString, EmptyString)
  | String c r =>
      if Ascii.eqb c sep then (EmptyString, String sep EmptyString, r)
      else let '(a, b, t) := partition sep r in (String c a, b, t)
  end.

Module Session.

Record t := Make {
  log_file : option path;
  env : gmap string string;
  dlloverrides : gmap string string;
  compat_config : gset string;
  cmdlineappend : list string
}.

Definition set_log_file (f : option path) (self : t) : t :=
  Make f (env self) (dlloverrides self) (compat_config self) (cmdlineappend self).

Definition set_env (e : gmap string string) (self : t) : t :=
  Make (log_file self) e (dlloverrides self) (compat_config self) (cmdlineappend self).

Definition set_compat_config (c : gset string) (self : t) : t :=
  Make (log_file self) (env self) (dlloverrides self) c (cmdlineappend self).

Definition set_cmdlineappend (l : list string) (self : t) : t :=
  Make (log_file self) (env self) (dlloverrides self) (compat_config self) l.

(** The inner loop of [__init__]: while the item ends in an escaping
    backslash, the comma was part of it and the next piece is taken in *)
Fixpoint take_escaped (fuel : nat) (cur config : string) : answer (string * string) :=
  match fuel with
  | O => OutOfFuel
  | S k =>
      match comma_escaped cur with
      | Value true =>
          let '(a, b, c) := partition "," config in
          take_escaped k (Py.slice_to cur (-1) +:+ "," +:+ a) c
      | Value false => Value (cur, config)
      | IndexError => IndexError
      | OutOfFuel => OutOfFuel
      end
  end.

(** The loop [while config:] of [__init__] *)
Fixpoint read_config (fuel : nat) (config : string) (self : t) : answer t :=
  match fuel with
  | O => OutOfFuel
  | S k =>
      if String.eqb config "" then Value self
      else
        let '(cur, sep, config) := partition "," config in
        if Py.startswith cur "cmdlineappend:" then
          match take_escaped (String.length config + 2) cur config with
          | Value (cur, config) =>
              read_config k config
                (set_cmdlineappend
                   (cmdlineappend self
                    ++ [Py.replace (Py.drop 14 cur)
                          (String backslash (String backslash EmptyString))
                          (String backslash EmptyString)])
                   self)
          | IndexError => IndexError
          | OutOfFuel => OutOfFuel
          end
        else read_config k config (set_compat_config ({[cur]} ∪ compat_config self) self)
  end.

(** [Session.__init__], given [os.environ] *)
Definition init (environ : gmap string string) : answer t :=
  let self :=
    Make None environ
      (<["dotnetfx35.exe" := "b"]> (<["steam.exe" := "b"]> ∅)) ∅ [] in
  match (match environ !! "STEAM_COMPAT_CONFIG" with
         | Some config => read_config (S (String.length config)) config self
         | None => Value self
         end) with
  | Value self =>
      (* turn forcelgadd on by default unless it is disabled in compat config *)
      Value (if bool_decide ("noforcelgadd" ∈ compat_config self) then self
             else set_compat_config ({["forcelgadd"]} ∪ compat_config self) self)
  | IndexError => IndexError
  | OutOfFuel => OutOfFuel
  end.

Definition init_wine (environ : gmap string string) (g_proton : Proton.t)
    (g_compatdata : CompatData.t) (self : t) : t :=
  let env := env self in
  let env :=
    match env !! "HOST_LC_ALL" with
    | Some v =>
        if 0 <? Py.len v then
          (* steam sets LC_ALL=C to help some games, but Wine requires the
             real value *)
          <["LC_ALL" := v]> env
        else delete "LC_ALL" env
    | None => delete "LC_ALL" env
    end in
  let env := delete "WINEARCH" env in
  let env :=
    match environ !! ("ORIG_" +:+ ld_path_var) with
    | None =>
        (* Allow wine to restore this when calling an external app. *)
        <["ORIG_" +:+ ld_path_var := default "" (environ !! ld_path_var)]> env
    | Some _ => env
    end in
  let env :=
    prepend_to_env_str env ld_path_var
      (Proton.lib64_dir g_proton +:+ ":" +:+ Proton.lib_dir g_proton) ":" in
  let env :=
    <["WINEDLLPATH" := Proton.lib64_dir g_proton +:+ "/wine:"
                       +:+ Proton.lib_dir g_proton +:+ "/wine"]> env in
  let env :=
    <["GST_PLUGIN_SYSTEM_PATH_1_0" :=
        Proton.lib64_dir g_proton +:+ "gstreamer-1.0" +:+ ":"
        +:+ Proton.lib_dir g_proton +:+ "gstreamer-1.0"]> env in
  let env :=
    <["WINE_GST_REGISTRY_DIR" := CompatData.path g_compatdata "gstreamer-1.0/"]> env in
  let env :=
    match environ !! "STEAM_COMPAT_MEDIA_PATH" with
    | Some p =>
        <["MEDIACONV_VIDEO_DUMP_FILE" := p +:+ "/video.foz"]>
          (<["MEDIACONV_AUDIO_DUMP_FILE" := p +:+ "/audio.foz"]> env)
    | None => env
    end in
  let env :=
    match environ !! "STEAM_COMPAT_TRANSCODED_MEDIA_PATH" with
    | Some p =>
        <["MEDIACONV_VIDEO_TRANSCODED_FILE" := p +:+ "/transcoded_video.foz"]>
          (<["MEDIACONV_AUDIO_TRANSCODED_FILE" := p +:+ "/transcoded_audio.foz"]> env)
    | None => env
    end in
  set_env (prepend_to_env_str env "PATH" (Proton.bin_dir g_proton) ":") self.

Definition check_environment (self : t) (env_name config_name : string) : bool * t :=
  match env self !! env_name with
  | None => (false, self)
  | Some v =>
      (true,
       if nonzero v then set_compat_config ({[config_name]} ∪ compat_config self) self
       else set_compat_config (compat_config self ∖ {[config_name]}) self)
  end.

Definition setup_logging (environ : gmap string string) (self : t)
    (append_forever : bool) : M (bool * t) :=
  basedir <- match environ !! "HOME" with
             | Some home => ret (default home (env self !! "PROTON_LOG_DIR"))
             | None => raise KeyError
             end ;;
  lfile <-
    (if append_forever then
       (* SteamGameId is not always available *)
       ret (Some (basedir +:+ "/steam-proton.log"))
     else
       match environ !! "SteamGameId" with
       | None => ret None
       | Some id =>
           let lfile_path := basedir +:+ "/steam-" +:+ id +:+ ".log" in
           ex <- os.path_exists lfile_path ;;
           when ex (os.remove lfile_path) ;;;
           ret (Some lfile_path)
       end) ;;
  match lfile with
  | None => ret (false, self)
  | Some lfile_path =>
      makedirs basedir ;;;
      f <- open_write false lfile_path ;;
      ret (true, set_log_file (Some f) self)
  end.

End Session.

(** [Proton.cleanup_legacy_dist] and [Proton.missing_default_prefix] *)
Definition cleanup_legacy_dist (self : Proton.t) : M unit :=
  let old_dist_dir := Proton.path self "dist/" in
  ex <- os.path_exists old_dist_dir ;;
  when ex
    (CompatData.with_lock (Proton.path self "dist.lock")
       (ex' <- os.path_exists old_dist_dir ;;
        when ex' (shutil.rmtree old_dist_dir))).

Definition missing_default_prefix (self : Proton.t) : M bool :=
  d <- os.path_isdir (Proton.default_pfx_dir self) ;;
  ret (negb d).

(** A run of [n] backslashes *)
Fixpoint backslashes (n : nat) : string :=
  match n with
  | O => EmptyString
  | S k => String backslash (backslashes k)
  end.

(** [s] has a character that is not a backslash. *)
Definition has_plain (s : string) : Prop :=
  exists u c n, c <> backslash /\ s = (u +:+ String c EmptyString) +:+ backslashes n.

(** The fields of a comma-separated string, an empty last field left
    out *)
Definition listed (config : string) : list string :=
  let l := Py.split "," config in
  if String.eqb (List.last l "") "" then removelast l else l.

(** The way an argument for the command line is written in
    [STEAM_COMPAT_CONFIG]: each backslash doubled, a backslash before each
    comma *)
Fixpoint escape_arg (x : string) : string :=
  match x with
  | EmptyString => EmptyString
  | String c r =>
      if Ascii.eqb c backslash then String backslash (String backslash (escape_arg r))
      else if Ascii.eqb c "," then String backslash (String "," (escape_arg r))
      else String c (escape_arg r)
  end.

(** Each backslash doubled *)
Fixpoint doubled (x : string) : string :=
  match x with
  | EmptyString => EmptyString
  | String c r =>
      if Ascii.eqb c backslash then String backslash (String backslash (doubled r))
      else String c (doubled r)
  end.

(** What a configuration string is made of *)
Inductive item :=
| Flag (f : string)
| Arg (x : string).

Definition written (i : item) : string :=
  match i with
  | Flag f => f
  | Arg x => "cmdlineappend:" +:+ escape_arg x
  end.

Definition flags (l : list item) : list string :=
  omap (fun i => match i with Flag f => Some f | Arg _ => None end) l.

Definition args (l : list item) : list string :=
  omap (fun i => match i with Arg x => Some x | Flag _ => None end) l.

(** A flag as one writes it: not empty, without a comma, and not an
    argument *)
Definition plain_flag (i : item) : Prop :=
  match i with
  | Flag f =>
      f <> "" /\ Py.contains "," f = false /\ Py.startswith f "cmdlineappend:" = false
  | Arg _ => True
  end.

(** The variables that [init_wine] sets or unsets *)
Definition init_wine_variables : list string :=
  [ "LC_ALL"; "WINEARCH"; "ORIG_LD_LIBRARY_PATH"; "LD_LIBRARY_PATH"; "WINEDLLPATH";
    "GST_PLUGIN_SYSTEM_PATH_1_0"; "WINE_GST_REGISTRY_DIR";
    "MEDIACONV_AUDIO_DUMP_FILE"; "MEDIACONV_VIDEO_DUMP_FILE";
    "MEDIACONV_AUDIO_TRANSCODED_FILE"; "MEDIACONV_VIDEO_TRANSCODED_FILE"; "PATH" ].

(** [m] raises nothing but [OSError]. *)
Definition raises_oserror {A} (m : M A) : Prop :=
  forall w e w', m w = Raise e w' -> is_OSError e = true.

(** The name [p] is free for a link: nothing is there, or a link. *)
Definition free_name (p : path) (w : world) : Prop :=
  find p (fs w) = None \/ exists t, find p (fs w) = Some (Link t).

(** One round of the loop of [create_fonts_symlinks] *)
Definition font_step (windowsfonts : string) (p : string * string * string) : M unit :=
  let lname := path_join windowsfonts p.2 in
  let fname := path_join p.1.1 p.1.2 in
  lex <- os.path_lexists lname ;;
  if lex then
    lnk <- os.path_islink lname ;;
    when lnk (os.remove lname ;;; os.symlink fname lname)
  else os.symlink fname lname.

(** A regular file that holds the bytes [d] *)
Definition file_of (d : string) (n : node) : Prop := exists m t, n = File d m t.

(** * Properties *)

(** ** Strings *)

Example split_current : Py.split "-" "6.20-GE-1" = ["6.20"; "GE"; "1"].
Proof. reflexivity. Qed.

Example split_lines :
  Py.lines ("a/" +:+ Py.nl +:+ "b c" +:+ Py.nl +:+ "d")
  = ["a/" +:+ Py.nl; "b c" +:+ Py.nl; "d"].
Proof. reflexivity. Qed.

Example int_examples :
  Py.int " 20 " = Some 20 /\ Py.int "GE" = None /\ Py.int "1_0" = Some 10
  /\ Py.int "" = None /\ Py.int "-3" = Some (-3) /\ Py.int "1__0" = None.
Proof. repeat split; reflexivity. Qed.

Example hex_example : Py.hex 255 = "ff" /\ Py.hex 0 = "0" /\ Py.str_int 1203 = "1203".
Proof. repeat split; reflexivity. Qed.

Example fnmatch_example :
  Py.fnmatch "d3dx9_43.dll" "d3dx*.dll" = true /\ Py.fnmatch "ntdll.dll" "d3dx*.dll" = false.
Proof. split; reflexivity. Qed.

Lemma length_drop (n : nat) (s : string) :
  String.length (Py.drop n s) = (String.length s - n)%nat.
Proof.
  revert s; induction n as [|n IH]; intros [|c r]; simpl; auto with lia.
Qed.

Lemma length_take_le (n : nat) (s : string) :
  (String.length (Py.take n s) <= String.length s)%nat.
Proof.
  revert s; induction n as [|n IH]; intros [|c r]; simpl; auto with lia.
  specialize (IH r); lia.
Qed.

Lemma prefix_length (p s : string) :
  String.prefix p s = true -> (String.length p <= String.length s)%nat.
Proof.
  revert s; induction p as [|c p IH]; intros [|d s]; simpl; try lia; try discriminate.
  destruct (Ascii.ascii_dec c d); [|discriminate].
  intros H; apply IH in H; lia.
Qed.

Lemma short_file_has_no_marker (data : string) :
  (String.length data < 64 + 16)%nat -> has_builtin_marker data = false.
Proof.
  intros Hlen. unfold has_builtin_marker, builtin_markers, Py.startswith.
  pose proof (length_take_le 20 (Py.drop 64 data)) as Ht.
  rewrite length_drop in Ht.
  generalize dependent (Py.take 20 (Py.drop 64 data)); intros tag Ht.
  cbn [existsb]. rewrite orb_false_r.
  apply orb_false_intro;
    (destruct (String.prefix _ tag) eqn:E; [|reflexivity];
     apply prefix_length in E; cbn [String.length] in E; lia).
Qed.

(** ** The stub classifier *)

Lemma follow_not_link (fuel : nat) (root : node) (p : path) :
  (forall t, find p root <> Some (Link t)) ->
  follow fuel root p = Some (p, find p root).
Proof.
  intros H. destruct fuel; simpl; destruct (find p root) as [[| t |]|] eqn:E;
    try reflexivity; exfalso; eapply H; reflexivity.
Qed.

Lemma stat_not_link (root : node) (s : string) :
  (forall t, lstat root s <> Some (Link t)) -> stat root s = lstat root s.
Proof.
  intros H. unfold stat, resolve. rewrite follow_not_link by exact H. reflexivity.
Qed.

Lemma follow_never_link (fuel : nat) (root : node) (p q : path) (t : string) :
  follow fuel root p <> Some (q, Some (Link t)).
Proof.
  revert p; induction fuel as [|k IH]; intros p; simpl;
    destruct (find p root) as [[| t' |]|] eqn:E; try congruence; auto.
Qed.

Lemma open_read_pure (s : string) (w w' : world) (data : string) :
  open_read s w = Ret data w' -> w' = w.
Proof.
  unfold open_read, bind, get_fs, ret, raise.
  destruct (resolve (fs w) s) as [[p [[d m t| |]|]]|]; try discriminate.
  destruct (Py.endswith s "/"); [discriminate|].
  destruct (readable m); [|discriminate]. congruence.
Qed.

Lemma open_read_final (s : string) (w : world) : final (open_read s w) = w.
Proof.
  unfold open_read, bind, get_fs, ret, raise.
  destruct (resolve (fs w) s) as [[p [[d m t| |]|]]|]; try reflexivity.
  destruct (Py.endswith s "/"); [reflexivity|].
  destruct (readable m); reflexivity.
Qed.

Lemma open_read_missing (s : string) (w : world) :
  stat (fs w) s = None -> returns (open_read s w) = false.
Proof.
  unfold stat, open_read, bind, get_fs, ret, raise.
  destruct (resolve (fs w) s) as [[p [x|]]|]; try discriminate; reflexivity.
Qed.

(** ** Running monadic code *)

Lemma run_bind {A B} (m : M A) (k : A -> M B) (w : world) :
  bind m k w = match m w with
               | Ret a w' => k a w'
               | Raise e w' => Raise e w'
               end.
Proof. reflexivity. Qed.

Lemma run_ret {A} (a : A) (w : world) : ret a w = Ret a w.
Proof. reflexivity. Qed.

Lemma run_raise {A} (e : exn) (w : world) : raise e w = @Raise A e w.
Proof. reflexivity. Qed.

Lemma run_if {A} (c : bool) (m1 m2 : M A) (w : world) :
  (if c then m1 else m2) w = if c then m1 w else m2 w.
Proof. destruct c; reflexivity. Qed.

Lemma run_when (c : bool) (m : M unit) (w : world) :
  when c m w = if c then m w else Ret tt w.
Proof. destruct c; reflexivity. Qed.

Lemma run_try_except {A} (m : M A) (h : exn -> option (M A)) (w : world) :
  try_except m h w = match m w with
                     | Ret a w' => Ret a w'
                     | Raise e w' => match h e with
                                     | Some k => k w'
                                     | None => Raise e w'
                                     end
                     end.
Proof. reflexivity. Qed.

Lemma run_get_fs (w : world) : get_fs w = Ret (fs w) w.
Proof. reflexivity. Qed.

Lemma run_lexists (s : string) (w : world) :
  os.path_lexists s w = Ret (match lstat (fs w) s with Some _ => true | None => false end) w.
Proof. reflexivity. Qed.

Lemma run_exists (s : string) (w : world) :
  os.path_exists s w = Ret (match stat (fs w) s with Some _ => true | None => false end) w.
Proof. reflexivity. Qed.

Lemma run_islink (s : string) (w : world) :
  os.path_islink s w = Ret (match lstat (fs w) s with Some (Link _) => true | _ => false end) w.
Proof. reflexivity. Qed.

Lemma run_isfile (s : string) (w : world) :
  os.path_isfile s w = Ret (match stat (fs w) s with Some (File _ _ _) => true | _ => false end) w.
Proof. reflexivity. Qed.

Lemma run_isdir (s : string) (w : world) :
  os.path_isdir s w = Ret (match stat (fs w) s with Some (Dir _) => true | _ => false end) w.
Proof. reflexivity. Qed.

Lemma run_readlink (s t : string) (w : world) :
  lstat (fs w) s = Some (Link t) -> os.readlink s w = Ret t w.
Proof. unfold os.readlink, bind, get_fs. intros ->. reflexivity. Qed.

Create Rewrite HintDb run.
#[export] Hint Rewrite @run_bind @run_ret @run_raise @run_if run_when @run_try_except
  run_get_fs run_lexists run_exists run_islink run_isfile run_isdir : run.

Ltac mrun := repeat (autorewrite with run; cbv beta iota).

Lemma open_read_OSError (s : string) (w w' : world) (e : exn) :
  open_read s w = Raise e w' -> is_OSError e = true /\ w' = w.
Proof.
  unfold open_read, bind, get_fs, ret, raise, path_error.
  destruct (resolve (fs w) s) as [[p [[d m t| |]|]]|];
    try (intros [= <- <-]; split; reflexivity); try discriminate.
  - destruct (Py.endswith s "/"); [intros [= <- <-]; split; reflexivity|].
    destruct (readable m); [discriminate|]. intros [= <- <-]; split; reflexivity.
  - destruct (blocked p (fs w)) as [[]|]; intros [= <- <-]; split; reflexivity.
Qed.

(** C10, as amended.  The classifier returns a boolean on every path and
    changes nothing.  A link into a directory of Wine's builtin libraries is
    a stub.  Otherwise the answer is [False] when the path does not exist and
    when the file cannot be opened or read (the [IOError] is absorbed), and
    for a file that can be read it is [True] exactly when the bytes read at
    offset 0x40, at most twenty, begin with one of the two markers; a file
    too short to hold the sixteen bytes of the shorter marker there gives
    [False]. *)
Theorem file_is_wine_builtin_dll_total (w : world) (path : string) :
  exists b : bool,
    file_is_wine_builtin_dll path w = Ret b w
    /\ (builtin_link (fs w) path = true -> b = true)
    /\ (builtin_link (fs w) path = false ->
        (stat (fs w) path = None -> b = false)
        /\ (returns (open_read path w) = false -> b = false)
        /\ (forall data, open_read path w = Ret data w ->
            b = has_builtin_marker data
            /\ ((String.length data < 64 + 16)%nat -> b = false))).
Proof.
  unfold file_is_wine_builtin_dll, builtin_link.
  rewrite run_bind, run_islink. cbv beta iota.
  assert (Hbroken :
    (if match lstat (fs w) path with Some (Link _) => true | _ => false end
     then contents <- os.readlink path ;; ret (in_builtin_dir contents)
     else ret false) w
    = Ret (match lstat (fs w) path with Some (Link t) => in_builtin_dir t | _ => false end) w).
  { destruct (lstat (fs w) path) as [[d m t| t |es]|] eqn:Hl; try reflexivity.
    rewrite run_bind, (run_readlink _ t) by exact Hl. reflexivity. }
  rewrite run_bind, Hbroken. cbv beta iota. clear Hbroken.
  destruct (match lstat (fs w) path with Some (Link t) => in_builtin_dir t | _ => false end).
  { exists true. split; [reflexivity|]. split; [reflexivity|discriminate]. }
  rewrite run_bind, run_exists. cbv beta iota.
  destruct (stat (fs w) path) as [x|] eqn:Hs; cbn [negb].
  - rewrite run_try_except, run_bind.
    destruct (open_read path w) as [data w'|e w'] eqn:Ho.
    + pose proof (open_read_pure _ _ _ _ Ho); subst w'.
      exists (has_builtin_marker data).
      split; [reflexivity|]. split; [discriminate|]. intros _.
      split; [discriminate|]. split; [discriminate|].
      intros data0 [= <-]. split; [reflexivity|]. apply short_file_has_no_marker.
    + destruct (open_read_OSError _ _ _ _ Ho) as [-> ->].
      exists false.
      split; [reflexivity|]. split; [discriminate|]. intros _.
      split; [reflexivity|]. split; [reflexivity|]. discriminate.
  - exists false.
    split; [reflexivity|]. split; [discriminate|]. intros _.
    split; [reflexivity|]. split; [reflexivity|].
    intros data Hd. apply open_read_missing in Hs. rewrite Hd in Hs. discriminate.
Qed.

(** C10 as stated fails: a file of eighty bytes is too short to carry twenty
    bytes at offset 0x40, yet it is classified as a stub when its last
    sixteen bytes are the marker of a builtin library. *)
Lemma short_marker_counterexample :
  let w := World (Dir [("stub.dll", File (filler 64 +:+ "Wine builtin DLL") 420 0)]) 0 [] [] [] ∅ in
  (exists data, open_read "/stub.dll" w = Ret data w
                /\ (String.length data < 64 + 20)%nat)
  /\ file_is_wine_builtin_dll "/stub.dll" w = Ret true w.
Proof.
  split; [eexists; split; [reflexivity|vm_compute; lia]|reflexivity].
Qed.

(** ** [upgrade_pfx] *)

Lemma run_log (msg : string) (w : world) :
  log msg w = Ret tt (set_stderr (stderr w ++ [PFX +:+ msg +:+ Py.nl]) w).
Proof. reflexivity. Qed.

Lemma set_stderr_twice (l1 l2 : list string) (w : world) :
  set_stderr l2 (set_stderr l1 w) = set_stderr l2 w.
Proof. reflexivity. Qed.

(** Whatever tag is recorded, [upgrade_pfx] only writes to standard error:
    the current tag does not split into two parts at its dashes, so the
    comparison of versions is never reached. *)
Lemma upgrade_pfx_run (g_session : session) (self : CompatData.t) (old : string)
    (w : world) :
  CompatData.upgrade_pfx g_session self (Some old) w
  = if bool_decide (old = CURRENT_PREFIX_VERSION) then Ret tt w
    else Ret tt (set_stderr
                   (stderr w ++ [upgrading_line self (Some old); invalid_version_line]) w).
Proof.
  unfold CompatData.upgrade_pfx.
  destruct (bool_decide (old = CURRENT_PREFIX_VERSION)) eqn:Hcur.
  - apply bool_decide_eq_true in Hcur. subst old.
    rewrite bool_decide_eq_true_2 by reflexivity. reflexivity.
  - apply bool_decide_eq_false in Hcur.
    rewrite bool_decide_eq_false_2 by congruence.
    rewrite run_bind, run_log. cbv beta iota.
    assert (Hfin : forall w0 : world,
      log CompatData.invalid_version_msg
        (set_stderr (stderr w ++ [upgrading_line self (Some old)]) w0)
      = Ret tt (set_stderr
                  (stderr w ++ [upgrading_line self (Some old); invalid_version_line]) w0)).
    { intros w0. rewrite run_log. cbn [stderr set_stderr].
      rewrite <- app_assoc. reflexivity. }
    fold (upgrading_line self (Some old)).
    rewrite run_if. destruct (Py.contains "-" old); cbn [negb]; [|apply Hfin].
    rewrite run_try_except, run_bind.
    destruct (Py.split "-" old) as [|a [|b [|c l]]]; cbn [CompatData.unpack2];
      rewrite ?run_raise, ?run_ret; cbv beta iota; try apply Hfin.
    rewrite run_bind.
    destruct (Py.split "." a) as [|a1 [|a2 [|a3 l]]]; cbn [CompatData.unpack2];
      rewrite ?run_raise, ?run_ret; cbv beta iota; try apply Hfin.
Qed.

Lemma upgrade_pfx_run_None (g_session : session) (self : CompatData.t) (w : world) :
  CompatData.upgrade_pfx g_session self None w
  = Ret tt (set_stderr (stderr w ++ [upgrading_line self None]) w).
Proof. reflexivity. Qed.

Lemma current_tag_malformed : well_formed_tag CURRENT_PREFIX_VERSION = false.
Proof. reflexivity. Qed.

(** C5, as amended.  For a malformed tag [upgrade_pfx] returns without
    touching the file system, the trace or the stream buffer; it logs the
    condition unless the recorded tag is the current tag itself
    (["6.20-GE-1"], which is not of the form [major.minor-revision]), in which
    case it returns at once and logs nothing. *)
Theorem upgrade_pfx_malformed (g_session : session) (self : CompatData.t)
    (old : string) (w : world) :
  well_formed_tag old = false ->
  exists w',
    CompatData.upgrade_pfx g_session self (Some old) w = Ret tt w'
    /\ fs w' = fs w /\ trace w' = trace w /\ wbuf w' = wbuf w
    /\ (old <> CURRENT_PREFIX_VERSION ->
        stderr w' = stderr w ++ [upgrading_line self (Some old); invalid_version_line])
    /\ (old = CURRENT_PREFIX_VERSION -> w' = w).
Proof.
  intros _. rewrite upgrade_pfx_run.
  destruct (bool_decide (old = CURRENT_PREFIX_VERSION)) eqn:Hcur.
  - apply bool_decide_eq_true in Hcur. exists w. repeat split; auto. congruence.
  - apply bool_decide_eq_false in Hcur. eexists. split; [reflexivity|].
    repeat split; auto. congruence.
Qed.

Lemma upgrade_pfx_malformed_witness :
  let self := CompatData.init "/compat" in
  let g := Session ∅ ∅ ∅ "/proton" None 0 in
  let w := World (Dir [("compat", Dir [("version", File "garbage" 420 0)])]) 0 [] [] [] ∅ in
  well_formed_tag "garbage" = false
  /\ exists w', CompatData.upgrade_pfx g self (Some "garbage") w = Ret tt w'
       /\ fs w' = fs w /\ trace w' = trace w /\ wbuf w' = wbuf w
       /\ ("garbage" <> CURRENT_PREFIX_VERSION ->
           stderr w' = stderr w ++ [upgrading_line self (Some "garbage"); invalid_version_line])
       /\ ("garbage" = CURRENT_PREFIX_VERSION -> w' = w).
Proof.
  intros self g w. split; [reflexivity|].
  apply (upgrade_pfx_malformed g self "garbage" w). reflexivity.
Defined.

(** C5 as stated fails at the current tag: it does not parse as
    [major.minor-revision], and [upgrade_pfx] logs nothing for it. *)
Lemma current_tag_counterexample :
  let self := CompatData.init "/compat" in
  let g := Session ∅ ∅ ∅ "/proton" None 0 in
  let w := World (Dir [("compat", Dir [("version", File "6.20-GE-1" 420 0)])]) 0 [] [] [] ∅ in
  well_formed_tag "6.20-GE-1" = false
  /\ stderr (final (CompatData.upgrade_pfx g self (Some "6.20-GE-1") w)) = [].
Proof. split; reflexivity. Qed.

(** C1 fails on the code.  For the recorded tag ["7.0-1"], which is newer
    than the current ["6.20-GE-1"], [upgrade_pfx] reports an invalid version
    and returns: no manifest is synthesised, [remove_tracked_files] is not
    called and nothing is deleted.  Likewise for ["5.0-1"] no forward patch
    runs. *)
Theorem upgrade_pfx_never_wipes (g_session : session) (self : CompatData.t) (w : world) :
  (exists w', CompatData.upgrade_pfx g_session self (Some "7.0-1") w = Ret tt w'
     /\ fs w' = fs w /\ trace w' = trace w
     /\ stderr w' = stderr w ++ [upgrading_line self (Some "7.0-1"); invalid_version_line])
  /\ (exists w', CompatData.upgrade_pfx g_session self (Some "5.0-1") w = Ret tt w'
     /\ fs w' = fs w /\ trace w' = trace w
     /\ stderr w' = stderr w ++ [upgrading_line self (Some "5.0-1"); invalid_version_line]).
Proof.
  split; rewrite upgrade_pfx_run; (eexists; split; [reflexivity|]); repeat split.
Qed.

(** ** The file-system tree *)

Lemma eqb_string_true (a b : string) : String.eqb a b = true <-> a = b.
Proof. apply String.eqb_eq. Qed.

Lemma eqb_string_false (a b : string) : String.eqb a b = false <-> a <> b.
Proof. apply String.eqb_neq. Qed.

Lemma is_prefix_app (p q : path) : is_prefix p q = true <-> exists r, q = p ++ r.
Proof.
  revert q; induction p as [|c p IH]; intros q; simpl.
  - split; eauto.
  - destruct q as [|d q].
    + split; [discriminate|intros [r Hr]; discriminate].
    + rewrite andb_true_iff, eqb_string_true, IH. split.
      * intros [-> [r ->]]. eauto.
      * intros [r [= -> ->]]. eauto.
Qed.

Lemma is_prefix_refl (p : path) : is_prefix p p = true.
Proof. apply is_prefix_app. exists []. now rewrite app_nil_r. Qed.

Lemma path_eqb_eq (p q : path) : path_eqb p q = true <-> p = q.
Proof.
  unfold path_eqb. rewrite andb_true_iff, !is_prefix_app. split.
  - intros [[r ->] [r' Hr']].
    rewrite <- app_assoc in Hr'. rewrite <- (app_nil_r p) in Hr' at 1.
    apply app_inv_head in Hr'. symmetry in Hr'. apply app_eq_nil in Hr' as [-> _].
    now rewrite app_nil_r.
  - intros ->. split; exists []; now rewrite app_nil_r.
Qed.

Lemma assoc_replace_eq c v es : assoc c (replace_entry c v es) = Some v.
Proof.
  induction es as [|[k x] r IH]; simpl.
  - now rewrite String.eqb_refl.
  - destruct (String.eqb k c) eqn:E; simpl; rewrite E; auto.
Qed.

Lemma assoc_replace_ne c c' v es :
  c <> c' -> assoc c' (replace_entry c v es) = assoc c' es.
Proof.
  intros Hne. induction es as [|[k x] r IH]; simpl.
  - apply eqb_string_false in Hne. now rewrite Hne.
  - destruct (String.eqb k c) eqn:E; simpl.
    + apply eqb_string_true in E; subst k.
      apply eqb_string_false in Hne. now rewrite Hne.
    + now rewrite IH.
Qed.

Lemma assoc_remove_eq c es : assoc c (remove_entry c es) = None.
Proof.
  induction es as [|[k x] r IH]; simpl; auto.
  destruct (String.eqb k c) eqn:E; simpl; rewrite ?E; auto.
Qed.

Lemma assoc_remove_ne c c' es :
  c <> c' -> assoc c' (remove_entry c es) = assoc c' es.
Proof.
  intros Hne. induction es as [|[k x] r IH]; simpl; auto.
  destruct (String.eqb k c) eqn:E; simpl.
  - apply eqb_string_true in E; subst k.
    apply eqb_string_false in Hne. now rewrite Hne.
  - now rewrite IH.
Qed.

Lemma assoc_set_eq c v es : assoc c (set_entry c v es) = v.
Proof. destruct v; simpl; [apply assoc_replace_eq|apply assoc_remove_eq]. Qed.

Lemma assoc_set_ne c c' v es : c <> c' -> assoc c' (set_entry c v es) = assoc c' es.
Proof. destruct v; simpl; [apply assoc_replace_ne|apply assoc_remove_ne]. Qed.

Lemma find_app (p r : path) (n : node) :
  find (p ++ r) n = match find p n with
                    | Some x => find r x
                    | None => None
                    end.
Proof.
  revert n; induction p as [|c p IH]; intros n; simpl; auto.
  destruct n as [| |es]; auto. destruct (assoc c es); auto.
Qed.

Lemma find_leaf (p : path) (n : node) :
  is_leaf n = true -> p <> [] -> find p n = None.
Proof. destruct p; [congruence|]. destruct n; simpl; auto; discriminate. Qed.

(** Nothing lies under a leaf, an empty directory or a missing entry. *)
Definition childless (o : option node) : Prop :=
  match o with
  | Some (Dir (_ :: _)) => False
  | _ => True
  end.

Lemma find_childless (p : path) (n : node) :
  childless (Some n) -> p <> [] -> find p n = None.
Proof.
  destruct p as [|c p]; [congruence|]. destruct n as [| |[|e es]]; simpl; auto. contradiction.
Qed.

Lemma childless_not_prefix (p q : path) (n : node) (x : node) :
  childless (find p n) -> find q n = Some x -> p <> q -> is_prefix p q = false.
Proof.
  intros Hc Hq Hne. destruct (is_prefix p q) eqn:E; auto.
  apply is_prefix_app in E as [r ->]. rewrite find_app in Hq.
  destruct (find p n) as [y|]; [|discriminate].
  destruct r as [|c r]; [now rewrite app_nil_r in Hne|].
  rewrite find_childless in Hq; [discriminate|auto|discriminate].
Qed.

Lemma leaf_childless (x : node) : is_leaf x = true -> childless (Some x).
Proof. destruct x; simpl; auto; discriminate. Qed.

Lemma upd_leaf (p : path) f (n : node) : is_leaf n = true -> upd p f n = n.
Proof. destruct p; auto. destruct n; auto; discriminate. Qed.

(** Updating at [p] leaves alone every leaf that is not at or under [p]. *)
Lemma find_upd_leaf (p q : path) f (n x : node) :
  find q n = Some x -> is_leaf x = true -> is_prefix p q = false ->
  find q (upd p f n) = Some x.
Proof.
  revert q n; induction p as [|c p IH]; intros q n Hq Hx Hp; [discriminate|].
  destruct q as [|c' q].
  - simpl in Hq. injection Hq as ->. rewrite upd_leaf by auto. reflexivity.
  - destruct n as [| |es]; try discriminate.
    simpl in Hq. destruct (assoc c' es) as [ch|] eqn:Ha; [|discriminate].
    simpl in Hp. cbn [upd].
    destruct (String.eqb c c') eqn:E.
    + apply eqb_string_true in E; subst c'. simpl in Hp.
      destruct p as [|d p]; [discriminate|].
      rewrite Ha. cbn [find]. rewrite assoc_replace_eq. now apply IH.
    + apply eqb_string_false in E.
      destruct p as [|d p].
      * cbn [find]. rewrite assoc_set_ne by auto. now rewrite Ha.
      * destruct (assoc c es); cbn [find].
        -- rewrite assoc_replace_ne by auto. now rewrite Ha.
        -- now rewrite Ha.
Qed.

(** Updating at [p] leaves alone whatever is neither above nor below [p]. *)
Lemma find_upd_unrelated (p q : path) f (n : node) :
  is_prefix p q = false -> is_prefix q p = false ->
  find q (upd p f n) = find q n.
Proof.
  revert q n; induction p as [|c p IH]; intros q n Hp Hq; [discriminate|].
  destruct q as [|c' q]; [discriminate|].
  destruct n as [| |es]; auto.
  simpl in Hp, Hq. cbn [upd].
  destruct (String.eqb c c') eqn:E.
  - apply eqb_string_true in E; subst c'. rewrite String.eqb_refl in Hq. simpl in Hp, Hq.
    destruct p as [|d p]; [discriminate|].
    destruct (assoc c es) as [ch|] eqn:Ha; auto.
    cbn [find]. rewrite assoc_replace_eq, Ha. now apply IH.
  - apply eqb_string_false in E.
    destruct p as [|d p].
    + cbn [find]. now rewrite assoc_set_ne.
    + destruct (assoc c es); cbn [find]; auto. now rewrite assoc_replace_ne.
Qed.

(** What an update at [p] whose parent is a directory leaves at [p] *)
Lemma find_upd_eq (p : path) f (n : node) :
  blocked p n = None -> p <> [] -> find p (upd p f n) = f (find p n).
Proof.
  revert n; induction p as [|c p IH]; intros n Hb Hne; [congruence|].
  destruct n as [| |es]; try discriminate.
  cbn [upd blocked find] in *. destruct p as [|d p].
  - rewrite assoc_set_eq. destruct (assoc c es); destruct (f _); reflexivity.
  - destruct (assoc c es) as [ch|] eqn:Ha; [|discriminate].
    cbn [find]. rewrite assoc_replace_eq. apply IH; auto.
Qed.

Lemma blocked_cons (c : string) (p : path) (es : list (string * node)) :
  p <> [] ->
  blocked (c :: p) (Dir es) = match assoc c es with
                              | Some ch => blocked p ch
                              | None => Some false
                              end.
Proof. destruct p; [congruence|reflexivity]. Qed.

(** An update through a missing or non-directory ancestor changes nothing. *)
Lemma upd_blocked (p : path) f (n : node) (b : bool) :
  blocked p n = Some b -> upd p f n = n.
Proof.
  revert n; induction p as [|c p IH]; intros n Hb; [discriminate|].
  destruct n as [| |es]; auto.
  cbn [upd blocked] in *. destruct p as [|d p]; [discriminate|].
  destruct (assoc c es) as [ch|] eqn:Ha; auto.
  rewrite (IH ch) by auto.
  f_equal. clear -Ha. induction es as [|[k x] r IHes]; simpl in *; [discriminate|].
  destruct (String.eqb k c) eqn:E.
  - apply eqb_string_true in E. congruence.
  - now rewrite IHes.
Qed.

(** A path that is missing stays missing when an entry without children is
    put or removed elsewhere. *)
Lemma find_upd_none (p q : path) f (n : node) :
  find q n = None -> p <> q -> (forall o, childless (f o)) ->
  find q (upd p f n) = None.
Proof.
  intros Hq Hne Hf.
  destruct (is_prefix p q) eqn:Hpq.
  - apply is_prefix_app in Hpq as [r ->].
    destruct r as [|c r]; [now rewrite app_nil_r in Hne|].
    destruct p as [|c0 p0]; [exact Hq|].
    destruct (blocked (c0 :: p0) n) as [b|] eqn:Hb.
    + now rewrite (upd_blocked _ _ _ _ Hb).
    + rewrite find_app, find_upd_eq by (auto; discriminate).
      specialize (Hf (find (c0 :: p0) n)).
      destruct (f (find (c0 :: p0) n)) as [y|]; auto.
      apply find_childless; auto.
  - destruct (is_prefix q p) eqn:Hqp.
    + apply is_prefix_app in Hqp as [r ->].
      destruct r as [|c r]; [now rewrite app_nil_r in Hne|].
      assert (exists b, blocked (q ++ c :: r) n = Some b) as [b Hb].
      { clear -Hq. revert n Hq. induction q as [|d q IH]; intros n Hq; [discriminate|].
        destruct n as [| |es]; [simpl; eauto..|].
        simpl in Hq. rewrite <- app_comm_cons, blocked_cons by (destruct q; discriminate).
        destruct (assoc d es) as [ch|]; eauto. }
      now rewrite (upd_blocked _ _ _ _ Hb).
    + now rewrite find_upd_unrelated.
Qed.

(** ** Invariants of monadic code *)

Section Preserves.
Context (I : world -> Prop).

Lemma preserves_ret {A} (a : A) : preserves I (ret a).
Proof. intros w H; exact H. Qed.

Lemma preserves_raise {A} (e : exn) : preserves I (@raise A e).
Proof. intros w H; exact H. Qed.

Lemma preserves_bind {A B} (m : M A) (k : A -> M B) :
  preserves I m -> (forall a, preserves I (k a)) -> preserves I (bind m k).
Proof.
  intros Hm Hk w H. unfold bind. specialize (Hm w H).
  destruct (m w) as [a w'|e w']; cbn in *; [apply Hk|]; auto.
Qed.

Lemma preserves_when (c : bool) (m : M unit) :
  preserves I m -> preserves I (when c m).
Proof. destruct c; auto. intros _ w H; exact H. Qed.

Lemma preserves_try_except {A} (m : M A) (h : exn -> option (M A)) :
  preserves I m -> (forall e k, h e = Some k -> preserves I k) ->
  preserves I (try_except m h).
Proof.
  intros Hm Hh w H. unfold try_except. specialize (Hm w H).
  destruct (m w) as [a w'|e w']; cbn in *; auto.
  destruct (h e) as [k|] eqn:E; cbn; auto. eapply Hh; eauto.
Qed.

Lemma preserves_finally {A} (m : M A) (f : M unit) :
  preserves I m -> preserves I f -> preserves I (finally m f).
Proof.
  intros Hm Hf w H. unfold finally. specialize (Hm w H).
  destruct (m w) as [a w'|e w']; cbn in *; specialize (Hf w' Hm);
    destruct (f w'); cbn in *; auto.
Qed.

Lemma preserves_for_each {A} (l : list A) (body : A -> M unit) :
  (forall x, x ∈ l -> preserves I (body x)) -> preserves I (for_each l body).
Proof.
  induction l as [|x l IH]; intros Hb; cbn [for_each].
  - apply preserves_ret.
  - apply preserves_bind; [apply Hb; left|intros _; apply IH].
    intros y Hy; apply Hb; now right.
Qed.

Lemma preserves_fold_each {A S} (l : list A) (s : S) (body : S -> A -> M S) :
  (forall s x, x ∈ l -> preserves I (body s x)) -> preserves I (fold_each l s body).
Proof.
  revert s; induction l as [|x l IH]; intros s Hb; cbn [fold_each].
  - apply preserves_ret.
  - apply preserves_bind; [apply Hb; left|intros s'; apply IH].
    intros s0 y Hy; apply Hb; now right.
Qed.

Lemma preserves_reads_only {A} (m : M A) :
  disk_pred I -> reads_only m -> preserves I m.
Proof.
  intros HI Hm w H. destruct (Hm w) as (H1 & H2 & H3).
  eapply HI; [| | |exact H]; auto.
Qed.
End Preserves.

Lemma reads_only_ret {A} (a : A) : reads_only (ret a).
Proof. intros w; auto. Qed.

Lemma reads_only_raise {A} (e : exn) : reads_only (@raise A e).
Proof. intros w; auto. Qed.

Lemma reads_only_bind {A B} (m : M A) (k : A -> M B) :
  reads_only m -> (forall a, reads_only (k a)) -> reads_only (bind m k).
Proof.
  intros Hm Hk w. unfold bind. specialize (Hm w).
  destruct (m w) as [a w'|e w']; cbn in *; auto.
  destruct (Hk a w') as (-> & -> & ->). auto.
Qed.

Lemma reads_only_try_except {A} (m : M A) (h : exn -> option (M A)) :
  reads_only m -> (forall e k, h e = Some k -> reads_only k) ->
  reads_only (try_except m h).
Proof.
  intros Hm Hh w. unfold try_except. specialize (Hm w).
  destruct (m w) as [a w'|e w']; cbn in *; auto.
  destruct (h e) as [k|] eqn:E; cbn; auto.
  destruct (Hh e k E w') as (-> & -> & ->). auto.
Qed.

Lemma reads_only_get_fs : reads_only get_fs.
Proof. intros w; auto. Qed.

Lemma reads_only_get_clock : reads_only get_clock.
Proof. intros w; auto. Qed.

Lemma reads_only_log (msg : string) : reads_only (log msg).
Proof. intros w; auto. Qed.

Lemma reads_only_query {A} (f : node -> A) : reads_only (root <- get_fs ;; ret (f root)).
Proof. intros w; auto. Qed.

Lemma reads_only_lexists s : reads_only (os.path_lexists s).
Proof. apply reads_only_query. Qed.
Lemma reads_only_exists s : reads_only (os.path_exists s).
Proof. apply reads_only_query. Qed.
Lemma reads_only_islink s : reads_only (os.path_islink s).
Proof. apply reads_only_query. Qed.
Lemma reads_only_isfile s : reads_only (os.path_isfile s).
Proof. apply reads_only_query. Qed.
Lemma reads_only_isdir s : reads_only (os.path_isdir s).
Proof. apply reads_only_query. Qed.
Lemma reads_only_same_file a b : reads_only (shutil.same_file a b).
Proof. apply reads_only_query. Qed.
Lemma reads_only_walk s : reads_only (walk s).
Proof. apply reads_only_query. Qed.

Ltac reads_only_match :=
  intros w; cbv [bind get_fs ret raise];
  repeat match goal with
         | |- context [match ?x with _ => _ end] => destruct x
         end; auto.

Lemma reads_only_samefile a b : reads_only (os.path_samefile a b).
Proof. unfold os.path_samefile. reads_only_match. Qed.
Lemma reads_only_readlink s : reads_only (os.readlink s).
Proof. unfold os.readlink. reads_only_match. Qed.
Lemma reads_only_lstat_mode s : reads_only (os.lstat_mode s).
Proof. unfold os.lstat_mode. reads_only_match. Qed.
Lemma reads_only_stat_mode s : reads_only (os.stat_mode s).
Proof. unfold os.stat_mode. reads_only_match. Qed.
Lemma reads_only_getmtime s : reads_only (os.path_getmtime s).
Proof. unfold os.path_getmtime. reads_only_match. Qed.
Lemma reads_only_open_read s : reads_only (open_read s).
Proof. unfold open_read. reads_only_match. Qed.
Lemma reads_only_set_dir_casefold_bit s : reads_only (set_dir_casefold_bit s).
Proof. unfold set_dir_casefold_bit. reads_only_match. Qed.

Lemma reads_only_file_is_wine_builtin_dll s : reads_only (file_is_wine_builtin_dll s).
Proof.
  intros w. destruct (file_is_wine_builtin_dll_total w s) as (b & -> & _). auto.
Qed.

Lemma reads_only_getmtimestr l : reads_only (getmtimestr l).
Proof.
  unfold getmtimestr. apply reads_only_try_except.
  - apply reads_only_bind; [apply reads_only_getmtime|intros; apply reads_only_ret].
  - intros e k. destruct (is_OSError e); intros [= <-]. apply reads_only_ret.
Qed.

(** *** What the primitives leave alone *)

Lemma disk_pred_at_path q P : disk_pred (at_path q P).
Proof. intros w w' Hfs _ _ (y & Hy & HP). exists y. rewrite <- Hfs. auto. Qed.

Lemma find_blocked_none (q : path) (n x : node) :
  find q n = Some x -> blocked q n = None.
Proof.
  revert n; induction q as [|c q IH]; intros n Hq; [reflexivity|].
  destruct n as [| |es]; try discriminate. simpl in Hq.
  destruct q as [|d q]; [reflexivity|].
  rewrite blocked_cons by discriminate.
  destruct (assoc c es); [eauto|discriminate].
Qed.

Section AtPath.
Context (q : path) (P : node -> Prop) (HP : leaf_pred P).

(** An update at a place other than [q] that holds nothing below it *)
Lemma at_path_upd (p : path) f (w : world) :
  at_path q P w -> childless (find p (fs w)) -> p <> q ->
  at_path q P (set_fs (upd p f (fs w)) w).
Proof.
  intros (y & Hy & Py) Hc Hne. exists y. split; auto. cbn.
  apply find_upd_leaf; auto.
  eapply childless_not_prefix; eauto.
Qed.

Lemma at_path_upd_prefix (p : path) f (w : world) :
  at_path q P w -> is_prefix p q = false ->
  at_path q P (set_fs (upd p f (fs w)) w).
Proof.
  intros (y & Hy & Py) Hne. exists y. split; auto. cbn.
  apply find_upd_leaf; auto.
Qed.

Lemma at_path_absent (p : path) (w : world) :
  at_path q P w -> find p (fs w) = None -> p <> q.
Proof. intros (y & Hy & _) Hp ->. congruence. Qed.

Lemma at_path_dir (p : path) (w : world) es :
  at_path q P w -> find p (fs w) = Some (Dir es) -> p <> q.
Proof.
  intros (y & Hy & Py) Hp ->. rewrite Hy in Hp. injection Hp as ->.
  apply HP in Py. discriminate.
Qed.

Lemma at_path_set_trace (w : world) l :
  at_path q P w -> at_path q P (set_trace l w).
Proof. auto. Qed.

Lemma emit_put_keeps (p : path) (v : node) (w : world) :
  at_path q P w -> childless (find p (fs w)) -> p <> q ->
  at_path q P (final (emit (EPut p v) w)).
Proof. intros. cbn. apply at_path_set_trace. apply (at_path_upd p); auto. Qed.

Lemma emit_del_keeps (p : path) (w : world) :
  at_path q P w -> childless (find p (fs w)) -> p <> q ->
  at_path q P (final (emit (EDel p) w)).
Proof. intros. cbn. apply at_path_set_trace. apply (at_path_upd p); auto. Qed.

Lemma remove_keeps (s : string) :
  parse s <> q -> preserves (at_path q P) (os.remove s).
Proof.
  intros Hne w H. unfold os.remove. rewrite run_bind, run_get_fs. cbv beta iota.
  unfold lstat. destruct (find (parse s) (fs w)) as [[| |es]|] eqn:E; try exact H.
  - apply emit_del_keeps; auto. now rewrite E.
  - apply emit_del_keeps; auto. now rewrite E.
Qed.

Lemma rmdir_keeps (s : string) : preserves (at_path q P) (os.rmdir s).
Proof.
  intros w H. unfold os.rmdir. rewrite run_bind, run_get_fs. cbv beta iota.
  unfold lstat. destruct (find (parse s) (fs w)) as [[| |[|e es]]|] eqn:E; try exact H.
  apply emit_del_keeps; auto.
  - now rewrite E.
  - eapply at_path_dir; eauto.
Qed.

Lemma mkdir_at_keeps (p : path) : preserves (at_path q P) (os.mkdir_at p).
Proof.
  intros w H. unfold os.mkdir_at. rewrite run_bind, run_get_fs. cbv beta iota.
  destruct (find p (fs w)) eqn:E; [exact H|].
  destruct (blocked p (fs w)); [exact H|].
  apply emit_put_keeps; auto.
  - now rewrite E.
  - eapply at_path_absent; eauto.
Qed.

Lemma make_parents_keeps (pre rest : path) :
  preserves (at_path q P) (os.make_parents pre rest).
Proof.
  revert pre; induction rest as [|c r IH]; intros pre; cbn [os.make_parents].
  - apply preserves_ret.
  - destruct r as [|d r]; [apply preserves_ret|].
    apply preserves_bind; [apply preserves_reads_only;
                           [apply disk_pred_at_path|apply reads_only_get_fs]|].
    intros root. apply preserves_bind; [|intros _; apply IH].
    assert (Hmk : preserves (at_path q P)
              (try_except (os.mkdir_at (pre ++ [c]))
                 (fun e => match e with
                           | OSError EEXIST => Some (ret tt)
                           | _ => None
                           end))).
    { apply preserves_try_except; [apply mkdir_at_keeps|].
      intros e k He. destruct e as [[]| |]; try discriminate.
      injection He as <-. apply preserves_ret. }
    destruct (follow MAXSYMLINKS root (pre ++ [c])) as [[p0 [y0|]]|];
      auto using preserves_ret.
Qed.

Lemma os_makedirs_keeps (s : string) (exist_ok : bool) :
  preserves (at_path q P) (os.makedirs s exist_ok).
Proof.
  unfold os.makedirs. apply preserves_bind; [apply make_parents_keeps|intros _].
  apply preserves_try_except; [apply mkdir_at_keeps|].
  intros e k He. destruct e as [e| |]; try discriminate. injection He as <-.
  apply preserves_bind.
  - apply preserves_reads_only; [apply disk_pred_at_path|apply reads_only_isdir].
  - intros d. destruct (exist_ok && d); [apply preserves_ret|apply preserves_raise].
Qed.

Lemma makedirs_keeps (s : string) : preserves (at_path q P) (makedirs s).
Proof.
  unfold makedirs. apply preserves_try_except; [apply os_makedirs_keeps|].
  intros e k. destruct (is_OSError e); intros [= <-]. apply preserves_ret.
Qed.

Lemma symlink_keeps (t s : string) : preserves (at_path q P) (os.symlink t s).
Proof.
  intros w H. unfold os.symlink. rewrite run_bind, run_get_fs. cbv beta iota.
  unfold lstat. destruct (find (parse s) (fs w)) eqn:E; [exact H|].
  destruct (blocked (parse s) (fs w)); [exact H|].
  apply emit_put_keeps; auto.
  - now rewrite E.
  - eapply at_path_absent; eauto.
Qed.

Lemma rmtree_keeps (s : string) :
  is_prefix (parse s) q = false -> preserves (at_path q P) (shutil.rmtree s).
Proof.
  intros Hne w H. unfold shutil.rmtree. rewrite run_bind, run_get_fs. cbv beta iota.
  unfold lstat. destruct (find (parse s) (fs w)) as [[| |es]|] eqn:E; try exact H.
  cbn. apply at_path_set_trace. now apply at_path_upd_prefix.
Qed.

Lemma move_keeps (p1 p2 : path) (w : world) :
  at_path q P w -> is_prefix p1 q = false -> is_prefix p2 q = false ->
  at_path q P (final (emit (EMove p1 p2) w)).
Proof.
  intros H H1 H2. cbn. apply at_path_set_trace. unfold move.
  destruct (find p1 (fs w)) as [x|]; [|destruct H as (y & ? & ?); exists y; auto].
  unfold put, del.
  pose proof (at_path_upd_prefix p1 (fun _ => None) w H H1) as H'.
  apply (at_path_upd_prefix p2 (fun _ => Some x) _ H' H2).
Qed.

Lemma rename_keeps (s1 s2 : string) :
  is_prefix (parse s1) q = false -> parse s2 <> q ->
  preserves (at_path q P) (os.rename s1 s2).
Proof.
  intros H1 H2 w H. unfold os.rename. rewrite run_bind, run_get_fs. cbv beta iota.
  destruct (find (parse s1) (fs w)) as [x|] eqn:E1; [|exact H].
  destruct (path_eqb _ _); [exact H|].
  destruct (is_prefix (parse s1) (parse s2)); [exact H|].
  destruct (blocked (parse s2) (fs w)); [exact H|].
  assert (Hgo : childless (find (parse s2) (fs w)) ->
                at_path q P (final (emit (EMove (parse s1) (parse s2)) w))).
  { intros Hc. apply move_keeps; auto.
    destruct H as (y & Hy & Py). eapply childless_not_prefix; eauto. }
  destruct (find (parse s2) (fs w)) as [y|] eqn:E2; [|apply Hgo; exact Logic.I].
  destruct x as [| |xs], y as [| |[|e es]]; try exact H; apply Hgo; exact Logic.I.
Qed.

Lemma chmod_keeps (s : string) (mode : Z) :
  meta_pred P -> preserves (at_path q P) (os.chmod s mode).
Proof.
  intros HM w H. unfold os.chmod. rewrite run_bind, run_get_fs. cbv beta iota.
  destruct (resolve (fs w) s) as [[p [[d m t| |]|]]|] eqn:E; try exact H.
  assert (Hp : find p (fs w) = Some (File d m t)).
  { revert E. unfold resolve. generalize MAXSYMLINKS (parse s).
    intros fuel; induction fuel as [|k IH]; intros p0; simpl;
      destruct (find p0 (fs w)) as [[| t0 |]|] eqn:E0; try congruence; eauto. }
  destruct (decide (p = q)) as [->|Hne].
  - destruct H as (y & Hy & Py). rewrite Hy in Hp. injection Hp as ->.
    destruct q as [|c q']; [exists (File d m t); auto|].
    exists (File d (Z.land mode 4095) t). split; [|eapply HM; eauto].
    cbn [final emit fs set_trace set_fs apply_event]. unfold put.
    rewrite find_upd_eq;
      [reflexivity|eapply find_blocked_none; eauto|discriminate].
  - apply emit_put_keeps; auto. now rewrite Hp.
Qed.
End AtPath.

(** ** Path names *)

Lemma append_cons (c : ascii) (a b : string) :
  String c a +:+ b = String c (a +:+ b).
Proof. reflexivity. Qed.

Lemma append_nil_l (b : string) : "" +:+ b = b.
Proof. reflexivity. Qed.

Lemma append_assoc (a b c : string) : (a +:+ b) +:+ c = a +:+ (b +:+ c).
Proof.
  induction a as [|x a IH]; [reflexivity|]. rewrite !append_cons. now rewrite IH.
Qed.

Lemma append_nil_r (a : string) : a +:+ "" = a.
Proof.
  induction a as [|x a IH]; [reflexivity|]. rewrite append_cons. now rewrite IH.
Qed.

Lemma take_drop (n : nat) (s : string) : Py.take n s +:+ Py.drop n s = s.
Proof.
  revert s; induction n as [|n IH]; intros [|c r]; cbn [Py.take Py.drop];
    try reflexivity.
  rewrite append_cons. f_equal. apply IH.
Qed.

Lemma length_append (a b : string) :
  String.length (a +:+ b) = (String.length a + String.length b)%nat.
Proof.
  induction a as [|x a IH]; [reflexivity|].
  rewrite append_cons. cbn [String.length]. now rewrite IH.
Qed.

Lemma length_take (n : nat) (s : string) :
  (n <= String.length s)%nat -> String.length (Py.take n s) = n.
Proof.
  revert s; induction n as [|n IH]; intros [|c r]; simpl; auto with lia.
Qed.

Lemma endswith_split (s p : string) :
  Py.endswith s p = true -> exists a, s = a +:+ p.
Proof.
  unfold Py.endswith. rewrite andb_true_iff, eqb_string_true.
  intros [_ H]. exists (Py.take (String.length s - String.length p) s).
  transitivity (Py.take (String.length s - String.length p) s
                +:+ Py.drop (String.length s - String.length p) s).
  - symmetry. apply take_drop.
  - now rewrite H.
Qed.

Lemma feed_app (a b : string) (st : pstate) : feed (a +:+ b) st = feed b (feed a st).
Proof.
  revert st; induction a as [|c a IH]; intros st; [reflexivity|].
  rewrite append_cons. cbn [feed]. apply IH.
Qed.

Lemma prefix_nil (r : string) : String.prefix "" r = true.
Proof. destruct r; reflexivity. Qed.

Lemma prefix_cons (c d : ascii) (p r : string) :
  String.prefix (String c p) (String d r) = Ascii.eqb c d && String.prefix p r.
Proof.
  cbn [String.prefix]. destruct (Ascii.ascii_dec c d) as [->|Hne].
  - now rewrite Ascii.eqb_refl.
  - apply Ascii.eqb_neq in Hne. now rewrite Hne.
Qed.

Lemma contains_slash_cons (c : ascii) (r : string) :
  Py.contains "/" (String c r) = Ascii.eqb c "/"%char || Py.contains "/" r.
Proof.
  cbn [Py.contains]. rewrite prefix_cons, prefix_nil, andb_true_r.
  f_equal.
Qed.

Lemma feed_no_slash (n : string) (stk : list string) (cur : string) :
  Py.contains "/" n = false -> feed n (stk, cur) = (stk, cur +:+ n).
Proof.
  revert cur; induction n as [|c r IH]; intros cur H; cbn [feed].
  - now rewrite append_nil_r.
  - rewrite contains_slash_cons in H. apply orb_false_elim in H as [Hc Hr].
    unfold feed1. cbn [fst snd]. rewrite Hc, IH by auto.
    now rewrite append_assoc.
Qed.

Lemma valid_name_spec (n : string) :
  valid_name n = true ->
  n <> "" /\ n <> "." /\ n <> ".." /\ Py.contains "/" n = false.
Proof.
  unfold valid_name. rewrite !andb_true_iff, !negb_true_iff, !eqb_string_false.
  tauto.
Qed.

Lemma push_valid (n : string) (stk : list string) :
  valid_name n = true -> push n stk = n :: stk.
Proof.
  intros H. apply valid_name_spec in H as (H1 & H2 & H3 & _).
  unfold push. apply eqb_string_false in H1, H2, H3. now rewrite H1, H2, H3.
Qed.

Lemma feed_slash (st : pstate) : feed "/" st = (push st.2 st.1, "").
Proof. reflexivity. Qed.

Lemma feed_trailing_slash (a : string) (st : pstate) :
  Py.endswith a "/" = true -> (feed a st).2 = "".
Proof.
  intros H. apply endswith_split in H as [a' ->]. now rewrite feed_app, feed_slash.
Qed.

Lemma push_empty (stk : list string) : push "" stk = stk.
Proof. reflexivity. Qed.

Lemma startswith_slash_valid (n : string) :
  valid_name n = true -> Py.startswith n "/" = false.
Proof.
  intros Hn. apply valid_name_spec in Hn as (_ & _ & _ & H4).
  destruct n as [|c r]; [reflexivity|]. rewrite contains_slash_cons in H4.
  apply orb_false_elim in H4 as [Hc _]. unfold Py.startswith.
  rewrite prefix_cons, prefix_nil, andb_true_r.
  apply Ascii.eqb_neq. apply Ascii.eqb_neq in Hc. congruence.
Qed.

Lemma close_name (n : string) (stk : list string) :
  valid_name n = true -> close (stk, n) = rev stk ++ [n].
Proof. intros Hn. unfold close. cbn [fst snd]. now rewrite push_valid. Qed.

(** A name joined to a path adds one component. *)
Lemma parse_path_join (a n : string) :
  valid_name n = true -> parse (path_join a n) = parse a ++ [n].
Proof.
  intros Hn. pose proof (valid_name_spec n Hn) as (_ & _ & _ & H4).
  unfold path_join, parse. rewrite startswith_slash_valid by auto.
  destruct (String.eqb a "") eqn:Ea; cbn [orb].
  - apply eqb_string_true in Ea. subst a. rewrite append_nil_l.
    rewrite feed_no_slash by auto. rewrite append_nil_l. now rewrite close_name.
  - destruct (Py.endswith a "/") eqn:Ee.
    + rewrite feed_app. pose proof (feed_trailing_slash a ([], "") Ee) as Hc.
      destruct (feed a ([], "")) as [stk cur]. cbn in Hc. subst cur.
      rewrite feed_no_slash by auto. rewrite append_nil_l.
      rewrite close_name by auto. reflexivity.
    + rewrite !feed_app, feed_slash.
      destruct (feed a ([], "")) as [stk cur]. cbn [fst snd].
      rewrite feed_no_slash by auto. rewrite append_nil_l.
      rewrite close_name by auto. reflexivity.
Qed.

(** ** The walk *)

Fixpoint node_ind' (P : node -> Prop)
    (Hf : forall d m t, P (File d m t)) (Hl : forall t, P (Link t))
    (Hd : forall es, Forall (fun e => P e.2) es -> P (Dir es)) (n : node) : P n :=
  match n with
  | File d m t => Hf d m t
  | Link t => Hl t
  | Dir es =>
      Hd es ((fix go (l : list (string * node)) : Forall (fun e => P e.2) l :=
                match l with
                | [] => @List.Forall_nil _ (fun e => P e.2)
                | (k, x) :: r =>
                    @List.Forall_cons _ (fun e => P e.2) (k, x) r (node_ind' P Hf Hl Hd x) (go r)
                end) es)
  end.

Lemma listing_valid (es : list (string * node)) (e : string * node) :
  e ∈ listing es -> valid_name e.1 = true.
Proof.
  unfold listing. rewrite list_elem_of_filter. intros [H _].
  now apply Is_true_eq_true.
Qed.

Lemma listed_names_valid (es : list (string * node)) (Q : string * node -> Prop)
    `{forall e, Decision (Q e)} (name : string) :
  name ∈ (fst <$> filter Q (listing es)) -> valid_name name = true.
Proof.
  rewrite list_elem_of_fmap. intros (e & -> & He).
  apply list_elem_of_filter in He as [_ He]. now apply listing_valid in He.
Qed.

(** Every name that the walk lists is a name a directory can hold. *)
Lemma walk_node_valid (root : node) (n : node) :
  forall (here : list string) (top : string) (item : walk_item),
    item ∈ walk_node root here top n ->
    (forall name, name ∈ item.1.2 -> valid_name name = true)
    /\ (forall name, name ∈ item.2 -> valid_name name = true).
Proof.
  induction n as [d m t|t|es IH] using node_ind'; intros here top item Hin;
    cbn [walk_node] in Hin; try (apply elem_of_nil in Hin; contradiction).
  apply elem_of_cons in Hin as [->|Hin].
  - cbn [fst snd]. split; intros name; apply listed_names_valid.
  - revert Hin. induction IH as [|[k x] r Hx _ IHr]; intros Hin.
    + apply elem_of_nil in Hin; contradiction.
    + apply elem_of_app in Hin as [Hin|Hin]; [|auto].
      destruct (valid_name k); [|apply elem_of_nil in Hin; contradiction].
      eapply Hx; eauto.
Qed.

Lemma os_walk_valid (root : node) (top : string) (item : walk_item) :
  item ∈ os_walk root top ->
  (forall name, name ∈ item.1.2 -> valid_name name = true)
  /\ (forall name, name ∈ item.2 -> valid_name name = true).
Proof.
  unfold os_walk. destruct (resolve root top) as [[p [[| |es]|]]|];
    try (intros H; apply elem_of_nil in H; contradiction).
  apply walk_node_valid.
Qed.

(** ** Streams and copies *)

Lemma follow_spec (fuel : nat) (root : node) (p0 p : path) (o : option node) :
  follow fuel root p0 = Some (p, o) ->
  find p root = o /\ forall t, o <> Some (Link t).
Proof.
  revert p0; induction fuel as [|k IH]; intros p0; simpl;
    destruct (find p0 root) as [[| t0 |]|] eqn:E; try discriminate;
    try (intros [= <- <-]; split; [exact E|congruence]); eauto.
Qed.

Lemma resolve_spec (root : node) (s : string) (p : path) (o : option node) :
  resolve root s = Some (p, o) -> find p root = o /\ forall t, o <> Some (Link t).
Proof. apply follow_spec. Qed.

Lemma resolve_absent (root : node) (s : string) :
  lstat root s = None -> resolve root s = Some (parse s, None).
Proof.
  unfold lstat, resolve. intros H. rewrite follow_not_link; rewrite H; congruence.
Qed.

Lemma resolve_file (root : node) (s : string) d m t :
  lstat root s = Some (File d m t) -> resolve root s = Some (parse s, Some (File d m t)).
Proof.
  unfold lstat, resolve. intros H. rewrite follow_not_link; rewrite H; congruence.
Qed.

Lemma resolve_dir (root : node) (s : string) es :
  lstat root s = Some (Dir es) -> resolve root s = Some (parse s, Some (Dir es)).
Proof.
  unfold lstat, resolve. intros H. rewrite follow_not_link; rewrite H; congruence.
Qed.

(** The three ways [open] for writing can go *)
Inductive opened (truncate : bool) (s : string) (w : world) : outcome path -> Prop :=
| opened_raise e : opened truncate s w (Raise e w)
| opened_file p d m t :
    resolve (fs w) s = Some (p, Some (File d m t)) ->
    opened truncate s w
      (Ret p (if truncate then final (emit (EPut p (File "" m (clock w))) w) else w))
| opened_new p :
    resolve (fs w) s = Some (p, None) -> blocked p (fs w) = None ->
    opened truncate s w
      (Ret p (final (emit (EPut p (File "" default_mode (clock w))) w))).

Lemma open_write_cases (truncate : bool) (s : string) (w : world) :
  opened truncate s w (open_write truncate s w).
Proof.
  unfold open_write. rewrite run_bind, run_get_fs. cbv beta iota.
  unfold get_clock at 1. rewrite run_bind. cbv beta iota.
  destruct (resolve (fs w) s) as [[p [[d m t| t |es]|]]|] eqn:E;
    try (rewrite run_raise; constructor).
  - rewrite run_if. destruct (Py.endswith s "/"); [rewrite run_raise; constructor|].
    rewrite run_bind, run_when. destruct truncate.
    + cbn. eapply (opened_file true); eauto.
    + cbn. eapply (opened_file false); eauto.
  - rewrite run_if. destruct (Py.endswith s "/"); [rewrite run_raise; constructor|].
    destruct (blocked p (fs w)) eqn:Eb; [rewrite run_raise; constructor|].
    cbn. eapply opened_new; eauto.
Qed.

Lemma run_stream_close (p : path) (w : world) :
  stream_close p w
  = match wbuf w with
    | [] => Ret tt w
    | b =>
        match find p (fs w) with
        | Some (File d m _) =>
            emit (EPut p (File (d +:+ String.concat "" b) m (clock w))) (set_wbuf [] w)
        | _ => Ret tt (set_wbuf [] w)
        end
    end.
Proof. reflexivity. Qed.

Section AtPathStreams.
Context (q : path) (P : node -> Prop) (HP : leaf_pred P).

Lemma at_path_set_wbuf (w : world) l :
  at_path q P w -> at_path q P (set_wbuf l w).
Proof. auto. Qed.

Lemma file_put_keeps (p : path) (v : node) (w : world) d m t :
  at_path q P w -> find p (fs w) = Some (File d m t) -> p <> q ->
  at_path q P (final (emit (EPut p v) w)).
Proof. intros H Hp Hne. apply emit_put_keeps; auto. now rewrite Hp. Qed.

Lemma new_put_keeps (p : path) (v : node) (w : world) :
  at_path q P w -> find p (fs w) = None ->
  at_path q P (final (emit (EPut p v) w)).
Proof.
  intros H Hp. apply emit_put_keeps; auto.
  - now rewrite Hp.
  - eapply at_path_absent; eauto.
Qed.

Lemma stream_close_keeps (p : path) :
  p <> q -> preserves (at_path q P) (stream_close p).
Proof.
  intros Hne w H. rewrite run_stream_close.
  destruct (wbuf w); [exact H|].
  destruct (find p (fs w)) as [[d m t| |]|] eqn:E; try exact H.
  eapply file_put_keeps; eauto.
Qed.

(** Opening a stream on a file other than the one at [q] *)
Lemma open_write_keeps (truncate : bool) (s : string) (w : world) :
  at_path q P w -> (forall o, resolve (fs w) s <> Some (q, o)) ->
  at_path q P (final (open_write truncate s w)).
Proof.
  intros H Hs. destruct (open_write_cases truncate s w) as [e|p d m t Hr|p Hr Hb].
  - exact H.
  - destruct truncate; [|exact H].
    apply resolve_spec in Hr as Hf. destruct Hf as [Hf _].
    eapply file_put_keeps; eauto. intros ->. eapply Hs; eauto.
  - apply resolve_spec in Hr as Hf. destruct Hf as [Hf _].
    apply new_put_keeps; auto.
Qed.

Lemma open_write_at (truncate : bool) (s : string) (w w' : world) (p : path) :
  at_path q P w -> (forall o, resolve (fs w) s <> Some (q, o)) ->
  open_write truncate s w = Ret p w' -> p <> q.
Proof.
  intros H Hs Ho.
  destruct (open_write_cases truncate s w) as [e|p' d m t Hr|p' Hr Hb];
    try discriminate; injection Ho as -> _; intros ->; eapply Hs; eauto.
Qed.

Lemma with_open_keeps {A} (truncate : bool) (s : string) (body : M A) (w : world) :
  at_path q P w -> (forall o, resolve (fs w) s <> Some (q, o)) ->
  preserves (at_path q P) body ->
  at_path q P (final (with_open truncate s body w)).
Proof.
  intros H Hs Hbody. unfold with_open. rewrite run_bind.
  pose proof (open_write_keeps truncate s w H Hs) as H1.
  destruct (open_write truncate s w) as [p w1|e w1] eqn:Eo; [|exact H1].
  cbn in H1. pose proof (open_write_at _ _ _ _ _ H Hs Eo) as Hne.
  apply (preserves_finally _ body (stream_close p)); auto.
  now apply stream_close_keeps.
Qed.

(** A copy to a place where nothing is *)
Lemma copyfile_new_keeps (src dst : string) (w : world) :
  at_path q P w -> lstat (fs w) dst = None ->
  at_path q P (final (shutil.copyfile src dst true w)).
Proof.
  intros H Hd. unfold shutil.copyfile.
  rewrite run_bind. unfold shutil.same_file. rewrite run_bind, run_get_fs.
  cbv beta iota. rewrite run_ret. cbv beta iota.
  rewrite (resolve_absent _ _ Hd).
  assert ((match resolve (fs w) src with
           | Some (_, Some _) => false
           | _ => false
           end) = false) as -> by (destruct (resolve (fs w) src) as [[? [?|]]|]; auto).
  rewrite run_bind, run_islink. cbv beta iota. cbn [negb andb].
  rewrite run_bind.
  destruct (open_read src w) as [data w1|e w1] eqn:Er;
    [|destruct (open_read_OSError _ _ _ _ Er) as [_ ->]; exact H].
  apply open_read_pure in Er. subst w1.
  rewrite run_bind.
  destruct (open_write_cases true dst w) as [e|p d m t Hr|p Hr Hb].
  - exact H.
  - rewrite (resolve_absent _ _ Hd) in Hr. discriminate.
  - rewrite (resolve_absent _ _ Hd) in Hr. injection Hr as <-.
    set (w1 := final (emit _ w)).
    assert (H1 : at_path q P w1) by (apply new_put_keeps; auto).
    rewrite run_bind, run_get_fs. cbv beta iota.
    unfold get_clock at 1. rewrite run_bind. cbv beta iota.
    destruct (find (parse dst) (fs w1)) as [[d m t| |]|] eqn:E1; try exact H1.
    eapply file_put_keeps; eauto.
    eapply (at_path_absent _ _ _ w); eauto.
Qed.

Lemma run_isdir_absent (s : string) (w : world) :
  lstat (fs w) s = None -> os.path_isdir s w = Ret false w.
Proof.
  intros H. rewrite run_isdir. unfold stat. now rewrite (resolve_absent _ _ H).
Qed.

Lemma try_copyfile_new_keeps (src dst : string) (w : world) :
  at_path q P w -> lstat (fs w) dst = None ->
  at_path q P (final (try_copyfile src dst w)).
Proof.
  intros H Hd. unfold try_copyfile. rewrite run_try_except.
  rewrite run_bind, (run_isdir_absent _ _ Hd). cbv beta iota.
  rewrite run_bind, run_bind, run_lexists, Hd. cbv beta iota.
  rewrite run_when. cbv beta iota.
  pose proof (copyfile_new_keeps src dst w H Hd) as H1.
  destruct (shutil.copyfile src dst true w) as [[] w1|e w1]; [exact H1|].
  cbn in H1. destruct e as [[]| |]; exact H1.
Qed.

Lemma pfx_copy_new_keeps (src dst : string) (dll_copy : bool) (w : world) :
  at_path q P w -> lstat (fs w) dst = None ->
  at_path q P (final (CompatData.pfx_copy src dst dll_copy w)).
Proof.
  intros H Hd. unfold CompatData.pfx_copy. rewrite run_bind, run_islink.
  cbv beta iota.
  destruct (lstat (fs w) src) as [[| t |]|] eqn:Es;
    try (now apply try_copyfile_new_keeps).
  rewrite run_bind, (run_readlink _ t) by exact Es. cbv beta iota.
  destruct dll_copy; [now apply try_copyfile_new_keeps|].
  now apply symlink_keeps.
Qed.
End AtPathStreams.

(** ** Paths that stay missing *)

Lemma disk_pred_absent p : disk_pred (absent p).
Proof. intros w w' Hfs _ _ H. unfold absent. now rewrite <- Hfs. Qed.

Lemma remove_absent (s : string) (w w' : world) :
  parse s <> [] -> os.remove s w = Ret tt w' -> absent (parse s) w'.
Proof.
  intros Hne. unfold os.remove. rewrite run_bind, run_get_fs. cbv beta iota.
  unfold lstat, absent.
  destruct (find (parse s) (fs w)) as [[| |es]|] eqn:E; try discriminate;
    intros [= <-]; cbn; unfold del;
    (rewrite find_upd_eq; [reflexivity|eapply find_blocked_none; eauto|auto]).
Qed.

Lemma mkdir_at_absent (p pf : path) :
  p <> pf -> preserves (absent pf) (os.mkdir_at p).
Proof.
  intros Hne w H. unfold os.mkdir_at. rewrite run_bind, run_get_fs. cbv beta iota.
  destruct (find p (fs w)); [exact H|].
  destruct (blocked p (fs w)); [exact H|].
  cbn. unfold absent, put. apply find_upd_none; auto. intros o. exact Logic.I.
Qed.

Lemma is_prefix_app_l (pf pre rest : path) (c : string) :
  is_prefix pf (pre ++ c :: rest) = false -> pre ++ [c] <> pf.
Proof.
  intros H <-.
  assert (is_prefix (pre ++ [c]) (pre ++ c :: rest) = true) as E.
  { apply is_prefix_app. exists rest. now rewrite <- app_assoc. }
  congruence.
Qed.

Lemma make_parents_absent (pf pre rest : path) :
  is_prefix pf (pre ++ rest) = false ->
  preserves (absent pf) (os.make_parents pre rest).
Proof.
  revert pre; induction rest as [|c r IH]; intros pre Hp; cbn [os.make_parents].
  - apply preserves_ret.
  - destruct r as [|d r]; [apply preserves_ret|].
    apply preserves_bind; [apply preserves_reads_only;
                           [apply disk_pred_absent|apply reads_only_get_fs]|].
    intros root. apply preserves_bind.
    + assert (Hmk : preserves (absent pf)
                (try_except (os.mkdir_at (pre ++ [c]))
                   (fun e => match e with
                             | OSError EEXIST => Some (ret tt)
                             | _ => None
                             end))).
      { apply preserves_try_except;
          [apply mkdir_at_absent; eapply is_prefix_app_l; eauto|].
        intros e k He. destruct e as [[]| |]; try discriminate.
        injection He as <-. apply preserves_ret. }
      destruct (follow MAXSYMLINKS root (pre ++ [c])) as [[p0 [y0|]]|];
        auto using preserves_ret.
    + intros _. apply IH. now rewrite <- app_assoc.
Qed.

Lemma os_makedirs_absent (pf : path) (s : string) (exist_ok : bool) :
  is_prefix pf (parse s) = false ->
  preserves (absent pf) (os.makedirs s exist_ok).
Proof.
  intros Hp. unfold os.makedirs.
  apply preserves_bind; [now apply make_parents_absent|intros _].
  apply preserves_try_except.
  - apply mkdir_at_absent. intros <-. now rewrite is_prefix_refl in Hp.
  - intros e k He. destruct e as [e| |]; try discriminate. injection He as <-.
    apply preserves_bind.
    + apply preserves_reads_only; [apply disk_pred_absent|apply reads_only_isdir].
    + intros d. destruct (exist_ok && d); [apply preserves_ret|apply preserves_raise].
Qed.

Lemma is_prefix_snoc (p : path) (c : string) : is_prefix (p ++ [c]) p = false.
Proof.
  destruct (is_prefix (p ++ [c]) p) eqn:E; auto.
  apply is_prefix_app in E as [r Hr]. apply (f_equal length) in Hr.
  rewrite !length_app in Hr. cbn in Hr. lia.
Qed.

(** ** The overlay synchroniser and real files *)

Lemma real_file_leaf : leaf_pred real_file.
Proof. intros [| |]; simpl; auto; contradiction. Qed.

(** The classifier says [False] for a real file. *)
Lemma real_file_classified (s : string) (w : world) (n : node) :
  lstat (fs w) s = Some n -> real_file n ->
  file_is_wine_builtin_dll s w = Ret false w.
Proof.
  intros Hl Hr. destruct n as [d m t| |]; try contradiction. simpl in Hr.
  destruct (file_is_wine_builtin_dll_total w s) as (b & -> & _ & Hb).
  unfold builtin_link in Hb. rewrite Hl in Hb. destruct (Hb eq_refl) as (_ & H2 & H3).
  f_equal. unfold open_read in H2, H3. rewrite run_bind, run_get_fs in H2, H3.
  cbv beta iota in H2, H3. rewrite (resolve_file _ _ _ _ _ Hl) in H2, H3.
  rewrite run_if in H2, H3.
  destruct (Py.endswith s "/"); [apply H2; reflexivity|].
  rewrite run_if in H2, H3.
  destruct (readable m); [|apply H2; reflexivity].
  destruct (H3 d eq_refl) as [-> _]. exact Hr.
Qed.

(** And conversely: a regular file for which the classifier says [False]
    is a real file, provided its name does not end in a slash. *)
Lemma classified_real_file (s : string) (w : world) d m t :
  lstat (fs w) s = Some (File d m t) -> Py.endswith s "/" = false ->
  file_is_wine_builtin_dll s w = Ret false w -> real_file (File d m t).
Proof.
  intros Hl Hs Hc. simpl.
  destruct (file_is_wine_builtin_dll_total w s) as (b & Hb & _ & Hb').
  rewrite Hc in Hb. injection Hb as <-.
  unfold builtin_link in Hb'. rewrite Hl in Hb'. destruct (Hb' eq_refl) as (_ & _ & H3).
  unfold open_read in H3. rewrite run_bind, run_get_fs in H3.
  cbv beta iota in H3. rewrite (resolve_file _ _ _ _ _ Hl), run_if, Hs, run_if in H3.
  destruct (readable m); [|reflexivity].
  destruct (H3 d eq_refl) as [<- _]. reflexivity.
Qed.

Lemma update_builtin_lib_keeps (self : CompatData.t) (patterns : list string)
    (prev : gset string) (src_dir rel_dir dst_dir file_ : string) (q : path)
    (y : node) :
  valid_name file_ = true -> real_file y ->
  preserves (at_path q (eq y))
    (CompatData.update_builtin_lib self patterns prev src_dir rel_dir dst_dir file_).
Proof.
  intros Hv Hreal w H.
  assert (HP : leaf_pred (eq y)) by (intros ? <-; now apply real_file_leaf).
  unfold CompatData.update_builtin_lib.
  rewrite run_bind.
  destruct (file_is_wine_builtin_dll_total w (path_join src_dir file_)) as (b1 & -> & _).
  cbv beta iota. rewrite run_if. destruct b1; cbn [negb]; [|exact H].
  rewrite run_bind.
  destruct (file_is_wine_builtin_dll_total w (path_join dst_dir file_)) as (b2 & Hb2eq & _).
  rewrite Hb2eq. cbv beta iota.
  set (dst_file := path_join dst_dir file_) in *.
  assert (Hpf : parse dst_file = parse dst_dir ++ [file_]) by now apply parse_path_join.
  destruct (decide (parse dst_file = q)) as [Heq|Hne].
  { (* the destination is the real file itself *)
    destruct H as (y' & Hy & <-).
    assert (lstat (fs w) dst_file = Some y) as Hl by (unfold lstat; now rewrite Heq).
    rewrite (real_file_classified _ _ _ Hl Hreal) in Hb2eq. injection Hb2eq as <-.
    rewrite run_bind, run_lexists, Hl. cbv beta iota.
    exists y. auto. }
  destruct b2.
  - (* a stub at the destination: unlinked, then made again *)
    rewrite run_bind, run_ret. cbv beta iota.
    rewrite run_bind.
    pose proof (remove_keeps q (eq y) HP dst_file Hne w H) as H1.
    change os.unlink with os.remove.
    destruct (os.remove dst_file w) as [[] w1|e w1] eqn:Er; [|exact H1].
    cbn in H1. apply remove_absent in Er; [|rewrite Hpf; now destruct (parse dst_dir)].
    cbv beta iota. rewrite run_bind.
    pose proof (pfx_copy_new_keeps q (eq y) HP (path_join src_dir file_) dst_file
                  (existsb (Py.fnmatch file_) patterns) w1 H1 Er) as H2.
    destruct (CompatData.pfx_copy _ _ _ w1) as [[] w2|e w2]; [|exact H2].
    cbn in H2. cbv beta iota. rewrite run_when.
    destruct (bool_decide _); exact H2.
  - rewrite run_bind, run_lexists. cbv beta iota.
    destruct (lstat (fs w) dst_file) eqn:Hl; [exact H|].
    rewrite run_bind.
    pose proof (os_makedirs_keeps q (eq y) HP dst_dir true w H) as H1.
    assert (absent (parse dst_file) (final (os.makedirs dst_dir true w))) as Ha.
    { apply os_makedirs_absent; [|exact Hl]. rewrite Hpf. apply is_prefix_snoc. }
    destruct (os.makedirs dst_dir true w) as [[] w1|e w1]; [|exact H1].
    cbn in H1, Ha. cbv beta iota. rewrite run_bind.
    pose proof (pfx_copy_new_keeps q (eq y) HP (path_join src_dir file_) dst_file
                  (existsb (Py.fnmatch file_) patterns) w1 H1 Ha) as H2.
    destruct (CompatData.pfx_copy _ _ _ w1) as [[] w2|e w2]; [|exact H2].
    cbn in H2. cbv beta iota. rewrite run_when.
    destruct (bool_decide _); exact H2.
Qed.

Lemma stream_write_keeps (I : world -> Prop) (s : string) :
  (forall w l t, I w -> I (set_trace t (set_wbuf l w))) ->
  preserves I (stream_write s).
Proof. intros HI w H. cbn. now apply HI. Qed.

Lemma stream_write_at_path q P (s : string) : preserves (at_path q P) (stream_write s).
Proof. apply stream_write_keeps. auto. Qed.

Lemma update_builtin_libs_keeps (g_session : session) (self : CompatData.t)
    (dll_copy_patterns : string) (q : path) (y : node) (w : world) :
  real_file y -> at_path q (eq y) w ->
  (forall o, resolve (fs w) (CompatData.tracked_files_file self) <> Some (q, o)) ->
  at_path q (eq y) (final (CompatData.update_builtin_libs g_session self dll_copy_patterns w)).
Proof.
  intros Hreal H Hm.
  assert (HP : leaf_pred (eq y)) by (intros ? <-; now apply real_file_leaf).
  unfold CompatData.update_builtin_libs. rewrite run_bind.
  destruct (open_read (CompatData.tracked_files_file self) w) as [data w1|e w1] eqn:Er.
  2:{ destruct (open_read_OSError _ _ _ _ Er) as [_ ->]. exact H. }
  apply open_read_pure in Er. subst w1. cbv beta iota.
  apply with_open_keeps; auto.
  intros w1 H1. rewrite run_bind. unfold walk at 1.
  rewrite run_bind, run_get_fs. cbv beta iota. rewrite run_ret. cbv beta iota.
  apply preserves_for_each; [|exact H1].
  intros [[src_dir dirs] files] Hin.
  apply os_walk_valid in Hin as [_ Hfiles]. cbn [fst snd] in Hfiles.
  apply preserves_bind.
  { apply preserves_reads_only; [apply disk_pred_at_path|apply reads_only_lexists]. }
  intros lex. apply preserves_bind.
  { apply preserves_when. apply preserves_bind; [now apply os_makedirs_keeps|].
    intros _. apply stream_write_at_path. }
  intros _. apply preserves_for_each. intros file_ Hf.
  apply update_builtin_lib_keeps; auto.
Qed.



(** ** [merge_user_dir] *)

(** C8 fails on the code.  The legacy directory holds [A] and [B], listed
    in this order, and the destination holds [A] only.  [B] is absent at the
    destination and lies under no directory that exists there, yet
    [merge_user_dir] copies nothing: once [A] is found to exist,
    [extant_dirs += dst_dir] has put the characters of its path in the list
    and every later directory counts as a child of an extant one.  Listed
    the other way round, [B] is merged. *)
Theorem merge_user_dir_skips_later_directories :
  let w := Example.world_of (Example_merge.profile [Example_merge.saves_A; Example_merge.saves_B]) in
  let w' := Example.world_of (Example_merge.profile [Example_merge.saves_B; Example_merge.saves_A]) in
  merge_user_dir Example_merge.old Example_merge.new w = Ret tt w
  /\ lstat (fs w) (Example_merge.new +:+ "/B") = None
  /\ lstat (fs (final (CompatData.migrate_user_paths Example.self w)))
       (Example_merge.new +:+ "/B") = None
  /\ lstat (fs (final (merge_user_dir Example_merge.old Example_merge.new w')))
       (Example_merge.new +:+ "/B/b.txt") = Some (File "b" 436 1).
Proof. repeat split; vm_compute; reflexivity. Qed.

(** ** [remove_tracked_files] *)


(** ** Copies in general *)

(** A directory that is not at or under [pf] is still a directory after an
    update at [pf]. *)
Lemma find_upd_dir (pf p : path) f (n : node) es :
  find p n = Some (Dir es) -> is_prefix pf p = false ->
  exists es', find p (upd pf f n) = Some (Dir es').
Proof.
  revert p n es; induction pf as [|c pf IH]; intros p n es Hp Hpre; [discriminate|].
  destruct p as [|c' p].
  - simpl in Hp. injection Hp as ->. cbn [upd].
    destruct pf as [|d pf]; [eexists; reflexivity|].
    destruct (assoc c es); eexists; reflexivity.
  - destruct n as [| |es0]; try discriminate.
    simpl in Hp. destruct (assoc c' es0) as [ch|] eqn:Ha; [|discriminate].
    simpl in Hpre. cbn [upd].
    destruct (String.eqb c c') eqn:E.
    + apply eqb_string_true in E; subst c'. simpl in Hpre.
      destruct pf as [|d pf]; [discriminate|].
      rewrite Ha. cbn [find]. rewrite assoc_replace_eq. now apply (IH p ch es).
    + apply eqb_string_false in E.
      destruct pf as [|d pf].
      * cbn [find]. rewrite assoc_set_ne by auto. rewrite Ha. eauto.
      * destruct (assoc c es0); cbn [find].
        -- rewrite assoc_replace_ne by auto. rewrite Ha. eauto.
        -- rewrite Ha. eauto.
Qed.

(** Following links to a directory after a leaf has been removed: the
    directory is still reached, or the chain stops where the leaf was. *)
Lemma follow_del_leaf (fuel : nat) (root : node) (pf p0 pk : path) (z : node) es :
  find pf root = Some z -> is_leaf z = true -> pf <> [] ->
  follow fuel root p0 = Some (pk, Some (Dir es)) ->
  (exists es', follow fuel (del pf root) p0 = Some (pk, Some (Dir es')))
  \/ follow fuel (del pf root) p0 = Some (pf, None).
Proof.
  intros Hz Hleaf Hne. revert p0.
  assert (Hgone : find pf (del pf root) = None).
  { unfold del. rewrite find_upd_eq; auto. eapply find_blocked_none; eauto. }
  assert (Hstep : forall p0 y, find p0 root = Some y -> p0 <> pf ->
                               is_prefix pf p0 = false).
  { intros p0 y Hy Hp. eapply childless_not_prefix; eauto.
    rewrite Hz. now apply leaf_childless. }
  induction fuel as [|k IH]; intros p0; cbn [follow];
    destruct (find p0 root) as [[d m t| t |es0]|] eqn:E; try discriminate.
  - intros [= <- <-].
    assert (p0 <> pf) as Hp by (intros ->; rewrite E in Hz; injection Hz as <-; discriminate).
    destruct (find_upd_dir pf p0 (fun _ => None) root es0 E) as [es' He]; eauto.
    left. exists es'. unfold del. now rewrite He.
  - destruct (decide (p0 = pf)) as [->|Hp].
    + intros _. right. now rewrite Hgone.
    + intros Hf. unfold del at 1 3.
      rewrite (find_upd_leaf pf p0 _ root (Link t)); eauto.
  - intros [= <- <-].
    assert (p0 <> pf) as Hp by (intros ->; rewrite E in Hz; injection Hz as <-; discriminate).
    destruct (find_upd_dir pf p0 (fun _ => None) root es0 E) as [es' He]; eauto.
    left. exists es'. unfold del. now rewrite He.
Qed.

Lemma basename_no_slash (s : string) : Py.contains "/" (os.path_basename s) = false.
Proof.
  induction s as [|c r IH]; [reflexivity|]. cbn [os.path_basename].
  destruct (Py.contains "/" r) eqn:Er; [exact IH|].
  destruct (Ascii.eqb c "/"%char) eqn:Ec; [exact Er|].
  now rewrite contains_slash_cons, Ec, Er.
Qed.

Lemma startswith_no_slash (b : string) :
  Py.contains "/" b = false -> Py.startswith b "/" = false.
Proof.
  destruct b as [|c r]; [reflexivity|]. rewrite contains_slash_cons.
  intros H. apply orb_false_elim in H as [Hc _]. unfold Py.startswith.
  rewrite prefix_cons, prefix_nil, andb_true_r.
  apply Ascii.eqb_neq. apply Ascii.eqb_neq in Hc. congruence.
Qed.

(** [os.path.join(a, b)] and [a + "/" + b] name the same place. *)
Lemma parse_path_join_slash (a b : string) :
  Py.contains "/" b = false -> parse (path_join a b) = parse (a +:+ "/" +:+ b).
Proof.
  intros Hb. unfold path_join, parse. rewrite startswith_no_slash by auto.
  destruct (String.eqb a "") eqn:Ea; cbn [orb].
  - apply eqb_string_true in Ea. subst a. rewrite !append_nil_l.
    rewrite feed_app, feed_slash. reflexivity.
  - destruct (Py.endswith a "/") eqn:Ee; [|reflexivity].
    rewrite !feed_app, feed_slash.
    pose proof (feed_trailing_slash a ([], "") Ee) as Hc.
    destruct (feed a ([], "")) as [stk cur]. cbn in Hc. subst cur. reflexivity.
Qed.

Section AtPathCopies.
Context (q : path) (P : node -> Prop) (HP : leaf_pred P).

(** A copy that cannot land on the file at [q] *)
Lemma copyfile_keeps (src dst : string) (follow_symlinks : bool) (w : world) :
  at_path q P w -> (forall z, resolve (fs w) dst <> Some (q, Some z)) ->
  at_path q P (final (shutil.copyfile src dst follow_symlinks w)).
Proof.
  intros H Hd. unfold shutil.copyfile.
  rewrite run_bind. unfold shutil.same_file. rewrite run_bind, run_get_fs.
  cbv beta iota. rewrite run_ret. cbv beta iota.
  rewrite run_if.
  match goal with |- context [if ?c then raise _ _ else _] => destruct c end; [exact H|].
  rewrite run_bind, run_islink. cbv beta iota. rewrite run_if.
  destruct (negb follow_symlinks && _).
  { rewrite run_bind. destruct (reads_only_readlink src w) as (Hfs & _).
    destruct (os.readlink src w) as [t w1|e w1] eqn:Er.
    - assert (w1 = w) as ->.
      { revert Er. unfold os.readlink, bind, get_fs, ret, raise.
        destruct (lstat (fs w) src) as [[]|]; congruence. }
      now apply symlink_keeps.
    - cbn in *. destruct H as (y & Hy & Py). exists y. now rewrite Hfs. }
  rewrite run_bind.
  destruct (open_read src w) as [data w1|e w1] eqn:Er;
    [|destruct (open_read_OSError _ _ _ _ Er) as [_ ->]; exact H].
  apply open_read_pure in Er. subst w1.
  rewrite run_bind.
  destruct (open_write_cases true dst w) as [e|p d m t Hr|p Hr Hb]; [exact H| |].
  - assert (p <> q) as Hne by (intros ->; eapply Hd; eauto).
    apply resolve_spec in Hr as [Hf _].
    set (w1 := final (emit _ w)).
    assert (H1 : at_path q P w1) by (eapply file_put_keeps; eauto).
    rewrite run_bind, run_get_fs. cbv beta iota.
    unfold get_clock at 1. rewrite run_bind. cbv beta iota.
    destruct (find p (fs w1)) as [[d1 m1 t1| |]|] eqn:E1; try exact H1.
    eapply file_put_keeps; eauto.
  - apply resolve_spec in Hr as [Hf _].
    set (w1 := final (emit _ w)).
    assert (H1 : at_path q P w1) by (apply new_put_keeps; auto).
    rewrite run_bind, run_get_fs. cbv beta iota.
    unfold get_clock at 1. rewrite run_bind. cbv beta iota.
    destruct (find p (fs w1)) as [[d1 m1 t1| |]|] eqn:E1; try exact H1.
    eapply file_put_keeps; eauto.
    eapply (at_path_absent _ _ _ w); eauto.
Qed.

Context (HM : meta_pred P).

(** Setting permission bits or time stamps of the file a path leads to *)
Lemma set_meta_keeps (p : path) (d : string) (m m' t t' : Z) (w : world) :
  at_path q P w -> find p (fs w) = Some (File d m t) ->
  at_path q P (final (emit (EPut p (File d m' t')) w)).
Proof.
  intros H Hp. destruct (decide (p = q)) as [->|Hne].
  - destruct H as (y & Hy & Py). rewrite Hy in Hp. injection Hp as ->.
    destruct q as [|c q']; [exists (File d m t); auto|].
    exists (File d m' t'). split; [|eapply HM; eauto].
    cbn [final emit fs set_trace set_fs apply_event]. unfold put.
    rewrite find_upd_eq;
      [reflexivity|eapply find_blocked_none; eauto|discriminate].
  - eapply file_put_keeps; eauto.
Qed.

Lemma copymode_keeps (src dst : string) (follow_symlinks : bool) :
  preserves (at_path q P) (shutil.copymode src dst follow_symlinks).
Proof.
  unfold shutil.copymode.
  apply preserves_bind;
    [apply preserves_reads_only; [apply disk_pred_at_path|apply reads_only_islink]|].
  intros ls. apply preserves_bind;
    [apply preserves_reads_only; [apply disk_pred_at_path|apply reads_only_islink]|].
  intros ld. destruct (negb follow_symlinks && ls && ld); [apply preserves_ret|].
  apply preserves_bind;
    [apply preserves_reads_only; [apply disk_pred_at_path|apply reads_only_stat_mode]|].
  intros m. now apply chmod_keeps.
Qed.

Lemma copystat_keeps (src dst : string) (follow_symlinks : bool) :
  preserves (at_path q P) (shutil.copystat src dst follow_symlinks).
Proof.
  unfold shutil.copystat.
  apply preserves_bind;
    [apply preserves_reads_only; [apply disk_pred_at_path|apply reads_only_islink]|].
  intros ls. apply preserves_bind;
    [apply preserves_reads_only; [apply disk_pred_at_path|apply reads_only_islink]|].
  intros ld. destruct (negb follow_symlinks && ls && ld); [apply preserves_ret|].
  apply preserves_bind;
    [apply preserves_reads_only; [apply disk_pred_at_path|apply reads_only_stat_mode]|].
  intros m. apply preserves_bind;
    [apply preserves_reads_only; [apply disk_pred_at_path|apply reads_only_getmtime]|].
  intros t w H. rewrite run_bind, run_get_fs. cbv beta iota.
  destruct (resolve (fs w) dst) as [[p [[d m0 t0| |]|]]|] eqn:E; try exact H.
  apply resolve_spec in E as [Hf _]. eapply set_meta_keeps; eauto.
Qed.

(** [shutil.copy] and [shutil.copy2] when the copy cannot land on the file
    at [q] *)
Lemma copy_keeps (metadata : bool) (src dst : string) (follow_symlinks : bool)
    (w : world) :
  at_path q P w ->
  (forall d' z, shutil.copy_target src dst w = Ret d' w ->
                resolve (fs w) d' <> Some (q, Some z)) ->
  at_path q P
    (final ((if metadata then shutil.copy2 else shutil.copy) src dst follow_symlinks w)).
Proof.
  intros H Ht.
  assert (Hgo : forall k : string -> string -> bool -> M unit,
             (forall a b c, preserves (at_path q P) (k a b c)) ->
             at_path q P
               (final ((dst' <- shutil.copy_target src dst ;;
                        shutil.copyfile src dst' follow_symlinks ;;;
                        k src dst' follow_symlinks) w))).
  { intros k Hk. rewrite run_bind. unfold shutil.copy_target in *.
    rewrite run_bind, run_isdir in *. cbv beta iota in *. rewrite run_ret in *.
    cbv beta iota.
    match goal with |- context [shutil.copyfile src ?d _] => set (dst' := d) in * end.
    assert (Ht' : forall z, resolve (fs w) dst' <> Some (q, Some z))
      by (intros z; now apply Ht).
    rewrite run_bind.
    pose proof (copyfile_keeps src dst' follow_symlinks w H Ht') as H1.
    destruct (shutil.copyfile src dst' follow_symlinks w) as [[] w1|e w1]; [|exact H1].
    apply Hk. exact H1. }
  destruct metadata; [apply (Hgo shutil.copystat), copystat_keeps
                     |apply (Hgo shutil.copymode), copymode_keeps].
Qed.

Lemma remove_gone (s : string) (w w' : world) :
  at_path q P w -> parse s <> q -> os.remove s w = Ret tt w' -> absent (parse s) w'.
Proof.
  intros (y & Hy & Py) Hne Hr. eapply remove_absent; eauto.
  intros Hnil. revert Hr. unfold os.remove. rewrite run_bind, run_get_fs.
  cbv beta iota. unfold lstat. rewrite Hnil. cbn [find].
  destruct (fs w) as [| |es] eqn:E; try discriminate; intros _;
    apply Hne; rewrite Hnil; symmetry;
    (destruct q as [|c q']; [reflexivity|]); try rewrite E in Hy; cbn in Hy; discriminate.
Qed.

Lemma run_stat_absent (s : string) (w : world) :
  lstat (fs w) s = None -> stat (fs w) s = None.
Proof. intros H. unfold stat. now rewrite (resolve_absent _ _ H). Qed.

(** [try_copy] leaves alone whatever is neither at the destination nor at
    the name the source would take inside it. *)
Lemma try_copy_keeps (src dst : string)
    (add_write_perm copy_metadata optional follow_symlinks : bool) :
  parse dst <> q -> parse (dst +:+ "/" +:+ os.path_basename src) <> q ->
  preserves (at_path q P)
    (try_copy src dst add_write_perm copy_metadata optional follow_symlinks).
Proof.
  intros Hd Hf w H. unfold try_copy.
  set (dstfile := dst +:+ "/" +:+ os.path_basename src) in *.
  assert (Hjoin : parse (path_join dst (os.path_basename src)) = parse dstfile)
    by (apply parse_path_join_slash, basename_no_slash).
  (* what follows the clean-up of the destination *)
  assert (Htail : forall (target : string) (w1 : world),
    at_path q P w1 ->
    (forall d' z, shutil.copy_target src dst w1 = Ret d' w1 ->
                  resolve (fs w1) d' <> Some (q, Some z)) ->
    at_path q P
      (final (((if copy_metadata then shutil.copy2 src dst follow_symlinks
                else shutil.copy src dst follow_symlinks) ;;;
               when add_write_perm
                 (m <- os.lstat_mode target ;;
                  os.chmod target (Z.lor (Z.lor m S_IWUSR) S_IWGRP))) w1))).
  { intros target w1 H1 Ht. rewrite run_bind.
    pose proof (copy_keeps copy_metadata src dst follow_symlinks w1 H1 Ht) as H2.
    assert ((if copy_metadata then shutil.copy2 src dst follow_symlinks
             else shutil.copy src dst follow_symlinks)
            = (if copy_metadata then shutil.copy2 else shutil.copy)
                src dst follow_symlinks) as -> by (destruct copy_metadata; reflexivity).
    destruct ((if copy_metadata then shutil.copy2 else shutil.copy) _ _ _ w1)
      as [[] w2|e w2]; [|exact H2].
    cbn in H2. cbv beta iota. apply preserves_when; [|exact H2].
    apply preserves_bind;
      [apply preserves_reads_only; [apply disk_pred_at_path|apply reads_only_lstat_mode]|].
    intros m. now apply chmod_keeps. }
  assert (Hbody : at_path q P (final ((
     isd <- os.path_isdir dst ;;
     dstfile <-
       (if isd then
          let dstfile := dst +:+ "/" +:+ os.path_basename src in
          lex <- os.path_lexists dstfile ;;
          when lex (os.remove dstfile) ;;;
          ret dstfile
        else
          lex <- os.path_lexists dst ;;
          when lex (os.remove dst) ;;;
          ret dst) ;;
     (if copy_metadata then shutil.copy2 src dst follow_symlinks
      else shutil.copy src dst follow_symlinks) ;;;
     when add_write_perm
       (m <- os.lstat_mode dstfile ;;
        os.chmod dstfile (Z.lor (Z.lor m S_IWUSR) S_IWGRP))) w))).
  { rewrite run_bind, run_isdir. cbv beta iota.
    destruct (stat (fs w) dst) as [[| |es]|] eqn:Es.
    1,2,4: (* the destination is not a directory *)
      rewrite run_bind, run_bind, run_lexists; cbv beta iota;
      rewrite run_bind, run_when;
      (destruct (lstat (fs w) dst) eqn:El;
       [ pose proof (remove_keeps q P HP dst Hd w H) as H1;
         destruct (os.remove dst w) as [[] w1|e w1] eqn:Er; [|exact H1];
         cbn in H1; apply (remove_gone _ _ _ H Hd) in Er;
         cbv beta iota; rewrite run_ret; cbv beta iota;
         apply Htail; [exact H1|];
         intros d' z; unfold shutil.copy_target;
         rewrite run_bind, run_isdir, (run_stat_absent _ _ Er); cbv beta iota;
         rewrite run_ret; intros [= <-]; rewrite (resolve_absent _ _ Er); discriminate
       | cbv beta iota; rewrite run_ret; cbv beta iota;
         apply Htail; [exact H|];
         intros d' z; unfold shutil.copy_target;
         rewrite run_bind, run_isdir, (run_stat_absent _ _ El); cbv beta iota;
         rewrite run_ret; intros [= <-]; rewrite (resolve_absent _ _ El); discriminate ]).
    (* the destination is a directory *)
    cbv zeta. fold dstfile.
    rewrite run_bind, run_bind, run_lexists. cbv beta iota.
    rewrite run_bind, run_when.
    destruct (lstat (fs w) dstfile) as [z0|] eqn:El.
    - pose proof (remove_keeps q P HP dstfile Hf w H) as H1.
      destruct (os.remove dstfile w) as [[] w1|e w1] eqn:Er; [|exact H1].
      cbn in H1. pose proof (remove_gone _ _ _ H Hf Er) as Hgone.
      cbv beta iota. rewrite run_ret. cbv beta iota.
      apply Htail; [exact H1|].
      intros d' z. unfold shutil.copy_target.
      rewrite run_bind, run_isdir. cbv beta iota. rewrite run_ret.
      destruct (stat (fs w1) dst) as [[| |es1]|] eqn:Es1; intros [= <-].
      3: { rewrite resolve_absent; [discriminate|].
           unfold lstat. rewrite Hjoin. exact Hgone. }
      all: (* the chain to the directory was cut where the file was *)
        revert Er; unfold os.remove; rewrite run_bind, run_get_fs; cbv beta iota;
        rewrite El; destruct z0 as [d0 m0 t0|t0|es0]; try discriminate;
        intros [= <-];
        unfold stat, resolve in Es, Es1 |- *;
        cbn [fs final emit set_trace set_fs apply_event] in Es1 |- *;
        (destruct (follow MAXSYMLINKS (fs w) (parse dst)) as [[pk [[| |esk]|]]|] eqn:Ek;
         try discriminate);
        (eapply follow_del_leaf in Ek as [[es' Hk]|Hk];
         [ rewrite Hk in Es1; discriminate
         | rewrite Hk; discriminate
         | exact El
         | reflexivity
         | intros Hnil; unfold absent in Hgone; rewrite Hnil in Hgone; discriminate ]).
    - cbv beta iota. rewrite run_ret. cbv beta iota.
      apply Htail; [exact H|].
      intros d' z. unfold shutil.copy_target.
      rewrite run_bind, run_isdir, Es. cbv beta iota. rewrite run_ret.
      intros [= <-]. rewrite resolve_absent; [discriminate|].
      unfold lstat. rewrite Hjoin. exact El. }
  rewrite run_try_except.
  match goal with |- context [match ?t with _ => _ end] =>
    change (at_path q P (final t)) in Hbody; destruct t as [[] w1|e w1] end;
    [exact Hbody|].
  cbn in Hbody. destruct e as [[]| |]; try exact Hbody; destruct optional; exact Hbody.
Qed.

Lemma try_copy_default_keeps (src dst : string) :
  parse dst <> q -> parse (dst +:+ "/" +:+ os.path_basename src) <> q ->
  preserves (at_path q P) (try_copy_default src dst).
Proof. apply try_copy_keeps. Qed.
End AtPathCopies.

(** ** The names of a walk *)

Lemma walk_node_below (root : node) (n : node) :
  forall (here : list string) (top : string) (item : walk_item),
    item ∈ walk_node root here top n ->
    exists names, item.1.1 = below top names
                  /\ Forall (fun k => valid_name k = true) names.
Proof.
  induction n as [d m t|t|es IH] using node_ind'; intros here top item Hin;
    cbn [walk_node] in Hin; try (apply elem_of_nil in Hin; contradiction).
  apply elem_of_cons in Hin as [->|Hin].
  - exists []. split; [reflexivity|constructor].
  - revert Hin. induction IH as [|[k x] r Hx _ IHr]; intros Hin.
    + apply elem_of_nil in Hin; contradiction.
    + apply elem_of_app in Hin as [Hin|Hin]; [|auto].
      destruct (valid_name k) eqn:Ek; [|apply elem_of_nil in Hin; contradiction].
      apply Hx in Hin as (names & Hn & Hv).
      exists (k :: names). split; [exact Hn|]. constructor; auto.
Qed.

Lemma os_walk_below (root : node) (top : string) (item : walk_item) :
  item ∈ os_walk root top ->
  exists names, item.1.1 = below top names
                /\ Forall (fun k => valid_name k = true) names.
Proof.
  unfold os_walk. destruct (resolve root top) as [[p [[| |es]|]]|];
    try (intros H; apply elem_of_nil in H; contradiction).
  apply walk_node_below.
Qed.

Lemma path_join_plain (a n : string) :
  a <> "" -> Py.endswith a "/" = false -> valid_name n = true ->
  path_join a n = a +:+ "/" +:+ n.
Proof.
  intros Ha He Hn. unfold path_join. rewrite startswith_slash_valid by auto.
  apply eqb_string_false in Ha. now rewrite Ha, He.
Qed.

Lemma plain_snoc (a n : string) :
  valid_name n = true ->
  a +:+ "/" +:+ n <> "" /\ Py.endswith (a +:+ "/" +:+ n) "/" = false.
Proof.
  intros Hn. pose proof (valid_name_spec n Hn) as (H1 & _ & _ & H4). split.
  - destruct a; discriminate.
  - destruct (Py.endswith (a +:+ "/" +:+ n) "/") eqn:E; [|reflexivity].
    apply (feed_trailing_slash _ ([], "")) in E.
    rewrite !feed_app, feed_slash in E.
    rewrite feed_no_slash in E by auto. cbn in E. now rewrite append_nil_l in E.
Qed.

Lemma below_slashes (names : list string) :
  forall src, src <> "" -> Py.endswith src "/" = false ->
    Forall (fun k => valid_name k = true) names ->
    below src names = src +:+ slashes names.
Proof.
  induction names as [|n names IH]; intros src Hs He Hv.
  - cbn. now rewrite append_nil_r.
  - apply Forall_cons in Hv as [Hn Hv]. cbn [below fold_left slashes fold_right].
    rewrite path_join_plain by auto.
    destruct (plain_snoc src n Hn) as [H1 H2].
    fold (below (src +:+ "/" +:+ n) names). rewrite IH by auto.
    fold (slashes names). now rewrite <- !append_assoc.
Qed.

Lemma prefix_app (a b : string) : String.prefix a (a +:+ b) = true.
Proof.
  induction a as [|c a IH]; [apply prefix_nil|].
  rewrite append_cons, prefix_cons, IH. now rewrite Ascii.eqb_refl.
Qed.

Lemma drop_app (a b : string) : Py.drop (String.length a) (a +:+ b) = b.
Proof. induction a as [|c a IH]; [reflexivity|]. exact IH. Qed.

Lemma replace1_prefix (old new suf : string) :
  Py.replace1 old new (old +:+ suf) = new +:+ suf.
Proof.
  pose proof (prefix_app old suf) as Hp. pose proof (drop_app old suf) as Hd.
  destruct (old +:+ suf); cbn [Py.replace1]; now rewrite Hp, Hd.
Qed.

Lemma close_slashes (names : list string) :
  forall st, Forall (fun k => valid_name k = true) names ->
    close (feed (slashes names) st) = close st ++ names.
Proof.
  induction names as [|n names IH]; intros st Hv.
  - cbn. now rewrite app_nil_r.
  - apply Forall_cons in Hv as [Hn Hv].
    pose proof (valid_name_spec n Hn) as (_ & _ & _ & H4).
    cbn [slashes fold_right]. fold (slashes names).
    rewrite !feed_app, feed_slash, feed_no_slash by auto.
    rewrite append_nil_l, IH by auto. rewrite close_name by auto.
    unfold close. now rewrite <- app_assoc.
Qed.

Lemma parse_slashes (dst : string) (names : list string) :
  Forall (fun k => valid_name k = true) names ->
  parse (dst +:+ slashes names) = parse dst ++ names.
Proof. intros Hv. unfold parse. rewrite feed_app. now apply close_slashes. Qed.

Lemma basename_plain (n : string) :
  Py.contains "/" n = false -> os.path_basename n = n.
Proof.
  destruct n as [|c r]; [reflexivity|]. rewrite contains_slash_cons.
  intros H. apply orb_false_elim in H as [Hc Hr]. cbn [os.path_basename].
  now rewrite Hr, Hc.
Qed.

Lemma contains_slash_app (a n : string) : Py.contains "/" (a +:+ "/" +:+ n) = true.
Proof.
  induction a as [|c a IH].
  - rewrite append_nil_l, append_cons, contains_slash_cons. reflexivity.
  - rewrite append_cons, contains_slash_cons, IH. apply orb_true_r.
Qed.

Lemma basename_slash (a n : string) :
  Py.contains "/" n = false -> os.path_basename (a +:+ "/" +:+ n) = n.
Proof.
  intros Hn. induction a as [|c a IH].
  - rewrite append_nil_l, append_cons, append_nil_l. cbn [os.path_basename].
    now rewrite Hn.
  - rewrite append_cons. cbn [os.path_basename]. now rewrite contains_slash_app.
Qed.

Lemma basename_path_join (a n : string) :
  valid_name n = true -> os.path_basename (path_join a n) = n.
Proof.
  intros Hn. pose proof (valid_name_spec n Hn) as (_ & _ & _ & H4).
  unfold path_join. rewrite startswith_slash_valid by auto.
  destruct (String.eqb a "") eqn:Ea; cbn [orb].
  - apply eqb_string_true in Ea. subst a. rewrite append_nil_l.
    now apply basename_plain.
  - destruct (Py.endswith a "/") eqn:Ee; [|now apply basename_slash].
    apply endswith_split in Ee as [a' ->]. rewrite append_assoc.
    now apply basename_slash.
Qed.

(** ** What a merge and a migration leave alone *)

Section AtPathMerge.
Context (q : path) (P : node -> Prop) (HP : leaf_pred P) (HM : meta_pred P).

Lemma is_prefix_app_ne (p r : path) : is_prefix p q = false -> p ++ r <> q.
Proof.
  intros H <-. assert (is_prefix p (p ++ r) = true) by (apply is_prefix_app; eauto).
  congruence.
Qed.

Lemma preserves_query {A} (m : M A) : reads_only m -> preserves (at_path q P) m.
Proof. apply preserves_reads_only, disk_pred_at_path. Qed.

(** A merge writes under its destination only. *)
Lemma merge_user_dir_keeps (src dst : string) :
  src <> "" -> Py.endswith src "/" = false -> is_prefix (parse dst) q = false ->
  preserves (at_path q P) (merge_user_dir src dst).
Proof.
  intros Hs He Hq w H. unfold merge_user_dir, walk.
  rewrite run_bind, run_bind, run_get_fs. cbv beta iota. rewrite run_ret.
  cbv beta iota.
  apply preserves_bind; [|intros; apply preserves_ret|exact H].
  apply preserves_fold_each. intros extant_dirs [[src_dir dirs] files] Hin.
  destruct (os_walk_below _ _ _ Hin) as (names & Hsrc & Hv).
  destruct (os_walk_valid _ _ _ Hin) as [Hdirs Hfiles].
  cbn [fst snd] in Hsrc, Hdirs, Hfiles.
  rewrite below_slashes in Hsrc by auto. subst src_dir.
  cbv zeta. rewrite replace1_prefix.
  assert (Hcopy : forall name, valid_name name = true ->
            preserves (at_path q P)
              (try_copy (path_join (src +:+ slashes names) name)
                        (path_join (dst +:+ slashes names) name) true true false false)).
  { intros name Hn. pose proof (valid_name_spec name Hn) as (_ & _ & _ & H4).
    apply try_copy_keeps; auto.
    - rewrite parse_path_join, parse_slashes by auto. rewrite <- app_assoc.
      now apply is_prefix_app_ne.
    - rewrite basename_path_join by auto.
      rewrite <- parse_path_join_slash by auto.
      rewrite !parse_path_join, parse_slashes by auto. rewrite <- !app_assoc.
      now apply is_prefix_app_ne. }
  destruct (existsb _ extant_dirs); [apply preserves_ret|].
  apply preserves_bind; [apply preserves_query, reads_only_exists|intros ex].
  apply preserves_bind.
  { destruct (negb ex); [apply preserves_ret|apply preserves_query, reads_only_samefile]. }
  intros [|]; [|apply preserves_ret].
  apply preserves_bind; [now apply makedirs_keeps|intros _].
  apply preserves_bind.
  { apply preserves_for_each. intros dir_ Hd.
    apply preserves_bind; [apply preserves_query, reads_only_islink|intros lnk].
    apply preserves_bind; [apply preserves_query, reads_only_exists|intros ex'].
    apply preserves_when. apply Hcopy. now apply Hdirs. }
  intros _. apply preserves_bind; [|intros; apply preserves_ret].
  apply preserves_for_each. intros file_ Hf.
  apply preserves_bind; [apply preserves_query, reads_only_exists|intros ex'].
  apply preserves_when. apply Hcopy. now apply Hfiles.
Qed.

(** One entry of the table leaves alone what is not at or under its old and
    new places. *)
Lemma migrate_user_path_keeps (self : CompatData.t) (old new link : string) :
  let old' := CompatData.prefix_dir self +:+ old in
  parse new <> q -> is_prefix (parse new) q = false ->
  old' <> "" -> Py.endswith old' "/" = false ->
  is_prefix (parse old') q = false -> parse (old' +:+ " BACKUP") <> q ->
  preserves (at_path q P) (CompatData.migrate_user_path self (old, new, link)).
Proof.
  intros old' Hn Hnp Ho He Hop Hb. unfold CompatData.migrate_user_path.
  fold old'.
  assert (Hne : parse old' <> q).
  { intros E. rewrite E, is_prefix_refl in Hop. discriminate. }
  apply preserves_bind; [apply preserves_query, reads_only_lexists|intros lex].
  apply preserves_bind.
  { destruct lex; [apply preserves_query, reads_only_islink|apply preserves_ret]. }
  intros lnk. apply preserves_bind.
  { destruct lnk; [|apply preserves_ret].
    apply preserves_bind; [apply preserves_query, reads_only_readlink|].
    intros; apply preserves_ret. }
  intros loop. apply preserves_bind; [apply preserves_when; now apply remove_keeps|].
  intros _. cbv zeta.
  apply preserves_bind; [apply preserves_query, reads_only_lexists|intros lex'].
  apply preserves_bind.
  { destruct lex'; [apply preserves_query, reads_only_islink|apply preserves_ret]. }
  intros lnk'. apply preserves_bind.
  { apply preserves_when. apply preserves_bind; [now apply merge_user_dir_keeps|].
    intros _. now apply rename_keeps. }
  intros _. apply preserves_bind; [apply preserves_query, reads_only_lexists|intros lex2].
  destruct (negb lex2).
  - apply preserves_bind; [now apply makedirs_keeps|intros _]. now apply symlink_keeps.
  - apply preserves_bind; [apply preserves_query, reads_only_islink|intros lnk2].
    apply preserves_bind.
    { destruct lnk2; [|apply preserves_ret].
      apply preserves_bind; [apply preserves_query, reads_only_readlink|].
      intros; apply preserves_ret. }
    intros differs. apply preserves_when.
    apply preserves_bind; [now apply remove_keeps|intros _]. now apply symlink_keeps.
Qed.

End AtPathMerge.

(** ** The migration of the user paths *)

Lemma bind_returns {A B} (m : M A) (k : A -> M B) (w w' : world) (b : B) :
  bind m k w = Ret b w' -> exists a w1, m w = Ret a w1 /\ k a w1 = Ret b w'.
Proof. rewrite run_bind. destruct (m w) as [a w1|e w1]; [eauto|discriminate]. Qed.

Lemma symlink_made (t s : string) (w w' : world) :
  os.symlink t s w = Ret tt w' -> lstat (fs w') s = Some (Link t).
Proof.
  unfold os.symlink. rewrite run_bind, run_get_fs. cbv beta iota.
  destruct (lstat (fs w) s) eqn:El; [discriminate|].
  destruct (blocked (parse s) (fs w)) eqn:Eb; [discriminate|].
  intros [= <-]. unfold lstat in *. cbn. unfold put.
  rewrite find_upd_eq; auto. intros E. rewrite E in El. discriminate.
Qed.

Lemma rename_gone (s1 s2 : string) (w w' : world) :
  is_prefix (parse s2) (parse s1) = false ->
  os.rename s1 s2 w = Ret tt w' -> absent (parse s1) w'.
Proof.
  intros H21. unfold os.rename. rewrite run_bind, run_get_fs. cbv beta iota zeta.
  destruct (find (parse s1) (fs w)) as [x|] eqn:E1; [|discriminate].
  destruct (path_eqb (parse s1) (parse s2)) eqn:Eq.
  { apply path_eqb_eq in Eq. rewrite <- Eq, is_prefix_refl in H21. discriminate. }
  destruct (is_prefix (parse s1) (parse s2)) eqn:H12; [discriminate|].
  assert (Hne : parse s1 <> []) by (intros E; rewrite E in H12; discriminate).
  assert (Hgo : absent (parse s1) (final (emit (EMove (parse s1) (parse s2)) w))).
  { unfold absent. cbn. unfold move. rewrite E1. unfold put.
    rewrite find_upd_unrelated by auto. unfold del.
    rewrite find_upd_eq; auto. eapply find_blocked_none; eauto. }
  destruct (blocked (parse s2) (fs w)); [discriminate|].
  destruct (find (parse s2) (fs w)) as [y|]; [|intros [= <-]; exact Hgo].
  destruct x as [| |es], y as [| |[|e es']]; try discriminate; intros [= <-]; exact Hgo.
Qed.

(** One entry of the table leaves its link at the old place. *)
Lemma migrate_user_path_links (self : CompatData.t) (old new link : string)
    (w w' : world) :
  let old' := CompatData.prefix_dir self +:+ old in
  is_prefix (parse (old' +:+ " BACKUP")) (parse old') = false ->
  CompatData.migrate_user_path self (old, new, link) w = Ret tt w' ->
  lstat (fs w') old' = Some (Link link).
Proof.
  intros old' Hb. unfold CompatData.migrate_user_path. fold old'.
  intros H.
  apply bind_returns in H as (lex0 & w0 & _ & H).
  apply bind_returns in H as (lnk0 & w0' & _ & H).
  apply bind_returns in H as (loop & w0'' & _ & H).
  apply bind_returns in H as ([] & w1 & _ & H).
  cbv zeta in H. clear w0 w0' w0'' lex0 lnk0 loop w.
  assert (Hnew : forall w2,
    lstat (fs w2) old' = None ->
    (lex <- os.path_lexists old' ;;
     if negb lex then makedirs (os.path_dirname old') ;;; os.symlink link old'
     else
       lnk <- os.path_islink old' ;;
       differs <- (if lnk then t <- os.readlink old' ;; ret (negb (String.eqb t link))
                   else ret false) ;;
       when differs (os.remove old' ;;; os.symlink link old')) w2 = Ret tt w' ->
    lstat (fs w') old' = Some (Link link)).
  { intros w2 El. rewrite run_bind, run_lexists, El. cbv beta iota. cbn [negb].
    intros H2. apply bind_returns in H2 as ([] & w3 & _ & H2).
    eapply symlink_made; eauto. }
  rewrite run_bind, run_lexists in H. cbv beta iota in H.
  destruct (lstat (fs w1) old') as [n|] eqn:El.
  2: { rewrite run_bind, run_ret in H. cbv beta iota in H.
       rewrite run_bind in H. cbn [andb when] in H. rewrite run_ret in H.
       cbv beta iota in H. eapply Hnew; eauto. }
  rewrite run_bind, run_islink, El in H. cbv beta iota in H.
  destruct n as [d m t|t|es].
  2: { (* a link already *)
       rewrite run_bind in H. cbn [andb negb when] in H. rewrite run_ret in H.
       cbv beta iota in H.
       rewrite run_bind, run_lexists, El in H. cbv beta iota in H. cbn [negb] in H.
       rewrite run_bind, run_islink, El in H. cbv beta iota in H.
       rewrite run_bind, run_bind, (run_readlink _ _ _ El) in H. cbv beta iota in H.
       rewrite run_ret in H. cbv beta iota in H.
       destruct (String.eqb t link) eqn:Et; cbn [negb when] in H.
       - injection H as <-. apply eqb_string_true in Et. now subst t.
       - apply bind_returns in H as ([] & w3 & _ & H).
         eapply symlink_made; eauto. }
  all: (* something real: it is merged and set aside *)
    rewrite run_bind in H; cbn [andb negb when] in H;
    match type of H with match ?m with _ => _ end = _ =>
      destruct m as [[] w2|e w2] eqn:Em; [|discriminate] end;
    apply bind_returns in Em as ([] & w3 & _ & Em);
    apply (rename_gone _ _ _ _ Hb) in Em;
    eapply Hnew; eauto.
Qed.

(** The prefix directory of a compatibility data directory ends in the
    component [pfx], whatever the directory is called. *)
Lemma prefix_dir_feed (compatdata : string) :
  exists B, forall s,
    feed (CompatData.prefix_dir (CompatData.init compatdata) +:+ s) ([], "")
    = feed s ("pfx" :: B, "").
Proof.
  exists (push (feed compatdata ([], "")).2 (feed compatdata ([], "")).1).
  intros s. cbn [CompatData.prefix_dir CompatData.init].
  now rewrite !feed_app, feed_slash.
Qed.

Lemma is_prefix_app_head (b p r : path) : is_prefix (b ++ p) (b ++ r) = is_prefix p r.
Proof.
  induction b as [|c b IH]; [reflexivity|]. cbn [app is_prefix].
  now rewrite String.eqb_refl, IH.
Qed.

Lemma plain_by_feed (s : string) :
  (feed s ([], "")).2 <> "" -> s <> "" /\ Py.endswith s "/" = false.
Proof.
  intros H. split; [intros ->; now apply H|].
  destruct (Py.endswith s "/") eqn:E; [|reflexivity].
  apply (feed_trailing_slash _ ([], "")) in E. contradiction.
Qed.

Lemma link_at (s l : string) (w : world) :
  lstat (fs w) s = Some (Link l) <-> at_path (parse s) (eq (Link l)) w.
Proof.
  unfold lstat, at_path. split; [eauto|]. now intros (y & -> & ->).
Qed.

Lemma leaf_pred_link (l : string) : leaf_pred (eq (Link l)).
Proof. now intros y <-. Qed.

Lemma meta_pred_link (l : string) : meta_pred (eq (Link l)).
Proof. intros d m t m' t' [=]. Qed.

(** The paths of the table, with the components of the prefix directory
    left open *)
Ltac user_path_norm HB :=
  unfold parse; rewrite ?append_assoc; rewrite ?HB;
  repeat match goal with
         | |- context [feed ?s (?stk, ?cur)] =>
             let r := eval vm_compute in (feed s (stk, cur)) in
             change (feed s (stk, cur)) with r
         end;
  unfold close; cbn [fst snd];
  repeat match goal with
         | |- context [push ?c ?stk] =>
             let r := eval vm_compute in (push c stk) in
             change (push c stk) with r
         end;
  cbn [rev]; rewrite <- ?app_assoc; cbn [app].

Ltac user_path_fact HB :=
  match goal with
  | |- _ /\ _ => split; user_path_fact HB
  | |- is_prefix _ _ = false =>
      user_path_norm HB; rewrite is_prefix_app_head; reflexivity
  | |- @eq (list string) _ _ -> False =>
      user_path_norm HB; intros E; apply app_inv_head in E; discriminate
  | |- not (@eq (list string) _ _) =>
      user_path_norm HB; intros E; apply app_inv_head in E; discriminate
  | |- not (@eq path _ _) =>
      user_path_norm HB; intros E; apply app_inv_head in E; discriminate
  | |- _ <> "" =>
      refine (proj1 (plain_by_feed _ _)); rewrite ?HB; vm_compute; discriminate
  | |- Py.endswith _ "/" = false =>
      refine (proj2 (plain_by_feed _ _)); rewrite ?HB; vm_compute; discriminate
  end.



(** ** The passes of [remove_tracked_files] *)

Lemma deleted_nil (w : world) : deleted [] w = w.
Proof. unfold deleted. cbn. rewrite app_nil_r. now destruct w. Qed.

Lemma deleted_cons (p : path) (l : list path) (w : world) :
  deleted l (final (emit (EDel p) w)) = deleted (p :: l) w.
Proof.
  unfold deleted. destruct w. cbn. now rewrite <- app_assoc.
Qed.

Lemma deleted_app (l1 l2 : list path) (w : world) :
  deleted l2 (deleted l1 w) = deleted (l1 ++ l2) w.
Proof.
  revert w; induction l1 as [|p l1 IH]; intros w.
  - now rewrite deleted_nil.
  - cbn [app]. rewrite <- !deleted_cons. apply IH.
Qed.

Lemma lstat_or_stat (root : node) (s : string) :
  (exists t, lstat root s = Some (Link t)) \/ stat root s = lstat root s.
Proof.
  destruct (lstat root s) as [[| t |]|] eqn:E; eauto; right;
    rewrite <- E; apply stat_not_link; intros t; rewrite E; discriminate.
Qed.

Lemma stat_never_link (root : node) (s t : string) : stat root s <> Some (Link t).
Proof.
  unfold stat, resolve. intros H.
  destruct (follow MAXSYMLINKS root (parse s)) as [[q o]|] eqn:E; [|discriminate].
  subst o. now apply follow_never_link in E.
Qed.

Lemma is_OSError_path_error (p : path) (root : node) :
  is_OSError (path_error p root) = true.
Proof. unfold path_error. now destruct (blocked p root) as [[]|]. Qed.

(** The pass over the lines: files and links go, directories are kept for
    later, and nothing raises. *)
Lemma file_pass (self : CompatData.t) (lines : list string) :
  forall (w : world) (dirs : list string),
  let paths := (fun f => CompatData.prefix_dir self +:+ Py.strip f) <$> lines in
  exists (F : list path) (dirs' : list string),
    fold_each lines dirs
      (fun dirs f =>
         let path := CompatData.prefix_dir self +:+ Py.strip f in
         ex <- os.path_exists path ;;
         if ex then
           isf <- os.path_isfile path ;;
           isl <- os.path_islink path ;;
           if isf || isl then os.remove path ;;; ret dirs
           else ret (dirs ++ [path])
         else ret dirs) w
    = Ret (dirs ++ dirs') (deleted F w)
    /\ F `sublist_of` (parse <$> paths)
    /\ dirs' `sublist_of` paths
    /\ each_turn is_leaf (fs w) F
    /\ (forall p d m t, p ∈ paths -> lstat (fs w) p = Some (File d m t) -> parse p ∈ F).
Proof.
  induction lines as [|f lines IH]; intros w dirs paths.
  { exists [], []. cbn [fold_each]. rewrite run_ret, deleted_nil, app_nil_r.
    split; [reflexivity|]. split; [constructor|]. split; [constructor|].
    split; [exact I|]. intros p d m t Hp. apply elem_of_nil in Hp. contradiction. }
  subst paths. cbn [fmap list_fmap]. set (path := CompatData.prefix_dir self +:+ Py.strip f).
  cbn [fold_each]. rewrite run_bind. cbv zeta. fold path.
  rewrite run_bind, run_exists. cbv beta iota.
  destruct (stat (fs w) path) as [n|] eqn:Es.
  2: { (* nothing there, or a link that leads nowhere *)
       rewrite run_ret. cbv beta iota.
       destruct (IH w dirs) as (F & dirs' & Hrun & HF & Hd & Ht & Hall).
       exists F, dirs'. split; [exact Hrun|]. split; [now apply sublist_cons|].
       split; [now apply sublist_cons|]. split; [exact Ht|].
       intros p d m t Hp Hl. apply elem_of_cons in Hp as [->|Hp]; [|eauto].
       unfold stat in Es. rewrite (resolve_file _ _ _ _ _ Hl) in Es. discriminate. }
  rewrite run_bind, run_isfile, Es. cbv beta iota.
  rewrite run_bind, run_islink. cbv beta iota.
  destruct (lstat_or_stat (fs w) path) as [[t0 El]|El].
  - (* a link *)
    rewrite El. replace (_ || true) with true by (now destruct n).
    rewrite run_bind. unfold os.remove at 1. rewrite run_bind, run_get_fs.
    cbv beta iota. rewrite El.
    change (emit (EDel (parse path)) w) with (Ret tt (final (emit (EDel (parse path)) w))).
    cbv beta iota. rewrite run_ret. cbv beta iota.
    destruct (IH (final (emit (EDel (parse path)) w)) dirs)
      as (F & dirs' & Hrun & HF & Hd & Ht & Hall).
    exists (parse path :: F), dirs'. rewrite <- deleted_cons.
    split; [exact Hrun|]. split; [now apply sublist_skip|].
    split; [now apply sublist_cons|]. split; [split; [eauto|exact Ht]|].
    intros p d m t Hp Hl.
    destruct (decide (parse p = parse path)) as [->|Hne]; [apply list_elem_of_here|].
    apply elem_of_cons in Hp as [->|Hp]; [contradiction|].
    apply list_elem_of_further. apply (Hall p d m t Hp).
    unfold lstat in *. cbn. unfold del. apply find_upd_leaf; auto.
    eapply childless_not_prefix; eauto. now rewrite El.
  - rewrite <- El, Es. destruct n as [d0 m0 t0|t0|es].
    + (* a regular file *)
      cbn [orb]. rewrite run_bind. unfold os.remove at 1. rewrite run_bind, run_get_fs.
      cbv beta iota. rewrite <- El, Es.
      change (emit (EDel (parse path)) w) with (Ret tt (final (emit (EDel (parse path)) w))).
      cbv beta iota. rewrite run_ret. cbv beta iota.
      destruct (IH (final (emit (EDel (parse path)) w)) dirs)
        as (F & dirs' & Hrun & HF & Hd & Ht & Hall).
      exists (parse path :: F), dirs'. rewrite <- deleted_cons.
      split; [exact Hrun|]. split; [now apply sublist_skip|].
      split; [now apply sublist_cons|].
      rewrite El in Es.
      split; [split; [eauto|exact Ht]|].
      intros p d m t Hp Hl.
      destruct (decide (parse p = parse path)) as [->|Hne]; [apply list_elem_of_here|].
      apply elem_of_cons in Hp as [->|Hp]; [contradiction|].
      apply list_elem_of_further. apply (Hall p d m t Hp).
      unfold lstat in *. cbn. unfold del. apply find_upd_leaf; auto.
      eapply childless_not_prefix; eauto. now rewrite Es.
    + now apply stat_never_link in Es.
    + (* a directory *)
      cbn [orb]. rewrite run_ret. cbv beta iota.
      destruct (IH w (dirs ++ [path])) as (F & dirs' & Hrun & HF & Hd & Ht & Hall).
      exists F, (path :: dirs'). rewrite <- app_assoc in Hrun.
      split; [exact Hrun|]. split; [now apply sublist_cons|].
      split; [now apply sublist_skip|]. split; [exact Ht|].
      intros p d m t Hp Hl. apply elem_of_cons in Hp as [->|Hp]; [|eauto].
      rewrite El in Es. congruence.
Qed.

(** The pass over the directories: the empty ones go, in the order of the
    list, and nothing raises. *)
Lemma dir_pass (dirs : list string) :
  forall w : world,
  exists D : list path,
    for_each dirs (fun d =>
      try_except (os.rmdir d)
        (fun e => if is_OSError e then Some (ret tt) else None)) w
    = Ret tt (deleted D w)
    /\ D `sublist_of` (parse <$> dirs)
    /\ each_turn empty_dir (fs w) D.
Proof.
  induction dirs as [|d dirs IH]; intros w.
  { exists []. cbn [for_each]. rewrite run_ret, deleted_nil.
    split; [reflexivity|]. split; [constructor|exact I]. }
  cbn [for_each fmap list_fmap]. rewrite run_bind, run_try_except.
  unfold os.rmdir at 1. rewrite run_bind, run_get_fs. cbv beta iota.
  assert (Hskip : exists D : list path,
             for_each dirs (fun d =>
               try_except (os.rmdir d)
                 (fun e => if is_OSError e then Some (ret tt) else None)) w
             = Ret tt (deleted D w)
             /\ D `sublist_of` (parse d :: (parse <$> dirs))
             /\ each_turn empty_dir (fs w) D).
  { destruct (IH w) as (D & Hrun & HD & Ht). exists D.
    split; [exact Hrun|]. split; [now apply sublist_cons|exact Ht]. }
  destruct (lstat (fs w) d) as [[| |[|e es]]|] eqn:El;
    rewrite ?run_raise; cbn [is_OSError]; rewrite ?is_OSError_path_error;
    rewrite ?run_ret; cbv beta iota; try exact Hskip.
  change (emit (EDel (parse d)) w) with (Ret tt (final (emit (EDel (parse d)) w))).
  cbv beta iota.
  destruct (IH (final (emit (EDel (parse d)) w))) as (D & Hrun & HD & Ht).
  exists (parse d :: D). rewrite <- deleted_cons.
  split; [exact Hrun|]. split; [now apply sublist_skip|].
  split; [eauto|exact Ht].
Qed.

Lemma open_read_exists (s : string) (w w' : world) (data : string) :
  open_read s w = Ret data w' -> exists n, stat (fs w) s = Some n.
Proof.
  unfold open_read, stat. rewrite run_bind, run_get_fs. cbv beta iota.
  destruct (resolve (fs w) s) as [[p [n|]]|]; try discriminate. eauto.
Qed.



(** ** The trace of a run *)

Lemma records_app (l1 l2 : list event) : records (l1 ++ l2) = records l1 ++ records l2.
Proof. apply omap_app. Qed.

Lemma records_fs (e : event) : fs_event e -> records [e] = [].
Proof. destruct e; simpl; auto; contradiction. Qed.

Lemma replay_app (l1 l2 : list event) (n : node) :
  replay (l1 ++ l2) n = replay l2 (replay l1 n).
Proof. apply fold_left_app. Qed.

Lemma disk_pred_since G w0 : disk_pred (since G w0).
Proof.
  intros w w' Hf Hb Ht (evs & H1 & H2 & H3 & H4). exists evs.
  rewrite <- Hf, <- Hb, <- Ht. auto.
Qed.

Lemma since_refl (G : list event -> Prop) (w : world) : G [] -> since G w w.
Proof. intros H. exists []. cbn. now rewrite !app_nil_r. Qed.

Section Since.
Context (G : list event -> Prop) (w0 : world).
Hypothesis HG : forall evs e, G evs -> fs_event e -> G (evs ++ [e]).

Lemma since_emit (e : event) : fs_event e -> preserves (since G w0) (emit e).
Proof.
  intros He w (evs & H1 & H2 & H3 & H4). exists (evs ++ [e]). cbn.
  rewrite H1, H2, H3, records_app, (records_fs e He), !app_nil_r, app_assoc, replay_app.
  auto.
Qed.

Lemma since_reads {A} (m : M A) : reads_only m -> preserves (since G w0) m.
Proof. apply preserves_reads_only, disk_pred_since. Qed.

Ltac since_read :=
  apply since_reads;
  first [ apply reads_only_get_fs | apply reads_only_get_clock | apply reads_only_log
        | apply reads_only_lexists | apply reads_only_exists | apply reads_only_islink
        | apply reads_only_isfile | apply reads_only_isdir | apply reads_only_same_file
        | apply reads_only_samefile | apply reads_only_readlink
        | apply reads_only_lstat_mode | apply reads_only_stat_mode
        | apply reads_only_getmtime | apply reads_only_open_read
        | apply reads_only_file_is_wine_builtin_dll ].

Ltac since_step :=
  first [ apply preserves_ret | apply preserves_raise
        | apply since_emit; exact I
        | since_read
        | apply preserves_when
        | apply preserves_bind; [|intros ?]
        | match goal with
          | |- preserves _ (match ?x with _ => _ end) => destruct x
          | |- preserves _ (if ?x then _ else _) => destruct x
          end ].

Ltac since_steps := repeat since_step.

Lemma since_remove (s : string) : preserves (since G w0) (os.remove s).
Proof. unfold os.remove. since_steps. Qed.

Lemma since_mkdir_at (p : path) : preserves (since G w0) (os.mkdir_at p).
Proof. unfold os.mkdir_at. since_steps. Qed.

Lemma since_make_parents (rest : path) :
  forall pre, preserves (since G w0) (os.make_parents pre rest).
Proof.
  induction rest as [|c r IH]; intros pre; cbn [os.make_parents]; [apply preserves_ret|].
  destruct r as [|c' r]; [apply preserves_ret|].
  apply preserves_bind; [since_read|intros root].
  apply preserves_bind; [|intros _; apply IH].
  assert (H : preserves (since G w0)
                (try_except (os.mkdir_at (pre ++ [c]))
                   (fun e => match e with
                             | OSError EEXIST => Some (ret tt)
                             | _ => None
                             end))).
  { apply preserves_try_except; [apply since_mkdir_at|].
    intros e k. destruct e as [[]| |]; intros [= <-]. apply preserves_ret. }
  destruct (follow MAXSYMLINKS root (pre ++ [c])) as [[? [?|]]|]; auto.
  apply preserves_ret.
Qed.

Lemma since_os_makedirs (s : string) (exist_ok : bool) :
  preserves (since G w0) (os.makedirs s exist_ok).
Proof.
  unfold os.makedirs. apply preserves_bind; [apply since_make_parents|intros _].
  apply preserves_try_except; [apply since_mkdir_at|].
  intros e k. destruct e as [e| |]; intros [= <-]. since_steps.
Qed.

Lemma since_symlink (t s : string) : preserves (since G w0) (os.symlink t s).
Proof. unfold os.symlink. since_steps. Qed.

Lemma since_open_write (truncate : bool) (s : string) :
  preserves (since G w0) (open_write truncate s).
Proof. unfold open_write. since_steps. Qed.

Lemma since_copyfile (src dst : string) (follow_symlinks : bool) :
  preserves (since G w0) (shutil.copyfile src dst follow_symlinks).
Proof.
  unfold shutil.copyfile.
  apply preserves_bind; [since_read|intros same].
  destruct same; [apply preserves_raise|].
  apply preserves_bind; [since_read|intros lnk].
  destruct (negb follow_symlinks && lnk).
  - apply preserves_bind; [since_read|intros t]. apply since_symlink.
  - apply preserves_bind; [since_read|intros d].
    apply preserves_bind; [apply since_open_write|intros p]. since_steps.
Qed.

Lemma since_try_copyfile (src dst : string) : preserves (since G w0) (try_copyfile src dst).
Proof.
  unfold try_copyfile. apply preserves_try_except.
  - apply preserves_bind; [since_read|intros isd].
    apply preserves_bind; [|intros _; apply since_copyfile].
    destruct isd; cbv zeta;
      (apply preserves_bind; [since_read|intros lex]);
      apply preserves_when, since_remove.
  - intros e k. destruct e as [[]| |]; intros [= <-]. since_read.
Qed.

Lemma since_pfx_copy (src dst : string) (dll_copy : bool) :
  preserves (since G w0) (CompatData.pfx_copy src dst dll_copy).
Proof.
  unfold CompatData.pfx_copy.
  apply preserves_bind; [since_read|intros lnk].
  destruct lnk; [|apply since_try_copyfile].
  apply preserves_bind; [since_read|intros contents]. cbv zeta.
  destruct dll_copy; [apply since_try_copyfile|apply since_symlink].
Qed.

End Since.

Lemma fs_events_snoc (evs : list event) (e : event) :
  Forall fs_event evs -> fs_event e -> Forall fs_event (evs ++ [e]).
Proof. intros H He. apply Forall_app. split; [exact H|]. now constructor. Qed.

Lemma records_fs_events (evs : list event) : Forall fs_event evs -> records evs = [].
Proof.
  induction 1 as [|e evs He _ IH]; [reflexivity|].
  change (e :: evs) with ([e] ++ evs). now rewrite records_app, IH, (records_fs e He).
Qed.

(** A directory that [os.makedirs] has made is the last thing it made. *)
Lemma os_makedirs_made (s : string) (w w' : world) :
  os.makedirs s false w = Ret tt w' ->
  exists evs, Forall fs_event evs
              /\ trace w' = trace w ++ evs ++ [EPut (parse s) (Dir [])]
              /\ wbuf w' = wbuf w.
Proof.
  unfold os.makedirs. intros H. apply bind_returns in H as ([] & w1 & H1 & H).
  pose proof (since_make_parents (Forall fs_event) w fs_events_snoc (parse s) [] w
                (since_refl _ _ (Forall_nil_2 _))) as (evs & Ht & _ & Hb & Hf).
  rewrite H1 in Ht, Hb. cbn [final] in Ht, Hb.
  rewrite (records_fs_events _ Hf), app_nil_r in Hb.
  exists evs. split; [exact Hf|].
  revert H. rewrite run_try_except. unfold os.mkdir_at at 1.
  rewrite run_bind, run_get_fs. cbv beta iota.
  destruct (find (parse s) (fs w1)).
  { rewrite run_raise. cbv beta iota. rewrite run_bind, run_isdir. cbv beta iota.
    cbn [andb]. discriminate. }
  destruct (blocked (parse s) (fs w1)).
  { unfold path_error. destruct (blocked (parse s) (fs w1)) as [[]|];
      rewrite run_raise; cbv beta iota; rewrite run_bind, run_isdir; cbv beta iota;
      cbn [andb]; discriminate. }
  intros [= <-]. cbn. rewrite Ht, Hb, <- app_assoc. auto.
Qed.

Lemma sync_events_app default_pfx_dir prefix_dir prev (evs evs' : list event) :
  sync_events default_pfx_dir prefix_dir prev evs -> Forall fs_event evs' ->
  sync_events default_pfx_dir prefix_dir prev (evs ++ evs').
Proof.
  intros H Hf. revert evs H. induction Hf as [|e evs' He _ IH]; intros evs H.
  - now rewrite app_nil_r.
  - change (e :: evs') with ([e] ++ evs'). rewrite app_assoc.
    apply IH. now apply sync_fs.
Qed.

Lemma open_read_file (s : string) (w w' : world) (data : string) :
  open_read s w = Ret data w' ->
  Py.endswith s "/" = false
  /\ exists p m t, resolve (fs w) s = Some (p, Some (File data m t)).
Proof.
  unfold open_read. rewrite run_bind, run_get_fs. cbv beta iota.
  destruct (resolve (fs w) s) as [[p [[d m t| |]|]]|]; try discriminate.
  rewrite run_if. destruct (Py.endswith s "/"); [discriminate|].
  rewrite run_if. destruct (readable m); [|discriminate].
  intros [= -> _]. eauto 6.
Qed.

Lemma final_finally {A} (m : M A) (f : M unit) (w : world) :
  final (finally m f w) = final (f (final (m w))).
Proof.
  unfold finally. destruct (m w) as [a w1|e w1]; cbn [final];
    destruct (f w1); reflexivity.
Qed.

Section SyncEvents.
Context (default_pfx_dir prefix_dir : string) (prev : gset string) (w0 : world).

(** A directory of the template that is missing: it is made, then its
    record is written. *)
Lemma sync_dir_step (src_dir : string) :
  preserves (since (sync_events default_pfx_dir prefix_dir prev) w0)
    (os.makedirs (Py.replace1 default_pfx_dir prefix_dir src_dir) false ;;;
     stream_write (CompatData.rel_dir_of default_pfx_dir src_dir +:+ Py.nl)).
Proof.
  intros w H. rewrite run_bind.
  pose proof (since_os_makedirs _ w0 (sync_fs _ _ _)
                (Py.replace1 default_pfx_dir prefix_dir src_dir) false w H) as H1.
  destruct (os.makedirs _ false w) as [[] w1|e w1] eqn:E; [|exact H1].
  destruct H as (evs & Ht & Hfs & Hb & HG).
  destruct H1 as (evs1 & Ht1 & Hfs1 & _).
  apply os_makedirs_made in E as (evs' & Hf & Ht' & Hb'). cbn in *.
  assert (evs1 = (evs ++ evs') ++ [EPut (parse (Py.replace1 default_pfx_dir prefix_dir
                                                   src_dir)) (Dir [])]) as ->.
  { rewrite Ht', Ht, <- !app_assoc in Ht1. apply app_inv_head in Ht1.
    now rewrite <- Ht1, <- !app_assoc. }
  eexists (((evs ++ evs') ++ [_]) ++ [_]). cbn [final stream_write].
  change (fs (set_trace ?t (set_wbuf ?b w1))) with (fs w1).
  change (trace (set_trace ?t (set_wbuf ?b w1))) with t.
  change (wbuf (set_trace ?t (set_wbuf ?b w1))) with b.
  split; [|split; [|split]].
  - rewrite Ht', Ht, <- !app_assoc. reflexivity.
  - rewrite Hfs1. symmetry. apply (replay_app _ [EBuf _]).
  - rewrite Hb', Hb, !records_app, (records_fs_events _ Hf), !app_nil_r, <- app_assoc.
    reflexivity.
  - rewrite <- app_assoc. apply sync_dir. now apply sync_events_app.
Qed.

(** A file of the template: its record is written if the manifest did not
    have it. *)
Lemma sync_file_step (self : CompatData.t) (patterns : list string)
    (src_dir rel_dir dst_dir file_ : string) :
  preserves (since (sync_events default_pfx_dir prefix_dir prev) w0)
    (CompatData.update_builtin_lib self patterns prev src_dir rel_dir dst_dir file_).
Proof.
  pose proof (sync_fs default_pfx_dir prefix_dir prev) as HG.
  unfold CompatData.update_builtin_lib. cbv zeta.
  apply preserves_bind;
    [apply since_reads, reads_only_file_is_wine_builtin_dll|intros src_builtin].
  destruct (negb src_builtin); [apply preserves_ret|].
  apply preserves_bind;
    [apply since_reads, reads_only_file_is_wine_builtin_dll|intros dst_builtin].
  apply preserves_bind.
  { destruct dst_builtin; [apply preserves_ret|apply since_reads, reads_only_lexists]. }
  intros lex. destruct lex; [apply preserves_ret|].
  apply preserves_bind.
  { destruct dst_builtin; [now apply since_remove|now apply since_os_makedirs]. }
  intros _. apply preserves_bind; [now apply since_pfx_copy|intros _].
  destruct (bool_decide (rel_dir +:+ file_ ∉ prev)) eqn:Eb; [|apply preserves_ret].
  apply bool_decide_eq_true in Eb. cbn [when].
  intros w (evs & Ht & Hfs & Hb & Hev). cbn.
  exists (evs ++ [EBuf ((rel_dir +:+ file_) +:+ Py.nl)]). split; [|split; [|split]].
  - now rewrite Ht, <- app_assoc.
  - now rewrite replay_app.
  - now rewrite Hb, records_app, <- app_assoc.
  - now apply sync_file.
Qed.

End SyncEvents.


(** ** What a synchronisation leaves alone *)

Lemma endswith_app_self (a p : string) : Py.endswith (a +:+ p) p = true.
Proof.
  unfold Py.endswith. rewrite length_append.
  replace (String.length a + String.length p - String.length p)%nat
    with (String.length a) by lia.
  rewrite drop_app, String.eqb_refl, andb_true_r. apply Nat.leb_le. lia.
Qed.

Lemma feed_dir (top : string) (st : pstate) :
  Py.endswith top "/" = true -> feed top st = ((feed top st).1, "").
Proof.
  intros H. apply (feed_trailing_slash _ st) in H.
  destruct (feed top st) as [stk cur]. cbn in *. now subst cur.
Qed.

Lemma below_joined (top : string) (names : list string) :
  Py.endswith top "/" = true -> Forall (fun k => valid_name k = true) names ->
  below top names = top +:+ joined names.
Proof.
  intros He Hv. destruct names as [|n names]; [cbn; now rewrite append_nil_r|].
  apply Forall_cons in Hv as [Hn Hv].
  pose proof (valid_name_spec n Hn) as (H1 & _ & _ & H4).
  cbn [below fold_left joined]. fold (below (path_join top n) names).
  assert (path_join top n = top +:+ n) as ->.
  { unfold path_join. rewrite startswith_slash_valid, He by auto.
    now rewrite orb_true_r. }
  rewrite below_slashes, append_assoc; auto.
  - intros E. apply (f_equal String.length) in E. rewrite length_append in E.
    destruct n; [now apply H1|]. cbn in E. lia.
  - destruct (Py.endswith (top +:+ n) "/") eqn:E; [|reflexivity].
    apply (feed_trailing_slash _ ([], "")) in E.
    rewrite feed_app, (feed_dir top) in E by auto.
    rewrite feed_no_slash in E by auto. cbn in E. now rewrite append_nil_l in E.
Qed.

Lemma parse_joined (dst : string) (names : list string) :
  Py.endswith dst "/" = true -> Forall (fun k => valid_name k = true) names ->
  parse (dst +:+ joined names) = parse dst ++ names.
Proof.
  intros He Hv. destruct names as [|n names];
    [cbn [joined]; now rewrite append_nil_r, app_nil_r|].
  apply Forall_cons in Hv as [Hn Hv].
  pose proof (valid_name_spec n Hn) as (_ & _ & _ & H4).
  cbn [joined]. unfold parse. rewrite !feed_app, (feed_dir dst) by auto.
  rewrite feed_no_slash, append_nil_l by auto.
  rewrite close_slashes, close_name by auto.
  unfold close. cbn [fst snd]. now rewrite push_empty, <- app_assoc.
Qed.

Section AtPathSync.
Context (q : path) (P : node -> Prop) (HP : leaf_pred P).

(** One file of the template, when its place in the prefix is not [q] *)
Lemma update_builtin_lib_keeps_outside (self : CompatData.t) (patterns : list string)
    (prev : gset string) (src_dir rel_dir dst_dir file_ : string) :
  valid_name file_ = true -> parse (path_join dst_dir file_) <> q ->
  preserves (at_path q P)
    (CompatData.update_builtin_lib self patterns prev src_dir rel_dir dst_dir file_).
Proof.
  intros Hv Hne w H. unfold CompatData.update_builtin_lib.
  rewrite run_bind.
  destruct (file_is_wine_builtin_dll_total w (path_join src_dir file_)) as (b1 & -> & _).
  cbv beta iota. rewrite run_if. destruct b1; cbn [negb]; [|exact H].
  rewrite run_bind.
  destruct (file_is_wine_builtin_dll_total w (path_join dst_dir file_)) as (b2 & -> & _).
  cbv beta iota.
  set (dst_file := path_join dst_dir file_) in *.
  assert (Hpf : parse dst_file = parse dst_dir ++ [file_]) by now apply parse_path_join.
  assert (Hcopy : forall w1, at_path q P w1 -> absent (parse dst_file) w1 ->
            at_path q P
              (final ((CompatData.pfx_copy (path_join src_dir file_) dst_file
                         (existsb (Py.fnmatch file_) patterns) ;;;
                       when (bool_decide (rel_dir +:+ file_ ∉ prev))
                         (stream_write ((rel_dir +:+ file_) +:+ Py.nl))) w1))).
  { intros w1 H1 Ha. rewrite run_bind.
    pose proof (pfx_copy_new_keeps q P HP (path_join src_dir file_) dst_file
                  (existsb (Py.fnmatch file_) patterns) w1 H1 Ha) as H2.
    destruct (CompatData.pfx_copy _ _ _ w1) as [[] w2|e w2]; [|exact H2].
    cbn in H2. cbv beta iota. rewrite run_when.
    destruct (bool_decide _); exact H2. }
  destruct b2.
  - rewrite run_bind, run_ret. cbv beta iota. rewrite run_bind.
    pose proof (remove_keeps q P HP dst_file Hne w H) as H1.
    change os.unlink with os.remove.
    destruct (os.remove dst_file w) as [[] w1|e w1] eqn:Er; [|exact H1].
    cbn in H1. apply remove_absent in Er; [|rewrite Hpf; now destruct (parse dst_dir)].
    cbv beta iota zeta. now apply Hcopy.
  - rewrite run_bind, run_lexists. cbv beta iota.
    destruct (lstat (fs w) dst_file) eqn:Hl; [exact H|].
    rewrite run_bind.
    pose proof (os_makedirs_keeps q P HP dst_dir true w H) as H1.
    assert (absent (parse dst_file) (final (os.makedirs dst_dir true w))) as Ha.
    { apply os_makedirs_absent; [|exact Hl]. rewrite Hpf. apply is_prefix_snoc. }
    destruct (os.makedirs dst_dir true w) as [[] w1|e w1]; [|exact H1].
    cbn in H1, Ha. cbv beta iota zeta. now apply Hcopy.
Qed.

(** The walk of a synchronisation writes under the prefix only. *)
Lemma sync_walk_keeps (self : CompatData.t) (patterns : list string)
    (prev : gset string) (default_pfx_dir : string) :
  Py.endswith default_pfx_dir "/" = true ->
  Py.endswith (CompatData.prefix_dir self) "/" = true ->
  is_prefix (parse (CompatData.prefix_dir self)) q = false ->
  preserves (at_path q P)
    (items <- walk default_pfx_dir ;;
     for_each items (fun '(src_dir, dirs, files) =>
       let rel_dir := CompatData.rel_dir_of default_pfx_dir src_dir in
       let dst_dir := Py.replace1 default_pfx_dir (CompatData.prefix_dir self) src_dir in
       lex <- os.path_lexists dst_dir ;;
       when (negb lex)
         (os.makedirs dst_dir false ;;;
          stream_write (rel_dir +:+ Py.nl)) ;;;
       for_each files
         (CompatData.update_builtin_lib self patterns prev src_dir rel_dir dst_dir))).
Proof.
  intros Hd Hp Hq w H. unfold walk.
  rewrite run_bind, run_bind, run_get_fs. cbv beta iota. rewrite run_ret.
  cbv beta iota.
  apply preserves_for_each; [|exact H]. intros [[src_dir dirs] files] Hin.
  destruct (os_walk_below _ _ _ Hin) as (names & Hsrc & Hv).
  destruct (os_walk_valid _ _ _ Hin) as [_ Hfiles].
  cbn [fst snd] in Hsrc, Hfiles.
  rewrite below_joined in Hsrc by auto. subst src_dir.
  cbv zeta. rewrite replace1_prefix.
  apply preserves_bind; [apply preserves_query, reads_only_lexists|intros lex].
  apply preserves_bind.
  { apply preserves_when. apply preserves_bind; [now apply os_makedirs_keeps|].
    intros _. apply stream_write_at_path. }
  intros _. apply preserves_for_each. intros file_ Hf.
  apply update_builtin_lib_keeps_outside; [now apply Hfiles|].
  rewrite parse_path_join, parse_joined by auto. rewrite <- app_assoc.
  now apply is_prefix_app_ne.
Qed.

End AtPathSync.

Lemma leaf_pred_holds (data : string) : leaf_pred (holds data).
Proof. now intros y (m & t & ->). Qed.

Lemma default_pfx_dir_slash (g_session : session) :
  Py.endswith (Proton.default_pfx_dir (g_proton g_session)) "/" = true.
Proof.
  cbn [Proton.default_pfx_dir g_proton Proton.init].
  change "files/share/default_pfx/" with ("files/share/default_pfx" +:+ "/").
  rewrite <- append_assoc. apply endswith_app_self.
Qed.

Lemma prefix_dir_slash (compatdata : string) :
  Py.endswith (CompatData.prefix_dir (CompatData.init compatdata)) "/" = true.
Proof.
  cbn [CompatData.prefix_dir CompatData.init].
  change "pfx/" with ("pfx" +:+ "/").
  rewrite <- append_assoc. apply endswith_app_self.
Qed.

(** The trace of a synchronisation: the events of the walk, which leave the
    manifest alone, then the one write that brings the buffer to it. *)
Lemma update_builtin_libs_trace (g_session : session) (compatdata : string)
    (dll_copy_patterns : string) (w : world) (data : string) (p : path) (m t : Z) :
  let self := CompatData.init compatdata in
  open_read (CompatData.tracked_files_file self) w = Ret data w ->
  resolve (fs w) (CompatData.tracked_files_file self) = Some (p, Some (File data m t)) ->
  is_prefix (parse (CompatData.prefix_dir self)) p = false ->
  exists evs flush m' t',
    trace (final (CompatData.update_builtin_libs g_session self dll_copy_patterns w))
    = trace w ++ evs ++ flush
    /\ sync_events (Proton.default_pfx_dir (g_proton g_session))
         (CompatData.prefix_dir self)
         (list_to_set (Py.strip <$> Py.lines data)) evs
    /\ find p (replay evs (fs w)) = Some (File data m' t')
    /\ flushed p data m' (wbuf w ++ records evs) flush.
Proof.
  intros self Hopen Hr Hq. destruct (open_read_file _ _ _ _ Hopen) as (Hs & _).
  unfold CompatData.update_builtin_libs. rewrite run_bind, Hopen. cbv beta iota zeta.
  unfold with_open. rewrite run_bind. unfold open_write at 1.
  rewrite run_bind, run_get_fs. cbv beta iota.
  unfold get_clock at 1. rewrite run_bind. cbv beta iota.
  rewrite Hr, run_if, Hs, run_bind. cbn [when]. rewrite run_ret. cbv beta iota.
  rewrite run_ret. cbv beta iota. rewrite final_finally.
  set (G := sync_events _ _ _).
  match goal with |- context [final (?b w)] => set (body := b) end.
  assert (Hbody : since G w (final (body w))).
  { assert (Hp : preserves (since G w) body); [|apply Hp, since_refl; constructor].
    subst body. unfold walk.
    apply preserves_bind; [apply since_reads, reads_only_query|intros items].
    apply preserves_for_each. intros [[src_dir dirs] files] _.
    apply preserves_bind; [apply since_reads, reads_only_lexists|intros lex].
    apply preserves_bind; [apply preserves_when, sync_dir_step|intros _].
    apply preserves_for_each. intros file_ _. apply sync_file_step. }
  assert (Hkeep : at_path p (holds data) (final (body w))).
  { apply (sync_walk_keeps p (holds data) (leaf_pred_holds data)); auto.
    - apply default_pfx_dir_slash.
    - apply prefix_dir_slash.
    - apply resolve_spec in Hr as [Hf _]. exists (File data m t).
      split; [exact Hf|]. now exists m, t. }
  clearbody body. destruct Hbody as (evs & Ht & Hfs & Hb & HG).
  destruct Hkeep as (y & Hy & m' & t' & ->). rewrite Hfs in Hy.
  exists evs. rewrite run_stream_close, Hb.
  destruct (wbuf w ++ records evs) as [|r b] eqn:Eb.
  { exists [], m', t'. cbn [final flushed]. rewrite app_nil_r. auto. }
  rewrite Hfs, Hy.
  exists [EPut p (File (data +:+ String.concat "" (r :: b)) m' (clock (final (body w))))],
    m', t'.
  split; [|split; [exact HG|split; [reflexivity|eexists; reflexivity]]].
  cbn -[String.concat]. now rewrite Ht, <- app_assoc.
Qed.

Lemma snoc_eq_app {A} (l pre post : list A) (e x : A) :
  l ++ [e] = pre ++ x :: post ->
  (post = [] /\ l = pre /\ e = x)
  \/ exists post', post = post' ++ [e] /\ l = pre ++ x :: post'.
Proof.
  destruct post as [|y post _] using rev_ind; intros H.
  - apply app_inj_tail in H as [-> ->]. auto.
  - change (pre ++ x :: post ++ [y]) with (pre ++ (x :: post) ++ [y]) in H.
    rewrite app_assoc in H. apply app_inj_tail in H as [-> ->]. eauto.
Qed.

(** In the events of a synchronisation, a record is that of a file the
    manifest did not have, or comes right after the creation of the
    directory it names. *)
Lemma sync_events_record default_pfx_dir prefix_dir prev (evs : list event) :
  sync_events default_pfx_dir prefix_dir prev evs ->
  forall pre r post, evs = pre ++ EBuf r :: post ->
    (exists name, r = name +:+ Py.nl /\ name ∉ prev)
    \/ (exists pre' src_dir,
          pre = pre' ++ [EPut (parse (Py.replace1 default_pfx_dir prefix_dir src_dir))
                           (Dir [])]
          /\ r = CompatData.rel_dir_of default_pfx_dir src_dir +:+ Py.nl).
Proof.
  induction 1 as [|evs e _ IH He|evs name _ IH Hn|evs src_dir _ IH]; intros pre r post E.
  - now destruct pre.
  - apply snoc_eq_app in E as [(_ & _ & ->)|(post' & _ & ->)]; [contradiction|eauto].
  - apply snoc_eq_app in E as [(_ & _ & [= <-])|(post' & _ & ->)]; eauto.
  - change [?a; ?b] with ([a] ++ [b]) in E. rewrite app_assoc in E.
    apply snoc_eq_app in E as [(_ & <- & [= <-])|(post' & _ & E)]; [eauto|].
    apply snoc_eq_app in E as [(_ & _ & [=])|(post'' & _ & ->)]. eauto.
Qed.

(** The records among the events of a synchronisation *)
Lemma sync_events_records default_pfx_dir prefix_dir prev (evs : list event) :
  sync_events default_pfx_dir prefix_dir prev evs ->
  Forall (fun r =>
            (exists name, r = name +:+ Py.nl /\ name ∉ prev)
            \/ (exists src_dir,
                  r = CompatData.rel_dir_of default_pfx_dir src_dir +:+ Py.nl
                  /\ EPut (parse (Py.replace1 default_pfx_dir prefix_dir src_dir)) (Dir [])
                     ∈ evs))
         (records evs).
Proof.
  induction 1 as [|evs e _ IH He|evs name _ IH Hn|evs src_dir _ IH].
  - constructor.
  - rewrite records_app, (records_fs e He), app_nil_r.
    eapply Forall_impl; [exact IH|]. intros r [?|(d & ? & ?)]; [auto|right].
    exists d. split; [auto|]. apply elem_of_app. auto.
  - rewrite records_app. apply Forall_app. split.
    + eapply Forall_impl; [exact IH|]. intros r [?|(d & ? & ?)]; [auto|right].
      exists d. split; [auto|]. apply elem_of_app. auto.
    + cbn. apply List.Forall_cons; [|apply List.Forall_nil]. left. eauto.
  - rewrite records_app. apply Forall_app. split.
    + eapply Forall_impl; [exact IH|]. intros r [?|(d & ? & ?)]; [auto|right].
      exists d. split; [auto|]. apply elem_of_app. auto.
    + cbn. apply List.Forall_cons; [|apply List.Forall_nil].
      right. exists src_dir. split; [reflexivity|].
      apply elem_of_app. right. apply list_elem_of_here.
Qed.

(** ** The records of a synchronisation *)




(** ** When the records reach the manifest *)




(** ** A second run of [setup_prefix] *)

(** The places of the files of a compatibility data directory *)
Lemma compat_feed (compatdata : string) :
  exists B,
    (forall s, feed (CompatData.prefix_dir (CompatData.init compatdata) +:+ s) ([], "")
               = feed s ("pfx" :: B, ""))
    /\ (forall s, feed (CompatData.base_dir (CompatData.init compatdata) +:+ s) ([], "")
                  = feed s (B, "")).
Proof.
  exists (push (feed compatdata ([], "")).2 (feed compatdata ([], "")).1).
  split; intros s; cbn [CompatData.prefix_dir CompatData.base_dir CompatData.init];
    now rewrite !feed_app, feed_slash.
Qed.

Lemma compat_files (compatdata : string) :
  let self := CompatData.init compatdata in
  CompatData.version_file self = CompatData.base_dir self +:+ "version"
  /\ CompatData.config_info_file self = CompatData.base_dir self +:+ "config_info"
  /\ CompatData.tracked_files_file self = CompatData.base_dir self +:+ "tracked_files"
  /\ CompatData.path self "pfx.lock" = CompatData.base_dir self +:+ "pfx.lock".
Proof. repeat split. Qed.

(** Writing where a regular file is: the other leaves stay. *)
Lemma find_put_other (p q : path) (v x y : node) (n : node) :
  find p n = Some x -> is_leaf x = true -> p <> q ->
  find q n = Some y -> is_leaf y = true ->
  find q (put p v n) = Some y.
Proof.
  intros Hp Hx Hne Hq Hy. unfold put. apply find_upd_leaf; auto.
  eapply childless_not_prefix; eauto. rewrite Hp. now apply leaf_childless.
Qed.

Lemma find_put_absent (p q : path) (v x : node) (n : node) :
  find p n = Some x -> p <> q -> childless (Some v) ->
  find q n = None -> find q (put p v n) = None.
Proof. intros Hp Hne Hv Hq. unfold put. apply find_upd_none; auto. Qed.

Lemma find_put_same (p : path) (v x : node) (n : node) :
  find p n = Some x -> p <> [] -> find p (put p v n) = Some v.
Proof.
  intros Hp Hne. unfold put. rewrite find_upd_eq; auto.
  eapply find_blocked_none; eauto.
Qed.

Lemma run_bind_ret {A B} (m : M A) (k : A -> M B) (w w' : world) (a : A) :
  m w = Ret a w' -> bind m k w = k a w'.
Proof. intros H. now rewrite run_bind, H. Qed.

Lemma for_each_idle {A} (l : list A) (body : A -> M unit) (w : world) :
  Forall (fun x => body x w = Ret tt w) l -> for_each l body w = Ret tt w.
Proof.
  induction 1 as [|x l Hx _ IH]; cbn [for_each]; [reflexivity|].
  now rewrite (run_bind_ret _ _ _ _ _ Hx).
Qed.

(** An entry of the table that is migrated already *)
Lemma migrate_user_path_idle (self : CompatData.t) (old new link : string) (w : world) :
  lstat (fs w) (CompatData.prefix_dir self +:+ old) = Some (Link link) ->
  (forall t, lstat (fs w) new <> Some (Link t)) ->
  CompatData.migrate_user_path self (old, new, link) w = Ret tt w.
Proof.
  intros Hold Hnew. unfold CompatData.migrate_user_path.
  rewrite run_bind, run_lexists. cbv beta iota.
  assert (Hloop : forall k : bool -> M unit,
            bind (if match lstat (fs w) new with Some _ => true | None => false end
                  then os.path_islink new else ret false) k w = k false w).
  { intros k. rewrite run_bind.
    destruct (lstat (fs w) new) as [[| t |]|] eqn:E;
      rewrite ?run_islink, ?E; try reflexivity.
    now destruct (Hnew t). }
  rewrite Hloop. rewrite run_bind, run_ret. cbv beta iota.
  rewrite run_bind. cbn [when]. rewrite run_ret. cbv beta iota zeta.
  rewrite run_bind, run_lexists, Hold. cbv beta iota.
  rewrite run_bind, run_islink, Hold. cbv beta iota.
  rewrite run_bind. cbn [andb negb when]. rewrite run_ret. cbv beta iota.
  rewrite run_bind, run_lexists, Hold. cbv beta iota. cbn [negb].
  rewrite run_bind, run_islink, Hold. cbv beta iota.
  rewrite run_bind, run_bind, (run_readlink _ _ _ Hold). cbv beta iota.
  rewrite run_ret. cbv beta iota. rewrite String.eqb_refl. reflexivity.
Qed.

Lemma migrate_user_paths_idle (self : CompatData.t) (w : world) :
  Forall (fun entry =>
            lstat (fs w) (CompatData.prefix_dir self +:+ entry.1.1) = Some (Link entry.2)
            /\ forall t, lstat (fs w) entry.1.2 <> Some (Link t))
         (CompatData.user_paths self) ->
  CompatData.migrate_user_paths self w = Ret tt w.
Proof.
  intros H. unfold CompatData.migrate_user_paths. apply for_each_idle.
  eapply Forall_impl; [exact H|]. intros [[old new] link] [H1 H2].
  now apply migrate_user_path_idle.
Qed.

(** The time stamp of a regular file, or of nothing *)
Lemma getmtimestr_lstat (frags : list string) (w w' : world) :
  let path := fold_left path_join (tail frags) (hd "" frags) in
  lstat (fs w') path = lstat (fs w) path ->
  regular (fs w) path \/ lstat (fs w) path = None ->
  exists v, getmtimestr frags w = Ret v w /\ getmtimestr frags w' = Ret v w'.
Proof.
  intros path Heq Hk. unfold getmtimestr. fold path.
  rewrite !run_try_except. unfold os.path_getmtime.
  rewrite !run_bind, !run_get_fs. cbv beta iota.
  destruct Hk as [(d & m & t & Hl)|Hl]; rewrite Hl in Heq.
  - rewrite (resolve_file _ _ _ _ _ Hl), (resolve_file _ _ _ _ _ Heq).
    cbv [ret bind]. eauto.
  - rewrite (resolve_absent _ _ Hl), (resolve_absent _ _ Heq).
    cbv [raise]. rewrite !is_OSError_path_error. cbv [ret]. eauto.
Qed.

Lemma prefix_info_lstat (g_session : session) (steamdir info : string) (w w' : world) :
  Forall (fun s => lstat (fs w') s = lstat (fs w) s
                   /\ (regular (fs w) s \/ lstat (fs w) s = None))
         (fingerprint_files g_session steamdir) ->
  CompatData.prefix_info g_session steamdir w = Ret info w ->
  CompatData.prefix_info g_session steamdir w' = Ret info w'.
Proof.
  intros H. unfold fingerprint_files in H.
  apply Forall_cons in H as [[E1 K1] H]. apply Forall_cons in H as [[E2 K2] H].
  apply Forall_cons in H as [[E3 K3] H]. apply Forall_cons in H as [[E4 K4] _].
  destruct (getmtimestr_lstat [steamdir; "legacycompat"; "steamclient.dll"] w w' E1 K1)
    as (v1 & A1 & B1).
  destruct (getmtimestr_lstat [steamdir; "legacycompat"; "steamclient64.dll"] w w' E2 K2)
    as (v2 & A2 & B2).
  destruct (getmtimestr_lstat [steamdir; "legacycompat"; "Steam.dll"] w w' E3 K3)
    as (v3 & A3 & B3).
  destruct (getmtimestr_lstat
              [Proton.default_pfx_dir (g_proton g_session); "system.reg"] w w' E4 K4)
    as (v4 & A4 & B4).
  unfold CompatData.prefix_info. cbv zeta.
  rewrite (run_bind_ret _ _ _ _ _ A1), (run_bind_ret _ _ _ _ _ A2),
    (run_bind_ret _ _ _ _ _ A3), (run_bind_ret _ _ _ _ _ A4).
  rewrite (run_bind_ret _ _ _ _ _ B1), (run_bind_ret _ _ _ _ _ B2),
    (run_bind_ret _ _ _ _ _ B3), (run_bind_ret _ _ _ _ _ B4).
  unfold ret. intros H. congruence.
Qed.

(** ** Opening and writing a regular file *)

Lemma open_write_file (truncate : bool) (s : string) (w : world) d m t :
  lstat (fs w) s = Some (File d m t) -> Py.endswith s "/" = false ->
  open_write truncate s w
  = Ret (parse s)
        (if truncate then final (emit (EPut (parse s) (File "" m (clock w))) w) else w).
Proof.
  intros Hl Hs. unfold open_write. rewrite run_bind, run_get_fs. cbv beta iota.
  unfold get_clock at 1. rewrite run_bind. cbv beta iota.
  rewrite (resolve_file _ _ _ _ _ Hl), run_if, Hs, run_bind, run_when.
  destruct truncate; reflexivity.
Qed.

(** [write_text] on a regular file, when no other stream has text pending *)
Lemma write_text_file (s data : string) (w : world) d m t :
  lstat (fs w) s = Some (File d m t) -> Py.endswith s "/" = false ->
  parse s <> [] -> wbuf w = [] ->
  exists w',
    write_text s data w = Ret tt w'
    /\ wbuf w' = []
    /\ lstat (fs w') s = Some (File data m (clock w))
    /\ (forall q y, q <> parse s -> find q (fs w) = Some y -> is_leaf y = true ->
                    find q (fs w') = Some y).
Proof.
  intros Hl Hs Hne Hb. unfold write_text, with_open.
  rewrite (run_bind_ret _ _ _ _ _ (open_write_file true s w d m t Hl Hs)).
  set (p := parse s) in *. unfold lstat in Hl. fold p in Hl.
  unfold finally, stream_write. cbv beta iota.
  rewrite run_stream_close. cbn [wbuf set_trace set_wbuf final emit set_fs].
  rewrite Hb. cbn [app].
  cbn [fs set_trace set_wbuf set_fs apply_event].
  rewrite (find_put_same p _ _ _ Hl Hne). cbn [emit].
  eexists. split; [reflexivity|]. cbn [wbuf fs set_trace set_wbuf set_fs apply_event clock].
  split; [reflexivity|]. split.
  - unfold lstat. fold p. erewrite find_put_same; eauto.
    now apply (find_put_same p _ _ _ Hl).
  - intros q y Hq Hy Hleaf.
    apply (find_put_other p q _ (File "" m (clock w)) y); auto.
    + now apply (find_put_same p _ _ _ Hl).
    + now apply (find_put_other p q _ (File d m t) y).
Qed.

(** ** Calls that do not fail with [EPERM] *)

Lemma no_eperm_ret {A} (a : A) : no_eperm (ret a).
Proof. intros w e w'. discriminate. Qed.

Lemma no_eperm_raise {A} (e : exn) : e <> OSError EPERM -> no_eperm (@raise A e).
Proof. intros He w e' w' [= <- _]. exact He. Qed.

Lemma no_eperm_bind {A B} (m : M A) (k : A -> M B) :
  no_eperm m -> (forall a, no_eperm (k a)) -> no_eperm (bind m k).
Proof.
  intros Hm Hk w e w'. rewrite run_bind.
  destruct (m w) as [a w1|e1 w1] eqn:E; [apply Hk|].
  intros [= <- _]. eapply Hm; eauto.
Qed.

Lemma no_eperm_when (c : bool) (m : M unit) : no_eperm m -> no_eperm (when c m).
Proof. destruct c; auto. intros _. apply no_eperm_ret. Qed.

Lemma no_eperm_reads {A} (f : node -> A) : no_eperm (root <- get_fs ;; ret (f root)).
Proof. intros w e w'. discriminate. Qed.

Lemma path_error_not_eperm (p : path) (root : node) : path_error p root <> OSError EPERM.
Proof. unfold path_error. destruct (blocked p root) as [[]|]; discriminate. Qed.

Ltac no_eperm_step :=
  first [ apply no_eperm_ret
        | apply no_eperm_raise; first [discriminate|apply path_error_not_eperm]
        | apply no_eperm_reads
        | apply no_eperm_when
        | apply no_eperm_bind; [|intros ?]
        | intros ? ? ?; discriminate
        | match goal with
          | |- no_eperm (match ?x with _ => _ end) => destruct x
          | |- no_eperm (if ?x then _ else _) => destruct x
          end ].

Lemma no_eperm_get_fs : no_eperm get_fs.
Proof. intros w e w'. discriminate. Qed.

Lemma no_eperm_get_clock : no_eperm get_clock.
Proof. intros w e w'. discriminate. Qed.

Lemma no_eperm_emit (e : event) : no_eperm (emit e).
Proof. intros w e' w'. discriminate. Qed.

Lemma no_eperm_open_read (s : string) : no_eperm (open_read s).
Proof.
  unfold open_read. apply no_eperm_bind; [apply no_eperm_get_fs|intros root].
  repeat no_eperm_step.
Qed.

Lemma no_eperm_open_write (truncate : bool) (s : string) : no_eperm (open_write truncate s).
Proof.
  unfold open_write. apply no_eperm_bind; [apply no_eperm_get_fs|intros root].
  apply no_eperm_bind; [apply no_eperm_get_clock|intros now].
  repeat first [apply no_eperm_emit|no_eperm_step].
Qed.

Lemma no_eperm_remove (s : string) : no_eperm (os.remove s).
Proof.
  unfold os.remove. apply no_eperm_bind; [apply no_eperm_get_fs|intros root].
  repeat first [apply no_eperm_emit|no_eperm_step].
Qed.

Lemma no_eperm_symlink (t s : string) : no_eperm (os.symlink t s).
Proof.
  unfold os.symlink. apply no_eperm_bind; [apply no_eperm_get_fs|intros root].
  repeat first [apply no_eperm_emit|no_eperm_step].
Qed.

Lemma no_eperm_readlink (s : string) : no_eperm (os.readlink s).
Proof.
  unfold os.readlink. apply no_eperm_bind; [apply no_eperm_get_fs|intros root].
  repeat no_eperm_step.
Qed.

Lemma no_eperm_chmod (s : string) (mode : Z) : no_eperm (os.chmod s mode).
Proof.
  unfold os.chmod. apply no_eperm_bind; [apply no_eperm_get_fs|intros root].
  repeat first [apply no_eperm_emit|no_eperm_step].
Qed.

Lemma no_eperm_stat_mode (s : string) : no_eperm (os.stat_mode s).
Proof.
  unfold os.stat_mode. apply no_eperm_bind; [apply no_eperm_get_fs|intros root].
  repeat no_eperm_step.
Qed.

Lemma no_eperm_lstat_mode (s : string) : no_eperm (os.lstat_mode s).
Proof.
  unfold os.lstat_mode. apply no_eperm_bind; [apply no_eperm_get_fs|intros root].
  repeat no_eperm_step.
Qed.

Lemma no_eperm_copyfile (src dst : string) (follow_symlinks : bool) :
  no_eperm (shutil.copyfile src dst follow_symlinks).
Proof.
  unfold shutil.copyfile, shutil.same_file, os.path_islink.
  apply no_eperm_bind; [apply no_eperm_reads|intros same].
  destruct same; [apply no_eperm_raise; discriminate|].
  apply no_eperm_bind; [apply no_eperm_reads|intros lnk].
  destruct (negb follow_symlinks && lnk).
  - apply no_eperm_bind; [apply no_eperm_readlink|intros t]. apply no_eperm_symlink.
  - apply no_eperm_bind; [apply no_eperm_open_read|intros d].
    apply no_eperm_bind; [apply no_eperm_open_write|intros p].
    apply no_eperm_bind; [apply no_eperm_get_fs|intros root].
    apply no_eperm_bind; [apply no_eperm_get_clock|intros now].
    repeat first [apply no_eperm_emit|no_eperm_step].
Qed.

Lemma no_eperm_copymode (src dst : string) (follow_symlinks : bool) :
  no_eperm (shutil.copymode src dst follow_symlinks).
Proof.
  unfold shutil.copymode, os.path_islink.
  apply no_eperm_bind; [apply no_eperm_reads|intros ls].
  apply no_eperm_bind; [apply no_eperm_reads|intros ld].
  destruct (negb follow_symlinks && ls && ld); [apply no_eperm_ret|].
  apply no_eperm_bind; [apply no_eperm_stat_mode|intros m]. apply no_eperm_chmod.
Qed.

Lemma no_eperm_copy (src dst : string) (follow_symlinks : bool) :
  no_eperm (shutil.copy src dst follow_symlinks).
Proof.
  unfold shutil.copy, shutil.copy_target, os.path_isdir.
  apply no_eperm_bind; [|intros dst'].
  { apply no_eperm_bind; [apply no_eperm_reads|intros d]. apply no_eperm_ret. }
  apply no_eperm_bind; [apply no_eperm_copyfile|intros _]. apply no_eperm_copymode.
Qed.

(** ** What a copy makes *)

Lemma leaf_pred_is_file : leaf_pred is_file.
Proof. now intros y (d & m & t & ->). Qed.

Lemma meta_pred_is_file : meta_pred is_file.
Proof. intros d m t m' t' _. now exists d, m', t'. Qed.

Lemma regular_at (root : node) (s : string) (w : world) :
  fs w = root -> regular root s <-> at_path (parse s) is_file w.
Proof.
  intros <-. unfold regular, at_path, lstat, is_file. split.
  - intros (d & m & t & H). eauto 8.
  - intros (y & H & d & m & t & ->). eauto.
Qed.

Lemma copyfile_made (src dst : string) (w w' : world) :
  lstat (fs w) dst = None ->
  shutil.copyfile src dst true w = Ret tt w' -> regular (fs w') dst.
Proof.
  intros Hd. unfold shutil.copyfile.
  rewrite run_bind. unfold shutil.same_file. rewrite run_bind, run_get_fs.
  cbv beta iota. rewrite run_ret. cbv beta iota.
  rewrite (resolve_absent _ _ Hd).
  assert ((match resolve (fs w) src with
           | Some (_, Some _) => false
           | _ => false
           end) = false) as -> by (destruct (resolve (fs w) src) as [[? [?|]]|]; auto).
  rewrite run_bind, run_islink. cbv beta iota. cbn [negb andb].
  rewrite run_bind.
  destruct (open_read src w) as [data w1|e w1] eqn:Er; [|discriminate].
  apply open_read_pure in Er. subst w1.
  rewrite run_bind.
  destruct (open_write_cases true dst w) as [e|p d m t Hr|p Hr Hb]; try discriminate.
  { rewrite (resolve_absent _ _ Hd) in Hr. discriminate. }
  rewrite (resolve_absent _ _ Hd) in Hr. injection Hr as <-.
  assert (Hne : parse dst <> []).
  { intros E. unfold lstat in Hd. rewrite E in Hd. discriminate. }
  rewrite run_bind, run_get_fs. cbv beta iota.
  unfold get_clock at 1. rewrite run_bind. cbv beta iota.
  cbn [final emit fs set_trace set_fs apply_event].
  unfold put at 1. rewrite find_upd_eq by auto.
  intros [= <-]. exists data, default_mode, (clock w). unfold lstat.
  cbn [final emit fs set_trace set_fs apply_event clock].
  unfold put. rewrite find_upd_eq; auto.
  assert (Hf : find (parse dst) (upd (parse dst) (fun _ => Some (File "" default_mode (clock w)))
                                   (fs w)) = Some (File "" default_mode (clock w)))
    by now rewrite find_upd_eq.
  eapply find_blocked_none; eauto.
Qed.

Lemma try_copy_made (src dst : string) (w w' : world) :
  lstat (fs w) dst = None ->
  try_copy_default src dst w = Ret tt w' -> regular (fs w') dst.
Proof.
  intros Hd. unfold try_copy_default, try_copy. rewrite run_try_except.
  match goal with |- match ?b w with _ => _ end = _ -> _ => set (body := b) end.
  assert (Hnoep : no_eperm body).
  { subst body. unfold os.path_isdir, os.path_lexists.
    apply no_eperm_bind; [apply no_eperm_reads|intros isd].
    apply no_eperm_bind.
    { destruct isd; cbv zeta;
        (apply no_eperm_bind; [apply no_eperm_reads|intros lex]);
        (apply no_eperm_bind; [apply no_eperm_when, no_eperm_remove|intros _]);
        apply no_eperm_ret. }
    intros dstfile. apply no_eperm_bind; [apply no_eperm_copy|intros _].
    apply no_eperm_when.
    apply no_eperm_bind; [apply no_eperm_lstat_mode|intros m]. apply no_eperm_chmod. }
  assert (Hret : forall w1, body w = Ret tt w1 -> regular (fs w1) dst).
  { subst body. intros w1.
    rewrite run_bind, (run_isdir_absent _ _ Hd). cbv beta iota.
    rewrite run_bind, run_bind, run_lexists, Hd. cbv beta iota.
    rewrite run_bind. cbn [when]. rewrite run_ret. cbv beta iota.
    rewrite run_ret. cbv beta iota. intros H.
    apply bind_returns in H as ([] & w2 & Hcopy & H).
    assert (H2 : regular (fs w2) dst).
    { unfold shutil.copy in Hcopy.
      apply bind_returns in Hcopy as (dst' & w3 & Ht & Hcopy).
      unfold shutil.copy_target in Ht.
      rewrite run_bind, (run_isdir_absent _ _ Hd) in Ht. cbv beta iota in Ht.
      rewrite run_ret in Ht. injection Ht as <- <-.
      apply bind_returns in Hcopy as ([] & w4 & Hfile & Hmode).
      apply (copyfile_made _ _ _ _ Hd) in Hfile.
      apply (regular_at _ _ w4 eq_refl) in Hfile.
      apply (copymode_keeps _ _ leaf_pred_is_file meta_pred_is_file src dst true) in Hfile.
      rewrite Hmode in Hfile. now apply (regular_at _ _ w2 eq_refl). }
    apply (regular_at _ _ w2 eq_refl) in H2.
    assert (Hp : preserves (at_path (parse dst) is_file)
                   (m <- os.lstat_mode dst ;;
                    os.chmod dst (Z.lor (Z.lor m S_IWUSR) S_IWGRP))).
    { apply preserves_bind;
        [apply preserves_reads_only; [apply disk_pred_at_path|apply reads_only_lstat_mode]|].
      intros m. apply chmod_keeps; [apply leaf_pred_is_file|apply meta_pred_is_file]. }
    apply Hp in H2. cbn [when] in H. rewrite H in H2.
    now apply (regular_at _ _ w1 eq_refl). }
  destruct (body w) as [[] w1|e w1] eqn:E.
  - intros [= <-]. now apply Hret.
  - apply Hnoep in E. destruct e as [[]| |]; try discriminate. now destruct E.
Qed.

(** ** Where [try_copy] writes *)

Lemma tail_rev {A} (l : list A) : tail (rev l) = rev (removelast l).
Proof.
  induction l as [|x l _] using rev_ind; [reflexivity|].
  now rewrite rev_unit, removelast_last.
Qed.

(** The name of a file joined to a path names the path itself, its parent,
    or a child of it. *)
Lemma parse_child (dst b : string) :
  Py.contains "/" b = false ->
  parse (dst +:+ "/" +:+ b) = parse dst
  \/ parse (dst +:+ "/" +:+ b) = removelast (parse dst)
  \/ parse (dst +:+ "/" +:+ b) = parse dst ++ [b].
Proof.
  intros Hb. unfold parse. rewrite !feed_app, feed_slash.
  destruct (feed dst ([], "")) as [stk cur]. cbn [fst snd].
  rewrite feed_no_slash, append_nil_l by auto.
  unfold close. cbn [fst snd]. set (X := push cur stk).
  unfold push.
  destruct (String.eqb b ""); [auto|]. destruct (String.eqb b "."); [auto|].
  destruct (String.eqb b "..").
  - right; left.
    now rewrite <- (rev_involutive (removelast (rev X))), <- tail_rev, rev_involutive.
  - right; right. reflexivity.
Qed.

Section AtPathUnder.
Context (q : path) (P : node -> Prop) (HP : leaf_pred P) (HM : meta_pred P).

Lemma try_copy_keeps_cases (src dst : string)
    (add_write_perm copy_metadata optional follow_symlinks : bool) :
  parse dst <> q -> removelast (parse dst) <> q ->
  (forall b, parse dst ++ [b] <> q) ->
  preserves (at_path q P)
    (try_copy src dst add_write_perm copy_metadata optional follow_symlinks).
Proof.
  intros H1 H2 H3. apply try_copy_keeps; auto.
  destruct (parse_child dst (os.path_basename src) (basename_no_slash src))
    as [->|[->| ->]]; auto.
Qed.

(** A copy to a place under [D] leaves alone what is not under [D]. *)
Lemma try_copy_keeps_in (D l : path) (src dst : string)
    (add_write_perm copy_metadata optional follow_symlinks : bool) :
  parse dst = D ++ l -> l <> [] -> is_prefix D q = false ->
  preserves (at_path q P)
    (try_copy src dst add_write_perm copy_metadata optional follow_symlinks).
Proof.
  intros Hd Hl Hq. apply try_copy_keeps_cases; rewrite Hd.
  - now apply is_prefix_app_ne.
  - rewrite removelast_app by auto. now apply is_prefix_app_ne.
  - intros b. rewrite <- app_assoc. now apply is_prefix_app_ne.
Qed.

(** A copy to an entry of a directory leaves the other entries alone. *)
Lemma try_copy_keeps_sibling (S : path) (t t' : string) (src dst : string)
    (add_write_perm copy_metadata optional follow_symlinks : bool) :
  parse dst = S ++ [t] -> q = S ++ [t'] -> t <> t' ->
  preserves (at_path q P)
    (try_copy src dst add_write_perm copy_metadata optional follow_symlinks).
Proof.
  intros Hd Hq Hne. apply try_copy_keeps_cases; rewrite Hd, Hq.
  - intros E. apply app_inv_head in E. congruence.
  - rewrite removelast_last. intros E. apply (f_equal length) in E.
    rewrite length_app in E. cbn in E. lia.
  - intros b E. apply (f_equal length) in E. rewrite !length_app in E. cbn in E. lia.
Qed.

Lemma set_override_keeps (f v : string) : preserves (at_path q P) (CompatData.set_override f v).
Proof. intros w H. exact H. Qed.

End AtPathUnder.

(** ** Calls that leave the buffer of the stream alone *)

Section SinceCopies.
Context (G : list event -> Prop) (w0 : world).
Hypothesis HG : forall evs e, G evs -> fs_event e -> G (evs ++ [e]).

Lemma since_chmod (s : string) (mode : Z) : preserves (since G w0) (os.chmod s mode).
Proof.
  unfold os.chmod.
  apply preserves_bind; [apply since_reads, reads_only_get_fs|intros root].
  destruct (resolve root s) as [[p [[d m t| |]|]]|];
    first [apply preserves_ret|apply preserves_raise|now apply since_emit].
Qed.

Lemma since_copymode (src dst : string) (follow_symlinks : bool) :
  preserves (since G w0) (shutil.copymode src dst follow_symlinks).
Proof.
  unfold shutil.copymode.
  apply preserves_bind; [apply since_reads, reads_only_islink|intros ls].
  apply preserves_bind; [apply since_reads, reads_only_islink|intros ld].
  destruct (negb follow_symlinks && ls && ld); [apply preserves_ret|].
  apply preserves_bind; [apply since_reads, reads_only_stat_mode|intros m].
  apply since_chmod.
Qed.

Lemma since_copy (src dst : string) (follow_symlinks : bool) :
  preserves (since G w0) (shutil.copy src dst follow_symlinks).
Proof.
  unfold shutil.copy, shutil.copy_target.
  apply preserves_bind; [|intros dst'].
  { apply preserves_bind; [apply since_reads, reads_only_isdir|intros d].
    apply preserves_ret. }
  apply preserves_bind; [now apply since_copyfile|intros _]. apply since_copymode.
Qed.

Lemma since_try_copy_default (src dst : string) :
  preserves (since G w0) (try_copy_default src dst).
Proof.
  unfold try_copy_default, try_copy. apply preserves_try_except.
  - apply preserves_bind; [apply since_reads, reads_only_isdir|intros isd].
    apply preserves_bind.
    { destruct isd; cbv zeta;
        (apply preserves_bind; [apply since_reads, reads_only_lexists|intros lex]);
        (apply preserves_bind; [apply preserves_when; now apply since_remove|intros _]);
        apply preserves_ret. }
    intros dstfile. apply preserves_bind; [apply since_copy|intros _].
    apply preserves_when.
    apply preserves_bind; [apply since_reads, reads_only_lstat_mode|intros m].
    apply since_chmod.
  - intros e k. destruct e as [[]| |]; intros [= <-]; apply since_reads, reads_only_log.
Qed.

Lemma since_makedirs (s : string) : preserves (since G w0) (makedirs s).
Proof.
  unfold makedirs. apply preserves_try_except; [now apply since_os_makedirs|].
  intros e k. destruct (is_OSError e); intros [= <-]. apply preserves_ret.
Qed.

Lemma since_create_fonts_symlinks (g_session : session) (self : CompatData.t) :
  preserves (since G w0) (CompatData.create_fonts_symlinks g_session self).
Proof.
  unfold CompatData.create_fonts_symlinks. cbv zeta.
  apply preserves_bind; [apply since_makedirs|intros _].
  apply preserves_for_each. intros p _.
  apply preserves_bind; [apply since_reads, reads_only_lexists|intros lex].
  destruct lex; [|now apply since_symlink].
  apply preserves_bind; [apply since_reads, reads_only_islink|intros lnk].
  apply preserves_when.
  apply preserves_bind; [now apply since_remove|intros _]. now apply since_symlink.
Qed.

End SinceCopies.

(** What only adds events of the file system to the trace leaves the
    buffer as it is. *)
Lemma since_wbuf {A} (m : M A) (w : world) :
  preserves (since (Forall fs_event) w) m -> wbuf (final (m w)) = wbuf w.
Proof.
  intros H. destruct (H w (since_refl _ _ (Forall_nil_2 _))) as (evs & _ & _ & Hb & Hf).
  now rewrite Hb, (records_fs_events _ Hf), app_nil_r.
Qed.

(** ** The fonts and the Steam client files *)

Lemma fontsmap_valid (g_session : session) :
  Forall (fun p => valid_name p.2 = true) (CompatData.fontsmap g_session).
Proof.
  unfold CompatData.fontsmap. cbv zeta.
  repeat (apply List.Forall_cons; [reflexivity|]). apply List.Forall_nil.
Qed.

Lemma create_fonts_symlinks_keeps (g_session : session) (self : CompatData.t)
    (q : path) (P : node -> Prop) :
  leaf_pred P ->
  is_prefix (parse (CompatData.prefix_dir self +:+ "/drive_c/windows/Fonts")) q = false ->
  preserves (at_path q P) (CompatData.create_fonts_symlinks g_session self).
Proof.
  intros HP Hq. unfold CompatData.create_fonts_symlinks. cbv zeta.
  apply preserves_bind; [now apply makedirs_keeps|intros _].
  apply preserves_for_each. intros p Hp.
  pose proof (proj1 (Forall_forall _ _) (fontsmap_valid g_session) p Hp) as Hv.
  assert (Hne : parse (path_join (CompatData.prefix_dir self +:+ "/drive_c/windows/Fonts")
                         p.2) <> q).
  { rewrite parse_path_join by auto. now apply is_prefix_app_ne. }
  apply preserves_bind; [apply preserves_query, reads_only_lexists|intros lex].
  destruct lex; [|now apply symlink_keeps].
  apply preserves_bind; [apply preserves_query, reads_only_islink|intros lnk].
  apply preserves_when.
  apply preserves_bind; [now apply remove_keeps|intros _]. now apply symlink_keeps.
Qed.

Section SteamFiles.
Context (dst : string) (K : list (path * (node -> Prop))) (T : list string).
Hypothesis Hdst : Py.endswith dst "/" = true.
Hypothesis HK :
  Forall (fun k => is_prefix (parse dst) k.1 = false /\ leaf_pred k.2 /\ meta_pred k.2) K.
Hypothesis HT : Forall (fun t => valid_name t = true) T.

(** What the copying of the Steam client files keeps: the buffer empty,
    the nodes listed in [K] and the files [T] of the directory; when a copy
    fails the last may be gone. *)
Let kept (w : world) : Prop :=
  wbuf w = [] /\ Forall (fun k => at_path k.1 k.2 w) K.

Let in_place (w : world) : Prop :=
  Forall (fun t => at_path (parse dst ++ [t]) is_file w) T.

Lemma parse_steam_file (tgt : string) :
  valid_name tgt = true -> parse (dst +:+ tgt) = parse dst ++ [tgt].
Proof.
  intros Hv. rewrite <- (parse_joined dst [tgt]); auto.
  cbn [joined slashes fold_right]. now rewrite append_nil_r.
Qed.

Lemma steam_file_step (srcfile steam_dir' tgt : string) (w : world) :
  tgt ∈ T -> kept w -> in_place w ->
  match (isf <- os.path_isfile srcfile ;;
         when isf
           (let dstfile := dst +:+ tgt in
            isf' <- os.path_isfile dstfile ;;
            (if isf' then os.remove dstfile
             else stream_write (steam_dir' +:+ tgt +:+ Py.nl)) ;;;
            try_copy_default srcfile dstfile)) w with
  | Ret _ w' => kept w' /\ in_place w'
  | Raise _ w' => kept w'
  end.
Proof.
  intros Ht [Hb Hk] Hin.
  pose proof (proj1 (Forall_forall _ _) HT tgt Ht) as Hv.
  pose proof (parse_steam_file tgt Hv) as Hp.
  rewrite run_bind, run_isfile. cbv beta iota.
  destruct (match stat (fs w) srcfile with Some (File _ _ _) => true | _ => false end);
    [|cbn [when]; rewrite run_ret; repeat split; auto].
  cbn [when]. cbv zeta. set (dstfile := dst +:+ tgt) in *.
  destruct (proj1 (Forall_forall _ _) Hin tgt Ht) as (y & Hy & d & m & t & ->).
  rewrite <- Hp in Hy. fold (lstat (fs w) dstfile) in Hy.
  rewrite run_bind, run_isfile. unfold stat.
  rewrite (resolve_file _ _ _ _ _ Hy). cbv beta iota.
  rewrite run_bind. unfold os.remove at 1. rewrite run_bind, run_get_fs, Hy.
  cbv beta iota.
  set (w1 := final (emit (EDel (parse dstfile)) w)).
  change (emit (EDel (parse dstfile)) w) with (Ret tt w1). cbv beta iota.
  assert (Hrem : os.remove dstfile w = Ret tt w1).
  { unfold os.remove. now rewrite run_bind, run_get_fs, Hy. }
  assert (Hb1 : wbuf w1 = []) by exact Hb.
  assert (Ha1 : lstat (fs w1) dstfile = None).
  { apply (remove_absent _ _ _) in Hrem; auto. rewrite Hp. now destruct (parse dst). }
  assert (Hk1 : Forall (fun k => at_path k.1 k.2 w1) K).
  { apply Forall_forall. intros k Hkin.
    destruct (proj1 (Forall_forall _ _) HK k Hkin) as (Hq & HP & _).
    pose proof (remove_keeps k.1 k.2 HP dstfile) as Hr.
    rewrite Hp in Hr. specialize (Hr (is_prefix_app_ne _ _ _ Hq) w).
    rewrite Hrem in Hr. apply Hr. exact (proj1 (Forall_forall _ _) Hk k Hkin). }
  assert (Hin1 : forall t', t' ∈ T -> t' <> tgt ->
                   at_path (parse dst ++ [t']) is_file w1).
  { intros t' Ht' Hne.
    pose proof (remove_keeps (parse dst ++ [t']) is_file leaf_pred_is_file dstfile) as Hr.
    rewrite Hp in Hr.
    assert (Hd : parse dst ++ [tgt] <> parse dst ++ [t'])
      by (intros E; apply app_inv_head in E; congruence).
    specialize (Hr Hd w). rewrite Hrem in Hr. apply Hr.
    exact (proj1 (Forall_forall _ _) Hin t' Ht'). }
  clearbody w1. clear Hrem.
  (* the copy *)
  pose proof (since_wbuf _ w1 (since_try_copy_default _ w1 fs_events_snoc srcfile dstfile))
    as Hb2.
  assert (Hk2 : Forall (fun k => at_path k.1 k.2 (final (try_copy_default srcfile dstfile w1)))
                  K).
  { apply Forall_forall. intros k Hkin.
    destruct (proj1 (Forall_forall _ _) HK k Hkin) as (Hq & HP & HM).
    apply (try_copy_keeps_in k.1 k.2 HP HM (parse dst) [tgt] srcfile dstfile
             true false false true Hp ltac:(discriminate) Hq w1).
    exact (proj1 (Forall_forall _ _) Hk1 k Hkin). }
  assert (Hin2 : forall t', t' ∈ T -> t' <> tgt ->
                   at_path (parse dst ++ [t']) is_file
                     (final (try_copy_default srcfile dstfile w1))).
  { intros t' Ht' Hne.
    apply (try_copy_keeps_sibling _ is_file leaf_pred_is_file meta_pred_is_file
             (parse dst) tgt t' srcfile dstfile true false false true Hp eq_refl
             ltac:(congruence) w1).
    auto. }
  destruct (try_copy_default srcfile dstfile w1) as [[] w2|e w2] eqn:Ec;
    cbn [final] in *; rewrite Hb1 in Hb2; [|split; auto].
  split; [split; auto|].
  apply Forall_forall. intros t' Ht'.
  destruct (decide (t' = tgt)) as [->|Hne]; [|auto].
  rewrite <- Hp. apply (regular_at _ _ w2 eq_refl).
  eapply try_copy_made; eauto.
Qed.

Lemma copy_steam_files_step (steam_dir' : string) (src_of : string -> string)
    (filestocopy : list (string * string)) :
  Forall (fun e => e.2 ∈ T) filestocopy ->
  forall w, kept w -> in_place w ->
    match CompatData.copy_steam_files dst steam_dir' src_of filestocopy w with
    | Ret _ w' => kept w' /\ in_place w'
    | Raise _ w' => kept w'
    end.
Proof.
  unfold CompatData.copy_steam_files.
  induction 1 as [|[src tgt] l Ht _ IH]; intros w Hk Hin; cbn [for_each].
  - rewrite run_ret. auto.
  - rewrite run_bind.
    pose proof (steam_file_step (src_of src) steam_dir' tgt w Ht Hk Hin) as Hs.
    cbv zeta in Hs |- *.
    match type of Hs with match ?m with _ => _ end =>
      match goal with |- match match ?m' with _ => _ end with _ => _ end =>
        change m' with m end;
      destruct m as [[] w1|e w1] end; [|exact Hs].
    destruct Hs as [Hk1 Hin1]. now apply IH.
Qed.

End SteamFiles.

(** ** A run of [setup_prefix] on a prefix that has been set up *)

Lemma meta_pred_holds (data : string) : meta_pred (holds data).
Proof. intros d m t m' t' (m0 & t0 & E). injection E as ->. now exists m', t'. Qed.

Lemma contents_holds (s data : string) (w : world) :
  contents (fs w) s = Some data <-> at_path (parse s) (holds data) w.
Proof.
  unfold contents, at_path, lstat, holds. split.
  - destruct (find (parse s) (fs w)) as [[d m t| |]|]; try discriminate.
    intros [= ->]. eauto.
  - intros (y & -> & m & t & ->). reflexivity.
Qed.

Lemma each_kept {A} (K : list (path * (node -> Prop))) (m : M A) (w : world) :
  Forall (fun k => at_path k.1 k.2 w) K ->
  (forall k, k ∈ K -> preserves (at_path k.1 k.2) m) ->
  Forall (fun k => at_path k.1 k.2 (final (m w))) K.
Proof.
  intros H Hm. apply Forall_forall. intros k Hk. apply (Hm k Hk).
  exact (proj1 (Forall_forall _ _) H k Hk).
Qed.

Lemma final_bind_cases {A B} (Q : world -> Prop) (m : M A) (k : A -> M B) (w : world) :
  (forall a w1, m w = Ret a w1 -> Q (final (k a w1))) ->
  (forall e w1, m w = Raise e w1 -> Q w1) ->
  Q (final (bind m k w)).
Proof.
  intros HR HE. rewrite run_bind. destruct (m w) as [a w1|e w1]; [now apply HR|].
  now apply (HE e).
Qed.

Lemma outcome_bind {A B} (Q' Q E : world -> Prop) (m : M A) (k : A -> M B) (w : world) :
  match m w with Ret _ w1 => Q' w1 | Raise _ w1 => E w1 end ->
  (forall a w1, Q' w1 -> match k a w1 with Ret _ w2 => Q w2 | Raise _ w2 => E w2 end) ->
  match bind m k w with Ret _ w2 => Q w2 | Raise _ w2 => E w2 end.
Proof.
  intros Hm Hk. rewrite run_bind. destruct (m w) as [a w1|e w1]; [now apply Hk|exact Hm].
Qed.

Lemma finally_close_idle {A} (body : M A) (p : path) (w : world) :
  wbuf (final (body w)) = [] -> finally body (stream_close p) w = body w.
Proof.
  unfold finally. destruct (body w) as [a w1|e w1]; cbn [final]; intros H;
    rewrite run_stream_close, H; reflexivity.
Qed.

Lemma find_parent_dir (p : path) (c : string) (n x : node) :
  find (p ++ [c]) n = Some x -> exists es, find p n = Some (Dir es).
Proof.
  rewrite find_app. destruct (find p n) as [[d m t|l|es]|]; try discriminate; eauto.
Qed.

Lemma is_prefix_app_false (p r q : path) :
  is_prefix p q = false -> is_prefix (p ++ r) q = false.
Proof.
  revert q. induction p as [|c p IH]; intros [|d q]; cbn; try discriminate; auto.
  destruct (String.eqb c d); cbn; auto.
Qed.

Lemma open_read_regular (s d : string) (m t : Z) (w : world) :
  lstat (fs w) s = Some (File d m t) -> Py.endswith s "/" = false -> readable m = true ->
  open_read s w = Ret d w.
Proof.
  intros H He Hr. unfold open_read. rewrite run_bind, run_get_fs. cbv beta iota.
  now rewrite (resolve_file _ _ _ _ _ H), He, Hr.
Qed.

Lemma upgrade_pfx_current (g_session : session) (self : CompatData.t) (w : world) :
  CompatData.upgrade_pfx g_session self (Some CURRENT_PREFIX_VERSION) w = Ret tt w.
Proof. rewrite upgrade_pfx_run. now rewrite bool_decide_true. Qed.

Lemma preserves_for_all {A} (I : world -> Prop) (l : list A) (body : A -> M unit) :
  Forall (fun x => preserves I (body x)) l -> preserves I (for_each l body).
Proof.
  intros H. apply preserves_for_each. intros x Hx.
  exact (proj1 (Forall_forall _ _) H x Hx).
Qed.

Ltac path_norm HP HB :=
  unfold lstat, parse; rewrite ?append_assoc; rewrite ?HP, ?HB;
  repeat match goal with
         | |- context [feed ?s (?stk, ?cur)] =>
             let r := eval vm_compute in (feed s (stk, cur)) in
             change (feed s (stk, cur)) with r
         end;
  unfold close; cbn [fst snd];
  repeat match goal with
         | |- context [push ?c ?stk] =>
             let r := eval vm_compute in (push c stk) in
             change (push c stk) with r
         end;
  cbn [rev]; rewrite <- ?app_assoc; cbn [app].

Ltac path_fact HP HB :=
  path_norm HP HB;
  lazymatch goal with
  | |- is_prefix _ _ = false => rewrite is_prefix_app_head; reflexivity
  | |- _ = _ => reflexivity
  | |- _ => let E := fresh in intros E; apply app_inv_head in E; discriminate
  end.

Lemma under_prefix_ne (R l q : path) : is_prefix R q = false -> R ++ l <> q.
Proof.
  intros H E. subst q. rewrite (proj2 (is_prefix_app R (R ++ l))) in H; [discriminate|].
  now exists l.
Qed.

(** One step of the proof that a command that writes under the prefix
    directory only keeps a leaf outside of it *)
Ltac keep_step B HP HB q P HP' HM' Hq :=
  lazymatch goal with
  | |- preserves _ (bind _ _) => apply preserves_bind; [|intros ?]
  | |- preserves _ (ret _) => apply preserves_ret
  | |- preserves _ (when _ _) => apply preserves_when
  | |- preserves _ (if ?c then _ else _) => destruct c
  | |- preserves _ (match ?o with Some _ => _ | None => _ end) => destruct o
  | |- preserves _ (for_each _ _) => apply preserves_for_all
  | |- Forall _ (_ ++ _) => apply Forall_app; split
  | |- Forall _ (if ?c then _ else _) => destruct c
  | |- Forall _ (_ :: _) => apply List.Forall_cons; [cbv beta|]
  | |- Forall _ [] => apply List.Forall_nil
  | |- preserves _ (makedirs _) => apply makedirs_keeps; assumption
  | |- preserves _ (try_copy_default _ _) => unfold try_copy_default
  | |- preserves _ (try_copy _ ?dst _ _ _ _) =>
      let E := fresh "E" in
      assert (E : exists l, parse dst = (rev B ++ ["pfx"]) ++ l /\ l <> []);
      [ path_norm HP HB;
        lazymatch goal with
        | |- exists l, rev B ++ "pfx" :: ?l0 = _ /\ _ =>
            exists l0; split; [now rewrite <- app_assoc|discriminate]
        end
      | let l := fresh "l" in
        let E1 := fresh "E" in
        let E2 := fresh "E" in
        destruct E as (l & E1 & E2);
        apply (try_copy_keeps_in q P HP' HM' (rev B ++ ["pfx"]) l); assumption ]
  | |- preserves _ (CompatData.set_override _ _) => apply set_override_keeps
  | |- preserves _ (os.path_exists _) => apply preserves_query, reads_only_exists
  | |- preserves _ (os.path_lexists _) => apply preserves_query, reads_only_lexists
  | |- preserves _ (os.readlink _) => apply preserves_query, reads_only_readlink
  | |- preserves _ (os.symlink _ _) => apply symlink_keeps; assumption
  | |- preserves _ (os.unlink ?s) => change (os.unlink s) with (os.remove s)
  | |- preserves _ (os.remove ?s) =>
      apply remove_keeps; [assumption|];
      path_norm HP HB;
      lazymatch goal with
      | |- rev B ++ "pfx" :: ?l0 <> _ =>
          replace (rev B ++ "pfx" :: l0) with ((rev B ++ ["pfx"]) ++ l0)
            by (now rewrite <- app_assoc);
          now apply under_prefix_ne
      end
  end.




(** ** Escaped commas *)

Lemma length_backslashes (n : nat) : String.length (backslashes n) = n.
Proof. induction n as [|n IH]; [reflexivity|]. cbn [backslashes String.length]. now rewrite IH. Qed.

Lemma get_backslashes (n i : nat) :
  (i < n)%nat -> String.get i (backslashes n) = Some backslash.
Proof.
  revert i; induction n as [|n IH]; intros i Hi; [lia|].
  destruct i; cbn; [reflexivity|]. apply IH. lia.
Qed.

Lemma get_append_r (a b : string) (i : nat) :
  String.get (String.length a + i) (a +:+ b) = String.get i b.
Proof. rewrite Nat.add_comm. symmetry. apply String.append_correct2. Qed.

Lemma get_append_l (a b : string) (i : nat) :
  (i < String.length a)%nat -> String.get i (a +:+ b) = String.get i a.
Proof. intros H. symmetry. now apply String.append_correct1. Qed.

Lemma get_last (a : string) (c : ascii) :
  String.get (String.length a) (a +:+ String c EmptyString) = Some c.
Proof.
  rewrite <- (Nat.add_0_r (String.length a)) at 1. now rewrite get_append_r.
Qed.

Lemma char_at_back (u : string) (n k : nat) :
  (k < n)%nat ->
  char_at (u +:+ backslashes n) (-1 - Z.of_nat k) = Some backslash.
Proof.
  intros Hk. unfold char_at, Py.len.
  rewrite length_append, length_backslashes.
  replace (-1 - Z.of_nat k <? 0) with true by (symmetry; apply Z.ltb_lt; lia).
  set (i := Z.of_nat (String.length u + n) + (-1 - Z.of_nat k)).
  replace (i <? 0) with false by (symmetry; apply Z.ltb_ge; lia).
  replace (Z.of_nat (String.length u + n) <=? i) with false
    by (symmetry; apply Z.leb_gt; lia).
  cbn [orb].
  replace (Z.to_nat i) with (String.length u + (n - 1 - k))%nat by lia.
  rewrite get_append_r. apply get_backslashes. lia.
Qed.

Lemma char_at_before (u : string) (c : ascii) (n : nat) :
  char_at ((u +:+ String c EmptyString) +:+ backslashes n) (-1 - Z.of_nat n) = Some c.
Proof.
  unfold char_at, Py.len.
  rewrite !length_append, length_backslashes. cbn [String.length].
  replace (-1 - Z.of_nat n <? 0) with true by (symmetry; apply Z.ltb_lt; lia).
  set (i := Z.of_nat (String.length u + 1 + n) + (-1 - Z.of_nat n)).
  replace (i <? 0) with false by (symmetry; apply Z.ltb_ge; lia).
  replace (Z.of_nat (String.length u + 1 + n) <=? i) with false
    by (symmetry; apply Z.leb_gt; lia).
  cbn [orb].
  replace (Z.to_nat i) with (String.length u) by lia.
  rewrite get_append_l by (rewrite length_append; cbn; lia).
  apply get_last.
Qed.

Lemma char_at_none (n : nat) :
  char_at (backslashes n) (-1 - Z.of_nat n) = None.
Proof.
  unfold char_at, Py.len. rewrite length_backslashes.
  replace (-1 - Z.of_nat n <? 0) with true by (symmetry; apply Z.ltb_lt; lia).
  replace (Z.of_nat n + (-1 - Z.of_nat n) <? 0) with true
    by (symmetry; apply Z.ltb_lt; lia).
  reflexivity.
Qed.

Lemma comma_escaped_loop_run (t : string) (n : nat) :
  (forall k, (k < n)%nat -> char_at t (-1 - Z.of_nat k) = Some backslash) ->
  char_at t (-1 - Z.of_nat n) <> Some backslash ->
  forall k fuel escaped,
    (k <= n)%nat -> (n - k < fuel)%nat ->
    comma_escaped_loop fuel t escaped (-1 - Z.of_nat k)
    = match char_at t (-1 - Z.of_nat n) with
      | None => IndexError
      | Some c => Value (xorb escaped (Nat.odd (n - k)))
      end.
Proof.
  intros Hb Hn k. remember (n - k)%nat as d eqn:Hd. revert k Hd.
  induction d as [|d IH]; intros k Hd fuel escaped Hk Hf.
  - assert (k = n) by lia. subst k.
    destruct fuel as [|fuel]; [lia|]. cbn [comma_escaped_loop].
    destruct (char_at t (-1 - Z.of_nat n)) as [c|]; [|reflexivity].
    destruct (Ascii.eqb_spec c backslash) as [->|_]; [congruence|].
    cbn. now destruct escaped.
  - destruct fuel as [|fuel]; [lia|]. cbn [comma_escaped_loop].
    rewrite (Hb k) by lia.
    replace (Ascii.eqb backslash backslash) with true by reflexivity.
    replace (-1 - Z.of_nat k - 1) with (-1 - Z.of_nat (S k)) by lia.
    rewrite (IH (S k)) by lia.
    destruct (char_at t (-1 - Z.of_nat n)) as [c|]; [|reflexivity].
    rewrite Nat.odd_succ, <- Nat.negb_odd.
    destruct escaped, (Nat.odd d); reflexivity.
Qed.

(** X1.  [comma_escaped] answers whether the string ends in an odd number
    of backslashes, whatever comes before the character that precedes
    them. *)
Theorem comma_escaped_parity (u : string) (c : ascii) (n : nat) :
  c <> backslash ->
  comma_escaped ((u +:+ String c EmptyString) +:+ backslashes n) = Value (Nat.odd n).
Proof.
  intros Hc. unfold comma_escaped.
  rewrite (comma_escaped_loop_run _ n
             (fun k Hk => char_at_back _ n k Hk)) with (k := 0%nat); try lia.
  - rewrite char_at_before. now rewrite Nat.sub_0_r.
  - rewrite char_at_before. congruence.
  - rewrite !length_append, length_backslashes. cbn. lia.
Qed.

Lemma comma_escaped_parity_witness :
  ascii_of_nat 97 <> backslash
  /\ comma_escaped (("-opt=" +:+ String (ascii_of_nat 97) EmptyString) +:+ backslashes 3)
     = Value true.
Proof.
  split; [discriminate|].
  exact (comma_escaped_parity "-opt=" (ascii_of_nat 97) 3 ltac:(discriminate)).
Defined.

(** X2.  On a string that holds nothing but backslashes, the empty string
    among them, [comma_escaped] steps back past the first character and
    raises [IndexError]. *)
Theorem comma_escaped_only_backslashes (n : nat) :
  comma_escaped (backslashes n) = IndexError.
Proof.
  unfold comma_escaped.
  rewrite (comma_escaped_loop_run _ n) with (k := 0%nat); try lia.
  - now rewrite char_at_none.
  - intros k Hk. apply (char_at_back "" n k Hk).
  - now rewrite char_at_none.
  - rewrite length_backslashes. lia.
Qed.

(** ** The configuration string *)

Lemma backslashes_snoc (n : nat) :
  backslashes (S n) = backslashes n +:+ String backslash EmptyString.
Proof. induction n as [|n IH]; [reflexivity|]. cbn [backslashes] in *. now rewrite IH at 1. Qed.

(** A string is a run of backslashes or has a last character that is not
    one. *)
Lemma trailing_split (s : string) :
  (exists n, s = backslashes n)
  \/ (exists u c n, c <> backslash /\ s = (u +:+ String c EmptyString) +:+ backslashes n).
Proof.
  induction s as [|x r IH].
  - left. now exists 0%nat.
  - destruct IH as [(n & ->)|(u & c & n & Hc & ->)].
    + destruct (Ascii.eqb_spec x backslash) as [->|Hx].
      * left. now exists (S n).
      * right. now exists "", x, n.
    + right. now exists (String x u), c, n.
Qed.

Lemma partition_spec (sep : ascii) (s : string) :
  let '(a, b, c) := partition sep s in
  s = a +:+ b +:+ c
  /\ Py.contains (String sep EmptyString) a = false
  /\ (b = String sep EmptyString \/ (b = EmptyString /\ c = EmptyString)).
Proof.
  induction s as [|x r IH]; [cbn; auto|].
  cbn [partition]. destruct (Ascii.eqb_spec x sep) as [->|Hx].
  - cbn. auto.
  - destruct (partition sep r) as [[a b] c]. destruct IH as (-> & Ha & Hb).
    split; [reflexivity|]. split; [|exact Hb].
    cbn [Py.contains]. rewrite prefix_cons.
    destruct (Ascii.eqb_spec sep x) as [E|_]; [congruence|]. exact Ha.
Qed.

Lemma partition_length (sep : ascii) (s : string) :
  s <> EmptyString ->
  (String.length (partition sep s).2 < String.length s)%nat.
Proof.
  intros Hs. pose proof (partition_spec sep s) as H.
  destruct (partition sep s) as [[a b] c]. destruct H as (E & _ & [->|[-> ->]]).
  - rewrite E, !length_append. cbn. lia.
  - cbn. destruct s; [congruence|cbn; lia].
Qed.

Lemma comma_escaped_plain (s : string) :
  has_plain s -> exists b, comma_escaped s = Value b.
Proof. intros (u & c & n & Hc & ->). eexists. now apply comma_escaped_parity. Qed.

Lemma has_plain_app (a b : string) : has_plain b -> has_plain (a +:+ b).
Proof.
  intros (u & c & n & Hc & ->). exists (a +:+ u), c, n. split; [exact Hc|].
  now rewrite !append_assoc.
Qed.

Lemma has_plain_snoc (a b : string) (c : ascii) :
  c <> backslash -> has_plain (a +:+ String c b).
Proof.
  intros Hc. destruct (trailing_split b) as [(n & ->)|Hb].
  - exists a, c, n. split; [exact Hc|]. now rewrite append_assoc.
  - change (String c b) with (String c EmptyString +:+ b).
    rewrite <- append_assoc. now apply has_plain_app.
Qed.

Lemma has_plain_prefix (s : string) :
  Py.startswith s "cmdlineappend:" = true -> has_plain s.
Proof.
  unfold Py.startswith. destruct s as [|x r]; [discriminate|].
  rewrite prefix_cons. intros H. apply andb_true_iff in H as [Hx _].
  apply Ascii.eqb_eq in Hx. subst x.
  apply (has_plain_snoc "" r). discriminate.
Qed.

(** The inner loop of [__init__] comes to an end, and what it leaves of
    the configuration string is no longer than what it was given. *)
Lemma take_escaped_ends (config cur : string) (fuel : nat) :
  has_plain cur -> (String.length config + 2 <= fuel)%nat ->
  exists cur' config',
    Session.take_escaped fuel cur config = Value (cur', config')
    /\ (String.length config' <= String.length config)%nat.
Proof.
  remember (String.length config) as len eqn:Hlen.
  revert config cur fuel Hlen.
  induction len as [len IH] using lt_wf_ind. intros config cur fuel Hlen Hp Hf.
  destruct fuel as [|fuel]; [lia|]. cbn [Session.take_escaped].
  destruct (comma_escaped_plain cur Hp) as ([|] & ->);
    [|eexists _, _; split; [reflexivity|lia]].
  pose proof (partition_spec "," config) as Hs.
  pose proof (partition_length "," config) as Hl.
  destruct (partition "," config) as [[a b] c]. cbn [snd] in Hl.
  assert (Hp' : has_plain (Py.slice_to cur (-1) +:+ "," +:+ a))
    by (apply has_plain_snoc; discriminate).
  destruct config as [|x r].
  - (* nothing is left: the item ends in the comma just added *)
    destruct Hs as (E & _). destruct a; [|discriminate]. destruct b; [|discriminate].
    destruct c; [|discriminate].
    destruct fuel as [|fuel]; [cbn in *; lia|]. cbn [Session.take_escaped].
    replace (Py.slice_to cur (-1) +:+ "," +:+ "")
      with ((Py.slice_to cur (-1) +:+ ",") +:+ backslashes 0)
      by now rewrite append_nil_r.
    rewrite comma_escaped_parity by discriminate. cbn [Nat.odd Nat.even negb].
    eexists _, _. split; [reflexivity|]. cbn. lia.
  - specialize (Hl ltac:(discriminate)).
    destruct (IH (String.length c) ltac:(lia) c _ fuel eq_refl Hp' ltac:(lia))
      as (cur' & config' & -> & Hle).
    exists cur', config'. split; [reflexivity|lia].
Qed.

Lemma read_config_ends (config : string) (self : Session.t) (fuel : nat) :
  (String.length config < fuel)%nat ->
  exists self', Session.read_config fuel config self = Value self'.
Proof.
  remember (String.length config) as len eqn:Hlen.
  revert config self fuel Hlen.
  induction len as [len IH] using lt_wf_ind. intros config self fuel Hlen Hf.
  destruct fuel as [|fuel]; [lia|]. cbn [Session.read_config].
  destruct (String.eqb_spec config "") as [->|Hne]; [eauto|].
  pose proof (partition_length "," config Hne) as Hl.
  destruct (partition "," config) as [[cur sep] rest]. cbn [snd] in Hl.
  destruct (Py.startswith cur "cmdlineappend:") eqn:Hc.
  - destruct (take_escaped_ends rest cur (String.length rest + 2)
                (has_plain_prefix cur Hc) ltac:(lia)) as (cur' & rest' & -> & Hle).
    apply (IH (String.length rest')); lia.
  - apply (IH (String.length rest)); lia.
Qed.

(** X3.  [Session.__init__] returns for every environment: neither of its
    loops over [STEAM_COMPAT_CONFIG] runs on, and [comma_escaped] is only
    asked about strings on which it does not fail. *)
Theorem session_init_returns (environ : gmap string string) :
  exists self, Session.init environ = Value self.
Proof.
  unfold Session.init. cbv zeta.
  destruct (environ !! "STEAM_COMPAT_CONFIG") as [config|]; [|eauto].
  destruct (read_config_ends config
              (Session.Make None environ
                 (<["dotnetfx35.exe" := "b"]> (<["steam.exe" := "b"]> ∅)) ∅ [])
              (S (String.length config)) ltac:(lia)) as (self' & ->).
  eauto.
Qed.

(** ** The flags of the configuration string *)

Lemma split_partition (sep : ascii) (s : string) :
  Py.split sep s
  = let '(a, b, c) := partition sep s in
    match b with
    | EmptyString => [a]
    | _ => a :: Py.split sep c
    end.
Proof.
  induction s as [|x r IH]; [reflexivity|].
  cbn [Py.split partition]. destruct (Ascii.eqb x sep); [reflexivity|].
  rewrite IH. destruct (partition sep r) as [[a b] c]. now destruct b.
Qed.

Lemma split_not_nil (sep : ascii) (s : string) : Py.split sep s <> [].
Proof.
  destruct s as [|x r]; [discriminate|]. cbn [Py.split].
  destruct (Ascii.eqb x sep); [discriminate|]. now destruct (Py.split sep r).
Qed.

Lemma listed_step (config a b c : string) :
  config <> "" -> partition "," config = (a, b, c) ->
  listed config = a :: listed c /\ (b = "" -> Py.split "," config = [a])
  /\ (b <> "" -> Py.split "," config = a :: Py.split "," c).
Proof.
  intros Hne Hp. pose proof (partition_spec "," config) as Hs.
  pose proof (split_partition "," config) as Hsp. rewrite Hp in Hs, Hsp.
  destruct Hs as (E & _ & [->|[-> ->]]).
  - repeat split; [|discriminate|intros _; exact Hsp].
    unfold listed. rewrite Hsp. cbv zeta.
    pose proof (split_not_nil "," c) as Hn.
    destruct (Py.split "," c) as [|y l] eqn:El; [congruence|].
    change (List.last (a :: y :: l) "") with (List.last (y :: l) "").
    change (removelast (a :: y :: l)) with (a :: removelast (y :: l)).
    now destruct (String.eqb (List.last (y :: l) "") "").
  - repeat split; [|intros _; exact Hsp|congruence].
    unfold listed. rewrite Hsp. cbv zeta. cbn [List.last].
    rewrite append_nil_r in E. subst a.
    destruct (String.eqb_spec config "") as [|_]; [congruence|]. reflexivity.
Qed.

Lemma read_config_flags (config : string) (self : Session.t) (fuel : nat) :
  (String.length config < fuel)%nat ->
  Forall (fun f => Py.startswith f "cmdlineappend:" = false) (Py.split "," config) ->
  Session.read_config fuel config self
  = Value (Session.set_compat_config
             (list_to_set (listed config) ∪ Session.compat_config self) self).
Proof.
  remember (String.length config) as len eqn:Hlen.
  revert config self fuel Hlen.
  induction len as [len IH] using lt_wf_ind. intros config self fuel Hlen Hf Hall.
  destruct fuel as [|fuel]; [lia|]. cbn [Session.read_config].
  destruct (String.eqb_spec config "") as [->|Hne].
  { destruct self. unfold Session.set_compat_config. cbn. f_equal. f_equal.
    now rewrite (left_id_L ∅ (∪)). }
  pose proof (partition_length "," config Hne) as Hl.
  destruct (partition "," config) as [[cur sep] rest] eqn:Hp. cbn [snd] in Hl.
  destruct (listed_step config cur sep rest Hne Hp) as (El & E1 & E2).
  assert (Hcur : Py.startswith cur "cmdlineappend:" = false
                 /\ Forall (fun f => Py.startswith f "cmdlineappend:" = false)
                      (Py.split "," rest)).
  { destruct sep as [|x sep].
    - rewrite (E1 eq_refl) in Hall. apply Forall_cons in Hall as [H _].
      pose proof (partition_spec "," config) as Hs. rewrite Hp in Hs.
      destruct Hs as (_ & _ & [?|[_ ->]]); [discriminate|].
      split; [exact H|]. now repeat constructor.
    - rewrite (E2 ltac:(discriminate)) in Hall. now apply Forall_cons in Hall. }
  destruct Hcur as [-> Hrest].
  rewrite (IH (String.length rest) ltac:(lia) rest _ fuel eq_refl ltac:(lia) Hrest).
  rewrite El. destruct self. unfold Session.set_compat_config.
  cbn [Session.compat_config Session.log_file Session.env Session.dlloverrides
       Session.cmdlineappend]. f_equal. f_equal.
  rewrite list_to_set_cons.
  now rewrite (assoc_L (∪) (list_to_set (listed rest))),
    (comm_L (∪) (list_to_set (listed rest)) {[cur]}).
Qed.

(** X4.  When no field of [STEAM_COMPAT_CONFIG] starts with
    [cmdlineappend:], [Session.__init__] makes the comma-separated fields
    the compatibility flags, empty fields included but for an empty last
    one, and adds [forcelgadd] unless [noforcelgadd] is among them; no
    argument is appended to the command line and the environment is the
    process's. *)
Theorem session_init_flags (environ : gmap string string) (config : string) :
  environ !! "STEAM_COMPAT_CONFIG" = Some config ->
  Forall (fun f => Py.startswith f "cmdlineappend:" = false) (Py.split "," config) ->
  exists self,
    Session.init environ = Value self
    /\ Session.compat_config self
       = list_to_set (listed config)
         ∪ (if bool_decide ("noforcelgadd" ∈ listed config) then ∅ else {["forcelgadd"]})
    /\ Session.cmdlineappend self = []
    /\ Session.env self = environ.
Proof.
  intros He Hall. unfold Session.init. cbv zeta. rewrite He.
  rewrite read_config_flags by (auto; lia). cbn [Session.compat_config Session.set_compat_config].
  rewrite (right_id_L ∅ (∪)).
  rewrite (bool_decide_ext _ ("noforcelgadd" ∈ listed config))
    by apply elem_of_list_to_set.
  destruct (bool_decide ("noforcelgadd" ∈ listed config)).
  - eexists. split; [reflexivity|]. split; [|split; reflexivity]. cbn.
    now rewrite (right_id_L ∅ (∪)).
  - eexists. split; [reflexivity|]. split; [|split; reflexivity]. cbn.
    apply (comm_L (∪)).
Qed.

Lemma session_init_flags_witness :
  let environ : gmap string string :=
    {[ "STEAM_COMPAT_CONFIG" := "noesync,,wined3d," ]} in
  (environ !! "STEAM_COMPAT_CONFIG" = Some "noesync,,wined3d,"
   /\ Forall (fun f => Py.startswith f "cmdlineappend:" = false)
        (Py.split "," "noesync,,wined3d,"))
  /\ exists self,
       Session.init environ = Value self
       /\ Session.compat_config self
          = list_to_set (listed "noesync,,wined3d,")
            ∪ (if bool_decide ("noforcelgadd" ∈ listed "noesync,,wined3d,")
               then ∅ else {["forcelgadd"]})
       /\ Session.cmdlineappend self = []
       /\ Session.env self = environ.
Proof.
  intros environ.
  assert (H1 : environ !! "STEAM_COMPAT_CONFIG" = Some "noesync,,wined3d,")
    by reflexivity.
  assert (H2 : Forall (fun f => Py.startswith f "cmdlineappend:" = false)
                 (Py.split "," "noesync,,wined3d,"))
    by (vm_compute; repeat constructor).
  split; [auto|]. exact (session_init_flags environ _ H1 H2).
Defined.

(** ** Arguments for the command line *)

Lemma contains_char_cons (sep c : ascii) (r : string) :
  Py.contains (String sep EmptyString) (String c r)
  = Ascii.eqb sep c || Py.contains (String sep EmptyString) r.
Proof. cbn [Py.contains]. now rewrite prefix_cons, prefix_nil, andb_true_r. Qed.

Lemma partition_app (sep : ascii) (u v : string) :
  Py.contains (String sep EmptyString) u = false ->
  partition sep (u +:+ String sep v) = (u, String sep EmptyString, v).
Proof.
  induction u as [|c u IH]; intros H.
  - rewrite append_nil_l. cbn [partition]. now rewrite Ascii.eqb_refl.
  - rewrite contains_char_cons in H. apply orb_false_elim in H as [Hc Hu].
    rewrite append_cons. cbn [partition]. rewrite Ascii.eqb_sym, Hc.
    now rewrite (IH Hu).
Qed.

Lemma partition_plain (sep : ascii) (u : string) :
  Py.contains (String sep EmptyString) u = false ->
  partition sep u = (u, EmptyString, EmptyString).
Proof.
  induction u as [|c u IH]; intros H; [reflexivity|].
  rewrite contains_char_cons in H. apply orb_false_elim in H as [Hc Hu].
  cbn [partition]. rewrite Ascii.eqb_sym, Hc. now rewrite (IH Hu).
Qed.

Lemma doubled_app (a b : string) : doubled (a +:+ b) = doubled a +:+ doubled b.
Proof.
  induction a as [|c a IH]; [reflexivity|].
  rewrite append_cons. cbn [doubled]. destruct (Ascii.eqb c backslash);
    rewrite IH; reflexivity.
Qed.

Lemma doubled_no_comma (s : string) :
  Py.contains "," s = false -> Py.contains "," (doubled s) = false.
Proof.
  induction s as [|c s IH]; intros H; [reflexivity|].
  rewrite contains_char_cons in H. apply orb_false_elim in H as [Hc Hs].
  cbn [doubled]. destruct (Ascii.eqb c backslash); rewrite ?contains_char_cons, ?Hc;
    cbn [orb]; auto.
Qed.

Lemma no_comma_snoc (s : string) (c : ascii) :
  Py.contains "," s = false -> Ascii.eqb "," c = false ->
  Py.contains "," (s +:+ String c EmptyString) = false.
Proof.
  intros Hs Hc. induction s as [|x s IH].
  - rewrite append_nil_l, contains_char_cons, Hc. reflexivity.
  - rewrite contains_char_cons in Hs. apply orb_false_elim in Hs as [Hx Hs].
    rewrite append_cons, contains_char_cons, Hx. cbn [orb]. auto.
Qed.

(** An argument, up to its first comma and after it *)
Lemma escape_arg_partition (x : string) :
  let '(s, b, x') := partition "," x in
  escape_arg x
  = doubled s +:+ match b with
                  | EmptyString => EmptyString
                  | _ => String backslash (String "," (escape_arg x'))
                  end.
Proof.
  induction x as [|c x IH]; [reflexivity|].
  cbn [partition escape_arg]. destruct (Ascii.eqb_spec c ",") as [->|Hc].
  - reflexivity.
  - destruct (partition "," x) as [[s b] x']. cbn [doubled].
    destruct (Ascii.eqb c backslash); rewrite IH; reflexivity.
Qed.

Lemma doubled_partition (x : string) :
  let '(s, b, x') := partition "," x in
  doubled x = doubled s +:+ b +:+ doubled x'.
Proof.
  pose proof (partition_spec "," x) as H. destruct (partition "," x) as [[s b] x'].
  destruct H as (E & _ & [->|[-> ->]]).
  - rewrite E at 1. now rewrite doubled_app.
  - rewrite E at 1. now rewrite !doubled_app.
Qed.

Lemma slice_to_snoc (u : string) (c : ascii) :
  Py.slice_to (u +:+ String c EmptyString) (-1) = u.
Proof.
  unfold Py.slice_to, Py.len. rewrite length_append. cbn [String.length Z.ltb Z.compare].
  replace (Z.to_nat (Z.of_nat (String.length u + 1) + -1)) with (String.length u) by lia.
  induction u as [|x u IH]; [reflexivity|]. rewrite append_cons. cbn. now rewrite IH.
Qed.

Lemma replace_fuel_doubled (x : string) (fuel : nat) :
  (String.length (doubled x) <= fuel)%nat ->
  Py.replace_fuel fuel (String backslash (String backslash EmptyString))
    (String backslash EmptyString) (doubled x) = x.
Proof.
  revert fuel. induction x as [|c x IH]; intros fuel Hf.
  - destruct fuel; reflexivity.
  - cbn [doubled] in *. destruct (Ascii.eqb_spec c backslash) as [->|Hc].
    + cbn [String.length] in Hf. destruct fuel as [|fuel]; [lia|].
      cbn [Py.replace_fuel]. rewrite !prefix_cons, prefix_nil, !Ascii.eqb_refl.
      cbn [andb String.length Py.drop Nat.sub].
      rewrite IH by lia. reflexivity.
    + cbn [String.length] in Hf. destruct fuel as [|fuel]; [lia|].
      cbn [Py.replace_fuel]. rewrite prefix_cons.
      destruct (Ascii.eqb_spec backslash c) as [E|_]; [congruence|].
      cbn [andb]. rewrite IH by lia. reflexivity.
Qed.

Lemma replace_doubled (x : string) :
  Py.replace (doubled x) (String backslash (String backslash EmptyString))
    (String backslash EmptyString) = x.
Proof. unfold Py.replace. now apply replace_fuel_doubled. Qed.

Lemma doubled_backslashes (n : nat) : doubled (backslashes n) = backslashes (n + n).
Proof.
  induction n as [|n IH]; [reflexivity|].
  cbn [backslashes doubled]. rewrite Ascii.eqb_refl, IH.
  replace (S n + S n)%nat with (S (S (n + n))) by lia. reflexivity.
Qed.

Lemma doubled_plain (c : ascii) :
  c <> backslash -> doubled (String c EmptyString) = String c EmptyString.
Proof.
  intros Hc. cbn [doubled]. now destruct (Ascii.eqb_spec c backslash).
Qed.

(** After a character that is no backslash and a string whose backslashes
    are doubled, the run of backslashes at the end is even; one more makes
    it odd. *)
Lemma comma_escaped_doubled (A s : string) (c : ascii) :
  c <> backslash ->
  comma_escaped ((A +:+ String c EmptyString) +:+ doubled s) = Value false
  /\ comma_escaped (((A +:+ String c EmptyString) +:+ doubled s)
                    +:+ String backslash EmptyString) = Value true.
Proof.
  intros Hc.
  assert (H : exists u c' n, c' <> backslash
              /\ (A +:+ String c EmptyString) +:+ doubled s
                 = (u +:+ String c' EmptyString) +:+ backslashes (n + n)).
  { destruct (trailing_split s) as [(n & ->)|(u & c' & n & Hc' & ->)].
    - exists A, c, n. now rewrite doubled_backslashes.
    - exists ((A +:+ String c EmptyString) +:+ doubled u), c', n. split; [exact Hc'|].
      rewrite !doubled_app, doubled_backslashes, (doubled_plain c' Hc').
      now rewrite !append_assoc. }
  destruct H as (u & c' & n & Hc' & ->). split.
  - rewrite comma_escaped_parity by exact Hc'.
    f_equal. rewrite <- Nat.negb_even. replace (n + n)%nat with (2 * n)%nat by lia.
    now rewrite Nat.even_mul.
  - rewrite append_assoc, <- backslashes_snoc.
    rewrite comma_escaped_parity by exact Hc'.
    f_equal. rewrite Nat.odd_succ. replace (n + n)%nat with (2 * n)%nat by lia.
    now rewrite Nat.even_mul.
Qed.

Lemma take_escaped_arg (x A : string) (c : ascii) (tl aft : string) (fuel : nat) :
  c <> backslash ->
  (tl = "" /\ aft = "") \/ tl = String "," aft ->
  let '(s, b, x') := partition "," x in
  let cur :=
    ((A +:+ String c EmptyString) +:+ doubled s)
    +:+ match b with EmptyString => EmptyString | _ => String backslash EmptyString end in
  let config := match b with EmptyString => aft | _ => escape_arg x' +:+ tl end in
  (match b with EmptyString => 1 | _ => String.length config + 2 end <= fuel)%nat ->
  Session.take_escaped fuel cur config
  = Value ((A +:+ String c EmptyString) +:+ doubled x, aft).
Proof.
  remember (String.length x) as len eqn:Hlen.
  revert x A c fuel Hlen.
  induction len as [len IH] using lt_wf_ind. intros x A c fuel Hlen Hc Htl.
  pose proof (partition_spec "," x) as Hs.
  pose proof (doubled_partition x) as Hd.
  destruct (partition "," x) as [[s b] x'] eqn:Hp. cbv zeta.
  destruct Hs as (Ex & Hns & Hb).
  destruct (comma_escaped_doubled A s c Hc) as [Heven Hodd].
  destruct Hb as [->|[-> ->]].
  - (* a comma of the argument follows *)
    intros Hf. destruct fuel as [|fuel]; [lia|].
    cbn [Session.take_escaped]. rewrite Hodd.
    assert (Hlx : (String.length x' < len)%nat).
    { rewrite Hlen, Ex, !length_append. cbn. lia. }
    pose proof (IH (String.length x') Hlx x'
                  ((A +:+ String c EmptyString) +:+ doubled s) ","%char fuel eq_refl
                  ltac:(discriminate) Htl) as IH'.
    pose proof (escape_arg_partition x') as He.
    pose proof (partition_spec "," x') as Hs'.
    destruct (partition "," x') as [[s' b'] x''] eqn:Hp'. cbv zeta in IH'.
    destruct Hs' as (Ex' & Hns' & Hb').
    rewrite slice_to_snoc.
    assert (Hres : (((A +:+ String c EmptyString) +:+ doubled s) +:+ ",") +:+ doubled x'
                   = (A +:+ String c EmptyString) +:+ doubled x).
    { rewrite Hd. now rewrite !append_assoc. }
    destruct Hb' as [->|[-> ->]].
    + rewrite He in Hf |- *.
      replace ((doubled s' +:+ String backslash (String "," (escape_arg x''))) +:+ tl)
        with ((doubled s' +:+ String backslash EmptyString)
              +:+ String "," (escape_arg x'' +:+ tl))
        by (now rewrite !append_assoc).
      rewrite partition_app
        by (apply no_comma_snoc; [now apply doubled_no_comma|reflexivity]).
      rewrite <- Hres, <- IH'.
      * f_equal. now rewrite !append_assoc.
      * rewrite !length_append in Hf. simpl String.length in Hf.
        rewrite length_append. lia.
    + rewrite He, append_nil_r in Hf |- *.
      destruct Htl as [[-> ->]| ->].
      * rewrite append_nil_r in Hf |- *.
        rewrite partition_plain by now apply doubled_no_comma.
        rewrite <- Hres, <- IH'; [|lia].
        f_equal. now rewrite !append_assoc, append_nil_r.
      * rewrite partition_app by now apply doubled_no_comma.
        rewrite <- Hres, <- IH'.
        -- f_equal. now rewrite !append_assoc, append_nil_r.
        -- lia.
  - (* the argument ends here *)
    intros Hf. destruct fuel as [|fuel]; [lia|].
    cbn [Session.take_escaped]. rewrite append_nil_r, Heven.
    rewrite Hd. now rewrite !append_nil_r.
Qed.

Lemma contains_char_app (sep : ascii) (a b : string) :
  Py.contains (String sep EmptyString) (a +:+ b)
  = Py.contains (String sep EmptyString) a || Py.contains (String sep EmptyString) b.
Proof.
  induction a as [|c a IH].
  - rewrite append_nil_l. cbn [Py.contains]. cbn. reflexivity.
  - rewrite append_cons, !contains_char_cons, IH. now rewrite orb_assoc.
Qed.

Lemma read_config_arg (x tl aft : string) (self : Session.t) (k : nat) :
  (tl = "" /\ aft = "") \/ tl = String "," aft ->
  Session.read_config (S k) (("cmdlineappend:" +:+ escape_arg x) +:+ tl) self
  = Session.read_config k aft
      (Session.set_cmdlineappend (Session.cmdlineappend self ++ [x]) self).
Proof.
  intros Htl. cbn [Session.read_config].
  replace (String.eqb (("cmdlineappend:" +:+ escape_arg x) +:+ tl) "") with false
    by reflexivity.
  pose proof (escape_arg_partition x) as He.
  pose proof (partition_spec "," x) as Hs.
  pose proof (take_escaped_arg x "cmdlineappend" ":"%char tl aft) as Ht.
  destruct (partition "," x) as [[s b] x'] eqn:Hp. cbv zeta in Ht.
  destruct Hs as (Ex & Hns & Hb).
  assert (Hpre : forall t, Py.contains "," t = false ->
                   Py.contains "," ("cmdlineappend:" +:+ t) = false).
  { intros t Hn. now rewrite contains_char_app, Hn. }
  assert (Hdone : forall cur rest,
            cur = "cmdlineappend:" +:+ doubled x -> rest = aft ->
            Session.read_config k rest
              (Session.set_cmdlineappend
                 (Session.cmdlineappend self
                  ++ [Py.replace (Py.drop 14 cur)
                        (String backslash (String backslash EmptyString))
                        (String backslash EmptyString)]) self)
            = Session.read_config k aft
                (Session.set_cmdlineappend (Session.cmdlineappend self ++ [x]) self)).
  { intros cur rest -> ->.
    change 14%nat with (String.length "cmdlineappend:").
    now rewrite drop_app, replace_doubled. }
  destruct Hb as [->|[-> ->]].
  - rewrite He.
    replace (("cmdlineappend:" +:+ doubled s +:+ String backslash (String "," (escape_arg x')))
             +:+ tl)
      with (("cmdlineappend:" +:+ doubled s +:+ String backslash EmptyString)
            +:+ String "," (escape_arg x' +:+ tl))
      by (now rewrite !append_assoc).
    rewrite partition_app.
    2:{ rewrite <- append_assoc. apply no_comma_snoc; [|reflexivity].
        apply Hpre. now apply doubled_no_comma. }
    rewrite <- append_assoc.
    replace (Py.startswith (("cmdlineappend:" +:+ doubled s) +:+ String backslash EmptyString)
               "cmdlineappend:") with true
      by (symmetry; unfold Py.startswith; rewrite append_assoc; apply prefix_app).
    change ("cmdlineappend:" +:+ doubled s)
      with (("cmdlineappend" +:+ String ":" EmptyString) +:+ doubled s).
    rewrite Ht by (discriminate || auto || lia).
    apply Hdone; reflexivity.
  - rewrite He, append_nil_r.
    replace (Py.startswith ("cmdlineappend:" +:+ doubled s) "cmdlineappend:") with true
      by (symmetry; apply prefix_app).
    assert (Hcur : Session.take_escaped (String.length aft + 2)
                     ("cmdlineappend:" +:+ doubled s) aft
                   = Value ("cmdlineappend:" +:+ doubled x, aft)).
    { rewrite <- (append_nil_r ("cmdlineappend:" +:+ doubled s)).
      change ("cmdlineappend:" +:+ doubled s)
        with (("cmdlineappend" +:+ String ":" EmptyString) +:+ doubled s).
      apply Ht; [discriminate|auto|lia]. }
    destruct Htl as [[-> ->]| ->].
    + rewrite append_nil_r, partition_plain by (apply Hpre; now apply doubled_no_comma).
      replace (Py.startswith ("cmdlineappend:" +:+ doubled s) "cmdlineappend:") with true
        by (symmetry; apply prefix_app).
      rewrite Hcur. now apply Hdone.
    + rewrite partition_app by (apply Hpre; now apply doubled_no_comma).
      replace (Py.startswith ("cmdlineappend:" +:+ doubled s) "cmdlineappend:") with true
        by (symmetry; apply prefix_app).
      rewrite Hcur. now apply Hdone.
Qed.

Lemma read_config_flag (f tl aft : string) (self : Session.t) (k : nat) :
  f <> "" -> Py.contains "," f = false -> Py.startswith f "cmdlineappend:" = false ->
  (tl = "" /\ aft = "") \/ tl = String "," aft ->
  Session.read_config (S k) (f +:+ tl) self
  = Session.read_config k aft
      (Session.set_compat_config ({[f]} ∪ Session.compat_config self) self).
Proof.
  intros Hne Hn Hs Htl. cbn [Session.read_config].
  destruct (String.eqb_spec (f +:+ tl) "") as [E|_].
  { destruct f; [congruence|discriminate]. }
  destruct Htl as [[-> ->]| ->].
  - rewrite append_nil_r, partition_plain, Hs by exact Hn. reflexivity.
  - rewrite partition_app, Hs by exact Hn. reflexivity.
Qed.

Lemma join_cons (sep x : string) (l : list string) :
  exists tl, Py.join sep (x :: l) = x +:+ tl
             /\ ((tl = "" /\ l = []) \/ (tl = sep +:+ Py.join sep l /\ l <> [])).
Proof.
  destruct l as [|y l].
  - exists "". cbn [Py.join]. rewrite append_nil_r. auto.
  - exists (sep +:+ Py.join sep (y :: l)). split; [reflexivity|]. right. now split.
Qed.

Lemma flags_cons (i : item) (l : list item) :
  flags (i :: l) = match i with Flag f => f :: flags l | Arg _ => flags l end.
Proof. now destruct i. Qed.

Lemma args_cons (i : item) (l : list item) :
  args (i :: l) = match i with Arg x => x :: args l | Flag _ => args l end.
Proof. now destruct i. Qed.

Lemma read_config_items (items : list item) (self : Session.t) (fuel : nat) :
  Forall plain_flag items ->
  (String.length (Py.join "," (written <$> items)) < fuel)%nat ->
  Session.read_config fuel (Py.join "," (written <$> items)) self
  = Value (Session.set_cmdlineappend (Session.cmdlineappend self ++ args items)
             (Session.set_compat_config
                (list_to_set (flags items) ∪ Session.compat_config self) self)).
Proof.
  revert self fuel. induction items as [|i l IH]; intros self fuel Hall Hf.
  - destruct fuel as [|fuel]; [lia|]. cbn. destruct self. unfold Session.set_cmdlineappend,
      Session.set_compat_config. cbn. f_equal. f_equal; [|now rewrite app_nil_r].
    now rewrite (left_id_L ∅ (∪)).
  - apply Forall_cons in Hall as [Hi Hl].
    rewrite fmap_cons in Hf |- *.
    destruct (join_cons "," (written i) (written <$> l)) as (tl & E & Htl).
    rewrite E in Hf |- *.
    assert (Htl' : (tl = "" /\ Py.join "," (written <$> l) = "")
                   \/ tl = String "," (Py.join "," (written <$> l))).
    { destruct Htl as [[-> Hnil]|[-> _]]; [left|right; reflexivity].
      split; [reflexivity|]. now rewrite Hnil. }
    assert (Hlen : (String.length (Py.join "," (written <$> l)) + 1
                    <= String.length (written i +:+ tl))%nat).
    { rewrite length_append.
      assert (1 <= String.length (written i))%nat.
      { destruct i as [f|x]; cbn [written].
        - destruct Hi as (Hne & _). destruct f; [congruence|cbn; lia].
        - rewrite length_append. cbn. lia. }
      destruct Htl' as [[-> ->]| ->]; cbn; lia. }
    destruct fuel as [|k]; [lia|].
    destruct i as [f|x]; cbn [written] in *.
    + destruct Hi as (Hne & Hn & Hs).
      rewrite (read_config_flag f tl _ self k Hne Hn Hs Htl').
      rewrite IH by (auto; lia).
      destruct self. unfold Session.set_cmdlineappend, Session.set_compat_config.
      cbn [Session.compat_config Session.log_file Session.env Session.dlloverrides
           Session.cmdlineappend]. rewrite flags_cons, args_cons. f_equal. f_equal.
      rewrite list_to_set_cons.
      now rewrite (assoc_L (∪) (list_to_set (flags l))),
        (comm_L (∪) (list_to_set (flags l)) {[f]}).
    + rewrite (read_config_arg x tl _ self k Htl').
      rewrite IH by (auto; lia).
      destruct self. unfold Session.set_cmdlineappend, Session.set_compat_config.
      cbn [Session.compat_config Session.log_file Session.env Session.dlloverrides
           Session.cmdlineappend]. rewrite flags_cons, args_cons. f_equal. f_equal.
      now rewrite <- app_assoc.
Qed.

(** X5.  What is written into [STEAM_COMPAT_CONFIG] is read back by
    [Session.__init__]: for flags and arguments joined by commas, each
    argument written as [cmdlineappend:] followed by the argument with its
    backslashes doubled and a backslash before each of its commas, the
    session gets the arguments in their order, whatever characters they
    hold, and the flags, [forcelgadd] added unless [noforcelgadd] is one
    of them. *)
Theorem session_init_reads_back (environ : gmap string string) (items : list item) :
  environ !! "STEAM_COMPAT_CONFIG" = Some (Py.join "," (written <$> items)) ->
  Forall plain_flag items ->
  exists self,
    Session.init environ = Value self
    /\ Session.cmdlineappend self = args items
    /\ Session.compat_config self
       = list_to_set (flags items)
         ∪ (if bool_decide ("noforcelgadd" ∈ flags items) then ∅ else {["forcelgadd"]}).
Proof.
  intros He Hall. unfold Session.init. cbv zeta. rewrite He.
  rewrite read_config_items by (auto; lia).
  cbn [Session.compat_config Session.set_compat_config Session.set_cmdlineappend
       Session.cmdlineappend].
  rewrite (right_id_L ∅ (∪)).
  rewrite (bool_decide_ext _ ("noforcelgadd" ∈ flags items))
    by apply elem_of_list_to_set.
  destruct (bool_decide ("noforcelgadd" ∈ flags items)).
  - eexists. split; [reflexivity|]. split; [reflexivity|]. cbn.
    now rewrite (right_id_L ∅ (∪)).
  - eexists. split; [reflexivity|]. split; [reflexivity|]. cbn.
    apply (comm_L (∪)).
Qed.

Lemma session_init_reads_back_witness :
  let items :=
    [ Flag "wined3d";
      Arg ("-path=C:" +:+ String backslash "games,old" +:+ String backslash EmptyString);
      Flag "noesync" ] in
  let environ : gmap string string :=
    {[ "STEAM_COMPAT_CONFIG" := Py.join "," (written <$> items) ]} in
  (environ !! "STEAM_COMPAT_CONFIG" = Some (Py.join "," (written <$> items))
   /\ Forall plain_flag items)
  /\ exists self,
       Session.init environ = Value self
       /\ Session.cmdlineappend self = args items
       /\ Session.compat_config self
          = list_to_set (flags items)
            ∪ (if bool_decide ("noforcelgadd" ∈ flags items) then ∅ else {["forcelgadd"]}).
Proof.
  intros items environ.
  assert (H1 : environ !! "STEAM_COMPAT_CONFIG" = Some (Py.join "," (written <$> items)))
    by reflexivity.
  assert (H2 : Forall plain_flag items).
  { repeat (apply List.Forall_cons;
            [cbn; try (split; [discriminate|split; reflexivity]); exact I|]).
    apply List.Forall_nil. }
  split; [auto|]. exact (session_init_reads_back environ items H1 H2).
Defined.

(** ** The environment of the session *)

Lemma nonzero_spec (s : string) : nonzero s = false <-> s = "" \/ s = "0".
Proof.
  unfold nonzero, Py.len. split.
  - intros H. apply andb_false_iff in H as [H|H].
    + left. destruct s; [reflexivity|]. cbn in H. discriminate.
    + right. apply negb_false_iff in H. now apply String.eqb_eq in H.
  - intros [->| ->]; reflexivity.
Qed.

(** X6.  [check_environment] answers whether the variable is set.  When
    it is not, the session is left as it was.  When it is, the flag is in
    the configuration afterwards exactly if the value is neither empty nor
    ["0"], whether or not the flag was there before, and no other flag and
    no variable changes. *)
Theorem check_environment_decides (self : Session.t) (env_name config_name : string) :
  match Session.env self !! env_name with
  | None => Session.check_environment self env_name config_name = (false, self)
  | Some v =>
      exists self',
        Session.check_environment self env_name config_name = (true, self')
        /\ (config_name ∈ Session.compat_config self' <-> v <> "" /\ v <> "0")
        /\ (forall f, f <> config_name ->
              (f ∈ Session.compat_config self' <-> f ∈ Session.compat_config self))
        /\ Session.env self' = Session.env self
        /\ Session.cmdlineappend self' = Session.cmdlineappend self
        /\ Session.dlloverrides self' = Session.dlloverrides self
  end.
Proof.
  unfold Session.check_environment.
  destruct (Session.env self !! env_name) as [v|]; [|reflexivity].
  eexists. split; [reflexivity|].
  pose proof (nonzero_spec v) as Hz. destruct (nonzero v).
  - cbn. split; [|split; [|repeat split]].
    + split; [|intros _; apply elem_of_union_l; now apply elem_of_singleton].
      intros _. split; intros E; [discriminate (proj2 Hz (or_introl E))
                                 |discriminate (proj2 Hz (or_intror E))].
    + intros f Hf. split; [|apply elem_of_union_r].
      intros Hin. apply elem_of_union in Hin as [Hin|Hin]; [|exact Hin].
      apply elem_of_singleton in Hin. congruence.
  - cbn. split; [|split; [|repeat split]].
    + split.
      * intros Hin. apply elem_of_difference in Hin as [_ Hin].
        exfalso. apply Hin. now apply elem_of_singleton.
      * intros [H1 H2]. destruct (proj1 Hz eq_refl); congruence.
    + intros f Hf. split.
      * intros Hin. now apply elem_of_difference in Hin as [Hin _].
      * intros Hin. apply elem_of_difference. split; [exact Hin|].
        intros E. apply elem_of_singleton in E. congruence.
Qed.

Ltac env_lookup :=
  repeat first
    [ rewrite lookup_insert_ne by (discriminate || congruence)
    | rewrite lookup_delete_ne by (discriminate || congruence)
    | rewrite lookup_insert_eq
    | rewrite lookup_delete_eq ].

(** X7.  [init_wine] changes no variable of the session other than the
    twelve it is written to set or unset, and nothing else of the
    session. *)
Theorem init_wine_keeps (environ : gmap string string) (g_proton : Proton.t)
    (g_compatdata : CompatData.t) (self : Session.t) (k : string) :
  k ∉ init_wine_variables ->
  let self' := Session.init_wine environ g_proton g_compatdata self in
  Session.env self' !! k = Session.env self !! k
  /\ Session.compat_config self' = Session.compat_config self
  /\ Session.cmdlineappend self' = Session.cmdlineappend self
  /\ Session.dlloverrides self' = Session.dlloverrides self
  /\ Session.log_file self' = Session.log_file self.
Proof.
  intros Hk. cbv zeta. split; [|repeat split].
  assert (Hne : Forall (fun v => v <> k) init_wine_variables).
  { apply Forall_forall. intros v Hv ->. contradiction. }
  unfold init_wine_variables in Hne.
  repeat match goal with
         | H : Forall _ (_ :: _) |- _ => apply Forall_cons in H as [? H]
         end.
  unfold Session.init_wine, prepend_to_env_str, ld_path_var. cbv zeta.
  cbn [Session.env Session.set_env].
  change ("ORIG_" +:+ "LD_LIBRARY_PATH") with "ORIG_LD_LIBRARY_PATH".
  repeat match goal with
         | |- context [match ?x with _ => _ end] =>
             match x with
             | _ !! _ => destruct x
             | _ <? _ => destruct x
             end
         end; env_lookup; reflexivity.
Qed.

Lemma init_wine_keeps_witness :
  let self := Session.Make None {[ "HOME" := "/home/u" ]} ∅ ∅ [] in
  ("HOME" ∉ init_wine_variables)
  /\ (let self' := Session.init_wine ∅ (Proton.init "/proton") (CompatData.init "/compat")
                     self in
      Session.env self' !! "HOME" = Session.env self !! "HOME"
      /\ Session.compat_config self' = Session.compat_config self
      /\ Session.cmdlineappend self' = Session.cmdlineappend self
      /\ Session.dlloverrides self' = Session.dlloverrides self
      /\ Session.log_file self' = Session.log_file self).
Proof.
  intros self.
  assert (H : "HOME" ∉ init_wine_variables).
  { unfold init_wine_variables. intros H.
    repeat (apply elem_of_cons in H as [H|H]; [discriminate|]).
    now apply elem_of_nil in H. }
  split; [exact H|].
  exact (init_wine_keeps ∅ (Proton.init "/proton") (CompatData.init "/compat") self
           "HOME" H).
Defined.

Lemma lookup_prepend_ne (env : gmap string string) (v p sep k : string) :
  k <> v -> prepend_to_env_str env v p sep !! k = env !! k.
Proof.
  intros H. unfold prepend_to_env_str.
  destruct (env !! v); apply lookup_insert_ne; congruence.
Qed.

Lemma lookup_prepend (env : gmap string string) (v p sep : string) :
  prepend_to_env_str env v p sep !! v
  = Some match env !! v with
         | Some old => p +:+ sep +:+ old
         | None => p
         end.
Proof. unfold prepend_to_env_str. destruct (env !! v); now rewrite lookup_insert_eq. Qed.

Lemma lookup_media_ne (o : option string) (env : gmap string string)
    (a b k : string) (f g : string -> string) :
  k <> a -> k <> b ->
  match o with
  | Some p => <[a := f p]> (<[b := g p]> env)
  | None => env
  end !! k = env !! k.
Proof.
  intros Ha Hb. destruct o; [|reflexivity].
  rewrite lookup_insert_ne by congruence. apply lookup_insert_ne. congruence.
Qed.

Lemma lookup_default_ne (o : option string) (env : gmap string string)
    (a x k : string) :
  k <> a ->
  match o with
  | None => <[a := x]> env
  | Some _ => env
  end !! k = env !! k.
Proof.
  intros Ha. destruct o; [reflexivity|]. apply lookup_insert_ne. congruence.
Qed.

Lemma lookup_lc_all_ne (o : option string) (env : gmap string string) (k : string) :
  k <> "LC_ALL" ->
  match o with
  | Some v => if 0 <? Py.len v then <["LC_ALL" := v]> env else delete "LC_ALL" env
  | None => delete "LC_ALL" env
  end !! k = env !! k.
Proof.
  intros Ha. destruct o as [v|]; [destruct (0 <? Py.len v)|];
    rewrite ?lookup_insert_ne, ?lookup_delete_ne by congruence; reflexivity.
Qed.

Ltac env_skip :=
  repeat first
    [ rewrite lookup_prepend_ne by discriminate
    | rewrite lookup_media_ne by discriminate
    | rewrite lookup_default_ne by discriminate
    | rewrite lookup_lc_all_ne by discriminate
    | rewrite lookup_insert_ne by discriminate
    | rewrite lookup_delete_ne by discriminate ].

(** X8.  What [init_wine] leaves in the variables it is about:
    [WINEARCH] is unset; [LC_ALL] is the value of [HOST_LC_ALL] when that
    is set and not empty, and unset otherwise; [PATH] and
    [LD_LIBRARY_PATH] are set and begin with Proton's directories, the old
    value following after a colon when there was one; and
    [ORIG_LD_LIBRARY_PATH], unless the process had it, is the
    [LD_LIBRARY_PATH] of the process, empty if it had none. *)
Theorem init_wine_sets (environ : gmap string string) (g_proton : Proton.t)
    (g_compatdata : CompatData.t) (self : Session.t) :
  let env := Session.env self in
  let env' := Session.env (Session.init_wine environ g_proton g_compatdata self) in
  env' !! "WINEARCH" = None
  /\ env' !! "LC_ALL"
     = match env !! "HOST_LC_ALL" with
       | Some v => if String.eqb v "" then None else Some v
       | None => None
       end
  /\ env' !! "PATH"
     = Some match env !! "PATH" with
            | Some old => Proton.bin_dir g_proton +:+ ":" +:+ old
            | None => Proton.bin_dir g_proton
            end
  /\ env' !! "LD_LIBRARY_PATH"
     = Some match env !! "LD_LIBRARY_PATH" with
            | Some old =>
                (Proton.lib64_dir g_proton +:+ ":" +:+ Proton.lib_dir g_proton)
                +:+ ":" +:+ old
            | None => Proton.lib64_dir g_proton +:+ ":" +:+ Proton.lib_dir g_proton
            end
  /\ env' !! "ORIG_LD_LIBRARY_PATH"
     = match environ !! "ORIG_LD_LIBRARY_PATH" with
       | Some _ => env !! "ORIG_LD_LIBRARY_PATH"
       | None => Some (default "" (environ !! "LD_LIBRARY_PATH"))
       end.
Proof.
  cbv zeta. unfold Session.init_wine, ld_path_var. cbv zeta.
  cbn [Session.env Session.set_env].
  change ("ORIG_" +:+ "LD_LIBRARY_PATH") with "ORIG_LD_LIBRARY_PATH".
  repeat split.
  - env_skip. apply lookup_delete_eq.
  - env_skip. destruct (Session.env self !! "HOST_LC_ALL") as [[|c v]|].
    + change (0 <? Py.len "") with false. cbv iota. apply lookup_delete_eq.
    + replace (0 <? Py.len (String c v)) with true by reflexivity.
      cbv iota. cbn [String.eqb]. apply lookup_insert_eq.
    + apply lookup_delete_eq.
  - rewrite lookup_prepend. env_skip. reflexivity.
  - env_skip. rewrite lookup_prepend. env_skip. reflexivity.
  - env_skip. destruct (environ !! "ORIG_LD_LIBRARY_PATH").
    + env_skip. reflexivity.
    + now rewrite lookup_insert_eq.
Qed.

(** X9.  [prepend_to_env_str] and [append_to_env_str] on one variable can
    be done in either order: the result is the same, with the old value,
    if there was one, between the two. *)
Theorem prepend_append_commute (env : gmap string string)
    (variable prepend_str append_str separator : string) :
  prepend_to_env_str (append_to_env_str env variable append_str separator)
    variable prepend_str separator
  = append_to_env_str (prepend_to_env_str env variable prepend_str separator)
      variable append_str separator
  /\ exists v,
       prepend_to_env_str (append_to_env_str env variable append_str separator)
         variable prepend_str separator !! variable = Some v
       /\ Py.startswith v prepend_str = true /\ Py.endswith v append_str = true.
Proof.
  unfold prepend_to_env_str, append_to_env_str.
  destruct (env !! variable) as [old|] eqn:E; rewrite !lookup_insert_eq, !insert_insert_eq.
  - split; [now rewrite !append_assoc|].
    eexists. split; [reflexivity|]. split; [apply prefix_app|].
    rewrite <- !append_assoc. apply endswith_app_self.
  - split; [reflexivity|].
    eexists. split; [reflexivity|]. split; [apply prefix_app|].
    rewrite <- !append_assoc. apply endswith_app_self.
Qed.

(** ** The log file *)

(** X10.  [setup_logging] needs [HOME]: the default of
    [env.get("PROTON_LOG_DIR", os.environ["HOME"])] is computed before the
    lookup, so without [HOME] the call raises [KeyError], whether or not
    [PROTON_LOG_DIR] is set, and nothing is touched. *)
Theorem setup_logging_needs_home (environ : gmap string string) (self : Session.t)
    (append_forever : bool) (w : world) :
  environ !! "HOME" = None ->
  Session.setup_logging environ self append_forever w = Raise KeyError w.
Proof.
  intros H. unfold Session.setup_logging. rewrite run_bind, H. reflexivity.
Qed.

Lemma setup_logging_needs_home_witness :
  let environ : gmap string string := {[ "SteamGameId" := "220" ]} in
  let self := Session.Make None {[ "PROTON_LOG_DIR" := "/logs" ]} ∅ ∅ [] in
  let w := Example.world_of (Dir [("logs", Dir [])]) in
  environ !! "HOME" = None
  /\ Session.env self !! "PROTON_LOG_DIR" = Some "/logs"
  /\ Session.setup_logging environ self false w = Raise KeyError w.
Proof.
  intros environ self w.
  assert (H : environ !! "HOME" = None) by reflexivity.
  split; [exact H|]. split; [reflexivity|].
  exact (setup_logging_needs_home environ self false w H).
Defined.

Lemma makedirs_absent (pf : path) (s : string) :
  is_prefix pf (parse s) = false -> preserves (absent pf) (makedirs s).
Proof.
  intros H. unfold makedirs. apply preserves_try_except.
  - now apply os_makedirs_absent.
  - intros e k Hk. destruct (is_OSError e); [|discriminate].
    injection Hk as <-. apply preserves_ret.
Qed.

Lemma log_name_valid (id : string) :
  Py.contains "/" id = false -> valid_name ("steam-" +:+ id +:+ ".log") = true.
Proof.
  intros H. unfold valid_name.
  assert (Hc : Py.contains "/" ("steam-" +:+ id +:+ ".log") = false).
  { change "/" with (String "/"%char EmptyString) in *.
    now rewrite !contains_char_app, H. }
  rewrite Hc. reflexivity.
Qed.

Lemma parse_log_file (basedir id : string) :
  Py.contains "/" id = false ->
  parse (basedir +:+ "/steam-" +:+ id +:+ ".log")
  = parse basedir ++ ["steam-" +:+ id +:+ ".log"].
Proof.
  intros H. pose proof (log_name_valid id H) as Hv.
  change (basedir +:+ "/steam-" +:+ id +:+ ".log")
    with (basedir +:+ "/" +:+ ("steam-" +:+ id +:+ ".log")).
  rewrite <- parse_path_join_slash by (now apply valid_name_spec in Hv).
  now apply parse_path_join.
Qed.

(** X11.  A log of one's own: when [setup_logging] is called without
    [append_forever] and returns, it has answered [True], the log file
    [steam-<SteamGameId>.log] of the log directory is a regular file
    without a byte in it, whatever was there before, and the session holds
    it open.  (The game's identifier has no slash, and the place is not
    held by a symbolic link that leads nowhere.) *)
Theorem setup_logging_fresh_log (environ : gmap string string) (self self' : Session.t)
    (home id : string) (b : bool) (w w' : world) :
  environ !! "HOME" = Some home ->
  environ !! "SteamGameId" = Some id ->
  Py.contains "/" id = false ->
  let lfile_path :=
    default home (Session.env self !! "PROTON_LOG_DIR") +:+ "/steam-" +:+ id +:+ ".log" in
  (forall t, lstat (fs w) lfile_path = Some (Link t) -> stat (fs w) lfile_path <> None) ->
  Session.setup_logging environ self false w = Ret (b, self') w' ->
  b = true
  /\ contents (fs w') lfile_path = Some ""
  /\ Session.log_file self' = Some (parse lfile_path)
  /\ Session.env self' = Session.env self
  /\ Session.compat_config self' = Session.compat_config self.
Proof.
  intros Hh Hid Hns lfile_path Hlink.
  set (basedir := default home (Session.env self !! "PROTON_LOG_DIR")) in *.
  assert (Hp : parse lfile_path = parse basedir ++ ["steam-" +:+ id +:+ ".log"])
    by now apply parse_log_file.
  assert (Hne : parse lfile_path <> []).
  { rewrite Hp. now destruct (parse basedir). }
  unfold Session.setup_logging. rewrite run_bind, Hh, run_ret. cbv beta iota.
  fold basedir. rewrite Hid. fold lfile_path.
  rewrite run_bind.
  (* what was there is removed *)
  assert (H1 : match (ex <- os.path_exists lfile_path ;;
                      when ex (os.remove lfile_path) ;;;
                      ret (Some lfile_path)) w with
               | Ret r w1 => r = Some lfile_path /\ absent (parse lfile_path) w1
               | Raise _ _ => True
               end).
  { rewrite run_bind, run_exists. cbv beta iota.
    destruct (lstat (fs w) lfile_path) as [n|] eqn:El.
    - assert (Hs : stat (fs w) lfile_path <> None).
      { destruct n as [d m t|t|es].
        + unfold stat. now rewrite (resolve_file _ _ _ _ _ El).
        + now apply (Hlink t).
        + unfold stat. now rewrite (resolve_dir _ _ _ El). }
      destruct (stat (fs w) lfile_path); [|congruence]. cbn [when].
      rewrite run_bind.
      destruct (os.remove lfile_path w) as [[] w1|e w1] eqn:Er; [|exact I].
      rewrite run_ret. split; [reflexivity|]. now apply (remove_absent lfile_path w).
    - rewrite (run_stat_absent _ _ El). cbn [when].
      rewrite run_bind, !run_ret. split; [reflexivity|exact El]. }
  match type of H1 with
  | match ?o with _ => _ end => destruct o as [r w1|e w1]; [|discriminate]
  end.
  destruct H1 as [-> Ha1]. cbv beta iota.
  (* the directory of the log *)
  rewrite run_bind.
  pose proof (makedirs_absent (parse lfile_path) basedir
                ltac:(rewrite Hp; apply is_prefix_snoc) w1 Ha1) as Ha2.
  destruct (makedirs basedir w1) as [[] w2|e w2]; [|discriminate].
  cbn [final] in Ha2. cbv beta iota.
  (* the file is opened *)
  rewrite run_bind. pose proof (open_write_cases false lfile_path w2) as Ho.
  pose proof (resolve_absent _ _ Ha2) as Hr.
  destruct (open_write false lfile_path w2) as [p w3|e w3] eqn:Eo; [|discriminate].
  rewrite run_ret. intros [= <- <- <-].
  inversion Ho as [|p' d m t Hr' Heq|p' Hr' Hb [Heq Hw]]; [congruence|].
  assert (p' = parse lfile_path) by congruence. subst p' p.
  repeat split.
  unfold contents, lstat. cbn [final emit fs set_trace set_fs apply_event].
  unfold put. rewrite find_upd_eq by auto. reflexivity.
Qed.

Lemma setup_logging_fresh_log_witness :
  let environ : gmap string string :=
    {[ "HOME" := "/home/u"; "SteamGameId" := "220" ]} in
  let self := Session.Make None ∅ ∅ ∅ [] in
  let w :=
    Example.world_of
      (Dir [("home", Dir [("u", Dir [("steam-220.log", Example.plain "an old log")])])]) in
  let self' := Session.set_log_file (Some ["home"; "u"; "steam-220.log"]) self in
  let w' := final (Session.setup_logging environ self false w) in
  let lfile_path := "/home/u/steam-220.log" in
  (environ !! "HOME" = Some "/home/u"
   /\ environ !! "SteamGameId" = Some "220"
   /\ Py.contains "/" "220" = false
   /\ (forall t, lstat (fs w) lfile_path = Some (Link t) -> stat (fs w) lfile_path <> None)
   /\ Session.setup_logging environ self false w = Ret (true, self') w')
  /\ contents (fs w) lfile_path = Some "an old log"
  /\ true = true
  /\ contents (fs w') lfile_path = Some ""
  /\ Session.log_file self' = Some (parse lfile_path)
  /\ Session.env self' = Session.env self
  /\ Session.compat_config self' = Session.compat_config self.
Proof.
  intros environ self w self' w' lfile_path.
  assert (H1 : environ !! "HOME" = Some "/home/u") by reflexivity.
  assert (H2 : environ !! "SteamGameId" = Some "220") by reflexivity.
  assert (H3 : Py.contains "/" "220" = false) by reflexivity.
  assert (H4 : forall t, lstat (fs w) lfile_path = Some (Link t) ->
                         stat (fs w) lfile_path <> None)
    by (intros t H; vm_compute in H; discriminate).
  assert (H5 : Session.setup_logging environ self false w = Ret (true, self') w')
    by (vm_compute; reflexivity).
  split; [auto 6|]. split; [reflexivity|].
  exact (setup_logging_fresh_log environ self self' "/home/u" "220" true w w'
           H1 H2 H3 H4 H5).
Defined.

(** ** The legacy [dist] directory *)

Lemma leaf_pred_eq (y : node) : is_leaf y = true -> leaf_pred (eq y).
Proof. now intros H z <-. Qed.

(** X12.  When the installation still has its legacy directory [dist] and
    [cleanup_legacy_dist] returns, the directory is gone with all that was
    in it, the lock file [dist.lock] is an empty regular file, and every
    file and link outside of [dist], the lock apart, is as it was.  (The
    lock is not a symbolic link.) *)
Theorem cleanup_legacy_dist_removes (base : string) (es : list (string * node))
    (w w' : world) :
  let self := Proton.init base in
  lstat (fs w) (Proton.path self "dist/") = Some (Dir es) ->
  (forall t, lstat (fs w) (Proton.path self "dist.lock") <> Some (Link t)) ->
  cleanup_legacy_dist self w = Ret tt w' ->
  lstat (fs w') (Proton.path self "dist/") = None
  /\ contents (fs w') (Proton.path self "dist.lock") = Some ""
  /\ forall q y,
       is_leaf y = true -> find q (fs w) = Some y ->
       is_prefix (parse (Proton.path self "dist/")) q = false ->
       q <> parse (Proton.path self "dist.lock") ->
       find q (fs w') = Some y.
Proof.
  intros self Hd Hl.
  destruct (compat_feed base) as (B & _ & HB).
  assert (Pd : parse (Proton.path self "dist/") = rev B ++ ["dist"]).
  { unfold parse. change (Proton.path self "dist/")
      with (CompatData.base_dir (CompatData.init base) +:+ "dist/").
    rewrite HB. reflexivity. }
  assert (Pl : parse (Proton.path self "dist.lock") = rev B ++ ["dist.lock"]).
  { unfold parse. change (Proton.path self "dist.lock")
      with (CompatData.base_dir (CompatData.init base) +:+ "dist.lock").
    rewrite HB. reflexivity. }
  set (dist := Proton.path self "dist/") in *.
  set (lock := Proton.path self "dist.lock") in *.
  unfold cleanup_legacy_dist. cbv zeta. fold dist lock.
  rewrite run_bind, run_exists. unfold stat at 1. rewrite (resolve_dir _ _ _ Hd).
  cbv beta iota. cbn [when]. unfold CompatData.with_lock. rewrite run_bind.
  (* the lock *)
  pose proof (open_write_cases true lock w) as Ho.
  assert (Hr : resolve (fs w) lock = Some (parse lock, lstat (fs w) lock)).
  { unfold resolve. now rewrite follow_not_link. }
  destruct (open_write true lock w) as [p w1|e w1] eqn:Eo; [|discriminate].
  cbv beta iota.
  assert (H1 : exists v, fs w1 = put (parse lock) v (fs w) /\ is_leaf v = true
                         /\ find (parse lock) (fs w1) = Some v /\ holds "" v).
  { inversion Ho as [|p' d m t Hr' [Hp Hw]|p' Hr' Hb [Hp Hw]].
    - rewrite Hr in Hr'. injection Hr' as <- Hf.
      exists (File "" m (clock w)). repeat split.
      + cbn [final emit fs set_trace set_fs apply_event]. unfold put.
        rewrite find_upd_eq; [reflexivity| |rewrite Pl; now destruct (rev B)].
        apply (find_blocked_none _ _ (File d m t)). now symmetry.
      + now exists m, (clock w).
    - rewrite Hr in Hr'. injection Hr' as <- Hf.
      exists (File "" default_mode (clock w)). repeat split.
      + cbn [final emit fs set_trace set_fs apply_event]. unfold put.
        rewrite find_upd_eq; [reflexivity|exact Hb|rewrite Pl; now destruct (rev B)].
      + now exists default_mode, (clock w). }
  destruct H1 as (v & Hfs1 & Hv & Hlock1 & Hholds).
  (* the directory is still there, and is removed *)
  assert (Hd1 : exists es', lstat (fs w1) dist = Some (Dir es')).
  { unfold lstat. rewrite Hfs1. apply (find_upd_dir _ _ _ _ es); [exact Hd|].
    rewrite Pl, Pd, is_prefix_app_head. reflexivity. }
  destruct Hd1 as (es' & Hd1).
  rewrite run_bind, run_exists. unfold stat at 1. rewrite (resolve_dir _ _ _ Hd1).
  cbv beta iota. cbn [when]. unfold shutil.rmtree.
  rewrite run_bind, run_get_fs. cbv beta iota. rewrite Hd1.
  intros [= <-]. cbn [final emit fs set_trace set_fs apply_event].
  assert (Hne : parse lock <> parse dist).
  { rewrite Pl, Pd. intros E. apply app_inv_head in E. discriminate. }
  split; [|split].
  - unfold lstat, del. rewrite find_upd_eq; [reflexivity| |rewrite Pd; now destruct (rev B)].
    now apply (find_blocked_none _ _ (Dir es')).
  - unfold contents, lstat, del.
    rewrite (find_upd_leaf _ _ _ _ v); auto.
    + destruct Hholds as (m & t & ->). reflexivity.
    + rewrite Pl, Pd, is_prefix_app_head. reflexivity.
  - intros q y Hy Hq Hpre Hql. unfold del.
    apply find_upd_leaf; auto. rewrite Hfs1. unfold put.
    assert (Hlq : is_prefix (parse lock) q = false).
    { destruct (is_prefix (parse lock) q) eqn:E; [|reflexivity].
      apply is_prefix_app in E as (r & ->). destruct r as [|c r].
      - rewrite app_nil_r in Hql. congruence.
      - exfalso. rewrite find_app in Hq.
        destruct (find (parse lock) (fs w)) as [[d m t|t|es0]|] eqn:El;
          try discriminate.
        specialize (Hr). clear -Ho Hr Eo El.
        inversion Ho as [|p' d m t Hr' [Hp Hw]|p' Hr' Hb [Hp Hw]];
          rewrite Hr in Hr'; unfold lstat in Hr'; rewrite El in Hr'; discriminate. }
    now apply find_upd_leaf.
Qed.

Lemma cleanup_legacy_dist_removes_witness :
  let self := Proton.init "/proton" in
  let es := [("bin", Dir [("wine", Example.plain "MZ")])] in
  let w :=
    Example.world_of
      (Dir [("proton", Dir [("dist", Dir es); ("version", Example.plain "6.20")])]) in
  let w' := final (cleanup_legacy_dist self w) in
  (lstat (fs w) (Proton.path self "dist/") = Some (Dir es)
   /\ (forall t, lstat (fs w) (Proton.path self "dist.lock") <> Some (Link t))
   /\ cleanup_legacy_dist self w = Ret tt w')
  /\ lstat (fs w') (Proton.path self "dist/") = None
  /\ contents (fs w') (Proton.path self "dist.lock") = Some ""
  /\ forall q y,
       is_leaf y = true -> find q (fs w) = Some y ->
       is_prefix (parse (Proton.path self "dist/")) q = false ->
       q <> parse (Proton.path self "dist.lock") ->
       find q (fs w') = Some y.
Proof.
  intros self es w w'.
  assert (H1 : lstat (fs w) (Proton.path self "dist/") = Some (Dir es))
    by (vm_compute; reflexivity).
  assert (H2 : forall t, lstat (fs w) (Proton.path self "dist.lock") <> Some (Link t))
    by (intros t; vm_compute; discriminate).
  assert (H3 : cleanup_legacy_dist self w = Ret tt w') by (vm_compute; reflexivity).
  split; [auto|]. exact (cleanup_legacy_dist_removes "/proton" es w w' H1 H2 H3).
Defined.

(** ** Copies *)

Lemma run_isdir_file (s : string) (w : world) d m t :
  lstat (fs w) s = Some (File d m t) -> os.path_isdir s w = Ret false w.
Proof.
  intros H. rewrite run_isdir. unfold stat. now rewrite (resolve_file _ _ _ _ _ H).
Qed.

Lemma run_remove_leaf (s : string) (w : world) (n : node) :
  lstat (fs w) s = Some n -> is_leaf n = true ->
  os.remove s w = emit (EDel (parse s)) w.
Proof.
  intros H Hn. unfold os.remove. rewrite run_bind, run_get_fs. cbv beta iota.
  rewrite H. now destruct n.
Qed.

Lemma fs_emit (e : event) (w : world) :
  fs (final (emit e w)) = apply_event e (fs w).
Proof. reflexivity. Qed.

(** What a copy comes to when the source is not there: the exception of
    [open(src)] *)
Lemma copyfile_missing (src dst : string) (follow_symlinks : bool) (w : world) :
  lstat (fs w) src = None ->
  shutil.copyfile src dst follow_symlinks w = Raise (path_error (parse src) (fs w)) w.
Proof.
  intros Hs. unfold shutil.copyfile.
  rewrite run_bind. unfold shutil.same_file. rewrite run_bind, run_get_fs.
  cbv beta iota. rewrite run_ret. cbv beta iota.
  rewrite (resolve_absent _ _ Hs). cbv beta iota.
  rewrite run_bind, run_islink, Hs. cbv beta iota. rewrite andb_false_r.
  rewrite run_bind. unfold open_read. rewrite run_bind, run_get_fs. cbv beta iota.
  rewrite (resolve_absent _ _ Hs). reflexivity.
Qed.

(** X13.  [try_copy] removes the destination before it looks at the
    source.  When the destination is a regular file and the source does not
    exist, the destination is gone afterwards, whatever the keyword
    arguments; and the call returns only if [optional] is set, having
    logged the error and changed nothing else. *)
Theorem try_copy_missing_source (src dst : string) (d : string) (m t : Z)
    (add_write_perm copy_metadata optional follow_symlinks : bool) (w : world) :
  lstat (fs w) src = None ->
  lstat (fs w) dst = Some (File d m t) ->
  parse dst <> [] ->
  let o := try_copy src dst add_write_perm copy_metadata optional follow_symlinks w in
  lstat (fs (final o)) dst = None
  /\ fs (final o) = del (parse dst) (fs w)
  /\ (returns o = true ->
      optional = true
      /\ stderr (final o) = stderr w ++ [PFX +:+ copy_error dst ENOENT +:+ Py.nl]).
Proof.
  intros Hs Hd Hne. cbv zeta. unfold try_copy. rewrite run_try_except.
  rewrite run_bind, (run_isdir_file _ _ _ _ _ Hd). cbv beta iota.
  rewrite run_bind, run_bind, run_lexists, Hd. cbv beta iota. cbn [when].
  rewrite run_bind, (run_remove_leaf _ _ _ Hd eq_refl).
  set (w1 := final (emit (EDel (parse dst)) w)).
  change (emit (EDel (parse dst)) w) with (Ret tt w1). cbv beta iota.
  rewrite run_ret. cbv beta iota.
  assert (Hfs : fs w1 = del (parse dst) (fs w)) by reflexivity.
  assert (Hs1 : lstat (fs w1) src = None).
  { unfold lstat. rewrite Hfs. apply find_upd_none; auto.
    - intros E. unfold lstat in Hs, Hd. rewrite E in Hd. congruence.
    - now intros o. }
  assert (Hd1 : lstat (fs w1) dst = None).
  { unfold lstat. rewrite Hfs. unfold del. rewrite find_upd_eq; auto.
    now apply (find_blocked_none _ _ (File d m t)). }
  assert (Hcopy : forall meta : bool,
            (if meta then shutil.copy2 src dst follow_symlinks
             else shutil.copy src dst follow_symlinks) w1
            = @Raise unit (path_error (parse src) (fs w1)) w1).
  { intros meta. destruct meta; unfold shutil.copy2, shutil.copy;
      rewrite run_bind; unfold shutil.copy_target;
      rewrite run_bind, (run_isdir_absent _ _ Hd1); cbv beta iota;
      rewrite run_ret; cbv beta iota;
      rewrite run_bind, (copyfile_missing _ _ _ _ Hs1); reflexivity. }
  rewrite run_bind, Hcopy. cbv beta iota.
  unfold path_error. destruct (blocked (parse src) (fs w1)) as [[|]|];
    cbv beta iota; try (destruct optional; cbv beta iota);
    rewrite ?run_log; cbn [final returns fs stderr set_stderr];
    repeat split; auto; try discriminate.
Qed.

Lemma try_copy_missing_source_witness :
  let w :=
    Example.world_of
      (Dir [("pfx", Dir [("game.dll", File "the game's own library" 420 7)])]) in
  let o := try_copy "/proton/lib/game.dll" "/pfx/game.dll" true false true true w in
  (lstat (fs w) "/proton/lib/game.dll" = None
   /\ lstat (fs w) "/pfx/game.dll" = Some (File "the game's own library" 420 7)
   /\ parse "/pfx/game.dll" <> [])
  /\ returns o = true
  /\ lstat (fs (final o)) "/pfx/game.dll" = None
  /\ fs (final o) = del (parse "/pfx/game.dll") (fs w)
  /\ (returns o = true ->
      true = true
      /\ stderr (final o)
         = stderr w ++ [PFX +:+ copy_error "/pfx/game.dll" ENOENT +:+ Py.nl]).
Proof.
  intros w o.
  assert (H1 : lstat (fs w) "/proton/lib/game.dll" = None) by reflexivity.
  assert (H2 : lstat (fs w) "/pfx/game.dll" = Some (File "the game's own library" 420 7))
    by reflexivity.
  assert (H3 : parse "/pfx/game.dll" <> []) by discriminate.
  split; [auto|]. split; [reflexivity|].
  exact (try_copy_missing_source "/proton/lib/game.dll" "/pfx/game.dll" _ 420 7
           true false true true w H1 H2 H3).
Defined.

Lemma find_prefix_some (p r : path) (n x : node) :
  find (p ++ r) n = Some x -> exists y, find p n = Some y.
Proof. rewrite find_app. destruct (find p n); [eauto|discriminate]. Qed.

Lemma absent_not_prefix (p q : path) (n x : node) :
  find p n = None -> find q n = Some x -> is_prefix p q = false.
Proof.
  intros Hp Hq. destruct (is_prefix p q) eqn:E; [|reflexivity].
  apply is_prefix_app in E as (r & ->).
  apply find_prefix_some in Hq as (y & Hy). congruence.
Qed.

(** [os.chmod] on a regular file *)
Lemma chmod_file (s : string) (mode : Z) (w : world) d m t :
  lstat (fs w) s = Some (File d m t) -> parse s <> [] ->
  exists w',
    os.chmod s mode w = Ret tt w'
    /\ lstat (fs w') s = Some (File d (Z.land mode 4095) t)
    /\ clock w' = clock w /\ stderr w' = stderr w
    /\ forall q y, q <> parse s -> find q (fs w) = Some y -> is_leaf y = true ->
                   find q (fs w') = Some y.
Proof.
  intros H Hne. unfold os.chmod. rewrite run_bind, run_get_fs. cbv beta iota.
  rewrite (resolve_file _ _ _ _ _ H).
  eexists. split; [reflexivity|].
  cbn [final emit fs set_trace set_fs apply_event clock stderr].
  repeat split.
  - unfold lstat. now apply (find_put_same _ _ (File d m t)).
  - intros q y Hq Hy Hl. apply (find_put_other _ _ _ (File d m t) y); auto.
Qed.

(** [shutil.copyfile] of a regular file to a place that is free *)
Lemma copyfile_new (src dst : string) (w : world) d m t :
  lstat (fs w) src = Some (File d m t) -> readable m = true ->
  Py.endswith src "/" = false -> Py.endswith dst "/" = false ->
  lstat (fs w) dst = None -> blocked (parse dst) (fs w) = None ->
  exists w',
    shutil.copyfile src dst true w = Ret tt w'
    /\ lstat (fs w') dst = Some (File d default_mode (clock w))
    /\ clock w' = clock w /\ stderr w' = stderr w
    /\ forall q y, find q (fs w) = Some y -> is_leaf y = true ->
                   find q (fs w') = Some y.
Proof.
  intros Hs Hr Hes Hed Hd Hb. unfold shutil.copyfile.
  rewrite run_bind. unfold shutil.same_file. rewrite run_bind, run_get_fs.
  cbv beta iota. rewrite run_ret. cbv beta iota.
  rewrite (resolve_absent _ _ Hd), (resolve_file _ _ _ _ _ Hs). cbv beta iota.
  rewrite run_bind, run_islink, Hs. cbv beta iota. cbn [negb andb].
  rewrite run_bind, (open_read_regular _ _ _ _ _ Hs Hes Hr). cbv beta iota.
  rewrite run_bind. unfold open_write. rewrite run_bind, run_get_fs. cbv beta iota.
  unfold get_clock at 1. rewrite run_bind. cbv beta iota.
  rewrite (resolve_absent _ _ Hd), Hed, Hb.
  assert (Hne : parse dst <> []).
  { intros E. unfold lstat in Hd. rewrite E in Hd. discriminate. }
  rewrite run_bind.
  set (w1 := final (emit (EPut (parse dst) (File "" default_mode (clock w))) w)).
  change (emit (EPut (parse dst) (File "" default_mode (clock w))) w) with (Ret tt w1).
  cbv beta iota. rewrite run_ret. cbv beta iota.
  assert (Hd1 : find (parse dst) (fs w1) = Some (File "" default_mode (clock w))).
  { unfold w1. rewrite fs_emit. cbn [apply_event]. unfold put. now rewrite find_upd_eq. }
  rewrite run_bind, run_get_fs. cbv beta iota.
  unfold get_clock at 1. rewrite run_bind. cbv beta iota. rewrite Hd1.
  eexists. split; [reflexivity|].
  cbn [final emit fs set_trace set_fs apply_event clock stderr].
  repeat split.
  - unfold lstat. now apply (find_put_same _ _ (File "" default_mode (clock w))).
  - intros q y Hq Hl.
    assert (Hq1 : find q (fs w1) = Some y).
    { unfold w1. rewrite fs_emit. cbn [apply_event]. unfold put.
      apply find_upd_leaf; auto. now apply (absent_not_prefix _ _ (fs w) y). }
    apply (find_put_other _ _ _ (File "" default_mode (clock w)) y); auto.
    intros <-. rewrite Hd1 in Hq1. injection Hq1 as <-.
    unfold lstat in Hd. congruence.
Qed.

Lemma mode_bits (m : Z) :
  Z.land (Z.lor (Z.lor (Z.lor 32768 (Z.land (Z.land (Z.lor 32768 m) 4095) 4095))
                   S_IWUSR) S_IWGRP) 4095
  = Z.lor (Z.land m 4095) 144.
Proof.
  unfold S_IWUSR, S_IWGRP.
  rewrite <- (Z.land_assoc _ 4095 4095). change (Z.land 4095 4095) with 4095.
  rewrite !Z.land_lor_distr_l.
  change (Z.land 32768 4095) with 0. change (Z.land 128 4095) with 128.
  change (Z.land 16 4095) with 16.
  rewrite <- (Z.land_assoc _ 4095 4095). change (Z.land 4095 4095) with 4095.
  rewrite !Z.lor_0_l, <- Z.lor_assoc. reflexivity.
Qed.

(** X14.  [try_copy] with its default arguments, from a readable regular
    file to a free place in a directory that exists: the call returns,
    the destination holds the bytes of the source, with the permission bits
    of the source and write permission for the user and the group added,
    and the time of the copy; nothing is logged and every other file and
    link is as it was. *)
Theorem try_copy_copies (src dst : string) (d : string) (m t : Z) (w : world) :
  lstat (fs w) src = Some (File d m t) -> readable m = true ->
  Py.endswith src "/" = false -> Py.endswith dst "/" = false ->
  lstat (fs w) dst = None -> blocked (parse dst) (fs w) = None ->
  exists w',
    try_copy_default src dst w = Ret tt w'
    /\ lstat (fs w') dst = Some (File d (Z.lor (Z.land m 4095) 144) (clock w))
    /\ stderr w' = stderr w
    /\ forall q y, find q (fs w) = Some y -> is_leaf y = true ->
                   find q (fs w') = Some y.
Proof.
  intros Hs Hr Hes Hed Hd Hb.
  unfold try_copy_default, try_copy. rewrite run_try_except.
  rewrite run_bind, (run_isdir_absent _ _ Hd). cbv beta iota.
  rewrite run_bind, run_bind, run_lexists, Hd. cbv beta iota. cbn [when].
  rewrite run_bind, !run_ret. cbv beta iota.
  rewrite run_bind. unfold shutil.copy. rewrite run_bind.
  unfold shutil.copy_target. rewrite run_bind, (run_isdir_absent _ _ Hd).
  cbv beta iota. rewrite run_ret. cbv beta iota.
  rewrite run_bind.
  destruct (copyfile_new src dst w d m t Hs Hr Hes Hed Hd Hb)
    as (w1 & -> & Hd1 & Hc1 & He1 & Hk1).
  cbv beta iota.
  assert (Hne : parse dst <> parse src).
  { intros E. unfold lstat in Hs, Hd. congruence. }
  assert (Hnil : parse dst <> []).
  { intros E. unfold lstat in Hd. rewrite E in Hd. discriminate. }
  assert (Hs1 : lstat (fs w1) src = Some (File d m t)) by now apply Hk1.
  unfold shutil.copymode.
  rewrite run_bind, run_islink, Hs1. cbv beta iota.
  rewrite run_bind, run_islink, Hd1. cbv beta iota. cbn [negb andb].
  rewrite run_bind. unfold os.stat_mode at 1. rewrite run_bind, run_get_fs.
  cbv beta iota. rewrite (resolve_file _ _ _ _ _ Hs1), run_ret. cbv beta iota.
  cbn [os.node_mode].
  destruct (chmod_file dst (Z.land (Z.lor 32768 m) 4095) w1 _ _ _ Hd1 Hnil)
    as (w2 & -> & Hd2 & Hc2 & He2 & Hk2).
  cbv beta iota. cbn [when].
  rewrite run_bind. unfold os.lstat_mode at 1. rewrite run_bind, run_get_fs.
  cbv beta iota. rewrite Hd2, run_ret. cbv beta iota. cbn [os.node_mode].
  destruct (chmod_file dst
              (Z.lor (Z.lor (Z.lor 32768 (Z.land (Z.land (Z.lor 32768 m) 4095) 4095))
                        S_IWUSR) S_IWGRP) w2 _ _ _ Hd2 Hnil)
    as (w3 & -> & Hd3 & Hc3 & He3 & Hk3).
  exists w3. split; [reflexivity|]. rewrite mode_bits in Hd3.
  split; [exact Hd3|]. split; [congruence|].
  intros q y Hq Hl.
  assert (Hqd : q <> parse dst).
  { intros ->. unfold lstat in Hd. congruence. }
  apply Hk3; auto.
Qed.

Lemma try_copy_copies_witness :
  let w :=
    Example.world_of
      (Dir [("proton", Dir [("d3d12.dll", File "MZ" 365 3)]); ("pfx", Dir [])]) in
  (lstat (fs w) "/proton/d3d12.dll" = Some (File "MZ" 365 3)
   /\ readable 365 = true
   /\ Py.endswith "/proton/d3d12.dll" "/" = false
   /\ Py.endswith "/pfx/d3d12.dll" "/" = false
   /\ lstat (fs w) "/pfx/d3d12.dll" = None
   /\ blocked (parse "/pfx/d3d12.dll") (fs w) = None)
  /\ exists w',
       try_copy_default "/proton/d3d12.dll" "/pfx/d3d12.dll" w = Ret tt w'
       /\ lstat (fs w') "/pfx/d3d12.dll"
          = Some (File "MZ" (Z.lor (Z.land 365 4095) 144) (clock w))
       /\ stderr w' = stderr w
       /\ forall q y, find q (fs w) = Some y -> is_leaf y = true ->
                      find q (fs w') = Some y.
Proof.
  intros w.
  assert (H1 : lstat (fs w) "/proton/d3d12.dll" = Some (File "MZ" 365 3)) by reflexivity.
  assert (H2 : readable 365 = true) by reflexivity.
  assert (H3 : Py.endswith "/proton/d3d12.dll" "/" = false) by reflexivity.
  assert (H4 : Py.endswith "/pfx/d3d12.dll" "/" = false) by reflexivity.
  assert (H5 : lstat (fs w) "/pfx/d3d12.dll" = None) by reflexivity.
  assert (H6 : blocked (parse "/pfx/d3d12.dll") (fs w) = None) by reflexivity.
  split; [auto 7|].
  exact (try_copy_copies "/proton/d3d12.dll" "/pfx/d3d12.dll" "MZ" 365 3 w
           H1 H2 H3 H4 H5 H6).
Defined.

(** ** Copies onto a directory *)

Lemma find_parent_is_dir (p : path) (n x : node) :
  find p n = Some x -> p <> [] -> exists es, find (removelast p) n = Some (Dir es).
Proof.
  intros H Hne. destruct (exists_last Hne) as (p' & c & ->).
  rewrite removelast_last. apply (find_parent_dir _ c _ x H).
Qed.

(** X15.  [try_copyfile] does not copy into a directory: when the
    destination is a directory, [shutil.copyfile(src, dst)] is still given
    the directory itself, so no file is written; at most the entry of the
    directory that has the source's name has been removed before, and the
    call does not return normally: the error of [os.remove] or of
    [shutil.copyfile] is passed on, no operation of this file system
    failing with [EPERM], the one error that [try_copyfile] forgives. *)
Theorem try_copyfile_onto_directory (src dst : string) (es : list (string * node))
    (w : world) :
  lstat (fs w) dst = Some (Dir es) ->
  let o := try_copyfile src dst w in
  returns o = false
  /\ (fs (final o) = fs w
      \/ fs (final o) = del (parse (dst +:+ "/" +:+ os.path_basename src)) (fs w)).
Proof.
  intros Hd. cbv zeta.
  assert (Hbody :
            forall w1 (es1 : list (string * node)),
              lstat (fs w1) dst = Some (Dir es1) ->
              exists e, shutil.copyfile src dst true w1 = Raise e w1
                        /\ e <> OSError EPERM).
  { intros w1 es1 Hd1. unfold shutil.copyfile.
    rewrite run_bind. unfold shutil.same_file. rewrite run_bind, run_get_fs.
    cbv beta iota. rewrite run_ret. cbv beta iota.
    match goal with |- context [if ?c then _ else _] => destruct c end.
    { rewrite run_raise. eexists. split; [reflexivity|discriminate]. }
    rewrite run_bind, run_islink. cbv beta iota. cbn [negb andb].
    rewrite run_bind.
    destruct (open_read src w1) as [data w2|e w2] eqn:Er.
    - apply open_read_pure in Er. subst w2. rewrite run_bind.
      unfold open_write. rewrite run_bind, run_get_fs. cbv beta iota.
      unfold get_clock at 1. rewrite run_bind. cbv beta iota.
      rewrite (resolve_dir _ _ _ Hd1), run_raise.
      eexists. split; [reflexivity|discriminate].
    - pose proof (open_read_OSError _ _ _ _ Er) as [_ ->].
      eexists. split; [reflexivity|]. exact (no_eperm_open_read src w1 e w1 Er). }
  unfold try_copyfile. rewrite run_try_except, run_bind.
  rewrite run_isdir. unfold stat. rewrite (resolve_dir _ _ _ Hd).
  cbv beta iota. cbv zeta.
  set (dstfile := dst +:+ "/" +:+ os.path_basename src).
  rewrite run_bind, run_bind, run_lexists. cbv beta iota.
  destruct (lstat (fs w) dstfile) as [n|] eqn:El; cbn [when].
  - unfold os.remove. rewrite run_bind, run_get_fs. cbv beta iota. rewrite El.
    destruct n as [d m t|t|es0].
    + set (w1 := final (emit (EDel (parse dstfile)) w)).
      change (emit (EDel (parse dstfile)) w) with (Ret tt w1). cbv beta iota.
      assert (Hd1 : exists es1, lstat (fs w1) dst = Some (Dir es1)).
      { unfold lstat, w1. rewrite fs_emit. cbn [apply_event]. unfold del.
        apply (find_upd_dir _ _ _ _ es); [exact Hd|].
        destruct (parse_child dst (os.path_basename src) (basename_no_slash src))
          as [E|[E|E]]; fold dstfile in E.
        - unfold lstat in El, Hd. rewrite E in El. congruence.
        - exfalso. unfold lstat in El, Hd. rewrite E in El.
          destruct (decide (parse dst = [])) as [Ep|Ep].
          + rewrite Ep in El, Hd. cbn in El, Hd. congruence.
          + destruct (find_parent_is_dir _ _ _ Hd Ep) as (? & H). congruence.
        - rewrite E. apply is_prefix_snoc. }
      destruct Hd1 as (es1 & Hd1).
      destruct (Hbody w1 es1 Hd1) as (e & -> & Hne).
      destruct e as [[]| |]; try congruence; cbn [final returns]; auto.
    + set (w1 := final (emit (EDel (parse dstfile)) w)).
      change (emit (EDel (parse dstfile)) w) with (Ret tt w1). cbv beta iota.
      assert (Hd1 : exists es1, lstat (fs w1) dst = Some (Dir es1)).
      { unfold lstat, w1. rewrite fs_emit. cbn [apply_event]. unfold del.
        apply (find_upd_dir _ _ _ _ es); [exact Hd|].
        destruct (parse_child dst (os.path_basename src) (basename_no_slash src))
          as [E|[E|E]]; fold dstfile in E.
        - unfold lstat in El, Hd. rewrite E in El. congruence.
        - exfalso. unfold lstat in El, Hd. rewrite E in El.
          destruct (decide (parse dst = [])) as [Ep|Ep].
          + rewrite Ep in El, Hd. cbn in El, Hd. congruence.
          + destruct (find_parent_is_dir _ _ _ Hd Ep) as (? & H). congruence.
        - rewrite E. apply is_prefix_snoc. }
      destruct Hd1 as (es1 & Hd1).
      destruct (Hbody w1 es1 Hd1) as (e & -> & Hne).
      destruct e as [[]| |]; try congruence; cbn [final returns]; auto.
    + rewrite run_raise. cbn [final returns]. auto.
  - rewrite run_ret. cbv beta iota.
    destruct (Hbody w es Hd) as (e & -> & Hne).
    destruct e as [[]| |]; try congruence; cbn [final returns]; auto.
Qed.

Lemma try_copyfile_onto_directory_witness :
  let w :=
    Example.world_of
      (Dir [("proton", Dir [("a.dll", Example.plain "MZ")]);
            ("pfx", Dir [("a.dll", Example.plain "old")])]) in
  let o := try_copyfile "/proton/a.dll" "/pfx" w in
  lstat (fs w) "/pfx" = Some (Dir [("a.dll", Example.plain "old")])
  /\ lstat (fs (final o)) "/pfx" = Some (Dir [])
  /\ returns o = false
  /\ (fs (final o) = fs w
      \/ fs (final o) = del (parse ("/pfx" +:+ "/" +:+ os.path_basename "/proton/a.dll"))
                          (fs w)).
Proof.
  intros w o.
  assert (H : lstat (fs w) "/pfx" = Some (Dir [("a.dll", Example.plain "old")]))
    by reflexivity.
  split; [exact H|]. split; [reflexivity|].
  exact (try_copyfile_onto_directory "/proton/a.dll" "/pfx" _ w H).
Defined.

(** ** Directories and time stamps *)

Lemma raises_oserror_ret {A} (a : A) : raises_oserror (ret a).
Proof. intros w e w' H. discriminate. Qed.

Lemma raises_oserror_bind {A B} (m : M A) (k : A -> M B) :
  raises_oserror m -> (forall a, raises_oserror (k a)) -> raises_oserror (bind m k).
Proof.
  intros Hm Hk w e w'. rewrite run_bind.
  destruct (m w) as [a w1|e1 w1] eqn:E.
  - apply Hk.
  - intros [= <- <-]. now apply (Hm w e1 w1).
Qed.

Lemma raises_oserror_try_except {A} (m : M A) (h : exn -> option (M A)) :
  raises_oserror m -> (forall e k, h e = Some k -> raises_oserror k) ->
  raises_oserror (try_except m h).
Proof.
  intros Hm Hh w e w'. rewrite run_try_except.
  destruct (m w) as [a w1|e1 w1] eqn:E; [discriminate|].
  destruct (h e1) as [k|] eqn:Ek.
  - now apply (Hh e1 k).
  - intros [= <- <-]. now apply (Hm w e1 w1).
Qed.

Lemma raises_oserror_mkdir_at (p : path) : raises_oserror (os.mkdir_at p).
Proof.
  intros w e w'. unfold os.mkdir_at. rewrite run_bind, run_get_fs. cbv beta iota.
  destruct (find p (fs w)); [intros [= <- <-]; reflexivity|].
  destruct (blocked p (fs w)) eqn:Eb.
  - intros [= <- <-]. apply is_OSError_path_error.
  - discriminate.
Qed.

Lemma raises_oserror_make_parents (rest pre : path) :
  raises_oserror (os.make_parents pre rest).
Proof.
  revert pre. induction rest as [|c r IH]; intros pre; cbn [os.make_parents].
  - apply raises_oserror_ret.
  - destruct r as [|c' r']; [apply raises_oserror_ret|].
    assert (Ht : raises_oserror
                   (try_except (os.mkdir_at (pre ++ [c]))
                      (fun e => match e with
                                | OSError EEXIST => Some (ret tt)
                                | _ => None
                                end))).
    { apply raises_oserror_try_except; [apply raises_oserror_mkdir_at|].
      intros e1 k Hk. destruct e1 as [[]| |]; try discriminate.
      injection Hk as <-. apply raises_oserror_ret. }
    intros w e w'. rewrite run_bind, run_get_fs. cbv beta iota.
    apply raises_oserror_bind; [|intros []; apply IH].
    destruct (follow MAXSYMLINKS (fs w) (pre ++ [c])) as [[p [n|]]|];
      solve [apply raises_oserror_ret | apply Ht].
Qed.

Lemma raises_oserror_makedirs (s : string) (exist_ok : bool) :
  raises_oserror (os.makedirs s exist_ok).
Proof.
  unfold os.makedirs. apply raises_oserror_bind; [apply raises_oserror_make_parents|].
  intros []. apply raises_oserror_try_except; [apply raises_oserror_mkdir_at|].
  intros e k Hk. destruct e as [err| |]; try discriminate. injection Hk as <-.
  intros w e w'. rewrite run_bind, run_isdir. cbv beta iota.
  destruct (exist_ok && _); [discriminate|]. now intros [= <- <-].
Qed.



(** ** The font links *)

Lemma create_fonts_symlinks_steps (g_session : session) (self : CompatData.t) :
  CompatData.create_fonts_symlinks g_session self
  = (makedirs (CompatData.prefix_dir self +:+ "/drive_c/windows/Fonts") ;;;
     for_each (CompatData.fontsmap g_session)
       (font_step (CompatData.prefix_dir self +:+ "/drive_c/windows/Fonts"))).
Proof. reflexivity. Qed.

Lemma remove_keeps_absent (s : string) (pf : path) :
  parse s <> pf -> preserves (absent pf) (os.remove s).
Proof.
  intros Hne w H. unfold os.remove. rewrite run_bind, run_get_fs. cbv beta iota.
  destruct (lstat (fs w) s) as [[| |es]|]; try exact H;
    cbn; unfold absent, del; apply find_upd_none; auto; intros o; exact Logic.I.
Qed.

Lemma symlink_absent (t s : string) (pf : path) :
  parse s <> pf -> preserves (absent pf) (os.symlink t s).
Proof.
  intros Hne w H. unfold os.symlink. rewrite run_bind, run_get_fs. cbv beta iota.
  destruct (lstat (fs w) s); [exact H|].
  destruct (blocked (parse s) (fs w)); [exact H|].
  cbn. unfold absent, put. apply find_upd_none; auto. intros o. exact Logic.I.
Qed.

Lemma font_step_keeps (wf : string) (p : string * string * string)
    (q : path) (P : node -> Prop) :
  leaf_pred P -> parse (path_join wf p.2) <> q ->
  preserves (at_path q P) (font_step wf p).
Proof.
  intros HP Hne. unfold font_step. cbv zeta.
  apply preserves_bind; [apply preserves_query, reads_only_lexists|intros lex].
  destruct lex; [|now apply symlink_keeps].
  apply preserves_bind; [apply preserves_query, reads_only_islink|intros lnk].
  apply preserves_when.
  apply preserves_bind; [now apply remove_keeps|intros _]. now apply symlink_keeps.
Qed.

Lemma font_step_absent (wf : string) (p : string * string * string) (q : path) :
  parse (path_join wf p.2) <> q -> preserves (absent q) (font_step wf p).
Proof.
  intros Hne. unfold font_step. cbv zeta.
  apply preserves_bind;
    [apply preserves_reads_only; [apply disk_pred_absent|apply reads_only_lexists]
    |intros lex].
  destruct lex; [|now apply symlink_absent].
  apply preserves_bind;
    [apply preserves_reads_only; [apply disk_pred_absent|apply reads_only_islink]
    |intros lnk].
  apply preserves_when.
  apply preserves_bind; [now apply remove_keeps_absent|intros _].
  now apply symlink_absent.
Qed.

Lemma font_step_free (wf : string) (p : string * string * string) (q : path) :
  parse (path_join wf p.2) <> q -> preserves (free_name q) (font_step wf p).
Proof.
  intros Hne w [H|(t & H)].
  - left. now apply (font_step_absent wf p q Hne w).
  - right. exists t.
    destruct (font_step_keeps wf p q (eq (Link t)) (leaf_pred_eq (Link t) eq_refl) Hne w)
      as (y & Hy & <-); [now exists (Link t)|exact Hy].
Qed.

(** A round that returns leaves its link at a name that was free. *)
Lemma font_step_links (wf : string) (p : string * string * string) (w w' : world) :
  parse (path_join wf p.2) <> [] ->
  free_name (parse (path_join wf p.2)) w ->
  font_step wf p w = Ret tt w' ->
  find (parse (path_join wf p.2)) (fs w') = Some (Link (path_join p.1.1 p.1.2)).
Proof.
  intros Hne Hf. unfold font_step. cbv zeta.
  rewrite run_bind, run_lexists. cbv beta iota. unfold free_name in Hf.
  fold (lstat (fs w) (path_join wf p.2)) in Hf.
  destruct Hf as [Hf|(t & Hf)].
  - rewrite Hf. apply symlink_made.
  - rewrite Hf. rewrite run_bind, run_islink, Hf. cbv beta iota. cbn [when].
    rewrite run_bind. rewrite (run_remove_leaf _ _ _ Hf eq_refl).
    destruct (emit (EDel (parse (path_join wf p.2))) w) as [[] w1|] eqn:E; [|discriminate].
    apply symlink_made.
Qed.

Lemma font_names_apart (wf a b : string) :
  valid_name a = true -> valid_name b = true -> a <> b ->
  parse (path_join wf a) <> parse (path_join wf b).
Proof.
  intros Ha Hb Hne. rewrite !parse_path_join by assumption.
  intros E. apply app_inj_tail in E as (_ & E). congruence.
Qed.

Lemma font_steps_link (wf : string) (l : list (string * string * string)) :
  forall (p : string * string * string) (w w' : world),
    NoDup (snd <$> l) ->
    Forall (fun x => valid_name x.2 = true) l ->
    p ∈ l ->
    free_name (parse (path_join wf p.2)) w ->
    for_each l (font_step wf) w = Ret tt w' ->
    find (parse (path_join wf p.2)) (fs w') = Some (Link (path_join p.1.1 p.1.2)).
Proof.
  induction l as [|x l IH]; intros p w w' Hnd Hv Hp Hf; [now apply elem_of_nil in Hp|].
  rewrite fmap_cons in Hnd. apply NoDup_cons in Hnd as (Hx & Hnd).
  apply Forall_cons in Hv as (Hvx & Hv).
  assert (Hother : forall y, y ∈ l -> valid_name y.2 = true /\ y.2 <> x.2).
  { intros y Hy. split; [exact (proj1 (Forall_forall _ _) Hv y Hy)|].
    intros E. apply Hx. rewrite <- E. apply list_elem_of_fmap. now exists y. }
  cbn [for_each]. rewrite run_bind.
  destruct (font_step wf x w) as [[] w1|] eqn:E1; [|discriminate]. intros Hrest.
  apply elem_of_cons in Hp as [->|Hp].
  - assert (Hne : parse (path_join wf x.2) <> []).
    { rewrite parse_path_join by exact Hvx. now destruct (parse wf). }
    pose proof (font_step_links wf x w w1 Hne Hf E1) as H1.
    assert (Hk : preserves (at_path (parse (path_join wf x.2))
                              (eq (Link (path_join x.1.1 x.1.2))))
                   (for_each l (font_step wf))).
    { apply preserves_for_each. intros y Hy. destruct (Hother y Hy) as (Hvy & Hd).
      apply font_step_keeps; [apply leaf_pred_eq; reflexivity|].
      now apply font_names_apart. }
    specialize (Hk w1 ltac:(eexists; split; [exact H1|reflexivity])). rewrite Hrest in Hk.
    destruct Hk as (y & Hy & <-). exact Hy.
  - destruct (Hother p Hp) as (Hvp & Hd).
    apply (IH p w1 w'); auto.
    assert (Hn : parse (path_join wf x.2) <> parse (path_join wf p.2))
      by (apply font_names_apart; auto).
    pose proof (font_step_free wf x _ Hn w Hf) as H1. now rewrite E1 in H1.
Qed.

Lemma fontsmap_names_differ (g_session : session) :
  NoDup (snd <$> CompatData.fontsmap g_session).
Proof.
  unfold CompatData.fontsmap. cbv zeta. cbn [fmap list_fmap snd].
  refine (@bool_decide_unpack _ (NoDup_dec _) _). vm_compute. exact Logic.I.
Qed.

(** X18.  [create_fonts_symlinks] never changes or removes a regular file:
    where a font name is taken by a file, the file stays. *)
Theorem create_fonts_symlinks_spares_files (g_session : session) (self : CompatData.t)
    (q : path) (d : string) (m t : Z) (w : world) :
  find q (fs w) = Some (File d m t) ->
  find q (fs (final (CompatData.create_fonts_symlinks g_session self w)))
  = Some (File d m t).
Proof.
  intros Hq. rewrite create_fonts_symlinks_steps.
  set (wf := CompatData.prefix_dir self +:+ "/drive_c/windows/Fonts").
  assert (HP : leaf_pred (eq (File d m t))) by now apply leaf_pred_eq.
  assert (Hk : preserves (at_path q (eq (File d m t)))
                 (makedirs wf ;;; for_each (CompatData.fontsmap g_session) (font_step wf))).
  { apply preserves_bind; [now apply makedirs_keeps|intros _].
    apply preserves_for_each. intros p _.
    destruct (decide (parse (path_join wf p.2) = q)) as [E|E];
      [|now apply font_step_keeps].
    intros w1 (y & Hy & <-). unfold font_step. cbv zeta.
    rewrite run_bind, run_lexists. unfold lstat. rewrite E, Hy. cbv beta iota.
    rewrite run_bind, run_islink. unfold lstat. rewrite E, Hy. cbv beta iota.
    cbn. exists (File d m t). split; [exact Hy|reflexivity]. }
  destruct (Hk w) as (y & Hy & <-); [exists (File d m t); split; [exact Hq|reflexivity]|].
  exact Hy.
Qed.

Lemma create_fonts_symlinks_spares_files_witness :
  let w :=
    Example.world_of
      (Dir [("compat", Dir [("pfx", Dir [("drive_c", Dir [("windows", Dir [("Fonts", Dir
         [("arial.ttf", Example.plain "a font of the user")])])])])])]) in
  let q := ["compat"; "pfx"; "drive_c"; "windows"; "Fonts"; "arial.ttf"] in
  find q (fs w) = Some (Example.plain "a font of the user")
  /\ find q (fs (final (CompatData.create_fonts_symlinks Example.g_session Example.self w)))
     = Some (Example.plain "a font of the user").
Proof.
  intros w q.
  assert (H : find q (fs w) = Some (Example.plain "a font of the user")) by reflexivity.
  split; [exact H|].
  exact (create_fonts_symlinks_spares_files Example.g_session Example.self q _ _ _ w H).
Defined.

(** X19.  When [create_fonts_symlinks] returns, every font of its table
    whose name in [drive_c/windows/Fonts] was free, that is absent or a
    link, is a link to the font file of the installation, whatever the old
    link led to. *)
Theorem create_fonts_symlinks_links (g_session : session) (self : CompatData.t)
    (p : string * string * string) (w w' : world) :
  let lname := path_join (CompatData.prefix_dir self +:+ "/drive_c/windows/Fonts") p.2 in
  p ∈ CompatData.fontsmap g_session ->
  (lstat (fs w) lname = None \/ exists t, lstat (fs w) lname = Some (Link t)) ->
  CompatData.create_fonts_symlinks g_session self w = Ret tt w' ->
  lstat (fs w') lname = Some (Link (path_join p.1.1 p.1.2)).
Proof.
  cbv zeta. intros Hp Hf. rewrite create_fonts_symlinks_steps.
  set (wf := CompatData.prefix_dir self +:+ "/drive_c/windows/Fonts") in *.
  pose proof (proj1 (Forall_forall _ _) (fontsmap_valid g_session) p Hp) as Hv.
  rewrite run_bind. destruct (makedirs wf w) as [[] w1|] eqn:E1; [|discriminate].
  intros Hrun. unfold lstat.
  apply (font_steps_link wf (CompatData.fontsmap g_session) p w1 w');
    auto using fontsmap_names_differ, fontsmap_valid.
  assert (Hm : preserves (free_name (parse (path_join wf p.2))) (makedirs wf)).
  { intros w0 [H|(t & H)].
    - left. apply (makedirs_absent _ wf); [|exact H].
      rewrite parse_path_join by exact Hv. apply is_prefix_snoc.
    - right. exists t.
      destruct (makedirs_keeps (parse (path_join wf p.2)) (eq (Link t))
                  (leaf_pred_eq (Link t) eq_refl) wf w0)
        as (y & Hy & <-); [now exists (Link t)|exact Hy]. }
  specialize (Hm w Hf). now rewrite E1 in Hm.
Qed.

Lemma create_fonts_symlinks_links_witness :
  let w :=
    Example.world_of
      (Dir [("compat", Dir [("pfx", Dir [("drive_c", Dir [("windows", Dir [("Fonts", Dir
         [("arial.ttf", Link "/old/share/fonts/LiberationSans-Regular.ttf")])])])])])]) in
  let p := ("/proton/files/share/fonts/", "LiberationSans-Regular.ttf", "arial.ttf") in
  let lname := "/compat/pfx/drive_c/windows/Fonts/arial.ttf" in
  let w' := final (CompatData.create_fonts_symlinks Example.g_session Example.self w) in
  (p ∈ CompatData.fontsmap Example.g_session
   /\ lstat (fs w) lname = Some (Link "/old/share/fonts/LiberationSans-Regular.ttf")
   /\ CompatData.create_fonts_symlinks Example.g_session Example.self w = Ret tt w')
  /\ lstat (fs w') lname
     = Some (Link "/proton/files/share/fonts/LiberationSans-Regular.ttf").
Proof.
  intros w p lname w'.
  assert (H1 : p ∈ CompatData.fontsmap Example.g_session) by (vm_compute; left).
  assert (H2 : lstat (fs w) lname = Some (Link "/old/share/fonts/LiberationSans-Regular.ttf"))
    by reflexivity.
  assert (H3 : CompatData.create_fonts_symlinks Example.g_session Example.self w = Ret tt w')
    by (vm_compute; reflexivity).
  split; [auto|].
  exact (create_fonts_symlinks_links Example.g_session Example.self p w w' H1
           (or_intror (ex_intro _ _ H2)) H3).
Defined.

(** ** The first copy of the template *)

Lemma root_link_childless (q : path) (l : string) (n : node) :
  find q (Link l) = Some n -> n = Link l.
Proof. destruct q; cbn; congruence. Qed.

(** A copy to a name that leads nowhere, be it absent or a dangling link,
    leaves the regular files alone. *)
Lemma pfx_copy_unseen_keeps (src dst : string) (dll_copy : bool) (q : path)
    (d : string) (m t : Z) (w : world) :
  at_path q (eq (File d m t)) w -> stat (fs w) dst = None ->
  at_path q (eq (File d m t)) (final (CompatData.pfx_copy src dst dll_copy w)).
Proof.
  intros H Hs.
  assert (HP : leaf_pred (eq (File d m t))) by now apply leaf_pred_eq.
  destruct (lstat (fs w) dst) as [[d' m' t'|l|es]|] eqn:El.
  - unfold stat in Hs. now rewrite (resolve_file _ _ _ _ _ El) in Hs.
  - assert (Hne : parse dst <> q).
    { intros E. destruct H as (y & Hy & <-). unfold lstat in El. congruence. }
    assert (Hnil : parse dst <> []).
    { intros E. unfold lstat in El. rewrite E in El. cbn in El.
      injection El as El. destruct H as (y & Hy & <-). rewrite El in Hy.
      apply root_link_childless in Hy. discriminate. }
    assert (Hcopy : at_path q (eq (File d m t)) (final (try_copyfile src dst w))).
    { unfold try_copyfile. rewrite run_try_except, run_bind, run_isdir, Hs.
      cbv beta iota. rewrite run_bind, run_bind, run_lexists, El. cbv beta iota.
      cbn [when].
      pose proof (remove_keeps q _ HP dst Hne w H) as H1.
      destruct (os.remove dst w) as [[] w1|e w1] eqn:Er.
      - cbn in H1. apply remove_absent in Er; [|exact Hnil].
        pose proof (copyfile_new_keeps q _ HP src dst w1 H1 Er) as H2.
        destruct (shutil.copyfile src dst true w1) as [[] w2|e w2]; [exact H2|].
        cbn in H2. destruct e as [[]| |]; exact H2.
      - cbn in H1. destruct e as [[]| |]; exact H1. }
    unfold CompatData.pfx_copy. rewrite run_bind, run_islink. cbv beta iota.
    destruct (lstat (fs w) src) as [[|ts|]|] eqn:Es; try exact Hcopy.
    rewrite run_bind, (run_readlink _ ts) by exact Es. cbv beta iota.
    destruct dll_copy; [exact Hcopy|]. now apply symlink_keeps.
  - unfold stat in Hs. now rewrite (resolve_dir _ _ _ El) in Hs.
  - now apply pfx_copy_new_keeps.
Qed.

(** X20.  [copy_pfx] fills in what is missing only: a regular file that is
    there, other than the manifest it writes, is neither overwritten nor
    removed, whatever the template holds under the same name. *)
Theorem copy_pfx_spares_files (g_session : session) (self : CompatData.t)
    (q : path) (d : string) (m t : Z) (w : world) :
  find q (fs w) = Some (File d m t) ->
  (forall o, resolve (fs w) (CompatData.tracked_files_file self) <> Some (q, o)) ->
  find q (fs (final (CompatData.copy_pfx g_session self w))) = Some (File d m t).
Proof.
  intros Hq Hm.
  assert (HP : leaf_pred (eq (File d m t))) by now apply leaf_pred_eq.
  assert (H : at_path q (eq (File d m t)) w) by (exists (File d m t); auto).
  enough (at_path q (eq (File d m t)) (final (CompatData.copy_pfx g_session self w)))
    as (y & Hy & <-) by exact Hy.
  unfold CompatData.copy_pfx. cbv zeta.
  apply with_open_keeps; auto.
  intros w1 H1. rewrite run_bind. unfold walk at 1.
  rewrite run_bind, run_get_fs. cbv beta iota. rewrite run_ret. cbv beta iota.
  apply preserves_for_each; [|exact H1].
  intros [[src_dir dirs] files] Hin.
  apply preserves_bind.
  { apply preserves_reads_only; [apply disk_pred_at_path|apply reads_only_lexists]. }
  intros lex. apply preserves_bind.
  { apply preserves_when. apply preserves_bind; [now apply os_makedirs_keeps|].
    intros _. apply stream_write_at_path. }
  intros _. apply preserves_bind.
  - apply preserves_for_each. intros dir_ _ w2 H2.
    rewrite run_bind, run_islink. cbv beta iota.
    rewrite run_bind, run_exists. cbv beta iota. rewrite run_when.
    destruct (_ && _) eqn:E; [|exact H2].
    apply andb_true_iff in E as (_ & E).
    apply pfx_copy_unseen_keeps; [exact H2|].
    destruct (stat (fs w2) _); [discriminate|reflexivity].
  - intros _. apply preserves_for_each. intros file_ _ w2 H2.
    rewrite run_bind, run_exists. cbv beta iota. rewrite run_when.
    destruct (stat (fs w2) _) eqn:E; cbn [negb]; [exact H2|].
    rewrite run_bind.
    pose proof (pfx_copy_unseen_keeps (path_join src_dir file_) _ false q d m t w2 H2 E)
      as H3.
    destruct (CompatData.pfx_copy _ _ false w2) as [[] w3|e w3]; [|exact H3].
    cbn in H3. now apply stream_write_at_path.
Qed.

Lemma copy_pfx_spares_files_witness :
  let w :=
    Example.world_of
      (Example.root (Example.template true)
         [("pfx", Dir [("system.reg", Example.plain "the registry of the user")])]) in
  let q := ["compat"; "pfx"; "system.reg"] in
  let w' := final (CompatData.copy_pfx Example.g_session Example.self w) in
  (find q (fs w) = Some (Example.plain "the registry of the user")
   /\ forall o, resolve (fs w) (CompatData.tracked_files_file Example.self) <> Some (q, o))
  /\ find q (fs w') = Some (Example.plain "the registry of the user")
  /\ find ["compat"; "pfx"; "user.reg"] (fs w') = Some (File "user" 420 100).
Proof.
  intros w q w'.
  assert (H1 : find q (fs w) = Some (Example.plain "the registry of the user"))
    by reflexivity.
  assert (H2 : forall o,
             resolve (fs w) (CompatData.tracked_files_file Example.self) <> Some (q, o))
    by (intros o; vm_compute; discriminate).
  split; [auto|]. split; [|vm_compute; reflexivity].
  exact (copy_pfx_spares_files Example.g_session Example.self q _ _ _ w H1 H2).
Defined.

(** ** What a merge never does *)

Lemma leaf_pred_file_of (d : string) : leaf_pred (file_of d).
Proof. intros y (m & t & ->). reflexivity. Qed.

Lemma meta_pred_file_of (d : string) : meta_pred (file_of d).
Proof. intros d' m t m' t' (m0 & t0 & [= -> _ _]). now exists m', t'. Qed.

(** A name that leads nowhere is not the name of a regular file, nor the
    directory of one. *)
Lemma unseen_not_file (dst name : string) (q : path) (d : string) (w : world) :
  valid_name name = true ->
  at_path q (file_of d) w -> stat (fs w) dst = None ->
  parse dst <> q /\ parse (dst +:+ "/" +:+ name) <> q.
Proof.
  intros Hv (y & Hy & m & t & ->) Hs.
  pose proof (valid_name_spec name Hv) as (_ & _ & _ & H4). split.
  - intros E. unfold stat in Hs.
    rewrite (resolve_file _ _ d m t) in Hs; [discriminate|].
    unfold lstat. now rewrite E.
  - rewrite <- parse_path_join_slash, parse_path_join by auto. intros E.
    rewrite <- E in Hy. apply find_parent_dir in Hy as (es & Hes).
    unfold stat in Hs. rewrite (resolve_dir _ _ es) in Hs; [discriminate|exact Hes].
Qed.

(** X21.  [merge_user_dir] never overwrites and never removes a regular
    file, at the source, at the destination or elsewhere: every file that
    is there before the merge is there afterwards with the same bytes,
    whether the merge returns or raises. *)
Theorem merge_user_dir_spares_files (src dst : string) (q : path) (d : string)
    (m t : Z) (w : world) :
  find q (fs w) = Some (File d m t) ->
  exists m' t', find q (fs (final (merge_user_dir src dst w))) = Some (File d m' t').
Proof.
  intros Hq.
  enough (at_path q (file_of d) (final (merge_user_dir src dst w)))
    as (y & Hy & m' & t' & ->) by (now exists m', t').
  assert (H : at_path q (file_of d) w) by (exists (File d m t); split; [auto|now exists m, t]).
  pose proof (leaf_pred_file_of d) as HP. pose proof (meta_pred_file_of d) as HM.
  unfold merge_user_dir, walk.
  rewrite run_bind, run_bind, run_get_fs. cbv beta iota. rewrite run_ret.
  cbv beta iota.
  apply preserves_bind; [|intros; apply preserves_ret|exact H].
  apply preserves_fold_each. intros extant_dirs [[src_dir dirs] files] Hin.
  destruct (os_walk_valid _ _ _ Hin) as [Hdirs Hfiles]. cbn [fst snd] in Hdirs, Hfiles.
  cbv zeta.
  assert (Hcopy : forall dst_dir name w1,
            valid_name name = true -> at_path q (file_of d) w1 ->
            stat (fs w1) (path_join dst_dir name) = None ->
            at_path q (file_of d)
              (final (try_copy (path_join src_dir name) (path_join dst_dir name)
                        true true false false w1))).
  { intros dst_dir name w1 Hn H1 Hs.
    destruct (unseen_not_file _ name q d w1 Hn H1 Hs) as (Ha & Hb).
    apply try_copy_keeps; auto. now rewrite basename_path_join. }
  destruct (existsb _ extant_dirs); [apply preserves_ret|].
  apply preserves_bind;
    [apply preserves_reads_only; [apply disk_pred_at_path|apply reads_only_exists]
    |intros ex].
  apply preserves_bind.
  { destruct (negb ex); [apply preserves_ret|].
    apply preserves_reads_only; [apply disk_pred_at_path|apply reads_only_samefile]. }
  intros [|]; [|apply preserves_ret].
  apply preserves_bind; [now apply makedirs_keeps|intros _].
  apply preserves_bind.
  { apply preserves_for_each. intros dir_ Hd w1 H1.
    rewrite run_bind, run_islink. cbv beta iota.
    rewrite run_bind, run_exists. cbv beta iota. rewrite run_when.
    destruct (_ && _) eqn:E; [|exact H1].
    apply andb_true_iff in E as (_ & E).
    apply Hcopy; auto. destruct (stat (fs w1) _); [discriminate|reflexivity]. }
  intros _. apply preserves_bind; [|intros; apply preserves_ret].
  apply preserves_for_each. intros file_ Hf w1 H1.
  rewrite run_bind, run_exists. cbv beta iota. rewrite run_when.
  destruct (stat (fs w1) _) eqn:E; cbn [negb]; [exact H1|].
  apply Hcopy; auto.
Qed.

Lemma merge_user_dir_spares_files_witness :
  let w :=
    Example.world_of
      (Example_merge.profile
         [("A", Dir [("old.txt", Example.plain "the legacy one")]);
          ("new.txt", Example.plain "n")]) in
  let q := ["compat"; "pfx"; "drive_c"; "users"; "steamuser"; "Documents"; "A"; "old.txt"] in
  find q (fs w) = Some (Example.plain "o")
  /\ exists m' t',
       find q (fs (final (merge_user_dir Example_merge.old Example_merge.new w)))
       = Some (File "o" m' t').
Proof.
  intros w q.
  assert (H : find q (fs w) = Some (Example.plain "o")) by reflexivity.
  split; [exact H|].
  exact (merge_user_dir_spares_files Example_merge.old Example_merge.new q _ _ _ w H).
Defined.

(** ** What the removal of the tracked files leaves *)

(** X22.  [remove_tracked_files] removes nothing but what the manifest
    names: a file or a link is still there afterwards, unchanged, unless a
    line of the manifest names it or it is the manifest or the version
    file; this holds whether the call returns or raises. *)
Theorem remove_tracked_files_keeps_unlisted (self : CompatData.t) (q : path) (y : node)
    (w : world) :
  is_leaf y = true ->
  find q (fs w) = Some y ->
  (forall data f,
     open_read (CompatData.tracked_files_file self) w = Ret data w ->
     f ∈ Py.lines data ->
     parse (CompatData.prefix_dir self +:+ Py.strip f) <> q) ->
  parse (CompatData.tracked_files_file self) <> q ->
  parse (CompatData.version_file self) <> q ->
  find q (fs (final (CompatData.remove_tracked_files self w))) = Some y.
Proof.
  intros Hl Hq Hlines Hm Hv.
  assert (HP : leaf_pred (eq y)) by now apply leaf_pred_eq.
  assert (H : at_path q (eq y) w) by now exists y.
  enough (at_path q (eq y) (final (CompatData.remove_tracked_files self w)))
    as (y' & Hy & <-) by exact Hy.
  unfold CompatData.remove_tracked_files. rewrite run_bind, run_exists. cbv beta iota.
  destruct (stat (fs w) (CompatData.tracked_files_file self)); cbn [negb]; [|exact H].
  rewrite run_bind.
  destruct (open_read (CompatData.tracked_files_file self) w) as [data w1|e w1] eqn:Er.
  2:{ destruct (open_read_OSError _ _ _ _ Er) as [_ ->]. exact H. }
  pose proof (open_read_pure _ _ _ _ Er) as ->. cbv beta iota.
  apply preserves_bind; [|intros dirs|exact H].
  - apply preserves_fold_each. intros dirs f Hf. cbv zeta.
    apply preserves_bind; [apply preserves_query, reads_only_exists|intros ex].
    destruct ex; [|apply preserves_ret].
    apply preserves_bind; [apply preserves_query, reads_only_isfile|intros isf].
    apply preserves_bind; [apply preserves_query, reads_only_islink|intros isl].
    destruct (isf || isl); [|apply preserves_ret].
    apply preserves_bind; [|intros; apply preserves_ret].
    apply remove_keeps; auto. now apply (Hlines data f).
  - apply preserves_bind.
    + apply preserves_for_each. intros dir_ _.
      apply preserves_try_except; [now apply rmdir_keeps|].
      intros e k. destruct (is_OSError e); intros [= <-]. apply preserves_ret.
    + intros _. apply preserves_bind; [now apply remove_keeps|intros _].
      now apply remove_keeps.
Qed.

Lemma remove_tracked_files_keeps_unlisted_witness :
  let w := Example_removal.w in
  let q := ["compat"; "pfx"; "save.dat"] in
  let w' := final (CompatData.remove_tracked_files Example.self w) in
  (is_leaf (Example.plain "s") = true
   /\ find q (fs w) = Some (Example.plain "s")
   /\ parse (CompatData.tracked_files_file Example.self) <> q
   /\ parse (CompatData.version_file Example.self) <> q)
  /\ find q (fs w') = Some (Example.plain "s")
  /\ find ["compat"; "pfx"; "f.txt"] (fs w') = None.
Proof.
  intros w q w'.
  assert (H1 : is_leaf (Example.plain "s") = true) by reflexivity.
  assert (H2 : find q (fs w) = Some (Example.plain "s")) by reflexivity.
  assert (H3 : forall data f,
             open_read (CompatData.tracked_files_file Example.self) w = Ret data w ->
             f ∈ Py.lines data ->
             parse (CompatData.prefix_dir Example.self +:+ Py.strip f) <> q).
  { intros data f Hd Hf. vm_compute in Hd. injection Hd as <-.
    vm_compute in Hf.
    repeat (apply elem_of_cons in Hf as [->|Hf]; [vm_compute; discriminate|]).
    now apply elem_of_nil in Hf. }
  assert (H4 : parse (CompatData.tracked_files_file Example.self) <> q)
    by (vm_compute; discriminate).
  assert (H5 : parse (CompatData.version_file Example.self) <> q)
    by (vm_compute; discriminate).
  split; [auto|]. split; [|vm_compute; reflexivity].
  exact (remove_tracked_files_keeps_unlisted Example.self q _ w H1 H2 H3 H4 H5).
Defined.
